(* ===== verification/_CoqProject ===== *)
-Q . S2P
Prelude.v
Bitmap.v
QueueR.v
Mempool.v
Dynmem.v
Mem.v
KString.v
CTime.v
SegTree.v
SigSet.v
Priv.v
Klocks.v
Kobj.v
Regions.v
Kmalloc.v
Sched.v
DirHash.v
Rcu.v
RcuSlist.v
Vralloc.v
Mmu.v
Ptmapper.v
Vm.v
VmSpace.v
Uio.v
Ramfs.v
Fildes.v
FildesSpec.v
KRandom.v
Timers.v
Proc.v
ProcSpec.v
