(* ===== verification/Prelude.v ===== *)
(** * Zeke: a verification development of the kernel's core components

    Zeke is a POSIX-like operating system for 32-bit ARM written in C.  This
    library models components of its kernel (src/kern) as executable definitions
    and proves what the kernel relies on.  Paths below are relative to src/kern.

    ** The program and the files

    Memory comes in layers.  dynmem.c hands out regions of 1 MB sections and
    keeps track of them in a descriptor table and in a bit map (libkern/bitmap.c);
    kmalloc.c builds the kernel heap out of such regions and vralloc.c the page
    buffers of processes; mempool.c carves one heap block into equal blocks whose
    free ones wait in a queue (libkern/queue_r.c).  ptmapper.c hands out page
    tables from an area of their own, hal/mmu.c and the code for the ARM11 fill
    them, and vm.c with vm_vpt.c puts page tables and buffers together to the
    address space of a process, through which system calls copy their arguments.
    Readers of shared lists are protected by rcu.c.  The scheduler (sched/) moves threads from a ready queue
    to scheduling classes and selects the next one at each tick.  Locks
    (klocks_*.c), reference counts (kobj.c), credentials (priv.c), signal sets
    (ksignal_setops.c) and a small C library (libkern/) are used everywhere.

    - [Prelude]: 32-bit integers, arrays, byte ranges, error numbers, tactics and
      the lemmas the other files share.
    - [Bitmap]: libkern/bitmap.c.  Words are [Z]; [bit] is the abstract view.
      Search, update, allocation and aligned allocation of blocks.
    - [QueueR]: libkern/queue_r.c.  The control block and its byte array, with a
      refinement to a bounded FIFO list; also the interface [FifoQueue].
    - [Mempool]: mempool.c, over [FifoQueue].
    - [Dynmem]: dynmem.c, over [Bitmap].  Refines a finite map of regions.
    - [Mem]: libkern/kstring/mem*.c, libkern/memalign.c, libkern/ptoint.c on one
      byte array, so that operands may overlap.
    - [KString]: libkern/kstring/str*.c, kstr*.c, atoi.c, uitoa.c and parts of
      ksprintf.c, on the memory of [Mem].
    - [CTime]: libkern/ctime.c, calendar time and time arithmetic.
    - [SegTree]: libkern/segtree/segtree.c, over a documented comparison.
    - [SigSet]: ksignal_setops.c, refining finite sets of signal numbers.
    - [Priv]: priv.c, over [Bitmap]: capabilities, credentials and their calls.
    - [Klocks]: klocks_mtx.c, klocks_rwlock.c, klocks_sema.c, klocks_isema.c as
      transition systems of threads.
    - [Kobj]: kobj.c, reference counts under concurrency.
    - [Kmalloc]: kmalloc.c, over [RegionAllocator].
    - [Sched]: sched/sched.c, sched_rr.c, idle.c, thread_flags.c, over the
      interface [scheduler] of ksched.h with its laws [SchedulerOk].
    - [Regions]: the interface [RegionAllocator] to dynmem.c, which [Kmalloc] and
      [Vralloc] use and [Dynmem] implements.
    - [Rcu]: rcu.c.  Threads that lock, unlock, publish callbacks and synchronize,
      one step for each atomic access; [RcuSlist]: rcu_slist.c.
    - [Vralloc]: vralloc.c, over [Bitmap], [Kobj] and [RegionAllocator]: page
      buffers with reference counts, their clones and their bytes.
    - [Mmu]: hal/mmu.c, hal/arm11/arm11_mmu.c: page table words in memory, and
      [walk], what the processor does with them.
    - [Ptmapper]: ptmapper.c, over [Bitmap] and [Mmu].
    - [Vm]: vm.c, vm_vpt.c, over [Vralloc] and [Ptmapper]: regions, page tables,
      access checks and user copies of one process.
    - [VmSpace]: the invariant [space_inv] of an address space and the theorems
      about it.
    - [DirHash]: fs/libfs/dehtable.c, directory entries in hash chains, refining a
      finite map from names to inode numbers for any hash function.

    ** Conventions

    A C function is a Rocq function of the same name with its state passed
    explicitly.  [option] is the type of computations that may be undefined: an
    access outside of an array, a null pointer access, a failed assertion, a
    panic or an exhausted fuel is [None].  Every theorem that describes a result
    also states that there is one.  Integers are [Z] and wrap around where the C
    type does.  Code that runs under one lock is one step; code that is called
    concurrently is a step relation on shared state and program counters, and
    theorems about it are invariants of all reachable states.

    ** What the theorems show

    - Allocators: blocks, regions, heap blocks, page buffers and page tables that
      are live at the same time never overlap ([Bitmap], [Dynmem], [Mempool],
      [Kmalloc], [Vralloc], [Ptmapper]), for the configurations and sizes the
      statements name; operations that release memory keep the rest.
    - Virtual memory: the entries that the mapping functions write make [walk]
      translate exactly the addresses of the region, with its permissions
      ([Mmu]); mapping a buffer into a process keeps its address space
      consistent, copies to and from a process move the bytes that the process
      sees, and accesses that its regions do not allow fail ([Vm], [VmSpace]).
    - Data structures: the queue refines a FIFO list, signal sets refine finite
      sets, directory tables refine finite maps, the segment tree answers range
      queries, reference counts free once.
    - Concurrency: mutual exclusion of mutexes and readers-writer locks in every
      interleaving; a callback of RCU never runs while a reader that could see the
      old value is in its section, and a synchronization without readers ends.
    - Privileges: without the right to set the bounding set, no sequence of
      credential calls gains a capability outside of it, and a fork inherits at
      most its parent's.
    - Scheduling: the handler always selects a thread that may run, and round
      robin selects the first runnable one of its queue.
    - Library: memcpy, memmove and memset equal their abstract specification for
      every alignment; string functions terminate their results and keep to their
      buffers; numbers and dates survive the round trip through their text and
      broken-down form.

    Some theorems show where the code departs from what it means to do: an update
    of a bit map that stops after its first word, a page request that runs past
    the descriptor table of the default configuration, a ticket mutex that a
    failed trylock leaves locked for ever, a heap that gives back a region with
    live blocks, an inverted limit of nice values, a round robin queue without
    turns, long file names that are linked and not found, page tables and page
    buffers handed out twice, user copies that run past their region, a string
    copy whose address moves faster than the string.

    ** Fuel and bounds

    Loops that are not structural carry fuel.  String loops have the size of the
    memory, searches in a heap list the number of headers, copying loops the
    number of bytes, the calendar the number of years in the day count, the ready
    queue its length, a walk over a directory chain the number of its entries; the
    lemmas about them show that it is enough.  The
    loop over the entries of a page table has the number of pages, the loop that
    looks for a random address one random number for each turn.  The
    definitions of [Dynmem] take the start and the size of the memory as a type
    class [DynmemConfig]; [DynmemConfigOk] names the configurations the theorems
    hold for, whose number of sections is a multiple of 32; where the first word
    of the bit map matters it is 32.

    ** Not modelled

    The regions of the kernel itself, shared memory, processes, program loading, signal delivery,
    timers, the buffer cache, file systems, terminals, system control, drivers
    and user land are not modelled; FIFO scheduling needs the red-black trees of
    sys/tree.h.  Of the modelled components, the contents of heap data areas, the
    lazy free queue, thread creation and termination, priority ceiling and
    interrupt masking are left out, as the headers of their files say. *)
From stdpp Require Export base numbers list option gmap.
From Stdlib Require Export ZArith Lia.
#[global] Open Scope Z_scope.

(** ** Machine integers

    The kernel is built for 32-bit ARM: [size_t], [unsigned], [uintptr_t] and
    [bitmap_t] are 32 bits wide.  Values are [Z] kept in range by [u32]. *)

Definition u8 (z : Z) : Z := z mod 2 ^ 8.
Definition u16 (z : Z) : Z := z mod 2 ^ 16.
Definition u32 (z : Z) : Z := z mod 2 ^ 32.
Definition u64 (z : Z) : Z := z mod 2 ^ 64.

(** Conversion of a 32-bit pattern to a signed [int]. *)
Definition s32 (z : Z) : Z :=
  let r := z mod 2 ^ 32 in if r <? 2 ^ 31 then r else r - 2 ^ 32.

(** The same for 64 bits: [off_t] and [time_t]. *)
Definition s64 (z : Z) : Z :=
  let r := z mod 2 ^ 64 in if r <? 2 ^ 63 then r else r - 2 ^ 64.

(** [1 << n] for a 32-bit operand as the ARM register-shift computes it:
    shift amounts of 32 and more give zero. *)
Definition shl1 (n : Z) : Z := if n <? 32 then Z.shiftl 1 n else 0.

(** ** Arrays

    An array is a list; an access outside of it is undefined behaviour in C
    and is the value [None] here. *)

Definition rd {A} (l : list A) (i : Z) : option A :=
  if i <? 0 then None else l !! Z.to_nat i.

Definition wr {A} (l : list A) (i : Z) (v : A) : option (list A) :=
  if (i <? 0) || (Z.of_nat (length l) <=? i) then None
  else Some (<[Z.to_nat i := v]> l).

Declare Scope zeke_scope.
Delimit Scope zeke_scope with zeke.
Notation "l .[ i ]" := (rd l i) (at level 1, left associativity, format "l .[ i ]") : zeke_scope.
Notation "l .[ i <- v ]" := (wr l i v) (at level 1, left associativity, format "l .[ i <- v ]") : zeke_scope.
#[global] Open Scope zeke_scope.

(** ** include/errno.h *)

Definition E2BIG : Z := 1.
Definition EACCES : Z := 2.
Definition EAGAIN : Z := 6.
Definition EWOULDBLOCK : Z := EAGAIN.
Definition EBADF : Z := 8.
Definition EBUSY : Z := 10.
Definition ECHILD : Z := 12.
Definition EDOM : Z := 18.
Definition EEXIST : Z := 20.
Definition EFAULT : Z := 21.
Definition EIDRM : Z := 24.
Definition EINVAL : Z := 28.
Definition EIO : Z := 29.
Definition EISDIR : Z := 31.
Definition EMFILE : Z := 33.
Definition ENAMETOOLONG : Z := 37.
Definition ENFILE : Z := 41.
Definition ENOENT : Z := 45.
Definition ENOLINK : Z := 48.
Definition ENOMEM : Z := 49.
Definition ENOSPC : Z := 52.
Definition ENOTDIR : Z := 57.
Definition ENOTEMPTY : Z := 58.
Definition ENOTRECOVERABLE : Z := 59.
Definition ENOTSUP : Z := 61.
Definition ENOTTY : Z := 62.
Definition EOPNOTSUPP : Z := ENOTSUP.
Definition EOVERFLOW : Z := 64.
Definition EPERM : Z := 67.
Definition EROFS : Z := 73.
Definition ESPIPE : Z := 74.
Definition ESRCH : Z := 75.

(** Nice values of sched.h. *)

Definition NICE_MAX : Z := 20.
Definition NICE_MIN : Z := -20.

(** File types of sys/stat.h; [min] and [max] of libkern.h take unsigned integers. *)

Definition S_IFMT : Z := 0xF000.
Definition S_IFREG : Z := 0x8000.
Definition S_IFDIR : Z := 0x4000.
Definition S_ISDIR (m : Z) : bool := Z.land m S_IFMT =? S_IFDIR.
Definition min (a b : Z) : Z := if u32 b <? u32 a then u32 b else u32 a.
Definition max (a b : Z) : Z := if u32 b <? u32 a then u32 a else u32 b.

(** ** Automation *)

Create HintDb zeke.

(** Case analysis on the comparisons the code branches on. *)
Ltac zcase :=
  match goal with
  | |- context [Z.ltb ?a ?b] => destruct (Z.ltb_spec a b)
  | |- context [Z.leb ?a ?b] => destruct (Z.leb_spec a b)
  | |- context [Z.eqb ?a ?b] => destruct (Z.eqb_spec a b)
  end.

Ltac zcase_in H :=
  match type of H with
  | context [Z.ltb ?a ?b] => destruct (Z.ltb_spec a b)
  | context [Z.leb ?a ?b] => destruct (Z.leb_spec a b)
  | context [Z.eqb ?a ?b] => destruct (Z.eqb_spec a b)
  end.

(** One step of the option monad, without unfolding anything else. *)
Ltac mstep := cbn [mbind option_bind negb fst snd].
Tactic Notation "mstep" "in" hyp(H) := cbn [mbind option_bind negb fst snd] in H.

(** Split on every comparison of the goal and the context, then arithmetic. *)
Ltac zsolve :=
  repeat first [ progress subst | zcase | match goal with H : _ |- _ => zcase_in H end ];
  simpl in *; first [ done | lia | f_equal; lia ].

(** Arithmetic with division and remainder by constants. *)
Ltac dlia := Z.div_mod_to_equations; lia.

(** ** Integer lemmas *)

Lemma s32_small z : - 2 ^ 31 <= z < 2 ^ 31 -> s32 z = z.
Proof. intros. unfold s32. zcase; dlia. Qed.
Lemma s64_small z : - 2 ^ 63 <= z < 2 ^ 63 -> s64 z = z.
Proof. intros. unfold s64. zcase; dlia. Qed.
Lemma u32_small z : 0 <= z < 2 ^ 32 -> u32 z = z.
Proof. apply Z.mod_small. Qed.

Lemma u32_range z : 0 <= u32 z < 2 ^ 32.
Proof. apply Z.mod_pos_bound; lia. Qed.

Lemma shl1_testbit n k :
  0 <= n < 32 -> 0 <= k -> Z.testbit (shl1 n) k = (k =? n).
Proof.
  intros Hn Hk. unfold shl1. zcase; [|lia].
  rewrite Z.shiftl_1_l, Z.pow2_bits_eqb by lia. apply Z.eqb_sym.
Qed.

Lemma shl1_range n : 0 <= n -> 0 <= shl1 n < 2 ^ 32.
Proof.
  intros Hn. unfold shl1. zcase; [|lia].
  rewrite Z.shiftl_1_l. split; [lia|]. apply Z.pow_lt_mono_r; lia.
Qed.

Lemma shl1_32 : shl1 32 = 0.
Proof. reflexivity. Qed.

(** Masking with [1 << n] tests bit [n]. *)
Lemma land_shl1_eqb w n :
  0 <= n < 32 -> (Z.land w (shl1 n) =? 0) = negb (Z.testbit w n).
Proof.
  intros Hn. destruct (Z.testbit w n) eqn:E; simpl.
  - apply Z.eqb_neq. intros H0.
    assert (Z.testbit (Z.land w (shl1 n)) n = true) as H1.
    { rewrite Z.land_spec, E, shl1_testbit, Z.eqb_refl by lia. done. }
    rewrite H0, Z.bits_0 in H1. done.
  - apply Z.eqb_eq, Z.bits_inj'. intros k Hk.
    rewrite Z.land_spec, shl1_testbit, Z.bits_0 by lia.
    destruct (Z.eqb_spec k n) as [->|]; [by rewrite E | by rewrite andb_false_r].
Qed.

Lemma u32_testbit z k : 0 <= k < 32 -> Z.testbit (u32 z) k = Z.testbit z k.
Proof. intros. unfold u32. apply Z.mod_pow2_bits_low. lia. Qed.

Lemma u32_testbit_high z k : 32 <= k -> Z.testbit (u32 z) k = false.
Proof. intros. unfold u32. apply Z.mod_pow2_bits_high. lia. Qed.

Lemma testbit_high w k : 0 <= w < 2 ^ 32 -> 32 <= k -> Z.testbit w k = false.
Proof. intros Hw Hk. rewrite <-(u32_small w Hw). by apply u32_testbit_high. Qed.

(** A number all of whose bits from 32 up are clear is a 32-bit word. *)
Lemma word_of_bits w :
  0 <= w -> (forall k, 32 <= k -> Z.testbit w k = false) -> 0 <= w < 2 ^ 32.
Proof.
  intros H0 Hb. split; [done|]. enough (w = u32 w) as -> by apply u32_range.
  apply Z.bits_inj'. intros k Hk. destruct (decide (k < 32)).
  - by rewrite u32_testbit.
  - rewrite u32_testbit_high by lia. apply Hb. lia.
Qed.

Lemma lor_range a b :
  0 <= a < 2 ^ 32 -> 0 <= b < 2 ^ 32 -> 0 <= Z.lor a b < 2 ^ 32.
Proof.
  intros Ha Hb. apply word_of_bits; [apply Z.lor_nonneg; lia|].
  intros k Hk. by rewrite Z.lor_spec, !testbit_high.
Qed.

Lemma land_range a b : 0 <= a < 2 ^ 32 -> 0 <= Z.land a b < 2 ^ 32.
Proof.
  intros Ha. apply word_of_bits; [apply Z.land_nonneg; lia|].
  intros k Hk. by rewrite Z.land_spec, testbit_high.
Qed.

(** ** Array lemmas *)

Section arrays.
Context {A : Type}.
Implicit Types (l : list A) (v : A).

Lemma rd_Some_lt l i v : rd l i = Some v -> 0 <= i < Z.of_nat (length l).
Proof.
  unfold rd. zcase; [done|]. intros ?%lookup_lt_Some. lia.
Qed.

Lemma rd_is_Some l i : 0 <= i < Z.of_nat (length l) -> exists v, rd l i = Some v.
Proof.
  intros Hi. unfold rd. zcase; [lia|].
  destruct (lookup_lt_is_Some_2 l (Z.to_nat i)) as [v Hv]; [lia|]. eauto.
Qed.

Lemma rd_None l i : Z.of_nat (length l) <= i -> rd l i = None.
Proof. intros Hi. unfold rd. zcase; [done|]. apply lookup_ge_None_2. lia. Qed.

Lemma wr_inv l i v l' :
  wr l i v = Some l' ->
  0 <= i < Z.of_nat (length l) /\ l' = <[Z.to_nat i := v]> l.
Proof.
  unfold wr. zcase; [done|]. simpl. zcase; [done|]. intros [=<-]. split; [lia|done].
Qed.

Lemma wr_Some l i v :
  0 <= i < Z.of_nat (length l) -> wr l i v = Some (<[Z.to_nat i := v]> l).
Proof. intros Hi. unfold wr. zcase; [lia|]. simpl. by zcase; [lia|]. Qed.

Lemma rd_insert_eq l i v :
  0 <= i < Z.of_nat (length l) -> rd (<[Z.to_nat i := v]> l) i = Some v.
Proof. intros Hi. unfold rd. zcase; [lia|]. apply list_lookup_insert_eq. lia. Qed.

Lemma rd_insert_ne l i j v :
  0 <= i -> i <> j -> rd (<[Z.to_nat i := v]> l) j = rd l j.
Proof.
  intros Hi Hne. unfold rd. zcase; [done|]. apply list_lookup_insert_ne. lia.
Qed.

Lemma rd_wr_eq l i v l' : wr l i v = Some l' -> rd l' i = Some v.
Proof. intros [? ->]%wr_inv. by apply rd_insert_eq. Qed.

Lemma rd_wr_ne l i j v l' : wr l i v = Some l' -> i <> j -> rd l' j = rd l j.
Proof. intros [? ->]%wr_inv ?. apply rd_insert_ne; [lia|done]. Qed.

Lemma wr_length l i v l' : wr l i v = Some l' -> length l' = length l.
Proof. intros [? ->]%wr_inv. apply length_insert. Qed.

Lemma rd_ext l l' : (forall i, rd l i = rd l' i) -> l = l'.
Proof.
  intros H. apply list_eq. intros i. specialize (H (Z.of_nat i)).
  unfold rd in H. destruct (Z.ltb_spec (Z.of_nat i) 0); [lia|].
  by rewrite Nat2Z.id in H.
Qed.

Lemma Forall_rd (P : A -> Prop) l i v : Forall P l -> rd l i = Some v -> P v.
Proof.
  unfold rd. zcase; [done|]. intros HF Hl. eapply Forall_lookup_1; eauto.
Qed.

Lemma Forall_wr (P : A -> Prop) l i v l' :
  Forall P l -> P v -> wr l i v = Some l' -> Forall P l'.
Proof. intros ?? [? ->]%wr_inv. by apply Forall_insert. Qed.
End arrays.

#[export] Hint Resolve rd_wr_eq wr_length lor_range land_range u32_range : zeke.

(** ** Byte ranges

    [slice l off n] is the [n] elements of [l] from offset [off] on and
    [splice l off xs] overwrites them, [memcpy] into an array; it is [None]
    when the copy would leave the array. *)

Definition slice {A} (l : list A) (off n : Z) : list A :=
  take (Z.to_nat n) (drop (Z.to_nat off) l).

Definition splice {A} (l : list A) (off : Z) (xs : list A) : option (list A) :=
  if (off <? 0) || (Z.of_nat (length l) <? off + Z.of_nat (length xs)) then None
  else Some (take (Z.to_nat off) l ++ xs ++
             drop (Z.to_nat off + length xs) l).

(** The bytes read by [memcpy]; [None] when the range leaves the array. *)
Definition fetch {A} (l : list A) (off n : Z) : option (list A) :=
  if (off <? 0) || (Z.of_nat (length l) <? off + n) then None
  else Some (slice l off n).

Section slices.
Context {A : Type}.
Implicit Types (l xs : list A).

Lemma length_slice l off n :
  0 <= off -> 0 <= n -> off + n <= Z.of_nat (length l) ->
  Z.of_nat (length (slice l off n)) = n.
Proof. intros. unfold slice. rewrite length_take, length_drop. lia. Qed.

Lemma splice_inv l off xs l' :
  splice l off xs = Some l' ->
  0 <= off /\ off + Z.of_nat (length xs) <= Z.of_nat (length l) /\
  l' = take (Z.to_nat off) l ++ xs ++ drop (Z.to_nat off + length xs) l.
Proof.
  unfold splice. zcase; [done|]. simpl. zcase; [done|].
  intros [= <-]. split_and!; (lia || done).
Qed.

Lemma splice_Some l off xs :
  0 <= off -> off + Z.of_nat (length xs) <= Z.of_nat (length l) ->
  exists l', splice l off xs = Some l'.
Proof. intros. unfold splice. zcase; [lia|]. simpl. zcase; [lia|]. eauto. Qed.

Lemma fetch_Some l off n :
  0 <= off -> off + n <= Z.of_nat (length l) -> fetch l off n = Some (slice l off n).
Proof. intros. unfold fetch. zcase; [lia|]. simpl. zcase; [lia|]. done. Qed.

Lemma fetch_inv l off n xs :
  fetch l off n = Some xs ->
  0 <= off /\ off + n <= Z.of_nat (length l) /\ xs = slice l off n.
Proof.
  unfold fetch. zcase; [done|]. simpl. zcase; [done|]. intros [= <-]. split_and!; (lia || done).
Qed.

Lemma splice_length l off xs l' :
  splice l off xs = Some l' -> length l' = length l.
Proof.
  intros (? & ? & ->)%splice_inv.
  rewrite !length_app, length_take, length_drop. lia.
Qed.

Lemma slice_lookup l off n (i : nat) :
  0 <= off -> slice l off n !! i =
    if decide (Z.of_nat i < n) then l !! (Z.to_nat off + i)%nat else None.
Proof.
  intros Ho. unfold slice. case_decide.
  - rewrite lookup_take_lt by lia. apply lookup_drop.
  - apply lookup_take_ge. lia.
Qed.

Lemma splice_lookup l off xs l' (i : nat) :
  splice l off xs = Some l' ->
  l' !! i = if decide (off <= Z.of_nat i < off + Z.of_nat (length xs))
            then xs !! (i - Z.to_nat off)%nat else l !! i.
Proof.
  intros (? & ? & ->)%splice_inv. case_decide as Hi.
  - rewrite lookup_app_r by (rewrite length_take; lia).
    rewrite length_take, lookup_app_l by lia. f_equal. lia.
  - destruct (decide (Z.of_nat i < off)).
    + rewrite lookup_app_l by (rewrite length_take; lia).
      apply lookup_take_lt. lia.
    + rewrite lookup_app_r by (rewrite length_take; lia). rewrite length_take.
      rewrite lookup_app_r by lia. rewrite lookup_drop. f_equal. lia.
Qed.

Lemma slice_splice_eq l off xs l' :
  splice l off xs = Some l' -> slice l' off (Z.of_nat (length xs)) = xs.
Proof.
  intros H. pose proof (splice_inv _ _ _ _ H) as (? & ? & _).
  apply list_eq. intros i. rewrite slice_lookup by lia. case_decide.
  - rewrite (splice_lookup _ _ _ _ _ H). rewrite decide_True by lia. f_equal. lia.
  - symmetry. apply lookup_ge_None_2. lia.
Qed.

Lemma slice_splice_disjoint l off xs l' off' n :
  splice l off xs = Some l' -> 0 <= off' ->
  off' + n <= off \/ off + Z.of_nat (length xs) <= off' ->
  slice l' off' n = slice l off' n.
Proof.
  intros H ? Hd. pose proof (splice_inv _ _ _ _ H) as (? & ? & _).
  apply list_eq. intros i. rewrite !slice_lookup by lia. case_decide; [|done].
  rewrite (splice_lookup _ _ _ _ _ H). rewrite decide_False by lia. done.
Qed.
End slices.

(** ** Sums over lists *)

Fixpoint zsum {A} (f : A -> Z) (l : list A) : Z :=
  match l with [] => 0 | x :: l => f x + zsum f l end.

Section zsum.
Context {A : Type}.
Implicit Types (l : list A) (f g : A -> Z).

Lemma zsum_app f l1 l2 : zsum f (l1 ++ l2) = zsum f l1 + zsum f l2.
Proof. induction l1; simpl; lia. Qed.

Lemma zsum_ext f g l : (forall x, x ∈ l -> f x = g x) -> zsum f l = zsum g l.
Proof.
  induction l as [|x l IH]; intros H; [done|]. cbn. rewrite H by by left.
  f_equal. apply IH. intros y Hy. apply H. by right.
Qed.

Lemma zsum_const f l c : (forall x, x ∈ l -> f x = c) -> zsum f l = c * Z.of_nat (length l).
Proof.
  induction l as [|x l IH]; intros H; cbn [zsum length]; [lia|]. rewrite H by by left.
  rewrite IH; [lia|]. intros y Hy. apply H. by right.
Qed.

Lemma zsum_nonneg f l : (forall x, x ∈ l -> 0 <= f x) -> 0 <= zsum f l.
Proof.
  induction l as [|x l IH]; intros H; cbn [zsum]; [lia|]. pose proof (H x ltac:(by left)).
  enough (0 <= zsum f l) by lia. apply IH. intros y Hy. apply H. by right.
Qed.

Lemma zsum_elem f l x : (forall y, y ∈ l -> 0 <= f y) -> x ∈ l -> f x <= zsum f l.
Proof.
  intros H Hx. apply list_elem_of_split in Hx as (l1 & l2 & ->). rewrite zsum_app. cbn.
  assert (0 <= zsum f l1) by (apply zsum_nonneg; set_solver).
  assert (0 <= zsum f l2) by (apply zsum_nonneg; set_solver). lia.
Qed.

Lemma zsum_insert f l (i : nat) x y : l !! i = Some x -> zsum f (<[i := y]> l) = zsum f l - f x + f y.
Proof.
  intros H. pose proof (lookup_lt_Some _ _ _ H).
  rewrite <- (take_drop_middle l i x H) at 2. rewrite insert_take_drop by done.
  rewrite !zsum_app. cbn [zsum]. lia.
Qed.

Lemma zsum_le f g l : (forall x, x ∈ l -> f x <= g x) -> zsum f l <= zsum g l.
Proof.
  induction l as [|x l IH]; intros H; cbn; [lia|]. pose proof (H x ltac:(by left)).
  enough (zsum f l <= zsum g l) by lia. apply IH. intros y Hy. apply H. by right.
Qed.
End zsum.

Lemma min_small a b : 0 <= a < 2 ^ 32 -> 0 <= b < 2 ^ 32 -> min a b = Z.min a b.
Proof. intros. unfold min. rewrite !u32_small by done. zcase; lia. Qed.

(** ** Little-endian 32-bit words *)

Definition le32 (v : Z) : list Z :=
  [v mod 256; v / 2 ^ 8 mod 256; v / 2 ^ 16 mod 256; v / 2 ^ 24 mod 256].

Definition of_le32 (bs : list Z) : Z :=
  match bs with
  | b0 :: b1 :: b2 :: b3 :: _ => b0 + b1 * 2 ^ 8 + b2 * 2 ^ 16 + b3 * 2 ^ 24
  | _ => 0
  end.

Lemma of_le32_le32 v : 0 <= v < 2 ^ 32 -> of_le32 (le32 v) = v.
Proof. intros. unfold of_le32, le32. dlia. Qed.

#[global] Arguments le32 : simpl never.
#[global] Arguments of_le32 : simpl never.
