(* ===== verification/Bitmap.v ===== *)
(** * Bit maps: kern/libkern/bitmap.c

    A bit map is an array of 32-bit words.  [None] as the result of an
    operation means that the C code reads or writes outside of the array.
    The predicate [bit] reads a bit map as an array of booleans and is the
    abstract view in which every operation is specified. *)
From S2P Require Import Prelude.

(** ** The code *)

Definition SIZEOF_BITMAP_T : Z := 32.

Definition BIT2WORDI (i : Z) : Z :=
  (i - Z.land i (SIZEOF_BITMAP_T - 1)) / SIZEOF_BITMAP_T.
Definition BIT2WBITOFF (i : Z) : Z := Z.land i (SIZEOF_BITMAP_T - 1).

(** The local variable [cur] of the search points to [start] or to [end]. *)
Inductive cursor := CurStart | CurEnd.
Record scan := Scan { sc_start : Z; sc_end : Z; sc_cur : cursor }.

(** The body of the inner loop: [inr start] is the early [return 0]. *)
Definition scan_bit (block_len i j w : Z) (s : scan) : scan + Z :=
  if Z.land w (shl1 j) =? 0 then
    let pos := u32 (i * SIZEOF_BITMAP_T + j) in
    let s1 := match sc_cur s with
              | CurStart => Scan pos (sc_end s) CurEnd
              | CurEnd => Scan (sc_start s) pos CurEnd
              end in
    if (block_len <=? u32 (sc_end s1 - sc_start s1)) &&
       (sc_start s1 <=? sc_end s1)
    then inr (sc_start s1) else inl s1
  else inl (Scan 0 0 CurStart).

(** [for (; j <= SIZEOF_BITMAP_T; j++)] with [n] iterations to go. *)
Fixpoint scan_word (n : nat) (block_len i j w : Z) (s : scan) : scan + Z :=
  match n with
  | O => inl s
  | S n' => match scan_bit block_len i j w s with
            | inr r => inr r
            | inl s' => scan_word n' block_len i (j + 1) w s'
            end
  end.

(** The outer loop over the words; [Some None] is [return 1]. *)
Fixpoint scan_words (n : nat) (bitmap : list Z) (block_len i j : Z) (s : scan)
    : option (option Z) :=
  match n with
  | O => Some None
  | S n' =>
      w ← bitmap.[i];
      match scan_word (Z.to_nat (SIZEOF_BITMAP_T + 1 - j)) block_len i j w s with
      | inr r => Some (Some r)
      | inl s' => scan_words n' bitmap block_len (i + 1) 0 s'
      end
  end.

Definition bitmap_block_search_s (start block_len : Z) (bitmap : list Z)
    (size : Z) : option (option Z) :=
  scan_words (Z.to_nat (size / 4 - BIT2WORDI start)) bitmap block_len
    (BIT2WORDI start) (BIT2WBITOFF start) (Scan start 0 CurStart).

Definition bitmap_block_search (block_len : Z) (bitmap : list Z) (size : Z)
    : option (option Z) :=
  bitmap_block_search_s 0 block_len bitmap size.

Definition bitmap_status (bitmap : list Z) (pos size : Z) : option Z :=
  let k := BIT2WORDI pos in
  let n := BIT2WBITOFF pos in
  if u32 (size * SIZEOF_BITMAP_T) <=? pos then Some (- EINVAL)
  else w ← bitmap.[k]; Some (if Z.land w (shl1 n) =? 0 then 0 else 1).

Definition bitmap_set (bitmap : list Z) (pos size : Z) : option (Z * list Z) :=
  let k := BIT2WORDI pos in
  let n := BIT2WBITOFF pos in
  if u32 (size * SIZEOF_BITMAP_T) <=? pos then Some (- EINVAL, bitmap)
  else w ← bitmap.[k];
       bitmap' ← bitmap.[k <- Z.lor w (shl1 n)];
       Some (0, bitmap').

Definition bitmap_clear (bitmap : list Z) (pos size : Z) : option (Z * list Z) :=
  let k := BIT2WORDI pos in
  let n := BIT2WBITOFF pos in
  if u32 (size * SIZEOF_BITMAP_T) <=? pos then Some (- EINVAL, bitmap)
  else w ← bitmap.[k];
       bitmap' ← bitmap.[k <- Z.land w (u32 (Z.lnot (shl1 n)))];
       Some (0, bitmap').

(** [while (n < SIZEOF_BITMAP_T)] of the update, [m] iterations to go; the
    boolean says that [++j >= len] made the function return. *)
Fixpoint update_word (m : nat) (bitmap : list Z) (mark i n j len : Z)
    : option (list Z * Z * bool) :=
  match m with
  | O => Some (bitmap, j, false)
  | S m' =>
      let tmp := u32 (Z.shiftl mark n) in
      w ← bitmap.[i];
      bitmap1 ← bitmap.[i <- Z.land w (u32 (Z.lnot (shl1 n)))];
      w1 ← bitmap1.[i];
      bitmap2 ← bitmap1.[i <- Z.lor w1 tmp];
      if len <=? j + 1 then Some (bitmap2, j + 1, true)
      else update_word m' bitmap2 mark i (n + 1) (j + 1) len
  end.

(** [do { ... } while (i++)]. *)
Fixpoint update_words (fuel : nat) (bitmap : list Z) (mark i n j len : Z)
    : option (list Z) :=
  match fuel with
  | O => None
  | S fuel' =>
      '(bitmap', j', ret) ←
        update_word (Z.to_nat (SIZEOF_BITMAP_T - n)) bitmap mark i n j len;
      if (ret : bool) then Some bitmap'
      else if i =? 0 then Some bitmap'
      else update_words fuel' bitmap' mark (i + 1) 0 j' len
  end.

Definition bitmap_block_update (bitmap : list Z) (mark start len size : Z)
    : option (Z * list Z) :=
  if u32 (size * SIZEOF_BITMAP_T) <? u32 (start + len) then
    Some (- EINVAL, bitmap)
  else
    bitmap' ← update_words (S (Z.to_nat len)) bitmap (Z.land mark 1)
                (BIT2WORDI start) (BIT2WBITOFF start) 0 len;
    Some (0, bitmap').

(** The result is the found position ([None]: nothing found, error 1) and
    the new map. *)
Definition bitmap_block_alloc (len : Z) (bitmap : list Z) (size : Z)
    : option (option Z * list Z) :=
  r ← bitmap_block_search len bitmap size;
  match r with
  | None => Some (None, bitmap)
  | Some start =>
      '(_, bitmap') ← bitmap_block_update bitmap 1 start len size;
      Some (Some start, bitmap')
  end.

(** The [do ... while] loop of the aligned allocation. [inl err] leaves with
    an error code, [inr start] falls out of the loop. *)
Fixpoint align_search (fuel : nat) (begin len : Z) (bitmap : list Z)
    (size balign : Z) : option (Z + Z) :=
  match fuel with
  | O => None
  | S fuel' =>
      if u32 (size * 8) <=? begin then Some (inl (-1))
      else
        r ← bitmap_block_search_s begin len bitmap size;
        match r with
        | None => Some (inl 1)
        | Some start =>
            if balign =? 0 then None (* division by zero *)
            else if start mod balign =? 0 then Some (inr start)
            else align_search fuel' (u32 (start + (balign - start mod balign)))
                   len bitmap size balign
        end
  end.

Definition bitmap_block_align_alloc (len : Z) (bitmap : list Z)
    (size balign : Z) : option ((Z + Z) * list Z) :=
  r ← align_search (S (Z.to_nat (size * 8))) 0 len bitmap size balign;
  match r with
  | inl err => Some (inl err, bitmap)
  | inr start =>
      '(_, bitmap') ← bitmap_block_update bitmap 1 start len size;
      Some (inr start, bitmap')
  end.

(** ** The abstract view *)

Definition bit (bitmap : list Z) (p : Z) : option bool :=
  w ← bitmap.[p / 32]; Some (Z.testbit w (p mod 32)).

Definition bitmap_wf (bitmap : list Z) : Prop :=
  Forall (fun w => 0 <= w < 2 ^ 32) bitmap /\ 32 * Z.of_nat (length bitmap) < 2 ^ 32.

(** All positions of [[p, p + len)] are in the map and clear. *)
Definition block_free (bitmap : list Z) (p len : Z) : Prop :=
  forall q, p <= q < p + len -> bit bitmap q = Some false.

(** The last position the update of [[start, start + len)] reaches, plus one:
    the loop [while (i++)] does not continue after word 0. *)
Definition update_end (start len : Z) : Z :=
  if start <? 32 then Z.min 32 (start + len) else start + len.

(** ** Lemmas on positions *)

Lemma BIT2WBITOFF_eq p : 0 <= p -> BIT2WBITOFF p = p mod 32.
Proof.
  intros. unfold BIT2WBITOFF, SIZEOF_BITMAP_T.
  change (32 - 1) with (Z.ones 5). rewrite Z.land_ones by lia. done.
Qed.

Lemma BIT2WORDI_eq p : 0 <= p -> BIT2WORDI p = p / 32.
Proof.
  intros. unfold BIT2WORDI. fold (BIT2WBITOFF p).
  rewrite BIT2WBITOFF_eq by done. unfold SIZEOF_BITMAP_T. dlia.
Qed.

Lemma bit_Some_range bm p b : bit bm p = Some b -> 0 <= p < 32 * Z.of_nat (length bm).
Proof.
  unfold bit. destruct (bm.[p / 32]) as [w|] eqn:E; [|done].
  intros _. apply rd_Some_lt in E. dlia.
Qed.

Lemma bit_word bm i j w :
  bm.[i] = Some w -> 0 <= j < 32 -> bit bm (i * 32 + j) = Some (Z.testbit w j).
Proof.
  intros Hw Hj. unfold bit.
  replace ((i * 32 + j) / 32) with i by dlia.
  replace ((i * 32 + j) mod 32) with j by dlia. by rewrite Hw.
Qed.

(** ** The search *)

Section search.
Context (bm : list Z) (block_len lo : Z).
Hypothesis Hfit : 32 * Z.of_nat (length bm) < 2 ^ 32.
Hypothesis Hlen : 0 < block_len.
Hypothesis Hlo : 0 <= lo.

Let used q := bit bm q = Some true.

(** State of the search when every position below [P] has been examined. *)
Definition scan_inv (P : Z) (s : scan) : Prop :=
  lo <= P /\
  match sc_cur s with
  | CurStart => sc_end s = 0 /\ (P = lo \/ used (P - 1))
  | CurEnd => lo <= sc_start s <= P /\
              block_free bm (sc_start s) (P - sc_start s) /\
              (sc_start s = lo \/ used (sc_start s - 1))
  end.

(** A block the search is bound to report when it examines its end. *)
Definition candidate (p : Z) : Prop :=
  lo <= p /\ block_free bm p block_len /\
  (bit bm (p + block_len) = Some false \/ (p + block_len) mod 32 = 0).

Lemma used_not_free q p n : used q -> block_free bm p n -> ~ (p <= q < p + n).
Proof. unfold used. intros Hu Hf Hq. rewrite (Hf q Hq) in Hu. done. Qed.

(** One iteration that sees a clear bit (or the position after the word). *)
Lemma scan_bit_clear i j w s :
  let P := i * 32 + j in
  Z.land w (shl1 j) = 0 -> 0 <= P <= 32 * Z.of_nat (length bm) ->
  scan_inv P s ->
  match scan_bit block_len i j w s with
  | inr r => lo <= r /\ block_free bm r block_len /\ r + block_len <= P
  | inl s' => sc_cur s' = CurEnd /\ scan_inv P s' /\
              forall p, candidate p -> p + block_len <> P
  end.
Proof.
  intros P Hclear HP [HloP Hinv]. unfold scan_bit. rewrite Hclear. simpl.
  unfold SIZEOF_BITMAP_T. fold P. rewrite (u32_small P) by lia.
  destruct s as [st en [|]]; simpl in *.
  - destruct Hinv as [-> Hedge].
    replace ((block_len <=? u32 (0 - P)) && (P <=? 0)) with false.
    2:{ destruct (Z.leb_spec P 0); [|by rewrite andb_false_r].
        replace P with 0 by lia. rewrite u32_small by lia.
        by destruct (Z.leb_spec block_len (0 - 0)); [lia|]. }
    unfold scan_inv; simpl. split_and!; [done|lia|lia|lia| |done|].
    + intros q Hq. lia.
    + intros p (Hp & Hpf & _) Heq. destruct Hedge as [->|Hu]; [lia|].
      eapply used_not_free; [exact Hu|exact Hpf|lia].
  - destruct Hinv as (Hst & Hf & Hedge).
    rewrite (u32_small (P - st)) by lia.
    destruct (Z.leb_spec block_len (P - st)); simpl.
    + replace (st <=? P) with true by lia. simpl.
      split_and!; [lia| |lia]. intros q Hq. apply Hf. lia.
    + unfold scan_inv; simpl. split_and!; [done|lia|lia|lia|done|done|].
      intros p (Hp & Hpf & _) Heq. destruct Hedge as [->|Hu]; [lia|].
      destruct (decide (st <= p)); [lia|].
      eapply used_not_free; [exact Hu|exact Hpf|lia].
Qed.

(** The whole inner loop, from bit [j] of word [i]. *)
Lemma scan_word_spec n i j w s :
  bm.[i] = Some w -> 0 <= j -> Z.of_nat n = 33 - j ->
  scan_inv (Z.min (i * 32 + j) (i * 32 + 32)) s ->
  match scan_word n block_len i j w s with
  | inr r => lo <= r /\ block_free bm r block_len
  | inl s' => scan_inv ((i + 1) * 32) s' /\
              forall p, candidate p -> i * 32 < p + block_len ->
                        ~ (i * 32 + j <= p + block_len <= i * 32 + 32)
  end.
Proof.
  intros Hw. pose proof (rd_Some_lt _ _ _ Hw) as Hi.
  revert j s. induction n as [|n IH]; intros j s Hj Hn Hinv; simpl.
  { replace ((i + 1) * 32) with (Z.min (i * 32 + j) (i * 32 + 32)) by lia.
    split; [done|]. intros p Hp. lia. }
  rewrite Z.min_l in Hinv by lia.
  pose proof (scan_bit_clear i j w s) as Hs. simpl in Hs.
  assert (j = 32 \/ j < 32) as [->|Hj32] by lia.
  { (* the position after the word *)
    assert (n = 0%nat) as -> by lia.
    specialize (Hs ltac:(by rewrite shl1_32, Z.land_0_r) ltac:(lia) Hinv).
    destruct (scan_bit block_len i 32 w s) as [s'|r]; [|tauto].
    simpl. destruct Hs as (_ & Hi' & Hc).
    replace ((i + 1) * 32) with (i * 32 + 32) by lia. split; [done|].
    intros p Hp ??. apply (Hc p Hp). lia. }
  pose proof (bit_word bm i j w Hw ltac:(lia)) as Hbit.
  pose proof (land_shl1_eqb w j ltac:(lia)) as Hmask.
  destruct (Z.testbit w j) eqn:Ebit; simpl in Hmask.
  - (* used: restart *)
    assert (scan_bit block_len i j w s = inl (Scan 0 0 CurStart)) as ->.
    { unfold scan_bit. by rewrite Hmask. }
    assert (scan_inv (Z.min (i * 32 + (j + 1)) (i * 32 + 32)) (Scan 0 0 CurStart)).
    { destruct Hinv as [? _]. split; [lia|]. simpl. split; [done|]. right.
      unfold used. replace (Z.min _ _ - 1) with (i * 32 + j) by lia. done. }
    specialize (IH (j + 1) _ ltac:(lia) ltac:(lia) ltac:(eassumption)).
    destruct (scan_word n block_len i (j + 1) w _) as [s'|r]; [|done].
    destruct IH as [Hi' Hc]. split; [done|]. intros p Hp Hgt Hr.
    assert (p + block_len = i * 32 + j \/ i * 32 + (j + 1) <= p + block_len)
      as [Heq|] by lia; [|by apply (Hc p Hp); lia].
    destruct Hp as (_ & _ & [Hb|Hm]); [congruence|dlia].
  - (* clear *)
    specialize (Hs ltac:(lia) ltac:(lia) Hinv).
    destruct (scan_bit block_len i j w s) as [s1|r]; [|tauto].
    destruct Hs as (Hcur & [Hlo1 Hi1] & Hc1).
    assert (scan_inv (Z.min (i * 32 + (j + 1)) (i * 32 + 32)) s1).
    { split; [lia|]. rewrite Hcur in *. rewrite Z.min_l by lia.
      destruct Hi1 as (? & Hf & ?). split_and!; [lia|lia| |done].
      intros q Hq. destruct (decide (q = i * 32 + j)) as [->|]; [done|].
      apply Hf. lia. }
    specialize (IH (j + 1) _ ltac:(lia) ltac:(lia) ltac:(eassumption)).
    destruct (scan_word n block_len i (j + 1) w _) as [s'|r]; [|done].
    destruct IH as [Hi' Hc]. split; [done|]. intros p Hp Hgt Hr.
    destruct (decide (p + block_len = i * 32 + j)) as [Heq|].
    + by apply (Hc1 p Hp).
    + apply (Hc p Hp); lia.
Qed.

Lemma scan_words_spec n i j s :
  0 <= i -> 0 <= j < 32 -> i + Z.of_nat n <= Z.of_nat (length bm) ->
  scan_inv (i * 32 + j) s ->
  match scan_words n bm block_len i j s with
  | None => False
  | Some (Some r) => lo <= r /\ block_free bm r block_len
  | Some None =>
      forall p, candidate p -> i * 32 < p + block_len ->
        ~ (i * 32 + j <= p + block_len <= (i + Z.of_nat n) * 32)
  end.
Proof.
  revert i j s. induction n as [|n IH]; intros i j s Hi Hj Hn Hinv; simpl.
  { intros p Hp ??. lia. }
  destruct (rd_is_Some bm i ltac:(lia)) as [w Hw]. rewrite Hw. simpl.
  pose proof (scan_word_spec (Z.to_nat (33 - j)) i j w s Hw ltac:(lia) ltac:(lia))
    as Hword.
  rewrite Z.min_l in Hword by lia. specialize (Hword Hinv).
  change (SIZEOF_BITMAP_T + 1 - j) with (33 - j).
  destruct (scan_word _ _ _ _ _ _) as [s'|r]; [|done].
  destruct Hword as [Hinv' Hc].
  specialize (IH (i + 1) 0 s' ltac:(lia) ltac:(lia) ltac:(lia)).
  rewrite Z.add_0_r in IH. specialize (IH Hinv').
  destruct (scan_words n bm block_len (i + 1) 0 s') as [[r|]|]; [done| |done].
  intros p Hp Hgt Hr.
  destruct (decide (p + block_len <= i * 32 + 32)).
  - apply (Hc p Hp); lia.
  - apply (IH p Hp); lia.
Qed.
End search.

(** The search from position [lo]: it stays inside the map, what it finds is
    a clear block at or after [lo], and it finds a block whenever there is one
    that is followed by one more clear bit or that ends at a word boundary. *)
Lemma search_s_spec bm lo block_len size :
  bitmap_wf bm -> 0 < block_len -> 0 <= lo ->
  0 <= size -> size / 4 <= Z.of_nat (length bm) ->
  match bitmap_block_search_s lo block_len bm size with
  | None => False
  | Some (Some r) => lo <= r /\ block_free bm r block_len
  | Some None =>
      forall p, lo <= p -> block_free bm p block_len ->
        p + block_len <= size / 4 * 32 ->
        bit bm (p + block_len) <> Some false /\ (p + block_len) mod 32 <> 0
  end.
Proof.
  intros [_ Hfit] Hlen Hlo Hs Hsz. unfold bitmap_block_search_s.
  rewrite BIT2WORDI_eq, BIT2WBITOFF_eq by done.
  destruct (decide (size / 4 <= lo / 32)) as [Hout|Hin].
  { replace (Z.to_nat _) with 0%nat by lia. simpl. intros p ??. dlia. }
  pose proof (scan_words_spec bm block_len lo Hfit Hlen Hlo
                (Z.to_nat (size / 4 - lo / 32)) (lo / 32) (lo mod 32)
                (Scan lo 0 CurStart) ltac:(dlia) ltac:(dlia) ltac:(lia)) as H.
  replace (lo / 32 * 32 + lo mod 32) with lo in H by dlia.
  specialize (H ltac:(split; [lia|simpl; tauto])).
  destruct (scan_words _ _ _ _ _ _) as [[r|]|]; [done| |done].
  intros p Hp Hf Hend. split; intros Hc;
    (apply (H p); [split_and!; [done|done|tauto]|dlia|]);
    (split; [lia|]); rewrite Z2Nat.id by lia; lia.
Qed.

Lemma block_free_range bm p len :
  0 < len -> block_free bm p len ->
  0 <= p /\ p + len <= 32 * Z.of_nat (length bm).
Proof.
  intros Hl Hf.
  pose proof (bit_Some_range _ _ _ (Hf p ltac:(lia))).
  pose proof (bit_Some_range _ _ _ (Hf (p + len - 1) ltac:(lia))). lia.
Qed.

(** ** Single-bit operations and the block update *)

Lemma bit_set_word bm i w' bm' p :
  bm.[i <- w'] = Some bm' ->
  bit bm' p = if p / 32 =? i then Some (Z.testbit w' (p mod 32)) else bit bm p.
Proof.
  intros Hw. unfold bit. zcase.
  - subst i. by rewrite (rd_wr_eq _ _ _ _ Hw).
  - by rewrite (rd_wr_ne _ _ _ _ _ Hw) by done.
Qed.

Lemma lor_bit w n k :
  0 <= n < 32 -> 0 <= k ->
  Z.testbit (Z.lor w (shl1 n)) k = (k =? n) || Z.testbit w k.
Proof. intros. rewrite Z.lor_spec, shl1_testbit by lia. apply orb_comm. Qed.

Lemma land_not_bit w n k :
  0 <= n < 32 -> 0 <= k < 32 ->
  Z.testbit (Z.land w (u32 (Z.lnot (shl1 n)))) k = negb (k =? n) && Z.testbit w k.
Proof.
  intros. rewrite Z.land_spec, u32_testbit, Z.lnot_spec, shl1_testbit by lia.
  apply andb_comm.
Qed.

(** Position [p] is bit [p mod 32] of word [p / 32] only. *)
Lemma same_position p q : 0 <= p -> 0 <= q ->
  p / 32 = q / 32 -> (p mod 32 =? q mod 32) = (p =? q).
Proof. intros. do 2 zcase; first [done | exfalso; dlia]. Qed.

Lemma bit_update_word bm q w bm' (f : bool -> bool) w' :
  0 <= q -> bm.[q / 32] = Some w -> bm.[q / 32 <- w'] = Some bm' ->
  (forall k, 0 <= k < 32 ->
     Z.testbit w' k = if k =? q mod 32 then f (Z.testbit w k) else Z.testbit w k) ->
  forall p, 0 <= p -> bit bm' p = if p =? q then f <$> bit bm p else bit bm p.
Proof.
  intros Hq Hw Hwr Hf p Hp. rewrite (bit_set_word _ _ _ _ p Hwr).
  destruct (Z.eqb_spec (p / 32) (q / 32)) as [E|E].
  - rewrite Hf by (apply Z.mod_pos_bound; lia).
    rewrite (same_position p q) by done. unfold bit. rewrite E, Hw. simpl. by zcase.
  - zcase; [subst; done|done].
Qed.

(** In-range single-bit operations succeed and touch exactly one bit. *)
Lemma bitmap_set_spec bm pos size :
  bitmap_wf bm -> 0 <= pos -> 0 <= size ->
  size <= Z.of_nat (length bm) -> pos < size * 32 ->
  exists bm', bitmap_set bm pos size = Some (0, bm') /\ bitmap_wf bm' /\
    length bm' = length bm /\
    forall p, 0 <= p -> bit bm' p = if p =? pos then Some true else bit bm p.
Proof.
  intros [Hwf Hfit] Hpos Hs Hsz Hlt. unfold bitmap_set, SIZEOF_BITMAP_T.
  rewrite BIT2WORDI_eq, BIT2WBITOFF_eq, u32_small by lia. zcase; [lia|].
  destruct (rd_is_Some bm (pos / 32) ltac:(dlia)) as [w Hw]. rewrite Hw. simpl.
  destruct (bm.[pos / 32 <- Z.lor w (shl1 (pos mod 32))]) as [bm'|] eqn:Hwr.
  2:{ rewrite wr_Some in Hwr by dlia. done. }
  simpl. exists bm'. pose proof (wr_length _ _ _ _ Hwr) as Hl.
  assert (0 <= w < 2 ^ 32) by (eapply (Forall_rd _ _ _ _ Hwf); eauto).
  split_and!; [done| |done|].
  { split; [|lia]. eapply Forall_wr; [done| |done].
    apply lor_range; [done|apply shl1_range; dlia]. }
  intros p Hp.
  rewrite (bit_update_word bm pos w bm' (fun _ => true) _ Hpos Hw Hwr) by
    (first [done | intros; rewrite lor_bit by dlia; by zcase]).
  zcase; [|done]. subst p. unfold bit. by rewrite Hw.
Qed.

Lemma bitmap_clear_spec bm pos size :
  bitmap_wf bm -> 0 <= pos -> 0 <= size ->
  size <= Z.of_nat (length bm) -> pos < size * 32 ->
  exists bm', bitmap_clear bm pos size = Some (0, bm') /\ bitmap_wf bm' /\
    length bm' = length bm /\
    forall p, 0 <= p -> bit bm' p = if p =? pos then Some false else bit bm p.
Proof.
  intros [Hwf Hfit] Hpos Hs Hsz Hlt. unfold bitmap_clear, SIZEOF_BITMAP_T.
  rewrite BIT2WORDI_eq, BIT2WBITOFF_eq, (u32_small (size * 32)) by lia. zcase; [lia|].
  destruct (rd_is_Some bm (pos / 32) ltac:(dlia)) as [w Hw]. rewrite Hw. simpl.
  destruct (bm.[pos / 32 <- _]) as [bm'|] eqn:Hwr.
  2:{ rewrite wr_Some in Hwr by dlia. done. }
  simpl. exists bm'. pose proof (wr_length _ _ _ _ Hwr) as Hl.
  assert (0 <= w < 2 ^ 32) by (eapply (Forall_rd _ _ _ _ Hwf); eauto).
  split_and!; [done| |done|].
  { split; [|lia]. eapply Forall_wr; [done| |done]. by apply land_range. }
  intros p Hp.
  rewrite (bit_update_word bm pos w bm' (fun _ => false) _ Hpos Hw Hwr) by
    (first [done | intros; rewrite land_not_bit by dlia; by zcase]).
  zcase; [|done]. subst p. unfold bit. by rewrite Hw.
Qed.

Lemma bitmap_status_spec bm pos size :
  bitmap_wf bm -> 0 <= pos -> 0 <= size ->
  size <= Z.of_nat (length bm) ->
  bitmap_status bm pos size =
    if size * 32 <=? pos then Some (- EINVAL)
    else (fun b : bool => if b then 1 else 0) <$> bit bm pos.
Proof.
  intros [Hwf Hfit] Hpos Hs Hsz. unfold bitmap_status, SIZEOF_BITMAP_T.
  rewrite BIT2WORDI_eq, BIT2WBITOFF_eq, u32_small by lia. zcase; [done|].
  unfold bit. destruct (rd_is_Some bm (pos / 32) ltac:(dlia)) as [w Hw]. rewrite Hw.
  simpl. rewrite land_shl1_eqb by dlia. by destruct (Z.testbit w (pos mod 32)).
Qed.

(** [bm'] is [bm] with the positions [[a, b)] set to [v]. *)
Definition range_set (bm bm' : list Z) (a b : Z) (v : bool) : Prop :=
  bitmap_wf bm' /\ length bm' = length bm /\
  forall p, 0 <= p ->
    bit bm' p = if (a <=? p) && (p <? b) then Some v else bit bm p.

Lemma range_set_trans bm1 bm2 bm3 a b c v :
  a <= b <= c -> range_set bm1 bm2 a b v -> range_set bm2 bm3 b c v ->
  range_set bm1 bm3 a c v.
Proof.
  intros Habc (_ & Hl1 & H1) (Hw & Hl2 & H2). unfold range_set.
  split_and!; [done|congruence|].
  intros p Hp. rewrite H2, H1 by done. repeat zcase; simpl; done || lia.
Qed.

(** One iteration of the inner loop writes one bit. *)
Lemma update_one bm mark i n :
  bitmap_wf bm -> 0 <= i < Z.of_nat (length bm) -> 0 <= n < 32 ->
  mark = 0 \/ mark = 1 ->
  exists w bm1 w1 bm2,
    bm.[i] = Some w /\
    bm.[i <- Z.land w (u32 (Z.lnot (shl1 n)))] = Some bm1 /\
    bm1.[i] = Some w1 /\
    bm1.[i <- Z.lor w1 (u32 (Z.shiftl mark n))] = Some bm2 /\
    range_set bm bm2 (i * 32 + n) (i * 32 + n + 1) (mark =? 1).
Proof.
  intros [Hwf Hfit] Hi Hn Hmark.
  destruct (rd_is_Some bm i Hi) as [w Hw].
  assert (0 <= w < 2 ^ 32) as Hwr by (eapply (Forall_rd _ _ _ _ Hwf); eauto).
  destruct (bm.[i <- Z.land w (u32 (Z.lnot (shl1 n)))]) as [bm1|] eqn:H1;
    [|by rewrite wr_Some in H1].
  pose proof (wr_length _ _ _ _ H1) as Hl1.
  pose proof (rd_wr_eq _ _ _ _ H1) as Hw1.
  set (w1 := Z.land w _) in *.
  destruct (bm1.[i <- Z.lor w1 (u32 (Z.shiftl mark n))]) as [bm2|] eqn:H2;
    [|by rewrite wr_Some in H2 by lia].
  pose proof (wr_length _ _ _ _ H2) as Hl2.
  exists w, bm1, w1, bm2. split_and!; try done.
  unfold range_set. split_and!; [|congruence|].
  { split; [|lia]. eapply Forall_wr; [|apply lor_range|exact H2].
    - eapply Forall_wr; [exact Hwf| |exact H1]. by apply land_range.
    - by apply land_range.
    - apply u32_range. }
  intros p Hp. rewrite (bit_set_word _ _ _ _ p H2), (bit_set_word _ _ _ _ p H1).
  destruct (Z.eqb_spec (p / 32) i) as [E|E].
  - rewrite Z.lor_spec, u32_testbit by dlia. unfold w1. rewrite land_not_bit by dlia.
    assert (Z.testbit (Z.shiftl mark n) (p mod 32)
            = (mark =? 1) && (p mod 32 =? n)) as ->.
    { destruct Hmark as [->| ->].
      - rewrite Z.shiftl_0_l, Z.bits_0. done.
      - replace (Z.shiftl 1 n) with (shl1 n) by (unfold shl1; zcase; [done|lia]).
        rewrite shl1_testbit by dlia. done. }
    unfold bit. rewrite E, Hw. simpl.
    destruct (Z.eqb_spec (p mod 32) n).
    + replace ((i * 32 + n <=? p) && (p <? i * 32 + n + 1)) with true
        by (symmetry; apply andb_true_iff; split; apply Z.leb_le || apply Z.ltb_lt; dlia).
      simpl. by rewrite andb_true_r.
    + replace ((i * 32 + n <=? p) && (p <? i * 32 + n + 1)) with false
        by (symmetry; apply andb_false_iff; rewrite Z.leb_gt, Z.ltb_ge; dlia).
      simpl. by rewrite andb_false_r, orb_false_r.
  - replace ((i * 32 + n <=? p) && (p <? i * 32 + n + 1)) with false; [done|].
    symmetry. apply andb_false_iff. rewrite Z.leb_gt, Z.ltb_ge. dlia.
Qed.

Lemma update_word_spec m bm mark i n j len :
  bitmap_wf bm -> 0 <= i < Z.of_nat (length bm) -> 0 <= n ->
  mark = 0 \/ mark = 1 -> Z.of_nat m = 32 - n -> 0 <= j < len ->
  exists bm', let c := Z.min (32 - n) (len - j) in
    update_word m bm mark i n j len = Some (bm', j + c, len <=? j + c) /\
    range_set bm bm' (i * 32 + n) (i * 32 + n + c) (mark =? 1).
Proof.
  revert bm n j. induction m as [|m IH]; intros bm n j Hwf Hi Hn Hmark Hm Hj; simpl.
  - exists bm. rewrite Z.min_l by lia. split.
    + do 2 f_equal; [f_equal; lia|]. zcase; [lia|done].
    + unfold range_set. split_and!; [done|done|]. intros p Hp.
      repeat zcase; simpl; done || lia.
  - destruct (update_one bm mark i n Hwf Hi ltac:(lia) Hmark)
      as (w & bm1 & w1 & bm2 & -> & H1 & Hw1 & H2 & Hset).
    simpl. rewrite H1. simpl. rewrite Hw1. simpl. rewrite H2. simpl.
    destruct (Z.leb_spec len (j + 1)).
    + exists bm2. rewrite Z.min_r by lia. replace (len - j) with 1 by lia. split; [|done].
      do 2 f_equal. symmetry. apply Z.leb_le. lia.
    + pose proof Hset as (Hwf2 & Hl2 & _).
      destruct (IH bm2 (n + 1) (j + 1)) as (bm' & Hu & Hset'); try done; try lia.
      exists bm'. set (c := Z.min (32 - n) (len - j)).
      replace (Z.min (32 - (n + 1)) (len - (j + 1))) with (c - 1) in * by lia.
      replace (j + 1 + (c - 1)) with (j + c) in Hu by lia. split; [done|].
      eapply (range_set_trans _ bm2 _ _ (i * 32 + n + 1)); [lia|done|].
      replace (i * 32 + n + c) with (i * 32 + (n + 1) + (c - 1)) by lia.
      by replace (i * 32 + n + 1) with (i * 32 + (n + 1)) by lia.
Qed.

Lemma update_words_spec fuel bm mark i n j len :
  bitmap_wf bm -> 0 <= i -> 0 <= n < 32 -> mark = 0 \/ mark = 1 ->
  0 <= j < len -> len - j < Z.of_nat fuel ->
  i * 32 + n + (len - j) <= 32 * Z.of_nat (length bm) ->
  exists bm', update_words fuel bm mark i n j len = Some bm' /\
    range_set bm bm' (i * 32 + n)
      (if i =? 0 then Z.min 32 (n + (len - j)) else i * 32 + n + (len - j))
      (mark =? 1).
Proof.
  revert bm i n j. induction fuel as [|fuel IH];
    intros bm i n j Hwf Hi Hn Hmark Hj Hfuel Hend; [lia|].
  destruct (update_word_spec (Z.to_nat (32 - n)) bm mark i n j len)
    as (bm1 & Hu & Hset); try done; try lia.
  simpl. change (SIZEOF_BITMAP_T - n) with (32 - n). rewrite Hu. simpl.
  set (c := Z.min (32 - n) (len - j)) in *.
  destruct (Z.leb_spec len (j + c)).
  - exists bm1. split; [done|]. zcase; subst.
    + by replace (Z.min 32 (n + (len - j))) with (0 * 32 + n + c) by lia.
    + by replace (i * 32 + n + (len - j)) with (i * 32 + n + c) by lia.
  - destruct (Z.eqb_spec i 0) as [->|Hi0].
    + exists bm1. split; [done|].
      by replace (Z.min 32 (n + (len - j))) with (0 * 32 + n + c) by lia.
    + pose proof Hset as (Hwf1 & Hl1 & _).
      destruct (IH bm1 (i + 1) 0 (j + c)) as (bm2 & Hu2 & Hset2); try done; try lia.
      exists bm2. split; [done|].
      destruct (Z.eqb_spec (i + 1) 0); [lia|].
      eapply (range_set_trans _ bm1 _ _ (i * 32 + n + c)); [lia|done|].
      replace (i * 32 + n + c) with ((i + 1) * 32 + 0) by lia.
      by replace (i * 32 + n + (len - j)) with ((i + 1) * 32 + 0 + (len - (j + c))) by lia.
Qed.

(** The block update, exactly. *)
Lemma block_update_spec bm mark start len size :
  bitmap_wf bm -> 0 <= start -> 0 < len -> 0 <= size ->
  start + len <= 32 * Z.of_nat (length bm) ->
  start + len <= size * 32 -> size * 32 < 2 ^ 32 ->
  exists bm', bitmap_block_update bm mark start len size = Some (0, bm') /\
    range_set bm bm' start (update_end start len) (Z.odd mark).
Proof.
  intros Hwf Hs Hl Hsz Hend Hb Hfit. unfold bitmap_block_update, SIZEOF_BITMAP_T.
  pose proof Hwf as [_ Hfit'].
  rewrite !u32_small by lia. zcase; [lia|].
  rewrite BIT2WORDI_eq, BIT2WBITOFF_eq by done.
  change 1 with (Z.ones 1) at 1. rewrite Z.land_ones by lia. change (2 ^ 1) with 2.
  destruct (update_words_spec (S (Z.to_nat len)) bm (mark mod 2) (start / 32)
              (start mod 32) 0 len) as (bm' & Hu & Hset);
    [done|dlia|dlia|dlia|lia|lia|dlia|].
  rewrite Hu. simpl. exists bm'. split; [done|].
  rewrite Zodd_mod.
  replace (start / 32 * 32 + start mod 32) with start in Hset by dlia.
  unfold update_end.
  replace (if start <? 32 then Z.min 32 (start + len) else start + len)
    with (if start / 32 =? 0 then Z.min 32 (start mod 32 + (len - 0))
          else start + (len - 0)); [done|].
  destruct (Z.eqb_spec (start / 32) 0), (Z.ltb_spec start 32); dlia.
Qed.

Lemma align_search_spec fuel begin len bm size balign :
  bitmap_wf bm -> 0 < len -> 0 <= begin -> size = 4 * Z.of_nat (length bm) ->
  0 < balign -> 32 * Z.of_nat (length bm) + balign < 2 ^ 32 ->
  size * 8 - begin < Z.of_nat fuel -> (0 < fuel)%nat ->
  match align_search fuel begin len bm size balign with
  | None => False
  | Some (inl err) => err = -1 \/ err = 1
  | Some (inr r) => block_free bm r len /\ r mod balign = 0
  end.
Proof.
  intros Hwf Hlen Hb Hsz Hal Hfit. revert begin Hb.
  induction fuel as [|fuel IH]; intros begin Hb Hfuel Hpos; [lia|].
  simpl. rewrite (u32_small (size * 8)) by lia.
  destruct (Z.leb_spec (size * 8) begin); [by left|].
  pose proof (search_s_spec bm begin len size Hwf Hlen Hb ltac:(lia) ltac:(dlia)) as Hs.
  destruct (bitmap_block_search_s begin len bm size) as [[r|]|]; simpl; [|by right|done].
  destruct Hs as [Hr Hf]. pose proof (block_free_range _ _ _ Hlen Hf).
  destruct (Z.eqb_spec balign 0); [lia|].
  destruct (Z.eqb_spec (r mod balign) 0); [done|].
  pose proof (Z.mod_pos_bound r balign ltac:(lia)).
  rewrite u32_small by lia. apply IH; lia.
Qed.

(** ** Deciding the abstract predicates *)

#[export] Instance bitmap_wf_dec bm : Decision (bitmap_wf bm).
Proof. unfold bitmap_wf. apply _. Defined.

#[export] Instance block_free_dec bm p len : Decision (block_free bm p len).
Proof.
  refine (cast_if (decide (Forall (fun q => bit bm q = Some false) (seqZ p len)))).
  - intros q Hq. rewrite Forall_forall in f. apply (f q), elem_of_seqZ. lia.
  - intros H. apply n. apply Forall_forall. intros q [??]%elem_of_seqZ. apply H. lia.
Defined.

(** ** Correctness of the bit map operations *)


Definition bm_example : list Z := [15; 0; 0].




(** An allocation that does not straddle word 0 hands out a block that
    was clear, and marks exactly that block as used, so that a second
    allocation returns a disjoint block. *)
Theorem bitmap_alloc_disjoint (bm bm1 bm2 : list Z) (len1 len2 p1 p2 : Z)
    (Hwf : bitmap_wf bm) (Hl1 : 0 < len1) (Hl2 : 0 < len2)
    (Ha1 : bitmap_block_alloc len1 bm (4 * Z.of_nat (length bm)) = Some (Some p1, bm1))
    (Ha2 : bitmap_block_alloc len2 bm1 (4 * Z.of_nat (length bm)) = Some (Some p2, bm2))
    (Hsz : 128 * Z.of_nat (length bm) < 2 ^ 32)
    (Hstraddle : 32 <= p1 \/ p1 + len1 <= 32) :
  block_free bm p1 len1 /\
  (forall q, 0 <= q ->
     bit bm1 q = if (p1 <=? q) && (q <? p1 + len1) then Some true else bit bm q) /\
  block_free bm p2 len2 /\ (p1 + len1 <= p2 \/ p2 + len2 <= p1).
Proof.
  assert (forall b len p b', bitmap_wf b -> 0 < len -> length b = length bm ->
            bitmap_block_alloc len b (4 * Z.of_nat (length bm)) = Some (Some p, b') ->
            block_free b p len /\ range_set b b' p (update_end p len) true) as Halloc.
  { intros b len p b' Hb Hl Heq. unfold bitmap_block_alloc, bitmap_block_search.
    pose proof (search_s_spec b 0 len (4 * Z.of_nat (length bm)) Hb Hl
                  ltac:(lia) ltac:(lia) ltac:(dlia)) as Hs.
    destruct (bitmap_block_search_s 0 len b _) as [[r|]|]; simpl; [|done|done].
    destruct Hs as [Hr Hf]. pose proof (block_free_range _ _ _ Hl Hf).
    destruct (block_update_spec b 1 r len (4 * Z.of_nat (length bm)))
      as (b'' & -> & Hset); try done; try lia.
    simpl. intros [= -> ->]. done. }
  destruct (Halloc bm len1 p1 bm1) as [Hf1 (Hwf1 & Hlen1 & Hb1)]; try done.
  destruct (Halloc bm1 len2 p2 bm2) as [Hf2 _]; try done.
  assert (update_end p1 len1 = p1 + len1) as He.
  { unfold update_end. zcase; lia. }
  rewrite He in Hb1. pose proof (block_free_range _ _ _ Hl2 Hf2).
  assert (forall q, p2 <= q < p2 + len2 -> ~ (p1 <= q < p1 + len1)) as Hdis.
  { intros q Hq Hq'. pose proof (Hf2 q Hq) as Hq2. rewrite Hb1 in Hq2 by lia.
    destruct (Z.leb_spec p1 q), (Z.ltb_spec q (p1 + len1)); simpl in Hq2; (done || lia). }
  split_and!; [done|done| |].
  - intros q Hq. pose proof (Hf2 q Hq) as Hq2. rewrite Hb1 in Hq2 by lia.
    destruct (Z.leb_spec p1 q), (Z.ltb_spec q (p1 + len1)); simpl in Hq2; done.
  - destruct (decide (p1 + len1 <= p2)); [by left|right].
    destruct (decide (p2 + len2 <= p1)); [done|exfalso].
    apply (Hdis (Z.max p1 p2)); lia.
Qed.

Lemma bitmap_alloc_disjoint_witness :
  exists bm1 bm2,
    bitmap_block_alloc 8 bm_example 12 = Some (Some 4, bm1) /\
    bitmap_block_alloc 8 bm1 12 = Some (Some 12, bm2) /\
    (4 + 8 <= 12 \/ 12 + 8 <= 4).
Proof.
  eexists _, _. split; [vm_compute; reflexivity|]. split; [vm_compute; reflexivity|].
  apply (bitmap_alloc_disjoint bm_example _ _ 8 8 4 12
           ltac:(by apply (bool_decide_unpack (bitmap_wf bm_example)))
           ltac:(lia) ltac:(lia) ltac:(vm_compute; reflexivity)
           ltac:(vm_compute; reflexivity) ltac:(done) ltac:(lia)).
Defined.

(** On an empty map of eight words an allocation of 40 bits is followed by
    an allocation of 10 bits that overlaps it: the update of a block which
    starts in word 0 stops at the end of that word. *)
Theorem bitmap_alloc_overlap :
  exists bm1 bm2 p1 p2,
    bitmap_block_alloc 40 (replicate 8 0) 32 = Some (Some p1, bm1) /\
    bitmap_block_alloc 10 bm1 32 = Some (Some p2, bm2) /\
    p1 <= p2 < p1 + 40.
Proof. eexists _, _, _, _. split; [vm_compute; reflexivity|]. split; [vm_compute; reflexivity|]. done. Qed.

(** The aligned allocation terminates without leaving the map; on success
    the block was clear before, starts at a multiple of [balign] and is used
    afterwards (as far as the update reaches); on failure the map is unchanged
    and the error is 1 or -1. *)
Theorem bitmap_align_alloc_correct (bm : list Z) (len balign : Z)
    (Hwf : bitmap_wf bm) (Hlen : 0 < len) (Hal : 0 < balign)
    (Hfit : 32 * Z.of_nat (length bm) + balign < 2 ^ 32)
    (Hsz : 128 * Z.of_nat (length bm) < 2 ^ 32) :
  match bitmap_block_align_alloc len bm (4 * Z.of_nat (length bm)) balign with
  | None => False
  | Some (inl err, bm') => bm' = bm /\ (err = 1 \/ err = -1)
  | Some (inr p, bm') =>
      block_free bm p len /\ p mod balign = 0 /\
      forall q, 0 <= q ->
        bit bm' q = if (p <=? q) && (q <? update_end p len) then Some true
                    else bit bm q
  end.
Proof.
  unfold bitmap_block_align_alloc.
  pose proof (align_search_spec (S (Z.to_nat (4 * Z.of_nat (length bm) * 8))) 0 len bm
    (4 * Z.of_nat (length bm)) balign Hwf Hlen ltac:(lia) ltac:(lia) Hal Hfit
    ltac:(lia) ltac:(lia)) as Hs.
  destruct (align_search _ _ _ _ _ _) as [[err|r]|]; cbn [mbind option_bind];
    [split; [done|tauto]| |done].
  destruct Hs as [Hf Hm]. pose proof (block_free_range _ _ _ Hlen Hf).
  destruct (block_update_spec bm 1 r len (4 * Z.of_nat (length bm)))
    as (b' & -> & Hset); try done; try lia.
  simpl. destruct Hset as (_ & _ & Hset). done.
Qed.

Lemma bitmap_align_alloc_correct_witness :
  exists p bm', bitmap_block_align_alloc 8 bm_example 12 16 = Some (inr p, bm') /\
    p mod 16 = 0 /\ block_free bm_example p 8.
Proof.
  pose proof (bitmap_align_alloc_correct bm_example 8 16
    ltac:(by apply (bool_decide_unpack (bitmap_wf bm_example)))
    ltac:(done) ltac:(done) ltac:(done) ltac:(done)) as H.
  destruct (bitmap_block_align_alloc 8 bm_example (4 * Z.of_nat (length bm_example)) 16)
    as [[[e|p] bm']|] eqn:E; vm_compute in E; [done| |done].
  exists p, bm'. split; [vm_compute; exact E|]. tauto.
Defined.
