(* ===== verification/QueueR.v ===== *)
(** * Ring buffer queues: kern/libkern/queue_r.c

    The control block [queue_cb] with the byte array it points to.  A pointer
    into the data array is the offset of the byte it points to.  [None] is an
    access outside of the data array or a division by a zero [a_len]. *)
From S2P Require Import Prelude.

(** ** The code *)

Record queue_cb := QueueCb {
  data : list Z;       (* the bytes of the data array *)
  b_size : Z;          (* block size in bytes *)
  a_len : Z;           (* array length in blocks *)
  m_write : Z;
  m_read : Z
}.

Definition set_write (cb : queue_cb) (w : Z) : queue_cb :=
  QueueCb (data cb) (b_size cb) (a_len cb) w (m_read cb).
Definition set_read (cb : queue_cb) (r : Z) : queue_cb :=
  QueueCb (data cb) (b_size cb) (a_len cb) (m_write cb) r.
Definition set_data (cb : queue_cb) (d : list Z) : queue_cb :=
  QueueCb d (b_size cb) (a_len cb) (m_write cb) (m_read cb).

(** [x % y] on [size_t]: undefined for a zero divisor. *)
Definition umod (x y : Z) : option Z := if y =? 0 then None else Some (x mod y).

Definition queue_create (data_array : list Z) (block_size array_size : Z)
    : option queue_cb :=
  if block_size =? 0 then None
  else Some (QueueCb data_array block_size (array_size / block_size) 0 0).

Definition queue_push (cb : queue_cb) (element : list Z) : option (Z * queue_cb) :=
  next_element ← umod (u32 (m_write cb + 1)) (a_len cb);
  if next_element =? m_read cb then Some (0, cb)
  else
    element' ← fetch element 0 (b_size cb);
    d ← splice (data cb) (u32 (m_write cb * b_size cb)) element';
    Some (1, set_write (set_data cb d) next_element).

(** [Some None] is the NULL pointer. *)
Definition queue_alloc_get (cb : queue_cb) : option (option Z) :=
  let write := m_write cb in
  next_element ← umod (u32 (write + 1)) (a_len cb);
  if next_element =? m_read cb then Some None
  else Some (Some (u32 (write * b_size cb))).

Definition queue_alloc_commit (cb : queue_cb) : option queue_cb :=
  next_element ← umod (u32 (m_write cb + 1)) (a_len cb);
  Some (set_write cb next_element).

(** The popped element is [Some bytes] when 1 is returned. *)
Definition queue_pop (cb : queue_cb) : option (Z * option (list Z) * queue_cb) :=
  let read := m_read cb in
  let write := m_write cb in
  if read =? write then Some (0, None, cb)
  else
    next_element ← umod (u32 (read + 1)) (a_len cb);
    element ← fetch (data cb) (u32 (read * b_size cb)) (b_size cb);
    Some (1, Some element, set_read cb next_element).

Definition queue_peek (cb : queue_cb) : Z * option Z :=
  let read := m_read cb in
  if read =? m_write cb then (0, None)
  else (1, Some (u32 (read * b_size cb))).

(** [for (count = 0; count < n; count++)] with [k] iterations to go. *)
Fixpoint skip_loop (k : nat) (count : Z) (cb : queue_cb) : option (Z * queue_cb) :=
  match k with
  | O => Some (count, cb)
  | S k' =>
      let read := m_read cb in
      if read =? m_write cb then Some (count, cb)
      else r ← umod (u32 (read + 1)) (a_len cb);
           skip_loop k' (count + 1) (set_read cb r)
  end.

Definition queue_skip (cb : queue_cb) (n : Z) : option (Z * queue_cb) :=
  skip_loop (Z.to_nat n) 0 cb.

Definition queue_clear_from_push_end (cb : queue_cb) : queue_cb :=
  set_write cb (m_read cb).
Definition queue_clear_from_pop_end (cb : queue_cb) : queue_cb :=
  set_read cb (m_write cb).

Definition queue_isempty (cb : queue_cb) : bool := m_write cb =? m_read cb.

Definition queue_isfull (cb : queue_cb) : option bool :=
  next ← umod (u32 (m_write cb + 1)) (a_len cb); Some (next =? m_read cb).

Definition seek (cb : queue_cb) (i : Z) : option (Z * option (list Z)) :=
  let read := m_read cb in
  let write := m_write cb in
  r ← umod read (a_len cb);
  if r =? write then Some (0, None)
  else
    element_i ← umod (u32 (read + i)) (a_len cb);
    if element_i =? write then Some (0, None)
    else element ← fetch (data cb) (u32 (element_i * b_size cb)) (b_size cb);
         Some (1, Some element).

(** ** The abstract queue *)

(** Block [i] of the data array, the number of stored blocks and the stored
    blocks in the order in which they were pushed. *)
Definition block (cb : queue_cb) (i : Z) : list Z :=
  slice (data cb) (i * b_size cb) (b_size cb).

Definition count (cb : queue_cb) : Z := (m_write cb - m_read cb) mod a_len cb.

Definition contents (cb : queue_cb) : list (list Z) :=
  (fun k => block cb ((m_read cb + k) mod a_len cb)) <$> seqZ 0 (count cb).

Record queue_inv (cb : queue_cb) : Prop := {
  inv_bsize : 0 < b_size cb;
  inv_read : 0 <= m_read cb < a_len cb;
  inv_write : 0 <= m_write cb < a_len cb;
  inv_data : a_len cb * b_size cb <= Z.of_nat (length (data cb));
  inv_fit : Z.of_nat (length (data cb)) < 2 ^ 32
}.

(** ** Index arithmetic *)

Lemma mod_wrap a l : 0 < l -> 0 <= a < 2 * l ->
  a mod l = if a <? l then a else a - l.
Proof.
  intros. zcase; [apply Z.mod_small; lia|].
  symmetry. apply (Z.mod_unique_pos a l 1); lia.
Qed.

Lemma mod_wrap_neg a l : 0 < l -> - l < a < l ->
  a mod l = if a <? 0 then a + l else a.
Proof.
  intros. zcase; [|apply Z.mod_small; lia].
  symmetry. apply (Z.mod_unique_pos a l (-1)); lia.
Qed.

Section indices.
Context (cb : queue_cb) (Hinv : queue_inv cb).

Lemma inv_alen : 0 < a_len cb < 2 ^ 32.
Proof. destruct Hinv. split; [lia|]. nia. Qed.

Lemma count_wrap : count cb =
  if m_write cb <? m_read cb then m_write cb - m_read cb + a_len cb
  else m_write cb - m_read cb.
Proof.
  destruct Hinv. unfold count. rewrite mod_wrap_neg by lia.
  do 2 zcase; lia.
Qed.

Lemma count_range : 0 <= count cb < a_len cb.
Proof. rewrite count_wrap. destruct Hinv. zcase; lia. Qed.

Lemma length_contents : Z.of_nat (length (contents cb)) = count cb.
Proof.
  unfold contents. rewrite length_fmap, length_seqZ.
  pose proof count_range. lia.
Qed.

(** The index [m_write] advances to. *)
Lemma next_write : umod (u32 (m_write cb + 1)) (a_len cb) =
  Some (if m_write cb + 1 <? a_len cb then m_write cb + 1 else 0).
Proof.
  pose proof inv_alen. destruct Hinv. unfold umod. rewrite (proj2 (Z.eqb_neq _ _)) by lia.
  rewrite u32_small, mod_wrap by lia. repeat zcase; f_equal; lia.
Qed.

Lemma next_read : umod (u32 (m_read cb + 1)) (a_len cb) =
  Some (if m_read cb + 1 <? a_len cb then m_read cb + 1 else 0).
Proof.
  pose proof inv_alen. destruct Hinv. unfold umod. rewrite (proj2 (Z.eqb_neq _ _)) by lia.
  rewrite u32_small, mod_wrap by lia. repeat zcase; f_equal; lia.
Qed.

Lemma block_offset i : 0 <= i < a_len cb ->
  0 <= i * b_size cb /\ i * b_size cb + b_size cb <= Z.of_nat (length (data cb)) /\
  u32 (i * b_size cb) = i * b_size cb.
Proof.
  intros Hi. destruct Hinv.
  assert (i * b_size cb + b_size cb <= a_len cb * b_size cb) by nia.
  split_and!; [nia|lia|]. apply u32_small. nia.
Qed.

Lemma length_block i : 0 <= i < a_len cb ->
  Z.of_nat (length (block cb i)) = b_size cb.
Proof.
  intros Hi. destruct (block_offset i Hi) as (? & ? & _). destruct Hinv.
  apply length_slice; lia.
Qed.
End indices.

(** Blocks at different indices do not overlap. *)
Lemma block_disjoint b i j : 0 < b -> i <> j ->
  j * b + b <= i * b \/ i * b + b <= j * b.
Proof. intros. nia. Qed.

Lemma contents_snoc (f : Z -> list Z) c : 0 <= c ->
  f <$> seqZ 0 (c + 1) = (f <$> seqZ 0 c) ++ [f c].
Proof. intros. rewrite seqZ_app, fmap_app by lia. done. Qed.

Lemma contents_cons (f : Z -> list Z) c : 0 < c ->
  f <$> seqZ 0 c = f 0 :: ((fun k => f (k + 1)) <$> seqZ 0 (c - 1)).
Proof.
  intros. rewrite seqZ_cons by lia. simpl. f_equal.
  change (Z.succ 0) with (1 + 0). rewrite <-fmap_add_seqZ, <-list_fmap_compose.
  apply list_fmap_ext. intros ? k _. simpl. f_equal. lia.
Qed.

(** ** What each operation does to the abstract queue *)

Lemma create_spec d bs asz :
  0 < bs -> bs <= asz -> asz <= Z.of_nat (length d) < 2 ^ 32 ->
  exists cb, queue_create d bs asz = Some cb /\ queue_inv cb /\
             contents cb = [] /\ a_len cb = asz / bs /\ b_size cb = bs.
Proof.
  intros. unfold queue_create. zcase; [lia|]. eexists. split; [done|].
  pose proof (Z.div_str_pos asz bs ltac:(lia)).
  pose proof (Z.mul_div_le asz bs ltac:(lia)).
  split_and!; [|done|done|done]. split; simpl; lia.
Qed.

Lemma push_spec cb e :
  queue_inv cb -> Z.of_nat (length e) = b_size cb ->
  if Z.of_nat (length (contents cb)) =? a_len cb - 1 then
    queue_push cb e = Some (0, cb)
  else exists cb', queue_push cb e = Some (1, cb') /\ queue_inv cb' /\
         contents cb' = contents cb ++ [e] /\ a_len cb' = a_len cb /\
         b_size cb' = b_size cb.
Proof.
  intros Hinv He. rewrite (length_contents cb Hinv). unfold queue_push.
  rewrite (next_write cb Hinv), (count_wrap cb Hinv). simpl.
  pose proof (inv_alen cb Hinv) as HL. pose proof Hinv as [Hb Hr Hw Hd Hf].
  set (nx := if m_write cb + 1 <? a_len cb then m_write cb + 1 else 0) in *.
  assert (0 <= nx < a_len cb) by (subst nx; zcase; lia).
  destruct (Z.eqb_spec nx (m_read cb)) as [Hfull|Hfull].
  { replace (_ =? a_len cb - 1) with true; [done|]. symmetry. apply Z.eqb_eq.
    subst nx. zsolve. }
  replace (_ =? a_len cb - 1) with false
    by (symmetry; apply Z.eqb_neq; subst nx; zsolve).
  rewrite fetch_Some by lia. simpl.
  replace (slice e 0 (b_size cb)) with e
    by (unfold slice; rewrite drop_0; symmetry; apply take_ge; lia).
  destruct (block_offset cb Hinv (m_write cb) Hw) as (? & ? & ->).
  destruct (splice_Some (data cb) (m_write cb * b_size cb) e) as [d Hs]; [lia|lia|].
  rewrite Hs. simpl. eexists. split; [done|].
  pose proof (splice_length _ _ _ _ Hs).
  assert (queue_inv (set_write (set_data cb d) nx)) as Hinv' by (split; simpl; lia).
  split_and!; [done| |done|done]. unfold contents at 1.
  assert (count (set_write (set_data cb d) nx) = count cb + 1) as ->.
  { rewrite (count_wrap _ Hinv'), (count_wrap _ Hinv). simpl.
    subst nx. zsolve. }
  pose proof (count_range cb Hinv) as Hc.
  rewrite contents_snoc by lia. f_equal.
  - apply list_fmap_ext. intros ? k Hk%list_elem_of_lookup_2%elem_of_seqZ.
    simpl. unfold block; simpl.
    eapply slice_splice_disjoint; [exact Hs|apply Z.mul_nonneg_nonneg; [|lia]|].
    { apply Z.mod_pos_bound; lia. }
    rewrite He. apply block_disjoint; [lia|].
    rewrite mod_wrap by lia. rewrite (count_wrap cb Hinv) in Hk.
    zsolve.
  - f_equal. simpl. unfold block; simpl.
    replace ((m_read cb + count cb) mod a_len cb) with (m_write cb).
    + rewrite <-He at 2. by apply slice_splice_eq with (l := data cb).
    + rewrite mod_wrap by lia. rewrite (count_wrap cb Hinv). zsolve.
Qed.

(** Advancing [m_read] by one drops the oldest element. *)
Lemma advance_spec cb :
  queue_inv cb -> m_read cb <> m_write cb ->
  exists r', umod (u32 (m_read cb + 1)) (a_len cb) = Some r' /\
    queue_inv (set_read cb r') /\
    contents cb = block cb (m_read cb) :: contents (set_read cb r') /\
    count (set_read cb r') = count cb - 1.
Proof.
  intros Hinv Hne. rewrite (next_read cb Hinv).
  set (nx := if m_read cb + 1 <? a_len cb then m_read cb + 1 else 0).
  pose proof Hinv as [Hb Hr Hw Hd Hf].
  exists nx. split; [done|].
  assert (0 <= nx < a_len cb) by (subst nx; zsolve).
  assert (queue_inv (set_read cb nx)) as Hinv' by (split; simpl; lia).
  assert (count (set_read cb nx) = count cb - 1) as Hc.
  { rewrite (count_wrap _ Hinv'), (count_wrap _ Hinv). simpl. subst nx. zsolve. }
  split_and!; [done| |done]. unfold contents. rewrite Hc.
  pose proof (count_range _ Hinv') as Hc0.
  rewrite contents_cons by lia. f_equal.
  { rewrite Z.add_0_r, Z.mod_small by lia. done. }
  apply list_fmap_ext. intros ? k Hk%list_elem_of_lookup_2%elem_of_seqZ. simpl.
  pose proof (count_range _ Hinv).
  replace ((m_read cb + (k + 1)) mod a_len cb) with ((nx + k) mod a_len cb); [done|].
  rewrite !mod_wrap by (subst nx; zsolve). subst nx. zsolve.
Qed.

Lemma empty_iff cb : queue_inv cb -> (contents cb = [] <-> m_read cb = m_write cb).
Proof.
  intros Hinv. rewrite <-length_zero_iff_nil.
  pose proof (length_contents cb Hinv) as Hl.
  rewrite (count_wrap cb Hinv) in Hl. destruct Hinv. zsolve.
Qed.

Lemma pop_spec cb :
  queue_inv cb ->
  match contents cb with
  | [] => queue_pop cb = Some (0, None, cb)
  | x :: q => exists cb', queue_pop cb = Some (1, Some x, cb') /\ queue_inv cb' /\
                contents cb' = q /\ a_len cb' = a_len cb /\ b_size cb' = b_size cb
  end.
Proof.
  intros Hinv. unfold queue_pop. pose proof (empty_iff cb Hinv) as Hemp.
  destruct (Z.eqb_spec (m_read cb) (m_write cb)) as [E|E].
  { by rewrite (proj2 Hemp E). }
  destruct (advance_spec cb Hinv E) as (r' & -> & Hinv' & -> & _). simpl.
  destruct (block_offset cb Hinv (m_read cb) (inv_read _ Hinv)) as (? & ? & ->).
  rewrite fetch_Some by lia. simpl. eexists. split; [done|]. done.
Qed.

Lemma peek_spec cb :
  queue_inv cb ->
  match contents cb with
  | [] => queue_peek cb = (0, None)
  | x :: _ => exists off, queue_peek cb = (1, Some off) /\
                fetch (data cb) off (b_size cb) = Some x
  end.
Proof.
  intros Hinv. unfold queue_peek. pose proof (empty_iff cb Hinv) as Hemp.
  destruct (Z.eqb_spec (m_read cb) (m_write cb)) as [E|E].
  { by rewrite (proj2 Hemp E). }
  destruct (advance_spec cb Hinv E) as (r' & _ & _ & -> & _).
  destruct (block_offset cb Hinv (m_read cb) (inv_read _ Hinv)) as (? & ? & ->).
  eexists. split; [done|]. by apply fetch_Some.
Qed.

Lemma skip_loop_spec k c cb :
  queue_inv cb ->
  exists cb', skip_loop k c cb =
      Some (c + Z.of_nat (Nat.min k (length (contents cb))), cb') /\
    queue_inv cb' /\ contents cb' = drop k (contents cb) /\
    a_len cb' = a_len cb /\ b_size cb' = b_size cb.
Proof.
  revert c cb. induction k as [|k IH]; intros c cb Hinv; simpl.
  { exists cb. split; [|done]. do 2 f_equal. lia. }
  pose proof (empty_iff cb Hinv) as Hemp.
  destruct (Z.eqb_spec (m_read cb) (m_write cb)) as [E|E].
  { rewrite (proj2 Hemp E). exists cb. simpl. rewrite Z.add_0_r. tauto. }
  destruct (advance_spec cb Hinv E) as (r' & -> & Hinv' & Hc & _). simpl.
  destruct (IH (c + 1) _ Hinv') as (cb' & -> & ? & Hd & ? & ?).
  exists cb'. rewrite Hc. simpl. split_and!; [|done|done|done|done].
  do 2 f_equal. lia.
Qed.

(** [queue_alloc_get] points to the block that [queue_alloc_commit] will
    append, and writing that block does not touch the stored ones. *)
Lemma alloc_commit_spec cb e :
  queue_inv cb -> Z.of_nat (length e) = b_size cb ->
  if Z.of_nat (length (contents cb)) =? a_len cb - 1 then
    queue_alloc_get cb = Some None
  else exists off d cb', queue_alloc_get cb = Some (Some off) /\
         splice (data cb) off e = Some d /\
         contents (set_data cb d) = contents cb /\
         queue_alloc_commit (set_data cb d) = Some cb' /\ queue_inv cb' /\
         contents cb' = contents cb ++ [e].
Proof.
  intros Hinv He. pose proof (push_spec cb e Hinv He) as Hp.
  unfold queue_push, queue_alloc_get, queue_alloc_commit in *. simpl.
  rewrite (next_write cb Hinv) in *. cbn [mbind option_bind] in *.
  set (nx := if m_write cb + 1 <? a_len cb then m_write cb + 1 else 0) in *.
  destruct (Z.eqb_spec (Z.of_nat (length (contents cb))) (a_len cb - 1)) as [E|E].
  - destruct (Z.eqb_spec nx (m_read cb)); [done|].
    rewrite fetch_Some in Hp by (destruct Hinv; lia). simpl in Hp.
    by destruct (splice _ _ _).
  - destruct Hp as (cb' & Hp & Hinv' & Hc & _).
    destruct (Z.eqb_spec nx (m_read cb)); [done|].
    rewrite fetch_Some in Hp by (destruct Hinv; lia). simpl in Hp.
    replace (slice e 0 (b_size cb)) with e in Hp
      by (unfold slice; rewrite drop_0; symmetry; apply take_ge; lia).
    destruct (splice (data cb) _ e) as [d|] eqn:Hs; [|done]. simpl in Hp.
    injection Hp as <-. exists (u32 (m_write cb * b_size cb)), d. eexists.
    split_and!; [done|exact Hs| |done|done|exact Hc].
    assert (removelast (contents cb ++ [e]) = contents cb) as <- by apply removelast_last.
    rewrite <-Hc. unfold contents.
    assert (queue_inv (set_data cb d)) as Hinv2.
    { pose proof (splice_length _ _ _ _ Hs). destruct Hinv. split; simpl; lia. }
    pose proof (length_contents _ Hinv') as Hl. rewrite Hc, length_app in Hl. simpl in Hl.
    pose proof (length_contents _ Hinv) as Hl0.
    replace (count (set_write (set_data cb d) _)) with (count cb + 1) by lia.
    pose proof (count_range _ Hinv).
    rewrite contents_snoc by lia. rewrite removelast_last. done.
Qed.

Lemma seek_spec cb i :
  queue_inv cb -> 2 * a_len cb <= 2 ^ 32 -> 0 <= i < count cb ->
  exists x, contents cb !! Z.to_nat i = Some x /\ seek cb i = Some (1, Some x).
Proof.
  intros Hinv Hfit Hi. pose proof (count_range cb Hinv) as Hc.
  pose proof (count_wrap cb Hinv) as Hcw. pose proof Hinv as [Hb Hr Hw Hd Hf].
  set (e := (m_read cb + i) mod a_len cb).
  exists (block cb e). split.
  { unfold contents. rewrite list_lookup_fmap, lookup_seqZ_lt by lia. simpl.
    subst e. do 4 f_equal. lia. }
  unfold seek, umod. rewrite (proj2 (Z.eqb_neq (a_len cb) 0)) by lia. simpl.
  rewrite (Z.mod_small (m_read cb)), u32_small by lia. fold e.
  assert (0 <= e < a_len cb) as He by (apply Z.mod_pos_bound; lia).
  rewrite !(proj2 (Z.eqb_neq _ _)).
  - destruct (block_offset cb Hinv e He) as (? & ? & ->). by rewrite fetch_Some by lia.
  - subst e. rewrite mod_wrap by lia. zsolve.
  - intros E. rewrite E in *. zsolve.
Qed.

(** ** Refinement to a bounded FIFO queue *)

(** The operations of the interface; [QAlloc e] is the in-place insertion:
    [queue_alloc_get], a write of the block through the returned pointer and
    [queue_alloc_commit]. *)
Inductive qop :=
  | QPush (e : list Z) | QAlloc (e : list Z) | QPop | QPeek
  | QSkip (n : Z) | QClearPush | QClearPop | QIsEmpty | QIsFull.

Inductive qres := RInt (z : Z) | RElem (x : option (list Z)) | RBool (b : bool).

Definition queue_step (cb : queue_cb) (op : qop) : option (qres * queue_cb) :=
  match op with
  | QPush e => '(r, cb') ← queue_push cb e; Some (RInt r, cb')
  | QAlloc e =>
      p ← queue_alloc_get cb;
      match p with
      | None => Some (RInt 0, cb)
      | Some off =>
          d ← splice (data cb) off e;
          cb' ← queue_alloc_commit (set_data cb d);
          Some (RInt 1, cb')
      end
  | QPop => '(_, x, cb') ← queue_pop cb; Some (RElem x, cb')
  | QPeek =>
      match queue_peek cb with
      | (_, None) => Some (RElem None, cb)
      | (_, Some off) => x ← fetch (data cb) off (b_size cb); Some (RElem (Some x), cb)
      end
  | QSkip n => '(r, cb') ← queue_skip cb n; Some (RInt r, cb')
  | QClearPush => Some (RInt 0, queue_clear_from_push_end cb)
  | QClearPop => Some (RInt 0, queue_clear_from_pop_end cb)
  | QIsEmpty => Some (RBool (queue_isempty cb), cb)
  | QIsFull => b ← queue_isfull cb; Some (RBool b, cb)
  end.

(** The specification: a list that holds at most [cap] elements. *)
Definition fifo_step (cap : Z) (q : list (list Z)) (op : qop) : qres * list (list Z) :=
  match op with
  | QPush e | QAlloc e =>
      if Z.of_nat (length q) =? cap then (RInt 0, q) else (RInt 1, q ++ [e])
  | QPop => match q with [] => (RElem None, q) | x :: q' => (RElem (Some x), q') end
  | QPeek => (RElem (head q), q)
  | QSkip n => (RInt (Z.of_nat (Nat.min (Z.to_nat n) (length q))), drop (Z.to_nat n) q)
  | QClearPush | QClearPop => (RInt 0, [])
  | QIsEmpty => (RBool (bool_decide (q = [])), q)
  | QIsFull => (RBool (Z.of_nat (length q) =? cap), q)
  end.

Fixpoint queue_run (cb : queue_cb) (ops : list qop) : option (list qres * queue_cb) :=
  match ops with
  | [] => Some ([], cb)
  | op :: ops' =>
      '(r, cb1) ← queue_step cb op;
      '(rs, cb2) ← queue_run cb1 ops';
      Some (r :: rs, cb2)
  end.

Fixpoint fifo_run (cap : Z) (q : list (list Z)) (ops : list qop)
    : list qres * list (list Z) :=
  match ops with
  | [] => ([], q)
  | op :: ops' =>
      let '(r, q1) := fifo_step cap q op in
      let '(rs, q2) := fifo_run cap q1 ops' in
      (r :: rs, q2)
  end.

(** Pushed elements have the block size of the queue. *)
Definition op_ok (bs : Z) (op : qop) : Prop :=
  match op with
  | QPush e | QAlloc e => Z.of_nat (length e) = bs
  | _ => True
  end.

#[export] Instance op_ok_dec bs op : Decision (op_ok bs op).
Proof. destruct op; simpl; apply _. Defined.

(** A queue represents the list [q]. *)
Definition represents (cb : queue_cb) (bs cap : Z) (q : list (list Z)) : Prop :=
  queue_inv cb /\ b_size cb = bs /\ a_len cb - 1 = cap /\ contents cb = q.

Lemma clear_represents cb bs cap q i :
  represents cb bs cap q -> 0 <= i < a_len cb ->
  represents (QueueCb (data cb) (b_size cb) (a_len cb) i i) bs cap [].
Proof.
  intros (Hinv & Hb & Hc & _) Hi.
  assert (queue_inv (QueueCb (data cb) (b_size cb) (a_len cb) i i)) as Hinv'
    by (destruct Hinv; split; simpl; lia).
  split_and!; [done|done|done|]. by apply empty_iff.
Qed.

Lemma isfull_spec cb : queue_inv cb ->
  queue_isfull cb = Some (Z.of_nat (length (contents cb)) =? a_len cb - 1).
Proof.
  intros Hinv. unfold queue_isfull. rewrite (next_write cb Hinv). simpl. f_equal.
  rewrite (length_contents cb Hinv), (count_wrap cb Hinv). destruct Hinv.
  apply Bool.eq_iff_eq_true. rewrite !Z.eqb_eq. zsolve.
Qed.

Lemma queue_step_refines cb bs cap q op :
  represents cb bs cap q -> op_ok bs op ->
  exists cb', queue_step cb op = Some ((fifo_step cap q op).1, cb') /\
              represents cb' bs cap (fifo_step cap q op).2.
Proof.
  intros Hrep Hop. pose proof Hrep as (Hinv & <- & <- & <-).
  destruct op as [e|e| | |n| | | |]; cbn [queue_step fifo_step op_ok] in *.
  - pose proof (push_spec cb e Hinv Hop) as H. case_match.
    + rewrite H. simpl. eauto.
    + destruct H as (cb' & -> & ? & ? & Ha & ?). simpl. exists cb'.
      split; [done|]. split_and!; [done|done|lia|done].
  - pose proof (alloc_commit_spec cb e Hinv Hop) as H. case_match.
    + rewrite H. simpl. eauto.
    + destruct H as (off & d & cb' & -> & Hs & _ & Hcm & ? & ?). simpl. rewrite Hs. simpl.
      rewrite Hcm. simpl. exists cb'. split; [done|].
      unfold queue_alloc_commit in Hcm. simpl in Hcm.
      destruct (umod _ _); [|done]. simpl in Hcm. injection Hcm as <-. done.
  - pose proof (pop_spec cb Hinv) as H. destruct (contents cb) as [|x q'] eqn:E.
    + rewrite H. simpl. exists cb. by rewrite <-E.
    + destruct H as (cb' & -> & ? & ? & Ha & ?). simpl. exists cb'. split; [done|].
      split_and!; [done|done|lia|done].
  - pose proof (peek_spec cb Hinv) as H. destruct (contents cb) as [|x q'] eqn:E.
    + rewrite H. simpl. exists cb. by rewrite <-E.
    + destruct H as (off & -> & ->). simpl. exists cb. by rewrite <-E.
  - unfold queue_skip. destruct (skip_loop_spec (Z.to_nat n) 0 cb Hinv)
      as (cb' & -> & ? & ? & Ha & ?).
    simpl. exists cb'. split; [done|]. split_and!; [done|done|lia|done].
  - eexists. split; [done|]. eapply (clear_represents cb); [done|]. apply Hinv.
  - eexists. split; [done|]. eapply (clear_represents cb); [done|]. apply Hinv.
  - exists cb. split; [|done]. simpl. do 3 f_equal. unfold queue_isempty.
    apply Bool.eq_iff_eq_true. rewrite Z.eqb_eq, bool_decide_eq_true, empty_iff; done.
  - rewrite (isfull_spec cb Hinv). simpl. eauto.
Qed.

Lemma queue_run_refines cb bs cap q ops :
  represents cb bs cap q -> Forall (op_ok bs) ops ->
  exists cb', queue_run cb ops = Some ((fifo_run cap q ops).1, cb') /\
              represents cb' bs cap (fifo_run cap q ops).2.
Proof.
  intros Hrep Hops. revert cb q Hrep. induction Hops as [|op ops Hop Hops IH];
    intros cb q Hrep; simpl; [eauto|].
  destruct (queue_step_refines cb bs cap q op Hrep Hop) as (cb1 & -> & Hrep1). simpl.
  destruct (fifo_step cap q op) as [r q1] eqn:E. simpl in *.
  destruct (IH cb1 q1 Hrep1) as (cb2 & -> & Hrep2). simpl.
  destruct (fifo_run cap q1 ops) as [rs q2]. simpl in *. eauto.
Qed.

(** C16. A ring buffer made by [queue_create] behaves, over every sequence of
    operations, exactly like a FIFO queue of capacity [a_len - 1]: no
    operation leaves the data array, and every result agrees. *)
Theorem queue_refines_fifo (d : list Z) (bs asz : Z) (ops : list qop)
    (Hbs : 0 < bs) (Hasz : bs <= asz)
    (Hd : asz <= Z.of_nat (length d) < 2 ^ 32)
    (Hops : Forall (op_ok bs) ops) :
  exists cb cb', queue_create d bs asz = Some cb /\
    queue_run cb ops = Some ((fifo_run (asz / bs - 1) [] ops).1, cb') /\
    contents cb' = (fifo_run (asz / bs - 1) [] ops).2.
Proof.
  destruct (create_spec d bs asz Hbs Hasz Hd) as (cb & Hc & Hinv & Hnil & Ha & Hb).
  destruct (queue_run_refines cb bs (asz / bs - 1) [] ops) as (cb' & Hr & Hrep); [|done|].
  { split_and!; [done|done|lia|done]. }
  exists cb, cb'. split_and!; [done|done|]. apply Hrep.
Qed.

Definition queue_example : list qop :=
  [QPush [1; 2]; QPush [3; 4]; QIsFull; QPush [5; 6]; QPop; QAlloc [7; 8]; QPeek;
   QSkip 1; QPop; QIsEmpty].

Lemma queue_refines_fifo_witness :
  exists cb cb', queue_create (replicate 7 0) 2 7 = Some cb /\
    queue_run cb queue_example =
      Some ([RInt 1; RInt 1; RBool true; RInt 0; RElem (Some [1; 2]); RInt 1;
             RElem (Some [3; 4]); RInt 1; RElem (Some [7; 8]); RBool true], cb').
Proof.
  destruct (queue_refines_fifo (replicate 7 0) 2 7 queue_example)
    as (cb & cb' & H1 & H2 & _); [done|done|done| |].
  - by apply (bool_decide_unpack (Forall (op_ok 2) queue_example)).
  - exists cb, cb'. split; [exact H1|]. rewrite H2. reflexivity.
Defined.

(** [seek] reads the [i]-th stored element without removing it. *)
Theorem queue_seek_reads (cb : queue_cb) (i : Z) (Hinv : queue_inv cb)
    (Hfit : 2 * a_len cb <= 2 ^ 32) (Hi : 0 <= i < Z.of_nat (length (contents cb))) :
  exists x, contents cb !! Z.to_nat i = Some x /\ seek cb i = Some (1, Some x).
Proof. apply seek_spec; [done..|]. by rewrite <-length_contents. Qed.

Lemma queue_seek_reads_witness :
  seek (QueueCb [10; 20; 30; 40] 1 4 1 2) 2 = Some (1, Some [10]).
Proof.
  destruct (queue_seek_reads (QueueCb [10; 20; 30; 40] 1 4 1 2) 2) as (x & Hx & Hs);
    [split; simpl; lia|done|vm_compute; split; congruence|].
  vm_compute in Hx. injection Hx as <-. exact Hs.
Defined.

(** ** The interface offered to other components

    A FIFO queue of fixed-size blocks; [fq_capacity] elements fit. The laws
    are those of a bounded list and say nothing about the representation. *)
Class FifoQueue (Q : Type) := {
  fq_push : Q -> list Z -> option (Z * Q);
  fq_pop : Q -> option (Z * option (list Z) * Q);
  fq_ok : Q -> Prop;
  fq_contents : Q -> list (list Z);
  fq_capacity : Q -> Z;
  fq_bsize : Q -> Z;
  fq_bound : forall q, fq_ok q -> Z.of_nat (length (fq_contents q)) <= fq_capacity q;
  fq_push_full : forall q e, fq_ok q -> Z.of_nat (length e) = fq_bsize q ->
    Z.of_nat (length (fq_contents q)) = fq_capacity q -> fq_push q e = Some (0, q);
  fq_push_room : forall q e, fq_ok q -> Z.of_nat (length e) = fq_bsize q ->
    Z.of_nat (length (fq_contents q)) <> fq_capacity q ->
    exists q', fq_push q e = Some (1, q') /\ fq_ok q' /\
      fq_contents q' = fq_contents q ++ [e] /\
      fq_capacity q' = fq_capacity q /\ fq_bsize q' = fq_bsize q;
  fq_pop_empty : forall q, fq_ok q -> fq_contents q = [] -> fq_pop q = Some (0, None, q);
  fq_pop_cons : forall q x xs, fq_ok q -> fq_contents q = x :: xs ->
    exists q', fq_pop q = Some (1, Some x, q') /\ fq_ok q' /\ fq_contents q' = xs /\
      fq_capacity q' = fq_capacity q /\ fq_bsize q' = fq_bsize q
}.

#[export] Program Instance queue_cb_fifo : FifoQueue queue_cb := {|
  fq_push := queue_push;
  fq_pop := queue_pop;
  fq_ok := queue_inv;
  fq_contents := contents;
  fq_capacity := fun cb => a_len cb - 1;
  fq_bsize := b_size
|}.
Next Obligation.
  intros q Hq. simpl. rewrite (length_contents q Hq). pose proof (count_range q Hq). lia.
Qed.
Next Obligation.
  intros q e Hq He Hl. pose proof (push_spec q e Hq He) as H.
  by rewrite (proj2 (Z.eqb_eq _ _) Hl) in H.
Qed.
Next Obligation.
  intros q e Hq He Hl. pose proof (push_spec q e Hq He) as H.
  rewrite (proj2 (Z.eqb_neq _ _) Hl) in H.
  destruct H as (q' & ? & ? & ? & ? & ?). exists q'. split_and!; [done|done|done|congruence|done].
Qed.
Next Obligation.
  intros q Hq Hn. pose proof (pop_spec q Hq) as H. by rewrite Hn in H.
Qed.
Next Obligation.
  intros q x xs Hq Hn. pose proof (pop_spec q Hq) as H. rewrite Hn in H.
  destruct H as (q' & ? & ? & ? & ? & ?). exists q'. split_and!; [done|done|done|congruence|done].
Qed.
