(* ===== verification/Mempool.v ===== *)
(** * Memory pools: kern/mempool.c

    A pool keeps the addresses of its free blocks in a queue of pointers.
    The pool is written against the interface [FifoQueue]; the theorems about
    getting and returning blocks hold for every implementation of it.
    The addresses of the two [kzalloc] allocations are arguments of
    [mempool_init] ([None] is NULL).  The locks of a pool only serialise the
    operations and each operation is one step here. *)
From S2P Require Import Prelude QueueR.

(** ** The code *)

Inductive mempool_type := MEMPOOL_TYPE_NONBLOCKING | MEMPOOL_TYPE_BLOCKING.

#[export] Instance mempool_type_eq_dec : EqDecision mempool_type.
Proof. solve_decision. Defined.

Record mempool (Q : Type) := Mempool {
  mp_head : Q;
  mp_type : mempool_type;
  mp_sema : Z;
  mp_data : Z
}.
Arguments Mempool {Q}.
Arguments mp_head {Q}.
Arguments mp_type {Q}.
Arguments mp_sema {Q}.
Arguments mp_data {Q}.

Section pool.
Context {Q : Type} `{FifoQueue Q}.

Definition set_head (mp : mempool Q) (q : Q) : mempool Q :=
  Mempool q (mp_type mp) (mp_sema mp) (mp_data mp).

(** [do { queue_push(&mp->head, &elem); elem += bsize; } while (elem != data_end)] *)
Fixpoint fill_loop (fuel : nat) (q : Q) (elem bsize data_end : Z) : option Q :=
  match fuel with
  | O => None
  | S fuel' =>
      '(_, q') ← fq_push q (le32 elem);
      let elem' := u32 (elem + bsize) in
      if elem' =? data_end then Some q'
      else fill_loop fuel' q' elem' bsize data_end
  end.

(** [sema_down] decrements the counter; its waiting loop
    [while (atomic_read(s) >= old)] ends at once, as the counter is then
    [old - 1]. *)
Definition mempool_get (mp : mempool Q) : option (option Z * mempool Q) :=
  let mp := if decide (mp_type mp = MEMPOOL_TYPE_BLOCKING)
            then Mempool (mp_head mp) (mp_type mp) (mp_sema mp - 1) (mp_data mp)
            else mp in
  '(_, elem, q) ← fq_pop (mp_head mp);
  Some (option_map of_le32 elem, set_head mp q).

Definition mempool_return (mp : mempool Q) (p : Z) : option (mempool Q) :=
  '(_, q) ← fq_push (mp_head mp) (le32 p);
  let mp := set_head mp q in
  Some (if decide (mp_type mp = MEMPOOL_TYPE_BLOCKING)
        then Mempool (mp_head mp) (mp_type mp) (mp_sema mp + 1) (mp_data mp)
        else mp).
End pool.

(** [mp] and [elem] are the results of [kzalloc]; the structure is zeroed, so
    that its [type] is the first enumerator. *)
Definition mempool_init (mp elem : option Z) (type : mempool_type)
    (bsize count : Z) : option (option (mempool queue_cb)) :=
  let data_bsize := u32 (count * bsize) in
  let pool_bsize := u32 (count * 4) in
  match mp, elem with
  | Some _, Some elem =>
      head ← queue_create (replicate (Z.to_nat pool_bsize) 0) 4 pool_bsize;
      let sema := if decide (type = MEMPOOL_TYPE_BLOCKING) then count - 1 else 0 in
      let data_end := u32 (elem + data_bsize) in
      head' ← fill_loop (Z.to_nat count) head elem bsize data_end;
      Some (Some (Mempool head' MEMPOOL_TYPE_NONBLOCKING sema elem))
  | _, _ => Some None
  end.

(** ** The abstract pool: free and outstanding blocks *)

Section spec.
Context {Q : Type} `{FifoQueue Q}.

(** Addresses of the free blocks, oldest first. *)
Definition free_blocks (mp : mempool Q) : list Z := of_le32 <$> fq_contents (mp_head mp).

(** A pool in use, with the addresses handed out and not yet returned. *)
Definition pool_state : Type := mempool Q * list Z.

Inductive pool_step : pool_state -> pool_state -> Prop :=
  | step_get mp out p mp' :
      mempool_get mp = Some (Some p, mp') -> pool_step (mp, out) (mp', p :: out)
  | step_get_null mp out mp' :
      mempool_get mp = Some (None, mp') -> pool_step (mp, out) (mp', out)
  | step_return mp out1 p out2 mp' :
      mempool_return mp p = Some mp' ->
      pool_step (mp, out1 ++ p :: out2) (mp', out1 ++ out2).

(** Every block of [blocks] is either free or outstanding. *)
Definition pool_inv (blocks : list Z) (s : pool_state) : Prop :=
  let '(mp, out) := s in
  fq_ok (mp_head mp) /\ fq_bsize (mp_head mp) = 4 /\
  Z.of_nat (length blocks) <= fq_capacity (mp_head mp) /\
  fq_contents (mp_head mp) = le32 <$> free_blocks mp /\
  free_blocks mp ++ out ≡ₚ blocks /\
  Forall (fun p => 0 <= p < 2 ^ 32) blocks.

Lemma free_blocks_le32 mp bs :
  fq_contents (mp_head mp) = le32 <$> bs ->
  Forall (fun p => 0 <= p < 2 ^ 32) bs -> free_blocks mp = bs.
Proof.
  intros Hc Hb. unfold free_blocks. rewrite Hc, <-list_fmap_compose.
  rewrite <-(list_fmap_id bs) at 2. apply list_fmap_ext.
  intros i x Hx. apply of_le32_le32. by eapply (Forall_lookup_1 _ _ _ _ Hb).
Qed.

Lemma inv_free_range blocks mp out :
  pool_inv blocks (mp, out) -> Forall (fun p => 0 <= p < 2 ^ 32) (free_blocks mp).
Proof.
  intros (_ & _ & _ & _ & Hp & Hr). rewrite <-Hp in Hr. by apply Forall_app in Hr as [? _].
Qed.

(** A get removes the oldest free block, or finds the pool empty. *)
Lemma get_spec blocks mp out :
  pool_inv blocks (mp, out) ->
  match free_blocks mp with
  | [] => exists mp', mempool_get mp = Some (None, mp') /\ pool_inv blocks (mp', out)
  | p :: ps => exists mp', mempool_get mp = Some (Some p, mp') /\
                 free_blocks mp' = ps /\ pool_inv blocks (mp', p :: out)
  end.
Proof.
  intros Hinv. pose proof (inv_free_range _ _ _ Hinv) as Hfr.
  destruct Hinv as (Hok & Hb & Hcap & Hc & Hp & Hr). unfold mempool_get.
  set (mp1 := if decide _ then _ else mp).
  assert (mp_head mp1 = mp_head mp) as Hh by (unfold mp1; by case_decide).
  rewrite Hh. destruct (free_blocks mp) as [|p ps] eqn:Ef; simpl in Hc.
  - rewrite (fq_pop_empty _ Hok Hc). simpl. eexists. split; [done|].
    split_and!; try done; unfold free_blocks in *; simpl; rewrite Ef; done.
  - destruct (fq_pop_cons _ _ _ Hok Hc) as (q & -> & Hok' & Hc' & Hcap' & Hb'). simpl.
    inversion Hfr as [|?? Hp0 Hps]; subst.
    rewrite of_le32_le32 by done. eexists. split; [done|].
    assert (free_blocks (set_head mp1 q) = ps) as Hfb
      by (by apply free_blocks_le32).
    split; [done|]. simpl. split_and!; try done; [congruence|lia|by rewrite Hfb|].
    rewrite Hfb, <-Hp. simpl. symmetry. apply Permutation_middle.
Qed.

(** A return of an outstanding block always finds room. *)
Lemma return_spec blocks mp out1 p out2 :
  pool_inv blocks (mp, out1 ++ p :: out2) ->
  exists mp', mempool_return mp p = Some mp' /\
    free_blocks mp' = free_blocks mp ++ [p] /\ pool_inv blocks (mp', out1 ++ out2).
Proof.
  intros Hinv. pose proof (inv_free_range _ _ _ Hinv) as Hfr.
  destruct Hinv as (Hok & Hb & Hcap & Hc & Hp & Hr). unfold mempool_return.
  assert (0 <= p < 2 ^ 32) as Hpr.
  { rewrite <-Hp in Hr. apply Forall_app in Hr as [_ Hr].
    apply Forall_app in Hr as [_ Hr]. by inversion Hr. }
  assert (length (free_blocks mp) < length blocks)%nat as Hlt.
  { rewrite <-Hp, !length_app. simpl. lia. }
  destruct (fq_push_room (mp_head mp) (le32 p)) as (q & -> & Hok' & Hc' & Hcap' & Hb');
    [done|done| |].
  { rewrite Hc, length_fmap. lia. }
  simpl. set (mp1 := if decide _ then _ else set_head mp q).
  exists mp1. split; [done|].
  assert (mp_head mp1 = q) as Hh by (unfold mp1; by case_decide).
  assert (free_blocks mp1 = free_blocks mp ++ [p]) as Hfb.
  { apply free_blocks_le32.
    - by rewrite Hh, Hc', Hc, fmap_app.
    - apply Forall_app. split; [done|]. by constructor. }
  split; [done|]. simpl. rewrite Hh. split_and!; [done|congruence|lia| | |done].
  - by rewrite Hfb, Hc', Hc, fmap_app.
  - rewrite Hfb, <-Hp. solve_Permutation.
Qed.

Lemma step_preserves blocks s s' :
  pool_inv blocks s -> pool_step s s' -> pool_inv blocks s'.
Proof.
  intros Hinv Hstep. destruct Hstep as [mp out p mp' Hg|mp out mp' Hg|mp out1 p out2 mp' Hr].
  - pose proof (get_spec _ _ _ Hinv) as H0. destruct (free_blocks mp);
      [destruct H0 as (? & ? & ?)|destruct H0 as (? & ? & _ & ?)]; congruence.
  - pose proof (get_spec _ _ _ Hinv) as H0. destruct (free_blocks mp);
      [destruct H0 as (? & ? & ?)|destruct H0 as (? & ? & _ & ?)]; congruence.
  - destruct (return_spec _ _ _ _ _ Hinv) as (mp1 & Hr' & _ & ?). congruence.
Qed.

Lemma steps_preserve blocks s s' :
  pool_inv blocks s -> rtc pool_step s s' -> pool_inv blocks s'.
Proof. intros Hinv Hs. induction Hs; eauto using step_preserves. Qed.

(** The fill loop pushes the blocks one after the other and what does not
    fit into the queue is dropped. *)
Lemma fill_loop_spec fuel q elem bsize data_end :
  fq_ok q -> fq_bsize q = 4 -> 0 < bsize -> 0 <= elem -> (0 < fuel)%nat ->
  data_end = elem + Z.of_nat fuel * bsize -> data_end < 2 ^ 32 ->
  exists q', fill_loop fuel q elem bsize data_end = Some q' /\ fq_ok q' /\
    fq_bsize q' = 4 /\ fq_capacity q' = fq_capacity q /\
    fq_contents q' = take (Z.to_nat (fq_capacity q))
      (fq_contents q ++ (le32 <$> ((fun k => elem + k * bsize) <$> seqZ 0 (Z.of_nat fuel)))).
Proof.
  revert q elem. induction fuel as [|fuel IH]; intros q elem Hok Hb Hbs He Hf Hend Hfit; [lia|].
  cbn [fill_loop]. rewrite (u32_small (elem + bsize)) by nia.
  assert (exists r q1, fq_push q (le32 elem) = Some (r, q1) /\ fq_ok q1 /\ fq_bsize q1 = 4 /\
            fq_capacity q1 = fq_capacity q /\
            fq_contents q1 = take (Z.to_nat (fq_capacity q)) (fq_contents q ++ [le32 elem]))
    as (r & q1 & -> & Hok1 & Hb1 & Hcap1 & Hc1).
  { pose proof (fq_bound q Hok) as Hbound.
    destruct (decide (Z.of_nat (length (fq_contents q)) = fq_capacity q)) as [E|E].
    - exists 0, q. rewrite fq_push_full by done. split_and!; [done..|].
      rewrite take_app_le by lia. symmetry. apply take_ge. lia.
    - destruct (fq_push_room q (le32 elem)) as (q1 & ? & ? & Hc & Hcap & Hb1); [done..|].
      exists 1, q1. split_and!; [done|done|congruence|done|]. rewrite Hc.
      symmetry. apply take_ge. rewrite length_app. simpl. lia. }
  simpl. rewrite Nat2Z.inj_succ, seqZ_cons, !fmap_cons by lia.
  replace (elem + 0 * bsize) with elem by lia.
  destruct (Z.eqb_spec (elem + bsize) data_end) as [E|E].
  - assert (fuel = 0%nat) as -> by nia. exists q1. split_and!; done.
  - destruct (IH q1 (elem + bsize)) as (q' & -> & Hok' & Hb' & Hcap' & Hc');
      [done|done|done|lia|nia|lia|done|].
    exists q'. split_and!; [done|done|done|congruence|].
    rewrite Hc', Hcap1, Hc1. clear.
    replace ((fun k => elem + bsize + k * bsize) <$> seqZ 0 (Z.of_nat fuel))
      with ((fun k => elem + k * bsize) <$> seqZ (Z.succ 0) (Z.pred (Z.succ (Z.of_nat fuel)))).
    2:{ change (Z.succ 0) with (1 + 0). rewrite Z.pred_succ, <-fmap_add_seqZ.
        rewrite <-list_fmap_compose. apply list_fmap_ext. intros. simpl. lia. }
    set (n := Z.to_nat _). set (xs := le32 <$> _).
    replace (fq_contents q ++ le32 elem :: xs)
      with ((fq_contents q ++ [le32 elem]) ++ xs) by (by rewrite <-(assoc_L (++))).
    generalize (fq_contents q ++ [le32 elem]). intros ys.
    destruct (decide (n <= length ys)%nat).
    + rewrite (take_app_le ys xs) by done. apply take_app_length'. rewrite length_take. lia.
    + by rewrite (take_ge ys) by lia.
Qed.
End spec.

(** The addresses of the first [n] blocks of the data area of a pool. *)
Definition pool_blocks (elem bsize n : Z) : list Z :=
  (fun k => elem + k * bsize) <$> seqZ 0 n.

Lemma pool_blocks_NoDup elem bsize n : 0 < bsize -> NoDup (pool_blocks elem bsize n).
Proof.
  intros. unfold pool_blocks. apply NoDup_fmap_2_strong; [|apply NoDup_seqZ].
  intros x y _ _ ?. nia.
Qed.

Lemma pool_blocks_range elem bsize n :
  0 <= elem -> 0 < bsize -> elem + n * bsize <= 2 ^ 32 ->
  Forall (fun p => 0 <= p < 2 ^ 32) (pool_blocks elem bsize n).
Proof.
  intros. apply Forall_fmap, Forall_forall. intros k Hk%elem_of_seqZ. simpl. nia.
Qed.

Lemma init_spec mp elem type bsize count :
  0 < bsize -> 0 < count -> 0 <= elem -> elem + count * bsize < 2 ^ 32 ->
  4 * count < 2 ^ 32 ->
  exists p, mempool_init (Some mp) (Some elem) type bsize count = Some (Some p) /\
    free_blocks p = pool_blocks elem bsize (count - 1) /\
    pool_inv (pool_blocks elem bsize (count - 1)) (p, []) /\
    mp_type p = MEMPOOL_TYPE_NONBLOCKING.
Proof.
  intros Hbs Hcount Helem Hfit Hfit4. unfold mempool_init.
  rewrite !(u32_small (count * _)) by nia. rewrite (u32_small (elem + _)) by lia.
  destruct (create_spec (replicate (Z.to_nat (count * 4)) 0) 4 (count * 4))
    as (cb & -> & Hinv & Hnil & Hal & Hb); [lia|lia|rewrite length_replicate; lia|].
  simpl. rewrite Z.div_mul in Hal by lia.
  destruct (fill_loop_spec (Z.to_nat count) cb elem bsize (elem + count * bsize))
    as (q & -> & Hok & Hqb & Hcap & Hc); try done; try lia.
  simpl. eexists. split; [done|].
  assert (fq_contents q = le32 <$> pool_blocks elem bsize (count - 1)) as Hc'.
  { rewrite Hc. simpl. rewrite Hnil, Hal. simpl.
    rewrite <-!fmap_take. do 2 f_equal. rewrite Z2Nat.id by lia.
    replace count with ((count - 1) + 1) at 2 by lia.
    rewrite seqZ_app by lia. rewrite take_app_length'; [done|]. rewrite length_seqZ. done. }
  pose proof (pool_blocks_range elem bsize (count - 1) Helem Hbs ltac:(nia)) as Hr.
  match goal with |- free_blocks ?m = _ /\ _ => assert (free_blocks m
    = pool_blocks elem bsize (count - 1)) as Hfb by (by apply free_blocks_le32) end.
  split; [done|]. split; [|done]. simpl. split_and!; [done|done| |by rewrite Hfb| |done].
  - simpl in Hcap. rewrite Hcap, Hal. unfold pool_blocks.
    rewrite length_fmap, length_seqZ. lia.
  - by rewrite Hfb, app_nil_r.
Qed.

(** ** Correctness of memory pools *)

(** A pool initialised with [count] elements of [bsize] bytes holds the
    first [count - 1] blocks of its data area, in order (a queue of [count]
    slots stores one element less), and is of the non-blocking type whatever
    type was asked for. *)
Theorem mempool_init_blocks (mp elem bsize count : Z) (type : mempool_type)
    (Hbs : 0 < bsize) (Hcount : 0 < count) (Helem : 0 <= elem)
    (Hfit : elem + count * bsize < 2 ^ 32) (Hfit4 : 4 * count < 2 ^ 32) :
  exists p, mempool_init (Some mp) (Some elem) type bsize count = Some (Some p) /\
    free_blocks p = (fun k => elem + k * bsize) <$> seqZ 0 (count - 1) /\
    mp_type p = MEMPOOL_TYPE_NONBLOCKING.
Proof.
  destruct (init_spec mp elem type bsize count) as (p & ? & ? & _ & ?); try done. eauto.
Qed.

Lemma mempool_init_blocks_witness :
  exists p, mempool_init (Some 64) (Some 4096) MEMPOOL_TYPE_BLOCKING 16 4 = Some (Some p) /\
    free_blocks p = [4096; 4112; 4128] /\ mp_type p = MEMPOOL_TYPE_NONBLOCKING.
Proof. apply (mempool_init_blocks 64 4096 16 4 MEMPOOL_TYPE_BLOCKING); done. Defined.

(** C34. Over every sequence of gets and of returns of outstanding blocks on an
    initialised pool, the free and the outstanding blocks are together exactly
    the [count - 1] blocks of the pool, without repetition; so a get hands out
    a block nobody holds, and it fails only when all of them are outstanding. *)
Theorem mempool_exclusive (mp elem bsize count : Z) (type : mempool_type)
    (p p' : mempool queue_cb) (out : list Z)
    (Hbs : 0 < bsize) (Hcount : 0 < count) (Helem : 0 <= elem)
    (Hfit : elem + count * bsize < 2 ^ 32) (Hfit4 : 4 * count < 2 ^ 32)
    (Hinit : mempool_init (Some mp) (Some elem) type bsize count = Some (Some p))
    (Hrun : rtc pool_step (p, []) (p', out)) :
  free_blocks p' ++ out ≡ₚ pool_blocks elem bsize (count - 1) /\
  NoDup (free_blocks p' ++ out) /\
  exists r p'', mempool_get p' = Some (r, p'') /\
    match r with
    | Some b => b ∈ pool_blocks elem bsize (count - 1) /\ b ∉ out
    | None => out ≡ₚ pool_blocks elem bsize (count - 1)
    end.
Proof.
  destruct (init_spec mp elem type bsize count) as (p0 & Hinit' & _ & Hinv & _); try done.
  rewrite Hinit in Hinit'. injection Hinit' as <-.
  pose proof (steps_preserve _ _ _ Hinv Hrun) as Hinv'.
  pose proof Hinv' as (_ & _ & _ & _ & Hp & _).
  pose proof (pool_blocks_NoDup elem bsize (count - 1) Hbs) as Hnd. rewrite <-Hp in Hnd.
  split_and!; [done|done|].
  pose proof (get_spec _ _ _ Hinv') as Hget. destruct (free_blocks p') as [|b bs].
  - destruct Hget as (mp' & ? & _). exists None, mp'. done.
  - destruct Hget as (mp' & ? & _). exists (Some b), mp'. split; [done|]. split.
    + rewrite <-Hp. apply elem_of_app. left. apply list_elem_of_here.
    + simpl in Hnd. apply NoDup_cons in Hnd as [Hnd _]. intros Hb. apply Hnd.
      apply elem_of_app. by right.
Qed.

Lemma mempool_exclusive_witness :
  exists p p', mempool_init (Some 64) (Some 4096) MEMPOOL_TYPE_NONBLOCKING 16 4
                 = Some (Some p) /\
    rtc pool_step (p, []) (p', [4096]) /\ NoDup (free_blocks p' ++ [4096]).
Proof.
  destruct (mempool_init (Some 64) (Some 4096) MEMPOOL_TYPE_NONBLOCKING 16 4)
    as [[p|]|] eqn:E; [|by vm_compute in E..].
  destruct (mempool_get p) as [[r p']|] eqn:Eg;
    vm_compute in E; injection E as <-; vm_compute in Eg; [|done].
  injection Eg as <- <-.
  eexists _, _. split; [reflexivity|].
  match goal with |- ?R /\ _ => assert R as Hrun end.
  { eapply rtc_l; [|apply rtc_refl]. apply step_get. vm_compute. reflexivity. }
  split; [exact Hrun|].
  eapply (proj1 (proj2 (mempool_exclusive 64 4096 16 4 MEMPOOL_TYPE_NONBLOCKING _ _ _
           eq_refl eq_refl ltac:(done) eq_refl eq_refl _ Hrun))).
  Unshelve. vm_compute. reflexivity.
Defined.
