(* ===== verification/Dynmem.v ===== *)
(** * Dynamic memory regions: kern/dynmem.c

    The allocator of 1 MB sections.  Its state is the descriptor table
    [dynmemmap], the allocation bit map, the scratch structure
    [dynmem_region], the statistics, and the list of effects it had on the
    MMU and on memory, newest first.  Every operation runs under
    [dynmem_region_lock] and is one step here; [dynmem_clone] is the sequence
    of the locked sections it consists of.  [None] is an access outside of a
    table or a failed assertion. *)
From S2P Require Import Prelude Bitmap.

(** ** The code *)

Definition DYNMEM_PAGE_SIZE : Z := 2 ^ 20. (* MMU_PGSIZE_SECTION *)
Definition DYNMEM_RL_NIL : Z := 0.
Definition DYNMEM_RL_LINK : Z := 1.
Definition MMU_CTRL_XN : Z := Z.shiftl 1 4.

Record dynmem_desc := DynmemDesc {
  d_control : Z;   (* 10 bits *)
  d_ap : Z;        (* 3 bits *)
  d_rl : Z;        (* 1 bit *)
  d_refcount : Z   (* 16 bits *)
}.

Definition desc_zero : dynmem_desc := DynmemDesc 0 0 0 0.
Definition set_rl (d : dynmem_desc) (rl : Z) : dynmem_desc :=
  DynmemDesc (d_control d) (d_ap d) rl (d_refcount d).
Definition set_refcount (d : dynmem_desc) (n : Z) : dynmem_desc :=
  DynmemDesc (d_control d) (d_ap d) (d_rl d) (n mod 2 ^ 16).

(** [mmu_region_t]; the page table is always the master table here. *)
Record mmu_region := MmuRegion {
  r_vaddr : Z; r_num_pages : Z; r_ap : Z; r_control : Z; r_paddr : Z
}.

Inductive effect :=
  | MapRegion (r : mmu_region)
  | UnmapRegion (r : mmu_region)
  | MemCopy (dst src len : Z).

Record dynmem := Dynmem {
  dynmemmap : list dynmem_desc;
  dynmemmap_bitmap : list Z;
  dynmem_region : mmu_region;
  dynmem_free : Z;
  dynmem_nr_reserved : Z;
  dynmem_reserved : Z;
  effects : list effect
}.

Definition set_map (s : dynmem) (m : list dynmem_desc) : dynmem :=
  Dynmem m (dynmemmap_bitmap s) (dynmem_region s) (dynmem_free s)
    (dynmem_nr_reserved s) (dynmem_reserved s) (effects s).
Definition set_bitmap (s : dynmem) (b : list Z) : dynmem :=
  Dynmem (dynmemmap s) b (dynmem_region s) (dynmem_free s)
    (dynmem_nr_reserved s) (dynmem_reserved s) (effects s).
Definition set_region (s : dynmem) (r : mmu_region) : dynmem :=
  Dynmem (dynmemmap s) (dynmemmap_bitmap s) r (dynmem_free s)
    (dynmem_nr_reserved s) (dynmem_reserved s) (effects s).
Definition set_free (s : dynmem) (f : Z) : dynmem :=
  Dynmem (dynmemmap s) (dynmemmap_bitmap s) (dynmem_region s) (u32 f)
    (dynmem_nr_reserved s) (dynmem_reserved s) (effects s).
Definition set_reserved (s : dynmem) (n r : Z) : dynmem :=
  Dynmem (dynmemmap s) (dynmemmap_bitmap s) (dynmem_region s) (dynmem_free s)
    n (u32 r) (effects s).
Definition emit (s : dynmem) (e : effect) : dynmem :=
  Dynmem (dynmemmap s) (dynmemmap_bitmap s) (dynmem_region s) (dynmem_free s)
    (dynmem_nr_reserved s) (dynmem_reserved s) (e :: effects s).

(** Configuration of the build: where the dynmem area is. *)
Class DynmemConfig := { configDYNMEM_START : Z; configDYNMEM_SIZE : Z }.

Section code.
Context `{DynmemConfig}.

Definition DYNMEM_START : Z := configDYNMEM_START.
Definition DYNMEM_END : Z := configDYNMEM_START + configDYNMEM_SIZE.
Definition DYNMEM_MAPSIZE : Z := configDYNMEM_SIZE / DYNMEM_PAGE_SIZE.

(** [E2BITMAP_SIZE(nbits)]: words of a bit map for [nbits] bits. *)
Definition E2BITMAP_SIZE (nbits : Z) : Z := (Z.max nbits 32 + 32 - 1) / 32.
Definition DYNMEM_BITMAPSIZE : Z := E2BITMAP_SIZE DYNMEM_MAPSIZE.
Definition SIZEOF_DYNMEMMAP_BITMAP : Z := DYNMEM_BITMAPSIZE * 4.

(** The statically initialised state. *)
Definition dynmem_boot : dynmem :=
  Dynmem (replicate (Z.to_nat DYNMEM_MAPSIZE) desc_zero)
    (replicate (Z.to_nat DYNMEM_BITMAPSIZE) 0)
    (MmuRegion 0 0 0 0 0) configDYNMEM_SIZE 0 0 [].

Definition dindex2addr (di : Z) : Z := u32 (DYNMEM_START + di * DYNMEM_PAGE_SIZE).
Definition addr2dindex (addr : Z) : Z := u32 (addr - DYNMEM_START) / DYNMEM_PAGE_SIZE.

Definition addr_is_valid (s : dynmem) (addr : Z) (test : bool) : option bool :=
  let i := addr2dindex addr in
  if (addr <? DYNMEM_START) || (DYNMEM_END <? addr) then Some false
  else if test then
    d ← (dynmemmap s).[i];
    Some (negb (d_refcount d =? 0))
  else Some true.

(** One iteration of [SET_FOREACH(areap, dynmem_reserved)] for the area
    from [start] to [end_], both included. *)
Definition mark_area (s : dynmem) (area : Z * Z) : option dynmem :=
  let '(caddr_start, caddr_end) := area in
  let pos := addr2dindex caddr_start in
  if DYNMEM_END <? caddr_start then Some s
  else
    let end_addr := if DYNMEM_END <? caddr_end then DYNMEM_END else caddr_end in
    let bytes := u32 (end_addr - caddr_start + 1) in
    let blkcount := bytes / DYNMEM_PAGE_SIZE in
    '(err, b) ← bitmap_block_update (dynmemmap_bitmap s) 1 pos blkcount
                  SIZEOF_DYNMEMMAP_BITMAP;
    if err =? 0 then
      let s := set_free (set_bitmap s b) (dynmem_free s - bytes) in
      Some (set_reserved s (dynmem_nr_reserved s) (dynmem_reserved s + bytes))
    else None.

Fixpoint mark_areas (s : dynmem) (areas : list (Z * Z)) : option dynmem :=
  match areas with
  | [] => Some s
  | a :: areas' => s' ← mark_area s a; mark_areas s' areas'
  end.

Definition mark_reserved_areas (s : dynmem) (areas : list (Z * Z)) : option dynmem :=
  mark_areas (set_reserved s (Z.of_nat (length areas)) (dynmem_reserved s)) areas.

Definition dynmem_init (areas : list (Z * Z)) : option dynmem :=
  mark_reserved_areas dynmem_boot areas.

(** [while (dp->rl == DYNMEM_RL_LINK) { dp++; num_pages++; }]; the table
    ends after at most [fuel] more descriptors. *)
Fixpoint count_pages (fuel : nat) (m : list dynmem_desc) (i num_pages : Z) : option Z :=
  match fuel with
  | O => None
  | S fuel' =>
      d ← m.[i];
      if d_rl d =? DYNMEM_RL_LINK then count_pages fuel' m (i + 1) (num_pages + 1)
      else Some num_pages
  end.

Definition update_dynmem_region_struct (s : dynmem) (base_addr : Z)
    : option (Z * dynmem) :=
  let reg_start := addr2dindex base_addr in
  v ← addr_is_valid s base_addr true;
  if negb v then Some (- EINVAL, s)
  else
    num_pages ← count_pages (S (length (dynmemmap s))) (dynmemmap s) reg_start 1;
    flags ← (dynmemmap s).[reg_start];
    Some (0, set_region s
      (MmuRegion base_addr num_pages (d_ap flags) (d_control flags) base_addr)).

(** [for (i = base; i < base + size - 1; i++)], [k] iterations to go, and the
    assignment of the last descriptor after the loop. *)
Fixpoint fill_descs (k : nat) (m : list dynmem_desc) (i : Z) (desc : dynmem_desc)
    : option (list dynmem_desc) :=
  match k with
  | O => m.[i <- set_rl desc DYNMEM_RL_NIL]
  | S k' => m' ← m.[i <- set_rl desc DYNMEM_RL_LINK]; fill_descs k' m' (i + 1) desc
  end.

Definition kmap_allocation (s : dynmem) (base size ap ctrl : Z) : option (Z * dynmem) :=
  let addr := dindex2addr base in
  let desc := DynmemDesc (ctrl mod 2 ^ 10) (ap mod 2 ^ 3) 0 1 in
  m ← fill_descs (Z.to_nat (size - 1)) (dynmemmap s) base desc;
  let r := MmuRegion addr size ap ctrl addr in
  Some (addr, emit (set_region (set_map s m) r) (MapRegion r)).

(** The returned address, 0 for NULL. *)
Definition dynmem_alloc_region (s : dynmem) (size ap ctrl : Z) : option (Z * dynmem) :=
  if size =? 0 then Some (0, s)
  else
    r ← bitmap_block_search size (dynmemmap_bitmap s) SIZEOF_DYNMEMMAP_BITMAP;
    match r with
    | None => Some (0, s)
    | Some pos =>
        let s := set_free s (dynmem_free s - size * DYNMEM_PAGE_SIZE) in
        '(err, b) ← bitmap_block_update (dynmemmap_bitmap s) 1 pos size
                      SIZEOF_DYNMEMMAP_BITMAP;
        if err =? 0 then kmap_allocation (set_bitmap s b) pos size ap ctrl
        else None
    end.

Definition dynmem_ref (s : dynmem) (addr : Z) : option (Z * dynmem) :=
  let i := addr2dindex addr in
  v ← addr_is_valid s addr true;
  if negb v then Some (- EINVAL, s)
  else
    d ← (dynmemmap s).[i];
    if d_refcount d =? 0 then Some (- EINVAL, s)
    else
      m ← (dynmemmap s).[i <- set_refcount d (d_refcount d + 1)];
      Some (0, set_map s m).

(** [memset(dp, 0, n * sizeof(struct dynmem_desc))]. *)
Fixpoint zero_descs (k : nat) (m : list dynmem_desc) (i : Z) : option (list dynmem_desc) :=
  match k with
  | O => Some m
  | S k' => m' ← m.[i <- desc_zero]; zero_descs k' m' (i + 1)
  end.

Definition dynmem_free_region (s : dynmem) (addr : Z) : option dynmem :=
  v ← addr_is_valid s addr true;
  if negb v then Some s
  else
    let i := addr2dindex addr in
    d ← (dynmemmap s).[i];
    if 1 <? d_refcount d then
      m ← (dynmemmap s).[i <- set_refcount d (d_refcount d - 1)];
      Some (set_map s m)
    else
      '(err, s) ← update_dynmem_region_struct s addr;
      if negb (err =? 0) then Some s
      else
        let s := emit s (UnmapRegion (dynmem_region s)) in
        let n := r_num_pages (dynmem_region s) in
        m ← zero_descs (Z.to_nat n) (dynmemmap s) i;
        '(err, b) ← bitmap_block_update (dynmemmap_bitmap s) 1 i n
                      SIZEOF_DYNMEMMAP_BITMAP;
        if err =? 0 then
          let s := set_bitmap (set_map s m) b in
          Some (set_free s (dynmem_free s + n * DYNMEM_PAGE_SIZE))
        else None.

Definition dynmem_clone (s : dynmem) (addr : Z) : option (Z * dynmem) :=
  '(err, s) ← dynmem_ref s addr;
  if negb (err =? 0) then Some (0, s)
  else
    '(err, s) ← update_dynmem_region_struct s addr;
    if negb (err =? 0) then Some (0, s)
    else
      let cln := dynmem_region s in
      '(new_region, s) ← dynmem_alloc_region s (r_num_pages cln) (r_ap cln) (r_control cln);
      if new_region =? 0 then Some (0, s)
      else
        let s := emit s (MemCopy new_region (r_paddr cln)
                           (r_num_pages cln * DYNMEM_PAGE_SIZE)) in
        s ← dynmem_free_region s addr;
        Some (new_region, s).

(** [mmu_sizeof_region] for a region of the master page table. *)
Definition master_sizeof_region (r : mmu_region) : Z :=
  u32 (r_num_pages r * DYNMEM_PAGE_SIZE).

(** The access permissions and the execute-never bit. *)
Definition dynmem_acc (s : dynmem) (addr len : Z) : option ((Z * Z) * dynmem) :=
  v ← addr_is_valid s addr true;
  if negb v then Some ((0, 0), s)
  else
    '(err, s) ← update_dynmem_region_struct s addr;
    if negb (err =? 0) then Some ((0, 0), s)
    else
      let r := dynmem_region s in
      let size := master_sizeof_region r in
      if size =? 0 then Some ((0, 0), s)
      else if (addr <? r_paddr r) || (u32 (r_paddr r + size) <? addr) then
        Some ((0, 0), s)
      else Some ((r_ap r, if Z.land (r_control r) MMU_CTRL_XN =? MMU_CTRL_XN
                          then 1 else 0), s).
End code.

(** ** Descriptor table lemmas *)

Lemma wr_some {A} (m : list A) i v : 0 <= i < Z.of_nat (length m) ->
  exists m', m.[i <- v] = Some m' /\ length m' = length m /\
    forall q, m'.[q] = if q =? i then Some v else m.[q].
Proof.
  intros Hi. rewrite wr_Some by done. eexists. split; [done|].
  split; [apply length_insert|]. intros q. zcase; [subst|].
  - by apply rd_insert_eq.
  - apply rd_insert_ne; lia.
Qed.

Lemma fill_descs_spec k m i desc :
  0 <= i -> i + Z.of_nat k < Z.of_nat (length m) ->
  exists m', fill_descs k m i desc = Some m' /\ length m' = length m /\
    forall q, m'.[q] =
      if q =? i + Z.of_nat k then Some (set_rl desc DYNMEM_RL_NIL)
      else if (i <=? q) && (q <? i + Z.of_nat k) then Some (set_rl desc DYNMEM_RL_LINK)
      else m.[q].
Proof.
  revert m i. induction k as [|k IH]; intros m i Hi Hk; simpl.
  - destruct (wr_some m i (set_rl desc DYNMEM_RL_NIL)) as (m' & -> & Hl & Hq); [lia|].
    exists m'. split; [done|]. split; [done|]. intros q. rewrite Hq. zsolve.
  - destruct (wr_some m i (set_rl desc DYNMEM_RL_LINK)) as (m1 & -> & Hl1 & Hq1); [lia|].
    simpl. destruct (IH m1 (i + 1)) as (m' & -> & Hl & Hq); [lia|lia|].
    exists m'. split; [done|]. split; [lia|]. intros q. rewrite Hq, Hq1. zsolve.
Qed.

Lemma zero_descs_spec k m i :
  0 <= i -> i + Z.of_nat k <= Z.of_nat (length m) ->
  exists m', zero_descs k m i = Some m' /\ length m' = length m /\
    forall q, m'.[q] =
      if (i <=? q) && (q <? i + Z.of_nat k) then Some desc_zero else m.[q].
Proof.
  revert m i. induction k as [|k IH]; intros m i Hi Hk; simpl.
  - exists m. split; [done|]. split; [done|]. intros q. zsolve.
  - destruct (wr_some m i desc_zero) as (m1 & -> & Hl1 & Hq1); [lia|].
    simpl. destruct (IH m1 (i + 1)) as (m' & -> & Hl & Hq); [lia|lia|].
    exists m'. split; [done|]. split; [lia|]. intros q. rewrite Hq, Hq1. zsolve.
Qed.

Lemma count_pages_spec fuel m i n c :
  0 < n -> n <= Z.of_nat fuel ->
  (forall j, 0 <= j < n - 1 -> exists d, m.[i + j] = Some d /\ d_rl d = DYNMEM_RL_LINK) ->
  (exists d, m.[i + (n - 1)] = Some d /\ d_rl d = DYNMEM_RL_NIL) ->
  count_pages fuel m i c = Some (c + n - 1).
Proof.
  revert i n c. induction fuel as [|fuel IH]; intros i n c Hn Hf Hlink Hlast; [lia|].
  simpl. destruct (decide (n = 1)) as [->|].
  - destruct Hlast as (d & Hd & Hrl). rewrite Z.add_0_r in Hd. rewrite Hd. simpl.
    rewrite Hrl. simpl. f_equal. lia.
  - destruct (Hlink 0 ltac:(lia)) as (d & Hd & Hrl). rewrite Z.add_0_r in Hd.
    rewrite Hd. simpl. rewrite Hrl. simpl.
    rewrite (IH (i + 1) (n - 1)); [f_equal; lia|lia|lia| |].
    + intros j Hj. destruct (Hlink (j + 1) ltac:(lia)) as (d' & ? & ?). exists d'.
      by replace (i + 1 + j) with (i + (j + 1)) by lia.
    + by replace (i + 1 + (n - 1 - 1)) with (i + (n - 1)) by lia.
Qed.

(** ** The abstract allocator: a finite map of live regions *)

Record region := Region { g_pages : Z; g_ap : Z; g_control : Z; g_ref : Z }.

(** Descriptor [j] of a region. *)
Definition desc_of (R : region) (j : Z) : dynmem_desc :=
  DynmemDesc (g_control R) (g_ap R)
    (if j =? g_pages R - 1 then DYNMEM_RL_NIL else DYNMEM_RL_LINK)
    (if j =? 0 then g_ref R else 1).

Definition in_region (k : Z) (R : region) (i : Z) : Prop := k <= i < k + g_pages R.

#[export] Instance in_region_dec k R i : Decision (in_region k R i).
Proof. unfold in_region. apply _. Defined.

(** A configuration without a partly used bit map word. *)
Class DynmemConfigOk `{DynmemConfig} : Prop := {
  cfg_start : 0 < configDYNMEM_START;
  cfg_end : configDYNMEM_START + configDYNMEM_SIZE < 2 ^ 32;
  cfg_pages : 0 < DYNMEM_MAPSIZE;
  cfg_words : DYNMEM_MAPSIZE mod 32 = 0;
  cfg_size : configDYNMEM_SIZE = DYNMEM_MAPSIZE * DYNMEM_PAGE_SIZE
}.

Section refinement.
Context `{DynmemConfigOk}.

Record represents (A : gmap Z region) (s : dynmem) : Prop := {
  rep_len : Z.of_nat (length (dynmemmap s)) = DYNMEM_MAPSIZE;
  rep_wf : bitmap_wf (dynmemmap_bitmap s);
  rep_blen : Z.of_nat (length (dynmemmap_bitmap s)) = DYNMEM_MAPSIZE / 32;
  rep_range : forall k R, A !! k = Some R ->
    0 <= k /\ 0 < g_pages R /\ k + g_pages R <= DYNMEM_MAPSIZE /\
    0 < g_ref R < 2 ^ 16;
  rep_desc : forall k R j, A !! k = Some R -> 0 <= j < g_pages R ->
    (dynmemmap s).[k + j] = Some (desc_of R j);
  rep_bit : forall k R i, A !! k = Some R -> in_region k R i ->
    bit (dynmemmap_bitmap s) i = Some true;
  rep_disjoint : forall k1 R1 k2 R2 i, A !! k1 = Some R1 -> A !! k2 = Some R2 ->
    in_region k1 R1 i -> in_region k2 R2 i -> k1 = k2;
  rep_rest : forall i, 0 <= i < DYNMEM_MAPSIZE ->
    (forall k R, A !! k = Some R -> ~ in_region k R i) ->
    (dynmemmap s).[i] = Some desc_zero
}.

Lemma cfg_mapsize : DYNMEM_MAPSIZE * 2 ^ 20 < 2 ^ 32.
Proof. pose proof cfg_size. pose proof cfg_end. pose proof cfg_start.
  unfold DYNMEM_PAGE_SIZE in *. lia. Qed.

Lemma bitmap_size : SIZEOF_DYNMEMMAP_BITMAP = 4 * (DYNMEM_MAPSIZE / 32).
Proof.
  unfold SIZEOF_DYNMEMMAP_BITMAP, DYNMEM_BITMAPSIZE, E2BITMAP_SIZE.
  pose proof cfg_words. pose proof cfg_pages. dlia.
Qed.

Lemma addr_index k :
  0 <= k < DYNMEM_MAPSIZE ->
  addr2dindex (dindex2addr k) = k /\ 0 < dindex2addr k /\
  dindex2addr k = DYNMEM_START + k * DYNMEM_PAGE_SIZE /\
  (dindex2addr k <? DYNMEM_START) = false /\ (DYNMEM_END <? dindex2addr k) = false.
Proof.
  intros Hk. pose proof cfg_size as Hs. pose proof cfg_end. pose proof cfg_start.
  unfold addr2dindex, dindex2addr, DYNMEM_START, DYNMEM_END, DYNMEM_PAGE_SIZE in *.
  assert (0 <= k * 2 ^ 20 < configDYNMEM_SIZE) by lia.
  rewrite (u32_small (configDYNMEM_START + _)) by lia.
  rewrite u32_small by lia.
  split_and!; [|lia|lia|lia|lia].
  replace (configDYNMEM_START + k * 2 ^ 20 - configDYNMEM_START) with (k * 2 ^ 20) by lia.
  apply Z.div_mul. lia.
Qed.

Section ops.
Context (A : gmap Z region) (s : dynmem) (Hrep : represents A s).

Lemma nbits : 32 * Z.of_nat (length (dynmemmap_bitmap s)) = DYNMEM_MAPSIZE.
Proof. rewrite (rep_blen _ _ Hrep). pose proof cfg_words. dlia. Qed.

Lemma search_region size :
  0 < size ->
  match bitmap_block_search size (dynmemmap_bitmap s) SIZEOF_DYNMEMMAP_BITMAP with
  | None => False
  | Some (Some r) => block_free (dynmemmap_bitmap s) r size /\ 0 <= r /\
                     r + size <= DYNMEM_MAPSIZE
  | Some None => True
  end.
Proof.
  intros Hs. pose proof (search_s_spec (dynmemmap_bitmap s) 0 size
    SIZEOF_DYNMEMMAP_BITMAP (rep_wf _ _ Hrep) Hs ltac:(lia)) as Hsp.
  rewrite bitmap_size, <-(rep_blen _ _ Hrep) in *.
  specialize (Hsp ltac:(lia) ltac:(dlia)).
  unfold bitmap_block_search.
  destruct (bitmap_block_search_s _ _ _ _) as [[r|]|]; [|done|done].
  destruct Hsp as [Hr Hf]. pose proof (block_free_range _ _ _ Hs Hf).
  rewrite nbits in *. split_and!; [done|lia|lia].
Qed.

Lemma update_region start len :
  0 <= start -> 0 < len -> start + len <= DYNMEM_MAPSIZE ->
  exists b, bitmap_block_update (dynmemmap_bitmap s) 1 start len
              SIZEOF_DYNMEMMAP_BITMAP = Some (0, b) /\
    range_set (dynmemmap_bitmap s) b start (update_end start len) true.
Proof.
  intros. pose proof cfg_mapsize. pose proof cfg_words. pose proof nbits.
  pose proof bitmap_size as Hbs.
  destruct (block_update_spec (dynmemmap_bitmap s) 1 start len SIZEOF_DYNMEMMAP_BITMAP)
    as (b & ? & ?); [apply (rep_wf _ _ Hrep)|done|done|dlia|lia|dlia|dlia|]. eauto.
Qed.

Lemma free_not_in_region i k R :
  bit (dynmemmap_bitmap s) i = Some false -> A !! k = Some R -> ~ in_region k R i.
Proof. intros Hb Hk Hi. rewrite (rep_bit _ _ Hrep k R i Hk Hi) in Hb. done. Qed.

(** Address of a live region: valid, and described by its descriptor. *)
Lemma region_valid k R :
  A !! k = Some R ->
  addr2dindex (dindex2addr k) = k /\
  addr_is_valid s (dindex2addr k) true = Some true /\
  (dynmemmap s).[k] = Some (desc_of R 0) /\
  update_dynmem_region_struct s (dindex2addr k) =
    Some (0, set_region s (MmuRegion (dindex2addr k) (g_pages R) (g_ap R)
                             (g_control R) (dindex2addr k))).
Proof.
  intros Hk. destruct (rep_range _ _ Hrep k R Hk) as (Hk0 & Hn & Hkn & Href).
  destruct (addr_index k ltac:(lia)) as (Hi & _ & _ & Hlo & Hhi).
  pose proof (rep_desc _ _ Hrep k R 0 Hk ltac:(lia)) as Hd. rewrite Z.add_0_r in Hd.
  assert (addr_is_valid s (dindex2addr k) true = Some true) as Hv.
  { unfold addr_is_valid. rewrite Hlo, Hhi, Hi, Hd. simpl.
    destruct (Z.eqb_spec (g_ref R) 0); [lia|done]. }
  split_and!; [done|done|done|].
  unfold update_dynmem_region_struct. rewrite Hv. cbn [mbind option_bind negb].
  rewrite Hi. rewrite (count_pages_spec _ _ _ (g_pages R)).
  - cbn [mbind option_bind]. rewrite Hd. simpl. do 4 f_equal. lia.
  - lia.
  - pose proof (rep_len _ _ Hrep). lia.
  - intros j Hj. eexists. split; [by apply (rep_desc _ _ Hrep k R j Hk); lia|].
    unfold desc_of. simpl. by zcase; [lia|].
  - eexists. split; [by apply (rep_desc _ _ Hrep k R _ Hk); lia|].
    unfold desc_of. simpl. by zcase; [|lia].
Qed.

Lemma alloc_refines size ap ctrl :
  0 < size ->
  match dynmem_alloc_region s size ap ctrl with
  | None => False
  | Some (addr, s') =>
      (addr = 0 /\ s' = s) \/
      exists p, addr = dindex2addr p /\ 0 <= p /\ p + size <= DYNMEM_MAPSIZE /\
        block_free (dynmemmap_bitmap s) p size /\
        (32 <= p \/ p + size <= 32 ->
         represents (<[p := Region size (ap mod 2 ^ 3) (ctrl mod 2 ^ 10) 1]> A) s') /\
        effects s' = MapRegion (MmuRegion addr size ap ctrl addr) :: effects s
  end.
Proof.
  intros Hs. unfold dynmem_alloc_region. destruct (Z.eqb_spec size 0); [lia|].
  pose proof (search_region size Hs) as Hsr.
  destruct (bitmap_block_search _ _ _) as [[p|]|]; cbn [mbind option_bind];
    [|by left|done].
  destruct Hsr as (Hf & Hp & Hps).
  destruct (update_region p size Hp Hs Hps) as (b & Hu & Hset).
  cbn [dynmemmap_bitmap set_free]. rewrite Hu. simpl.
  unfold kmap_allocation. cbn [dynmemmap set_bitmap set_free].
  set (desc := DynmemDesc _ _ 0 1).
  destruct (fill_descs_spec (Z.to_nat (size - 1)) (dynmemmap s) p desc)
    as (m & -> & Hml & Hm); [lia|rewrite (rep_len _ _ Hrep); lia|].
  simpl. right. exists p. split_and!; try done. intros Hstr.
  replace (Z.of_nat (Z.to_nat (size - 1))) with (size - 1) in Hm by lia.
  assert (update_end p size = p + size) as He by (unfold update_end; zsolve).
  rewrite He in Hset. destruct Hset as (Hbwf & Hbl & Hb).
  set (R := Region size _ _ 1).
  assert (forall k R0 i, A !! k = Some R0 -> in_region k R0 i -> ~ (p <= i < p + size))
    as Hnew.
  { intros k R0 i Hk Hi Hpi. by eapply (free_not_in_region i); eauto. }
  assert (forall k R0, (<[p := R]> A) !! k = Some R0 ->
            (k = p /\ R0 = R) \/ (k <> p /\ A !! k = Some R0)) as Hcases.
  { intros k R0. rewrite lookup_insert. case_decide; [intros [= <-]; by left|by right]. }
  split; simpl.
  - rewrite Hml. apply (rep_len _ _ Hrep).
  - done.
  - rewrite Hbl. apply (rep_blen _ _ Hrep).
  - intros k R0 [[-> ->]|[_ Hk]]%Hcases; [simpl; lia|]. by apply (rep_range _ _ Hrep).
  - intros k R0 j [[-> ->]|[_ Hk]]%Hcases Hj; rewrite Hm.
    + unfold desc_of, R in *; simpl in *. zsolve.
    + pose proof (Hnew k R0 (k + j) Hk ltac:(unfold in_region; lia)).
      rewrite <-(rep_desc _ _ Hrep k R0 j Hk Hj). zsolve.
  - intros k R0 i [[-> ->]|[_ Hk]]%Hcases Hi.
    + unfold in_region in Hi; simpl in Hi. rewrite Hb by lia. zsolve.
    + destruct (rep_range _ _ Hrep k R0 Hk) as (? & _).
      pose proof (Hnew k R0 i Hk Hi). unfold in_region in Hi. rewrite Hb by lia.
      rewrite (rep_bit _ _ Hrep k R0 i Hk Hi). zsolve.
  - intros k1 R1 k2 R2 i [[-> ->]|[_ H1]]%Hcases [[-> ->]|[_ H2]]%Hcases Hi1 Hi2; try done.
    + exfalso. by apply (Hnew k2 R2 i H2 Hi2).
    + exfalso. by apply (Hnew k1 R1 i H1 Hi1).
    + by eapply (rep_disjoint _ _ Hrep k1 R1 k2 R2 i).
  - intros i Hi Hout.
    assert (~ (p <= i < p + size)) as Hni.
    { apply (Hout p R). apply lookup_insert_eq. }
    rewrite Hm, <-(rep_rest _ _ Hrep i Hi); [zsolve|].
    intros k R0 Hk. apply Hout. rewrite lookup_insert_ne; [done|].
    intros <-. destruct (rep_range _ _ Hrep p R0 Hk) as (? & ? & _).
    apply (Hnew p R0 p Hk); [unfold in_region|]; lia.
Qed.

(** Changing the reference count of a live region. *)
Lemma represents_set_ref k R r m :
  A !! k = Some R -> 0 < r < 2 ^ 16 ->
  (dynmemmap s).[k <- set_refcount (desc_of R 0) r] = Some m ->
  represents (<[k := Region (g_pages R) (g_ap R) (g_control R) r]> A) (set_map s m).
Proof.
  intros Hk Hr Hm. set (R' := Region _ _ _ r).
  assert (forall k' R0, (<[k := R']> A) !! k' = Some R0 ->
            exists R1, A !! k' = Some R1 /\ g_pages R0 = g_pages R1 /\
              0 < g_ref R0 < 2 ^ 16 /\ (k' = k -> R0 = R' /\ R1 = R) /\
              (k' <> k -> R0 = R1)) as Hcases.
  { intros k' R0. rewrite lookup_insert. case_decide as E.
    - intros [= <-]. exists R. subst k'. split_and!; [done|done|simpl; lia|simpl; lia|done|done].
    - intros Hk'. exists R0. destruct (rep_range _ _ Hrep k' R0 Hk') as (_ & _ & _ & ?).
      split_and!; [done|done|lia|lia|intros ->; done|done]. }
  pose proof Hrep as [Hlen Hwf Hbl Hrange Hdesc Hbit Hdis Hrest].
  split; simpl; try done.
  - by rewrite (wr_length _ _ _ _ Hm).
  - intros k' R0 (R1 & Hk' & -> & Hr0 & _)%Hcases.
    destruct (Hrange _ _ Hk') as (? & ? & ? & _). lia.
  - intros k' R0 j (R1 & Hk' & Hp & _ & He & Hn)%Hcases Hj.
    destruct (decide (k' + j = k)) as [E|E].
    + assert (k' = k) as ->.
      { destruct (Hrange _ _ Hk) as (? & ? & _).
        eapply (Hdis k' R1 k R k); try done; unfold in_region; lia. }
      destruct (He eq_refl) as [-> ->]. assert (j = 0) as -> by lia.
      rewrite E, (rd_wr_eq _ _ _ _ Hm). unfold desc_of, set_refcount. simpl.
      rewrite Z.mod_small by lia. done.
    + rewrite (rd_wr_ne _ _ _ _ _ Hm) by done.
      rewrite (Hdesc k' R1 j) by (done || lia). f_equal.
      destruct (decide (k' = k)) as [->|Hne].
      * destruct (He eq_refl) as [-> ->]. unfold desc_of; simpl. zsolve.
      * by rewrite (Hn Hne).
  - intros k' R0 i (R1 & Hk' & Hp & _)%Hcases Hi.
    apply (Hbit k' R1 i Hk'). unfold in_region in *. lia.
  - intros k1 R1 k2 R2 i (R1' & H1 & Hp1 & _)%Hcases (R2' & H2 & Hp2 & _)%Hcases Hi1 Hi2.
    eapply (Hdis k1 R1' k2 R2' i); try done; unfold in_region in *; lia.
  - intros i Hi Hout. assert (i <> k) as Hik.
    { intros ->. destruct (Hrange _ _ Hk) as (? & ? & _).
      apply (Hout k R'); [apply lookup_insert_eq|]. unfold in_region; simpl; lia. }
    rewrite (rd_wr_ne _ _ _ _ _ Hm) by done. apply Hrest; [done|].
    intros k' R1 Hk' Hi'. destruct (decide (k' = k)) as [->|Hne].
    + apply (Hout k R'); [apply lookup_insert_eq|].
      rewrite Hk in Hk'. injection Hk' as <-. done.
    + apply (Hout k' R1); [by rewrite lookup_insert_ne|done].
Qed.

Lemma ref_refines k R :
  A !! k = Some R -> g_ref R + 1 < 2 ^ 16 ->
  exists s', dynmem_ref s (dindex2addr k) = Some (0, s') /\
    represents (<[k := Region (g_pages R) (g_ap R) (g_control R) (g_ref R + 1)]> A) s'.
Proof.
  intros Hk Hov. destruct (region_valid k R Hk) as (Hi & Hv & Hd & _).
  destruct (rep_range _ _ Hrep k R Hk) as (? & ? & ? & ?).
  unfold dynmem_ref. rewrite Hv. simpl. rewrite Hi, Hd. simpl.
  destruct (Z.eqb_spec (g_ref R) 0); [lia|].
  destruct (wr_some (dynmemmap s) k (set_refcount (desc_of R 0) (g_ref R + 1)))
    as (m & Hm & _); [rewrite (rep_len _ _ Hrep); lia|].
  change (d_refcount (desc_of R 0)) with (g_ref R). rewrite Hm. simpl.
  eexists. split; [done|]. apply represents_set_ref; [done|lia|done].
Qed.

(** Dropping a reference: the region survives as long as one is left. *)
Lemma free_refines k R :
  A !! k = Some R ->
  exists s', dynmem_free_region s (dindex2addr k) = Some s' /\
    represents (if g_ref R =? 1 then delete k A
                else <[k := Region (g_pages R) (g_ap R) (g_control R) (g_ref R - 1)]> A) s' /\
    (forall i, 0 <= i ->
       bit (dynmemmap_bitmap s') i = bit (dynmemmap_bitmap s) i) /\
    effects s' = (if g_ref R =? 1 then
                    [UnmapRegion (MmuRegion (dindex2addr k) (g_pages R) (g_ap R)
                                    (g_control R) (dindex2addr k))]
                  else []) ++ effects s.
Proof.
  intros Hk. destruct (region_valid k R Hk) as (Hi & Hv & Hd & Hupd).
  destruct (rep_range _ _ Hrep k R Hk) as (? & ? & ? & ?).
  unfold dynmem_free_region. rewrite Hv. simpl. rewrite Hi, Hd. simpl.
  destruct (Z.ltb_spec 1 (g_ref R)).
  { destruct (wr_some (dynmemmap s) k (set_refcount (desc_of R 0) (g_ref R - 1)))
      as (m & Hm & _); [rewrite (rep_len _ _ Hrep); lia|].
    rewrite Hm. simpl. eexists. split; [done|].
    destruct (Z.eqb_spec (g_ref R) 1); [lia|]. split; [|done].
    apply represents_set_ref; [done|lia|done]. }
  destruct (Z.eqb_spec (g_ref R) 1) as [Hr1|]; [|lia].
  rewrite Hupd. simpl.
  destruct (zero_descs_spec (Z.to_nat (g_pages R)) (dynmemmap s) k)
    as (m & -> & Hml & Hm); [lia|rewrite (rep_len _ _ Hrep); lia|].
  replace (Z.of_nat (Z.to_nat (g_pages R))) with (g_pages R) in Hm by lia.
  destruct (update_region k (g_pages R)) as (b & Hu & Hbwf & Hbl & Hb); [lia..|].
  simpl. rewrite Hu. simpl. eexists. split; [done|].
  assert (forall i, 0 <= i -> bit b i = bit (dynmemmap_bitmap s) i) as Hsame.
  { intros i Hi0. rewrite Hb by done.
    destruct (Z.leb_spec k i), (Z.ltb_spec i (update_end k (g_pages R))); simpl; try done.
    symmetry. apply (rep_bit _ _ Hrep k R i Hk). unfold in_region.
    assert (update_end k (g_pages R) <= k + g_pages R) by (unfold update_end; zsolve). lia. }
  split; [|done].
  pose proof Hrep as [Hlen Hwf Hbl0 Hrange Hdesc Hbit Hdis Hrest].
  assert (forall k' R0, delete k A !! k' = Some R0 -> k' <> k /\ A !! k' = Some R0)
    as Hcases by (intros k' R0; rewrite lookup_delete; case_decide; done).
  split; simpl; try done.
  - by rewrite Hml.
  - by rewrite Hbl.
  - intros k' R0 [_ Hk']%Hcases. by apply Hrange.
  - intros k' R0 j [Hne Hk']%Hcases Hj. rewrite Hm, (Hdesc k' R0 j Hk' Hj).
    destruct (Z.leb_spec k (k' + j)), (Z.ltb_spec (k' + j) (k + g_pages R)); simpl; try done.
    exfalso. apply Hne. eapply (Hdis k' R0 k R (k' + j)); try done; unfold in_region; lia.
  - intros k' R0 i [Hne Hk']%Hcases Hi'. destruct (Hrange _ _ Hk') as (? & _).
    rewrite Hsame by (unfold in_region in Hi'; lia). by apply (Hbit k' R0).
  - intros k1 R1 k2 R2 i [_ Hk1]%Hcases [_ Hk2]%Hcases. by apply Hdis.
  - intros i Hi' Hout. rewrite Hm.
    destruct (Z.leb_spec k i), (Z.ltb_spec i (k + g_pages R)); simpl; try done;
      (apply Hrest; [done|]; intros k' R0 Hk' Hin;
       destruct (decide (k' = k)) as [->|Hne];
       [rewrite Hk in Hk'; injection Hk' as <-; unfold in_region in Hin; lia
       |by apply (Hout k' R0); [rewrite lookup_delete_ne|]]).
Qed.
End ops.
End refinement.

(** ** The allocator in use *)

Section use.
Context `{DynmemConfigOk}.

(** The scratch structure is not part of the representation. *)
Lemma represents_set_region A s r : represents A s -> represents A (set_region s r).
Proof. intros []. by split. Qed.

Lemma represents_emit A s e : represents A s -> represents A (emit s e).
Proof. intros []. by split. Qed.

(** A state in use together with the live regions: the callers of [dynmem]
    take and drop references of regions that are live, and no counter is
    driven over its 16 bits. *)
Inductive dynmem_step : gmap Z region * dynmem -> gmap Z region * dynmem -> Prop :=
  | st_alloc A s size ap ctrl addr s' :
      0 < size -> dynmem_alloc_region s size ap ctrl = Some (addr, s') -> addr <> 0 ->
      dynmem_step (A, s)
        (<[addr2dindex addr := Region size (ap mod 2 ^ 3) (ctrl mod 2 ^ 10) 1]> A, s')
  | st_alloc_fail A s size ap ctrl s' :
      0 < size -> dynmem_alloc_region s size ap ctrl = Some (0, s') ->
      dynmem_step (A, s) (A, s')
  | st_ref A s k R s' :
      A !! k = Some R -> g_ref R + 1 < 2 ^ 16 ->
      dynmem_ref s (dindex2addr k) = Some (0, s') ->
      dynmem_step (A, s)
        (<[k := Region (g_pages R) (g_ap R) (g_control R) (g_ref R + 1)]> A, s')
  | st_free A s k R s' :
      A !! k = Some R -> dynmem_free_region s (dindex2addr k) = Some s' ->
      dynmem_step (A, s)
        (if g_ref R =? 1 then delete k A
         else <[k := Region (g_pages R) (g_ap R) (g_control R) (g_ref R - 1)]> A, s')
  | st_acc A s addr len r s' :
      dynmem_acc s addr len = Some (r, s') -> dynmem_step (A, s) (A, s').

Lemma update_struct_represents A s base err s' :
  represents A s -> update_dynmem_region_struct s base = Some (err, s') ->
  represents A s' /\ dynmemmap_bitmap s' = dynmemmap_bitmap s.
Proof.
  intros Hrep. unfold update_dynmem_region_struct.
  destruct (addr_is_valid s base true) as [[|]|]; mstep; [|intros [= <- <-]; done|done].
  destruct (count_pages _ _ _ _); mstep; [|done].
  destruct (_.[_]); mstep; [|done]. intros [= <- <-].
  split; [by apply represents_set_region|done].
Qed.

Lemma acc_represents A s addr len r s' :
  represents A s -> dynmem_acc s addr len = Some (r, s') ->
  represents A s' /\ dynmemmap_bitmap s' = dynmemmap_bitmap s.
Proof.
  intros Hrep. unfold dynmem_acc.
  destruct (addr_is_valid s addr true) as [[|]|]; mstep; [|intros [= <- <-]; done|done].
  destruct (update_dynmem_region_struct s addr) as [[err s1]|] eqn:E; mstep; [|done].
  pose proof (update_struct_represents _ _ _ _ _ Hrep E).
  repeat case_match; intros [= <- <-]; done.
Qed.

(** One step of the allocator when no region crosses the end of word 0. *)
Lemma step_represents A s A' s' :
  DYNMEM_MAPSIZE = 32 -> represents A s -> dynmem_step (A, s) (A', s') ->
  represents A' s' /\
  forall i, 0 <= i -> bit (dynmemmap_bitmap s) i = Some true ->
            bit (dynmemmap_bitmap s') i = Some true.
Proof.
  intros Hword Hrep Hstep. inversion Hstep; subst.
  - pose proof (alloc_refines A s Hrep size ap ctrl ltac:(done)) as Ha.
    match goal with E : dynmem_alloc_region _ _ _ _ = _ |- _ => rewrite E in Ha; rename E into Ea end.
    destruct Ha as [[-> _]|(p & -> & Hp & Hps & Hf & Hr & _)]; [done|].
    assert (0 <= p < DYNMEM_MAPSIZE) as Hpr by lia.
    destruct (addr_index p Hpr) as (-> & _).
    specialize (Hr ltac:(lia)). split; [done|].
    intros i Hi Hb. unfold dynmem_alloc_region in Ea.
    destruct (Z.eqb_spec size 0); [lia|].
    destruct (bitmap_block_search _ _ _) as [[q|]|] eqn:Eq; cbn [mbind option_bind] in Ea; try done.
    + pose proof (search_region A s Hrep size ltac:(done)) as Hsr. rewrite Eq in Hsr.
      destruct Hsr as (Hqf & Hq & Hqs).
      destruct (update_region A s Hrep q size ltac:(lia) ltac:(lia) ltac:(lia))
        as (b & Hu & _ & _ & Hset).
      cbn [dynmemmap_bitmap set_free] in Ea. rewrite Hu in Ea. simpl in Ea.
      unfold kmap_allocation in Ea. cbn [dynmemmap set_bitmap set_free] in Ea.
      destruct (fill_descs _ _ _ _) in Ea; simpl in Ea; [|done].
      injection Ea as _ <-. simpl. rewrite Hset, Hb by done. by case_match.
    + injection Ea as Ea _.
      match goal with Hn : dindex2addr p <> 0 |- _ => by rewrite <-Ea in Hn end.
  - pose proof (alloc_refines A' s Hrep size ap ctrl ltac:(done)) as Ha.
    match goal with E : dynmem_alloc_region _ _ _ _ = _ |- _ => rewrite E in Ha end.
    destruct Ha as [[_ ->]|(p & Hz & Hp & Hps & _)]; [done|].
    assert (0 <= p < DYNMEM_MAPSIZE) as Hpr by lia.
    destruct (addr_index p Hpr) as (_ & ? & _). lia.
  - destruct (ref_refines A s Hrep k R ltac:(done) ltac:(done)) as (s1 & E1 & Hr).
    match goal with E : dynmem_ref _ _ = Some (0, s') |- _ => rename E into Er end.
    rewrite Er in E1.
    injection E1 as <-. split; [done|]. intros i Hi Hb.
    unfold dynmem_ref in Er. destruct (addr_is_valid s _ _) as [[|]|]; simpl in Er; try done.
    destruct (_.[_]) as [d|]; simpl in Er; [|done]. destruct (d_refcount d =? 0); [done|].
    destruct (wr _ _ _); simpl in Er; [|done]. by injection Er as <-.
  - destruct (free_refines A s Hrep k R ltac:(done)) as (s1 & E1 & Hr & Hsame & _).
    match goal with E : dynmem_free_region _ _ = Some s' |- _ => rewrite E in E1 end.
    injection E1 as <-. split; [done|]. intros i Hi Hb. by rewrite Hsame.
  - match goal with E : dynmem_acc _ _ _ = _ |- _ =>
      destruct (acc_represents _ _ _ _ _ _ Hrep E) as [? ->] end. done.
Qed.

Lemma steps_represent A s A' s' :
  DYNMEM_MAPSIZE = 32 -> represents A s -> rtc dynmem_step (A, s) (A', s') ->
  represents A' s' /\
  forall i, 0 <= i -> bit (dynmemmap_bitmap s) i = Some true ->
            bit (dynmemmap_bitmap s') i = Some true.
Proof.
  intros Hw Hrep Hrun. remember (A, s) as x eqn:Ex. remember (A', s') as y eqn:Ey.
  revert A s Ex Hrep. induction Hrun as [z|z [A1 s1] z' Hst Hrun IH]; intros A s Ex Hrep; subst.
  - injection Ex as -> ->. done.
  - destruct (step_represents _ _ _ _ Hw Hrep Hst) as [Hrep1 Hm1].
    destruct (IH eq_refl _ _ eq_refl Hrep1) as [Hrep2 Hm2]. eauto.
Qed.

Lemma boot_represents : represents ∅ dynmem_boot.
Proof.
  pose proof cfg_mapsize. pose proof cfg_words. pose proof cfg_pages.
  assert (DYNMEM_BITMAPSIZE = DYNMEM_MAPSIZE / 32) as Hb
    by (unfold DYNMEM_BITMAPSIZE, E2BITMAP_SIZE; dlia).
  split; simpl; try (intros *; rewrite lookup_empty; done).
  - rewrite length_replicate. lia.
  - split; [apply Forall_replicate; lia|]. rewrite length_replicate, Hb. dlia.
  - rewrite length_replicate, Hb. dlia.
  - intros i Hi _. unfold rd. zcase; [lia|]. apply lookup_replicate_2. lia.
Qed.

(** A clone takes a reference, copies the region into a new one and drops
    the reference again. *)
Lemma clone_refines A s k R :
  DYNMEM_MAPSIZE = 32 -> represents A s -> A !! k = Some R -> g_ref R + 1 < 2 ^ 16 ->
  match dynmem_clone s (dindex2addr k) with
  | None => False
  | Some (addr, s') =>
      (addr = 0 /\
       represents (<[k := Region (g_pages R) (g_ap R) (g_control R) (g_ref R + 1)]> A) s') \/
      exists p, addr = dindex2addr p /\ A !! p = None /\
        represents (<[p := Region (g_pages R) (g_ap R mod 2 ^ 3)
                             (g_control R mod 2 ^ 10) 1]> A) s' /\
        MemCopy addr (dindex2addr k) (g_pages R * DYNMEM_PAGE_SIZE) ∈ effects s'
  end.
Proof.
  intros Hw Hrep Hk Hov. unfold dynmem_clone.
  destruct (ref_refines A s Hrep k R Hk Hov) as (s1 & -> & Hrep1). mstep. simpl (0 =? 0).
  set (R1 := Region (g_pages R) (g_ap R) (g_control R) (g_ref R + 1)) in *.
  assert ((<[k := R1]> A) !! k = Some R1) as Hk1 by apply lookup_insert_eq.
  destruct (region_valid _ s1 Hrep1 k R1 Hk1) as (_ & _ & _ & ->). mstep. simpl (0 =? 0).
  cbn [dynmem_region set_region r_num_pages r_ap r_control r_paddr g_pages g_ap g_control R1].
  set (reg := MmuRegion _ _ _ _ _).
  pose proof (represents_set_region _ _ reg Hrep1) as Hrep2.
  destruct (rep_range _ _ Hrep k R Hk) as (? & Hn & ? & ?).
  pose proof (alloc_refines _ _ Hrep2 (g_pages R) (g_ap R) (g_control R) Hn) as Ha.
  destruct (dynmem_alloc_region _ _ _ _) as [[addr s2]|]; [|done]. mstep.
  destruct Ha as [[-> ->]|(p & -> & Hp & Hps & Hf & Hrep3 & _)]; [by left|].
  assert (0 <= p < DYNMEM_MAPSIZE) as Hpr by lia.
  destruct (addr_index p Hpr) as (_ & Hpos & _).
  destruct (Z.eqb_spec (dindex2addr p) 0); [lia|].
  assert (k <> p) as Hkp.
  { intros ->. apply (free_not_in_region _ _ Hrep2 p p R1 (Hf p ltac:(lia)) Hk1).
    unfold in_region. simpl. lia. }
  assert (A !! p = None) as Hfresh.
  { destruct (A !! p) as [Rp|] eqn:E; [exfalso|done].
    destruct (rep_range _ _ Hrep p Rp E) as (? & ? & _).
    apply (free_not_in_region _ _ Hrep2 p p Rp (Hf p ltac:(lia)));
      [by rewrite lookup_insert_ne|unfold in_region; lia]. }
  specialize (Hrep3 ltac:(lia)).
  pose proof (represents_emit _ _
    (MemCopy (dindex2addr p) (dindex2addr k) (g_pages R * DYNMEM_PAGE_SIZE)) Hrep3) as Hrep4.
  destruct (free_refines _ _ Hrep4 k R1) as (s3 & -> & Hrep5 & _ & Heff);
    [by rewrite lookup_insert_ne|].
  mstep. right. exists p. simpl in Hrep5, Heff.
  destruct (Z.eqb_spec (g_ref R + 1) 1); [lia|]. simpl in Heff.
  split_and!; [done|done| |rewrite Heff; apply list_elem_of_here].
  rewrite insert_insert_ne in Hrep5 by done. rewrite insert_insert_eq in Hrep5.
  replace (g_ref R + 1 - 1) with (g_ref R) in Hrep5 by lia.
  rewrite (insert_id A k) in Hrep5 by (by destruct R). done.
Qed.

(** The permission check of the first byte of a live region. *)
Lemma acc_region A s k R len :
  represents A s -> A !! k = Some R ->
  exists s', dynmem_acc s (dindex2addr k) len =
    Some ((g_ap R, if Z.land (g_control R) MMU_CTRL_XN =? MMU_CTRL_XN then 1 else 0), s').
Proof.
  intros Hrep Hk. destruct (region_valid A s Hrep k R Hk) as (_ & Hv & _ & Hu).
  destruct (rep_range _ _ Hrep k R Hk) as (? & ? & ? & _).
  assert (0 <= k < DYNMEM_MAPSIZE) as Hkr by lia.
  destruct (addr_index k Hkr) as (_ & _ & Haddr & _).
  pose proof cfg_end. pose proof cfg_size. pose proof cfg_start.
  assert (dindex2addr k + g_pages R * DYNMEM_PAGE_SIZE < 2 ^ 32) as Hfit.
  { rewrite Haddr. unfold DYNMEM_START, DYNMEM_PAGE_SIZE in *. nia. }
  assert (0 < g_pages R * DYNMEM_PAGE_SIZE) by (unfold DYNMEM_PAGE_SIZE; lia).
  assert (0 <= dindex2addr k).
  { rewrite Haddr. unfold DYNMEM_START, DYNMEM_PAGE_SIZE. lia. }
  unfold dynmem_acc. rewrite Hv. mstep. rewrite Hu. mstep. simpl (0 =? 0).
  unfold master_sizeof_region. cbn [dynmem_region set_region r_num_pages r_ap r_control r_paddr negb].
  rewrite !u32_small by lia. eexists.
  repeat (zcase; simpl; try lia); done.
Qed.
End use.

(** ** Correctness of dynmem *)


#[local] Instance config32 : DynmemConfig :=
  {| configDYNMEM_START := 0x800000; configDYNMEM_SIZE := 0x2000000 |}.
#[local] Instance config32_ok : DynmemConfigOk.
Proof. by split. Qed.


(** Pages of a region are never handed out again, not even after the
    region has been freed: freeing marks them as used in the bit map. *)
Theorem dynmem_pages_never_reused `{DynmemConfigOk}
    (A A' : gmap Z region) (s s' s'' : dynmem) (k i size ap ctrl p : Z) (R : region)
    (Hword : DYNMEM_MAPSIZE = 32)
    (Hrep : represents A s) (Hlive : A !! k = Some R) (Hi : in_region k R i)
    (Hrun : rtc dynmem_step (A, s) (A', s')) (Hsize : 0 < size)
    (Hp : 0 <= p < DYNMEM_MAPSIZE)
    (Halloc : dynmem_alloc_region s' size ap ctrl = Some (dindex2addr p, s'')) :
  ~ (p <= i < p + size).
Proof.
  destruct (steps_represent _ _ _ _ Hword Hrep Hrun) as [Hrep' Hmono].
  pose proof (rep_bit _ _ Hrep k R i Hlive Hi) as Hb.
  pose proof (bit_Some_range _ _ _ Hb) as Hir.
  specialize (Hmono i ltac:(lia) Hb).
  pose proof (alloc_refines A' s' Hrep' size ap ctrl Hsize) as Ha. rewrite Halloc in Ha.
  destruct (addr_index p Hp) as (Hidx & Hpos & _).
  destruct Ha as [[Hz _]|(q & Hq & Hq0 & Hqs & Hf & _)]; [lia|].
  assert (0 <= q < DYNMEM_MAPSIZE) as Hqr by lia.
  destruct (addr_index q Hqr) as (Hqidx & _).
  assert (q = p) as -> by congruence.
  intros Hpi. rewrite (Hf i Hpi) in Hmono. done.
Qed.

Lemma dynmem_pages_never_reused_witness :
  exists s s1 s2, dynmem_alloc_region dynmem_boot 4 1 96 = Some (dindex2addr 0, s) /\
    dynmem_free_region s (dindex2addr 0) = Some s1 /\
    dynmem_alloc_region s1 4 1 96 = Some (dindex2addr 4, s2) /\
    ~ (4 <= 3 < 4 + 4).
Proof.
  destruct (dynmem_alloc_region dynmem_boot 4 1 96) as [[a0 s]|] eqn:E0; [|by vm_compute in E0].
  assert (a0 = dindex2addr 0) as -> by (vm_compute in E0; by injection E0 as <- _).
  destruct (dynmem_free_region s (dindex2addr 0)) as [s1|] eqn:E1;
    [|exfalso; vm_compute in E0; injection E0 as <-; by vm_compute in E1].
  destruct (dynmem_alloc_region s1 4 1 96) as [[a2 s2]|] eqn:E2;
    [|exfalso; vm_compute in E0; injection E0 as <-; vm_compute in E1; injection E1 as <-;
      by vm_compute in E2].
  assert (a2 = dindex2addr 4) as ->.
  { vm_compute in E0; injection E0 as <-. vm_compute in E1; injection E1 as <-.
    vm_compute in E2. by injection E2 as <- _. }
  set (A := <[0 := Region 4 1 96 1]> (∅ : gmap Z region)).
  assert (represents A s) as Hrep.
  { pose proof (alloc_refines ∅ dynmem_boot boot_represents 4 1 96 eq_refl) as Ha.
    rewrite E0 in Ha. destruct Ha as [[Hz _]|(p & Hp & ? & ? & _ & Hr & _)]; [done|].
    assert (p = 0) as ->.
    { assert (0 <= p < DYNMEM_MAPSIZE) as Hpr by lia.
 destruct (addr_index p Hpr) as (Hx & _). rewrite <-Hx, <-Hp. done. }
    apply Hr. right. done. }
  exists s, s1, s2. do 3 (split; [done|]).
  apply (dynmem_pages_never_reused A (delete 0 A) s s1 s2 0 3 4 1 96 4 (Region 4 1 96 1)).
  - done.
  - exact Hrep.
  - done.
  - done.
  - eapply rtc_l; [|apply rtc_refl]. by apply (st_free A s 0 (Region 4 1 96 1) s1).
  - done.
  - done.
  - exact E2.
Defined.

(** Cloning a live region leaves the region as it was and creates a new
    live region of the same size, permissions and control bits with a copy of
    the memory; when there is no room for the copy the clone fails and the
    reference it took is not given back. *)
Theorem dynmem_clone_correct `{DynmemConfigOk} (A : gmap Z region) (s : dynmem)
    (k : Z) (R : region) (Hword : DYNMEM_MAPSIZE = 32)
    (Hrep : represents A s) (Hlive : A !! k = Some R)
    (Hap : 0 <= g_ap R < 2 ^ 3) (Hctrl : 0 <= g_control R < 2 ^ 10)
    (Hov : g_ref R + 1 < 2 ^ 16) :
  exists addr s', dynmem_clone s (dindex2addr k) = Some (addr, s') /\
    ((addr = 0 /\
      represents (<[k := Region (g_pages R) (g_ap R) (g_control R) (g_ref R + 1)]> A) s') \/
     exists p, addr = dindex2addr p /\ A !! p = None /\
       represents (<[p := Region (g_pages R) (g_ap R) (g_control R) 1]> A) s' /\
       MemCopy addr (dindex2addr k) (g_pages R * DYNMEM_PAGE_SIZE) ∈ effects s').
Proof.
  pose proof (clone_refines A s k R Hword Hrep Hlive Hov) as Hc.
  rewrite !Z.mod_small in Hc by lia.
  destruct (dynmem_clone s (dindex2addr k)) as [[addr s']|]; [|done]. eauto.
Qed.

Lemma dynmem_clone_correct_witness :
  exists s1 addr s', dynmem_alloc_region dynmem_boot 4 1 96 = Some (dindex2addr 0, s1) /\
    dynmem_clone s1 (dindex2addr 0) = Some (addr, s').
Proof.
  destruct (dynmem_alloc_region dynmem_boot 4 1 96) as [[a0 s]|] eqn:E0; [|by vm_compute in E0].
  assert (a0 = dindex2addr 0) as -> by (vm_compute in E0; by injection E0 as <- _).
  pose proof (alloc_refines ∅ dynmem_boot boot_represents 4 1 96 eq_refl) as Ha.
  rewrite E0 in Ha. destruct Ha as [[Hz _]|(p & Hp & Hp0 & Hps & _ & Hr & _)]; [done|].
  assert (0 <= p < DYNMEM_MAPSIZE) as Hpr by lia.
  destruct (addr_index p Hpr) as (Hx & _). rewrite <-Hp in Hx. vm_compute in Hx. subst p.
  assert (DYNMEM_MAPSIZE = 32) as Hw by reflexivity.
  specialize (Hr ltac:(lia)).
  destruct (dynmem_clone_correct _ s 0 (Region 4 1 96 1) Hw Hr) as (addr & s' & Hc & _).
  1-4: done.
  exists s, addr, s'. split; [done|exact Hc].
Defined.

(** The access check at the start of a live region reports the access
    permissions and the execute-never bit the region was allocated with. *)
Theorem dynmem_acc_correct `{DynmemConfigOk} (s s' s'' : dynmem)
    (A : gmap Z region) (size ap ctrl addr len : Z) (r : Z * Z)
    (Hword : DYNMEM_MAPSIZE = 32) (Hrep : represents A s) (Hsize : 0 < size)
    (Hap : 0 <= ap < 2 ^ 3) (Hctrl : 0 <= ctrl < 2 ^ 10)
    (Halloc : dynmem_alloc_region s size ap ctrl = Some (addr, s')) (Haddr : addr <> 0)
    (Hacc : dynmem_acc s' addr len = Some (r, s'')) :
  r = (ap, if Z.testbit ctrl 4 then 1 else 0).
Proof.
  pose proof (alloc_refines A s Hrep size ap ctrl Hsize) as Ha. rewrite Halloc in Ha.
  destruct Ha as [[-> _]|(p & -> & Hp & Hps & _ & Hrep' & _)]; [done|].
  specialize (Hrep' ltac:(lia)).
  destruct (acc_region _ s' p _ len Hrep' (lookup_insert_eq _ _ _)) as (s3 & Hacc').
  rewrite Hacc in Hacc'. injection Hacc' as -> _. cbn [g_ap g_control].
  rewrite !Z.mod_small by lia. f_equal.
  assert (Z.land ctrl MMU_CTRL_XN = if Z.testbit ctrl 4 then MMU_CTRL_XN else 0) as ->.
  { apply Z.bits_inj'. intros n Hn. rewrite Z.land_spec. unfold MMU_CTRL_XN.
    rewrite Z.shiftl_1_l, Z.pow2_bits_eqb by lia.
    destruct (Z.eqb_spec 4 n) as [<-|];
      destruct (Z.testbit ctrl 4) eqn:E; rewrite ?Z.bits_0, ?andb_false_r, ?E; try done.
    rewrite Z.pow2_bits_eqb by lia. by destruct (Z.eqb_spec 4 n). }
  by destruct (Z.testbit ctrl 4).
Qed.

Lemma dynmem_acc_correct_witness :
  exists s' r s'', dynmem_alloc_region dynmem_boot 4 5 112 = Some (0x800000, s') /\
    dynmem_acc s' 0x800000 16 = Some (r, s'') /\ r = (5, 1).
Proof.
  destruct (dynmem_alloc_region dynmem_boot 4 5 112) as [[a0 s]|] eqn:E0; [|by vm_compute in E0].
  assert (a0 = 0x800000) as -> by (vm_compute in E0; by injection E0 as <- _).
  destruct (dynmem_acc s 0x800000 16) as [[r s'']|] eqn:E1;
    [|exfalso; vm_compute in E0; injection E0 as <-; by vm_compute in E1].
  exists s, r, s''. do 2 (split; [done|]).
  assert (DYNMEM_MAPSIZE = 32) as Hw by reflexivity.
  apply (dynmem_acc_correct dynmem_boot s s'' ∅ 4 5 112 0x800000 16 r Hw boot_represents);
    done.
Defined.

(** With the default configuration, an area of 8 pages, the allocation
    bit map has 32 bits and none of them marks the pages that do not exist: a
    request for 9 pages is not refused but runs past the end of the descriptor
    table. *)
Theorem dynmem_default_overrun :
  let cfg := {| configDYNMEM_START := 0x800000; configDYNMEM_SIZE := 0x800000 |} in
  @DYNMEM_MAPSIZE cfg = 8 /\
  bitmap_block_search 9 (dynmemmap_bitmap (@dynmem_boot cfg))
    (@SIZEOF_DYNMEMMAP_BITMAP cfg) = Some (Some 0) /\
  @dynmem_alloc_region cfg (@dynmem_boot cfg) 9 1 96 = None.
Proof. split_and!; vm_compute; reflexivity. Qed.
