(* ===== verification/Mem.v ===== *)
(** * Memory primitives: kern/libkern/kstring/mem*.c, memalign.c, ptoint.c

    The kernel's own [memcpy], [memmove], [memset] and [memcmp] work on raw
    addresses.  Memory is one byte array indexed by address, so overlapping
    operands alias as they do in the machine.  Word accesses are 32 bits wide
    and little endian; an unaligned word access or an access outside of the
    memory is undefined and is [None]. *)
From S2P Require Import Prelude.

Abbreviation mem := (list Z).

(** ** Loads and stores *)

Definition ldw (m : mem) (p : Z) : option (list Z) :=
  if p mod 4 =? 0 then fetch m p 4 else None.
Definition stw (m : mem) (p : Z) (w : list Z) : option mem :=
  if p mod 4 =? 0 then splice m p w else None.

(** [*dst = *src] for bytes and for words. *)
Definition cpb (m : mem) (dst src : Z) : option mem :=
  b ← m.[src]; m.[dst <- b].
Definition cpw (m : mem) (dst src : Z) : option mem :=
  w ← ldw m src; stw m dst w.

(** ** memcpy.c *)

Definition UNALIGNED (x y : Z) : bool :=
  negb (Z.lor (Z.land x (4 - 1)) (Z.land y (4 - 1)) =? 0).
Definition BIGBLOCKSIZE : Z := Z.shiftl 4 2.
Definition LITTLEBLOCKSIZE : Z := 4.
Definition TOO_SMALL (len : Z) : bool := len <? BIGBLOCKSIZE.

(** [while (num >= BIGBLOCKSIZE)]: four words per round. *)
Fixpoint copy_big (fuel : nat) (m : mem) (dst src num : Z)
    : option (mem * Z * Z * Z) :=
  if BIGBLOCKSIZE <=? num then
    match fuel with
    | O => None
    | S fuel =>
        m ← cpw m dst src;
        m ← cpw m (dst + 4) (src + 4);
        m ← cpw m (dst + 8) (src + 8);
        m ← cpw m (dst + 12) (src + 12);
        copy_big fuel m (dst + 16) (src + 16) (num - BIGBLOCKSIZE)
    end
  else Some (m, dst, src, num).

Fixpoint copy_little (fuel : nat) (m : mem) (dst src num : Z)
    : option (mem * Z * Z * Z) :=
  if LITTLEBLOCKSIZE <=? num then
    match fuel with
    | O => None
    | S fuel =>
        m ← cpw m dst src;
        copy_little fuel m (dst + 4) (src + 4) (num - LITTLEBLOCKSIZE)
    end
  else Some (m, dst, src, num).

(** [while (num--) *dst++ = *src++]. *)
Fixpoint copy_bytes (num : nat) (m : mem) (dst src : Z) : option mem :=
  match num with
  | O => Some m
  | S num => m ← cpb m dst src; copy_bytes num m (dst + 1) (src + 1)
  end.

Definition memcpy (m : mem) (destination source num : Z) : option (Z * mem) :=
  '(m, dst, src, num) ←
    (if negb (TOO_SMALL num) && negb (UNALIGNED source destination) then
       '(m, dst, src, num) ← copy_big (Z.to_nat num) m destination source num;
       copy_little (Z.to_nat num) m dst src num
     else Some (m, destination, source, num));
  m ← copy_bytes (Z.to_nat num) m dst src;
  Some (destination, m).

(** ** memmove.c *)

Definition wsize : Z := 4.
Definition wmask : Z := wsize - 1.

(** [TLOOP1]: [do { s; } while (--t)], undefined here for [t = 0], where the
    counter would wrap; [TLOOP]: [if (t) TLOOP1]. *)
Fixpoint tloop_n {S} (t : nat) (body : S -> option S) (s : S) : option S :=
  match t with
  | O => Some s
  | Datatypes.S t => s ← body s; tloop_n t body s
  end.
Definition TLOOP1 {S} (t : Z) (body : S -> option S) (s : S) : option S :=
  if t =? 0 then None else tloop_n (Z.to_nat t) body s.
Definition TLOOP {S} (t : Z) (body : S -> option S) (s : S) : option S :=
  if t =? 0 then Some s else TLOOP1 t body s.

Definition st : Type := mem * Z * Z.  (* memory, dst, src *)

Definition fwd_byte : st -> option st := fun '(m, dst, src) =>
  m ← cpb m dst src; Some (m, dst + 1, src + 1).
Definition fwd_word : st -> option st := fun '(m, dst, src) =>
  m ← cpw m dst src; Some (m, dst + wsize, src + wsize).
Definition bwd_byte : st -> option st := fun '(m, dst, src) =>
  m ← cpb m (dst - 1) (src - 1); Some (m, dst - 1, src - 1).
Definition bwd_word : st -> option st := fun '(m, dst, src) =>
  m ← cpw m (dst - wsize) (src - wsize); Some (m, dst - wsize, src - wsize).

Definition move_fwd (m : mem) (dst src length : Z) : option st :=
  let t := src in
  '(s, length) ←
    (if negb (Z.land (Z.lor t dst) wmask =? 0) then
       let t := if negb (Z.land (Z.lxor t dst) wmask =? 0) || (length <? wsize)
                then length else wsize - Z.land t wmask in
       s ← TLOOP1 t fwd_byte (m, dst, src); Some (s, length - t)
     else Some ((m, dst, src), length));
  s ← TLOOP (length / wsize) fwd_word s;
  TLOOP (Z.land length wmask) fwd_byte s.

Definition move_bwd (m : mem) (dst src length : Z) : option st :=
  let src := src + length in
  let dst := dst + length in
  let t := src in
  '(s, length) ←
    (if negb (Z.land (Z.lor t dst) wmask =? 0) then
       let t := if negb (Z.land (Z.lxor t dst) wmask =? 0) || (length <=? wsize)
                then length else Z.land t wmask in
       s ← TLOOP1 t bwd_byte (m, dst, src); Some (s, length - t)
     else Some ((m, dst, src), length));
  s ← TLOOP (length / wsize) bwd_word s;
  TLOOP (Z.land length wmask) bwd_byte s.

Definition memmove (m : mem) (dst0 src0 length : Z) : option (Z * mem) :=
  if (length =? 0) || (dst0 =? src0) then Some (dst0, m)
  else
    '(m, _, _) ← (if dst0 <? src0 then move_fwd m dst0 src0 length
                  else move_bwd m dst0 src0 length);
    Some (dst0, m).

(** ** memset.c *)

Definition LBLOCKSIZE : Z := 4.

(** [while (UNALIGNED(s)) { if (n--) ... else return m; }]: [inr] is the
    early return. *)
Fixpoint set_align (fuel : nat) (m : mem) (s c n : Z)
    : option ((mem * Z * Z) + mem) :=
  if negb (Z.land s (LBLOCKSIZE - 1) =? 0) then
    match fuel with
    | O => None
    | S fuel =>
        if n =? 0 then Some (inr m)
        else m ← m.[s <- u8 c]; set_align fuel m (s + 1) c (n - 1)
    end
  else Some (inl (m, s, n)).

Definition set_buffer (c : Z) : Z :=
  let d := Z.land c 0xff in
  let buffer := Z.lor (Z.shiftl d 8) d in
  u32 (Z.lor buffer (Z.shiftl buffer 16)).

Fixpoint set_big (fuel : nat) (m : mem) (s : Z) (buffer : list Z) (n : Z)
    : option (mem * Z * Z) :=
  if LBLOCKSIZE * 4 <=? n then
    match fuel with
    | O => None
    | S fuel =>
        m ← stw m s buffer;
        m ← stw m (s + 4) buffer;
        m ← stw m (s + 8) buffer;
        m ← stw m (s + 12) buffer;
        set_big fuel m (s + 16) buffer (n - 4 * LBLOCKSIZE)
    end
  else Some (m, s, n).

Fixpoint set_little (fuel : nat) (m : mem) (s : Z) (buffer : list Z) (n : Z)
    : option (mem * Z * Z) :=
  if LBLOCKSIZE <=? n then
    match fuel with
    | O => None
    | S fuel => m ← stw m s buffer; set_little fuel m (s + 4) buffer (n - LBLOCKSIZE)
    end
  else Some (m, s, n).

Fixpoint set_bytes (n : nat) (m : mem) (s c : Z) : option mem :=
  match n with
  | O => Some m
  | S n => m ← m.[s <- u8 c]; set_bytes n m (s + 1) c
  end.

Definition memset (m : mem) (p c n : Z) : option (Z * mem) :=
  r ← set_align 4 m p c n;
  match r with
  | inr m => Some (p, m)
  | inl (m, s, n) =>
      '(m, s, n) ←
        (if negb (n <? LBLOCKSIZE) then
           let buffer := le32 (set_buffer c) in
           '(m, s, n) ← set_big (Z.to_nat n) m s buffer n;
           set_little (Z.to_nat n) m s buffer n
         else Some (m, s, n));
      m ← set_bytes (Z.to_nat n) m s c;
      Some (p, m)
  end.

(** ** memcmp.c *)

Fixpoint memcmp_loop (n : nat) (m : mem) (p1 p2 : Z) : option Z :=
  match n with
  | O => Some 0
  | S n =>
      b1 ← m.[p1]; b2 ← m.[p2];
      if negb (b1 =? b2) then Some (b1 - b2)
      else memcmp_loop n m (p1 + 1) (p2 + 1)
  end.

Definition memcmp (m : mem) (s1 s2 n : Z) : option Z :=
  memcmp_loop (Z.to_nat n) m s1 s2.

(** ** memalign.c *)

Definition MOD_AL (x y : Z) : Z := Z.land x (u32 (y - 1)).
Definition memalign_size (size bytes : Z) : Z :=
  let padding := MOD_AL (u32 (bytes - MOD_AL size bytes)) bytes in
  u32 (size + padding).
Definition memalign (size : Z) : Z :=
  let padding := MOD_AL (u32 (4 - MOD_AL size 4)) 4 in
  u32 (size + padding).

(** ** ptoint.c *)

(** Little-endian encoding of the low [n] bytes of a value. *)
Fixpoint le_bytes (n : nat) (v : Z) : list Z :=
  match n with O => [] | S n => v mod 256 :: le_bytes n (v / 256) end.

Definition sizetto (m : mem) (value p size : Z) : option (Z * mem) :=
  if size =? 1 then m ← splice m p (le_bytes 1 (u8 value)); Some (0, m)
  else if size =? 2 then m ← splice m p (le_bytes 2 (u16 value)); Some (0, m)
  else if size =? 4 then m ← splice m p (le_bytes 4 (u32 value)); Some (0, m)
  else if size =? 8 then m ← splice m p (le_bytes 8 (u64 value)); Some (0, m)
  else Some (- EINVAL, m).

(** ** Pointwise views of the memory *)

Lemma rd_splice (m m' : mem) (p i : Z) (w : list Z) :
  splice m p w = Some m' ->
  m'.[i] = if decide (p <= i < p + Z.of_nat (length w)) then w.[i - p] else m.[i].
Proof.
  intros H. pose proof (splice_inv _ _ _ _ H) as (? & ? & _). unfold rd.
  destruct (Z.ltb_spec i 0); [case_decide; [lia|done]|].
  rewrite (splice_lookup _ _ _ _ _ H), Z2Nat.id by lia.
  case_decide; [|done]. destruct (Z.ltb_spec (i - p) 0); [lia|]. f_equal. lia.
Qed.

Lemma rd_slice (m : mem) (off n i : Z) :
  0 <= off -> (slice m off n).[i] = if decide (0 <= i < n) then m.[off + i] else None.
Proof.
  intros Ho. unfold rd. destruct (Z.ltb_spec i 0); [case_decide; [lia|done]|].
  rewrite slice_lookup by lia. rewrite Z2Nat.id by lia.
  destruct (decide (i < n)), (decide (0 <= i < n)); try lia; [|done].
  destruct (Z.ltb_spec (off + i) 0); [lia|]. f_equal. lia.
Qed.

(** [m'] is [m] with the bytes [a, b) of the source operand (as they were in
    [m]) copied to the same offsets of the destination operand. *)
Definition copied (m m' : mem) (dst src a b : Z) : Prop :=
  length m' = length m /\
  forall i, m'.[i] = if decide (dst + a <= i < dst + b) then m.[i - dst + src] else m.[i].

Lemma copied_nil m dst src a : copied m m dst src a a.
Proof. split; [done|]. intros i. by rewrite decide_False by lia. Qed.

(** Moving the block [c, c + n) when its source bytes have not been
    overwritten yet extends the copied range. *)
Lemma copied_block m m1 dst src a b c n :
  copied m m1 dst src a b -> 0 <= n -> 0 <= dst + c -> 0 <= src + c ->
  dst + c + n <= Z.of_nat (length m) -> src + c + n <= Z.of_nat (length m) ->
  (a = b \/ src + c + n <= dst + a \/ dst + b <= src + c) ->
  (a = b \/ c = b \/ c + n = a) ->
  exists m2, splice m1 (dst + c) (slice m1 (src + c) n) = Some m2 /\
    copied m m2 dst src (if decide (a = b) then c else Z.min a c)
      (if decide (a = b) then c + n else Z.max b (c + n)).
Proof.
  intros [Hl Hc] Hn Hd Hs Hdl Hsl Hsep Hadj.
  pose proof (length_slice m1 (src + c) n ltac:(lia) ltac:(lia) ltac:(lia)) as Hln.
  destruct (splice_Some m1 (dst + c) (slice m1 (src + c) n)) as (m2 & Hm2);
    [lia|lia|]. exists m2. split; [done|].
  split; [by rewrite (splice_length _ _ _ _ Hm2)|]. intros i.
  rewrite (rd_splice _ _ _ _ _ Hm2), Hln.
  destruct (decide (dst + c <= i < dst + c + n)).
  - rewrite rd_slice by lia. rewrite decide_True by lia.
    rewrite decide_True by (case_decide; lia).
    rewrite Hc, decide_False by lia. f_equal. lia.
  - rewrite Hc. repeat case_decide; try lia; try done.
Qed.

(** A byte move and an aligned word move are such blocks. *)
Lemma cpb_block m dst src :
  0 <= dst < Z.of_nat (length m) -> 0 <= src < Z.of_nat (length m) ->
  cpb m dst src = splice m dst (slice m src 1).
Proof.
  intros Hd Hs. unfold cpb. destruct (rd_is_Some m src Hs) as [v Hv]. rewrite Hv. mstep.
  assert (slice m src 1 = [v]) as ->.
  { apply rd_ext. intros i. rewrite rd_slice by lia. case_decide as Hi.
    - replace i with 0 by lia. by rewrite Z.add_0_r, Hv.
    - unfold rd. zcase; [done|]. symmetry. apply lookup_ge_None_2. simpl. lia. }
  rewrite wr_Some by done. unfold splice. simpl.
  destruct (Z.ltb_spec dst 0), (Z.ltb_spec (Z.of_nat (length m)) (dst + Z.of_nat 1));
    try lia. simpl. rewrite insert_take_drop by lia. do 4 f_equal. lia.
Qed.

Lemma cpw_block m dst src :
  dst mod 4 = 0 -> src mod 4 = 0 -> 0 <= src -> src + 4 <= Z.of_nat (length m) ->
  cpw m dst src = splice m dst (slice m src 4).
Proof.
  intros Hd Hs ??. unfold cpw, ldw, stw. rewrite Hs, Hd. simpl.
  by rewrite fetch_Some by lia.
Qed.

(** Operands of length [len] inside the memory. *)
Definition operand (m : mem) (p len : Z) : Prop :=
  0 <= p /\ p + len <= Z.of_nat (length m).

(** Forward progress: offsets [0, b) are done and [n] more are moved. *)
Lemma copied_fwd m m1 dst src len b n :
  copied m m1 dst src 0 b -> operand m dst len -> operand m src len ->
  0 <= b -> 0 < n -> b + n <= len -> (dst <= src \/ src + len <= dst) ->
  exists m2, splice m1 (dst + b) (slice m1 (src + b) n) = Some m2 /\
    copied m m2 dst src 0 (b + n).
Proof.
  intros Hc [??] [??] ????.
  destruct (copied_block m m1 dst src 0 b b n) as (m2 & ? & Hc2); try done; try lia.
  exists m2. split; [done|]. case_decide; subst; [by simplify_eq|].
  by rewrite Z.min_l, Z.max_r in Hc2 by lia.
Qed.

(** Backward progress: the offsets from [a] on are done. *)
Lemma copied_bwd m m1 dst src len a n :
  copied m m1 dst src a len -> operand m dst len -> operand m src len ->
  a <= len -> 0 < n -> 0 <= a - n -> src <= dst ->
  exists m2, splice m1 (dst + (a - n)) (slice m1 (src + (a - n)) n) = Some m2 /\
    copied m m2 dst src (a - n) len.
Proof.
  intros Hc [??] [??] ????.
  destruct (copied_block m m1 dst src a len (a - n) n) as (m2 & ? & Hc2); try done; try lia.
  exists m2. split; [done|]. case_decide; subst.
  - by replace (len - n + n) with len in Hc2 by lia.
  - by rewrite Z.min_r, Z.max_l in Hc2 by lia.
Qed.

(** ** Copy loops

    [unit_fwd n ok body]: [body] moves [n] bytes and advances both pointers, on
    pointers that satisfy [ok]. *)
Definition unit_fwd (n : Z) (ok : Z -> Prop) (body : st -> option st) : Prop :=
  0 < n /\ (forall p, ok p -> ok (p + n)) /\
  forall m d s, ok d -> ok s -> 0 <= d -> d + n <= Z.of_nat (length m) ->
    0 <= s -> s + n <= Z.of_nat (length m) ->
    body (m, d, s) = m' ← splice m d (slice m s n); Some (m', d + n, s + n).

Definition unit_bwd (n : Z) (ok : Z -> Prop) (body : st -> option st) : Prop :=
  0 < n /\ (forall p, ok p -> ok (p - n)) /\
  forall m d s, ok d -> ok s -> 0 <= d - n -> d <= Z.of_nat (length m) ->
    0 <= s - n -> s <= Z.of_nat (length m) ->
    body (m, d, s) = m' ← splice m (d - n) (slice m (s - n) n); Some (m', d - n, s - n).

Definition aligned (p : Z) : Prop := p mod 4 = 0.

Lemma fwd_byte_unit : unit_fwd 1 (fun _ => True) fwd_byte.
Proof. split_and!; [lia|done|]. intros. unfold fwd_byte. by rewrite cpb_block by lia. Qed.

Lemma bwd_byte_unit : unit_bwd 1 (fun _ => True) bwd_byte.
Proof. split_and!; [lia|done|]. intros. unfold bwd_byte. by rewrite cpb_block by lia. Qed.

Lemma fwd_word_unit : unit_fwd 4 aligned fwd_word.
Proof.
  unfold aligned. split_and!; [lia|intros; dlia|]. intros. unfold fwd_word, wsize.
  by rewrite cpw_block by first [done|lia].
Qed.

Lemma bwd_word_unit : unit_bwd 4 aligned bwd_word.
Proof.
  unfold aligned. split_and!; [lia|intros; dlia|]. intros. unfold bwd_word, wsize.
  by rewrite cpw_block by first [dlia|lia].
Qed.

(** The alignment tests of the code, as remainders. *)
Lemma land3 x : Z.land x (4 - 1) = x mod 4.
Proof. change (4 - 1) with (Z.ones 2). by rewrite Z.land_ones by lia. Qed.

Lemma land3_lor x y : Z.land (Z.lor x y) (4 - 1) = 0 <-> x mod 4 = 0 /\ y mod 4 = 0.
Proof. by rewrite Z.land_lor_distr_l, !land3, Z.lor_eq_0_iff. Qed.

Lemma land3_lxor x y : Z.land (Z.lxor x y) (4 - 1) = 0 <-> x mod 4 = y mod 4.
Proof.
  assert (Z.land (Z.lxor x y) (4 - 1) = Z.lxor (Z.land x (4 - 1)) (Z.land y (4 - 1))) as ->;
    [|by rewrite Z.lxor_eq_0_iff, !land3].
  apply Z.bits_inj'. intros n Hn. rewrite !Z.lxor_spec, !Z.land_spec, Z.lxor_spec.
  by destruct (Z.testbit x n), (Z.testbit y n), (Z.testbit (4 - 1) n).
Qed.

Lemma TLOOP_n {S} t (body : S -> option S) s :
  TLOOP t body s = tloop_n (Z.to_nat t) body s.
Proof. unfold TLOOP, TLOOP1. by destruct (Z.eqb_spec t 0) as [->|]. Qed.

Section copy.
Context (m : mem) (dst src len : Z).
Context (Hdst : operand m dst len) (Hsrc : operand m src len).

Lemma tloop_fwd n ok body t : unit_fwd n ok body -> dst <= src \/ src + len <= dst ->
  forall m1 b, copied m m1 dst src 0 b -> ok (dst + b) -> ok (src + b) ->
  0 <= b -> b + n * Z.of_nat t <= len ->
  exists m2, tloop_n t body (m1, dst + b, src + b) =
      Some (m2, dst + (b + n * Z.of_nat t), src + (b + n * Z.of_nat t)) /\
    copied m m2 dst src 0 (b + n * Z.of_nat t).
Proof.
  intros (Hn & Hok & Hbody) Hov. pose proof Hdst as [??]. pose proof Hsrc as [??].
  induction t as [|t IH]; intros m1 b Hc Hod Hos Hb Hlen; simpl.
  - rewrite Z.mul_0_r, Z.add_0_r. eauto.
  - destruct (copied_fwd m m1 dst src len b n) as (m2 & Hm2 & Hc2); try done; [nia|].
    pose proof (proj1 Hc).
    rewrite Hbody by first [done|nia]. rewrite Hm2. mstep.
    rewrite <-!Z.add_assoc.
    destruct (IH m2 (b + n)) as (m3 & Hm3 & Hc3); try done; try nia.
    1-2: rewrite Z.add_assoc; by apply Hok.
    exists m3. rewrite Hm3. replace (b + n + n * Z.of_nat t) with (b + n * Z.of_nat (S t))
      in * by lia. done.
Qed.

Lemma tloop_bwd n ok body t : unit_bwd n ok body -> src <= dst ->
  forall m1 a, copied m m1 dst src a len -> ok (dst + a) -> ok (src + a) ->
  a <= len -> 0 <= a - n * Z.of_nat t ->
  exists m2, tloop_n t body (m1, dst + a, src + a) =
      Some (m2, dst + (a - n * Z.of_nat t), src + (a - n * Z.of_nat t)) /\
    copied m m2 dst src (a - n * Z.of_nat t) len.
Proof.
  intros (Hn & Hok & Hbody) Hov. pose proof Hdst as [??]. pose proof Hsrc as [??].
  induction t as [|t IH]; intros m1 a Hc Hod Hos Hb Hlen; simpl.
  - rewrite Z.mul_0_r, Z.sub_0_r. eauto.
  - destruct (copied_bwd m m1 dst src len a n) as (m2 & Hm2 & Hc2); try done; [nia|].
    pose proof (proj1 Hc).
    rewrite Hbody by first [done|nia].
    rewrite <-!Z.add_sub_assoc, Hm2. mstep.
    destruct (IH m2 (a - n)) as (m3 & Hm3 & Hc3); try done; try nia.
    1-2: rewrite Z.add_sub_assoc; by apply Hok.
    exists m3. rewrite Hm3. replace (a - n - n * Z.of_nat t) with (a - n * Z.of_nat (S t))
      in * by lia. done.
Qed.

(** Whole words from offset [len - L] on, then the trailing bytes. *)
Lemma fwd_tail L m1 : dst <= src \/ src + len <= dst -> 0 <= L <= len ->
  copied m m1 dst src 0 (len - L) ->
  (L = 0 \/ aligned (dst + (len - L)) /\ aligned (src + (len - L))) ->
  exists m' d s, (s1 ← TLOOP (L / 4) fwd_word (m1, dst + (len - L), src + (len - L));
    TLOOP (Z.land L (4 - 1)) fwd_byte s1) = Some (m', d, s) /\ copied m m' dst src 0 len.
Proof.
  intros Hov HL Hc Hal. rewrite land3, !TLOOP_n.
  destruct Hal as [->|[Ha1 Ha2]].
  { rewrite Z.sub_0_r in *. simpl. eauto. }
  destruct (tloop_fwd 4 aligned fwd_word (Z.to_nat (L / 4)) fwd_word_unit
    Hov m1 (len - L)) as (m2 & -> & Hc2); try done; try dlia.
  rewrite Z2Nat.id in * by dlia. mstep. rewrite TLOOP_n.
  destruct (tloop_fwd 1 _ fwd_byte (Z.to_nat (L mod 4)) fwd_byte_unit
    Hov m2 (len - L + 4 * (L / 4))) as (m3 & -> & Hc3); try done; try dlia.
  rewrite Z2Nat.id in * by dlia.
  replace (len - L + 4 * (L / 4) + 1 * (L mod 4)) with len in * by dlia. eauto.
Qed.

Lemma bwd_tail L m1 : src <= dst -> 0 <= L <= len ->
  copied m m1 dst src L len -> (L = 0 \/ aligned (dst + L) /\ aligned (src + L)) ->
  exists m' d s, (s1 ← TLOOP (L / 4) bwd_word (m1, dst + L, src + L);
    TLOOP (Z.land L (4 - 1)) bwd_byte s1) = Some (m', d, s) /\ copied m m' dst src 0 len.
Proof.
  intros Hov HL Hc Hal. rewrite land3, !TLOOP_n.
  destruct Hal as [->|[Ha1 Ha2]]; [simpl; eauto|].
  destruct (tloop_bwd 4 aligned bwd_word (Z.to_nat (L / 4)) bwd_word_unit
    Hov m1 L) as (m2 & -> & Hc2); try done; try dlia.
  rewrite Z2Nat.id in * by dlia. mstep. rewrite TLOOP_n.
  destruct (tloop_bwd 1 _ bwd_byte (Z.to_nat (L mod 4)) bwd_byte_unit
    Hov m2 (L - 4 * (L / 4))) as (m3 & -> & Hc3); try done; try dlia.
  rewrite Z2Nat.id in * by dlia.
  replace (L - 4 * (L / 4) - 1 * (L mod 4)) with 0 in * by dlia. eauto.
Qed.

(** The two directions of [memmove]. *)
Lemma move_fwd_spec : 0 < len -> dst <= src ->
  exists m' d s, move_fwd m dst src len = Some (m', d, s) /\ copied m m' dst src 0 len.
Proof.
  intros Hlen Hov. unfold move_fwd, wmask, wsize.
  set (t := if _ || _ then len else _).
  destruct (Z.eqb_spec (Z.land (Z.lor src dst) (4 - 1)) 0) as [Ha|Ha]; mstep.
  - apply land3_lor in Ha as [??].
    pose proof (fwd_tail len m (or_introl Hov)) as Ht. rewrite Z.sub_diag, !Z.add_0_r in Ht.
    apply Ht; [lia|apply copied_nil|by right].
  - assert (0 < t <= len /\ (t = len \/ aligned (dst + t) /\ aligned (src + t))) as [Ht Hal].
    { unfold t. destruct (Z.eqb_spec (Z.land (Z.lxor src dst) (4 - 1)) 0) as [Hx|]; simpl.
      - apply land3_lxor in Hx. rewrite land3_lor in Ha. rewrite land3. unfold aligned.
        zcase; [lia|]. split; [dlia|right; dlia].
      - lia. }
    unfold TLOOP1 at 1. destruct (Z.eqb_spec t 0); [lia|].
    destruct (tloop_fwd 1 _ fwd_byte (Z.to_nat t) fwd_byte_unit (or_introl Hov) m 0)
      as (m2 & Hm2 & Hc2); try done; [apply copied_nil|lia|].
    rewrite !Z.add_0_r, !Z2Nat.id, Z.add_0_l, Z.mul_1_l in * by lia. rewrite Hm2. mstep.
    pose proof (fwd_tail (len - t) m2 (or_introl Hov)) as Hl.
    replace (len - (len - t)) with t in Hl by lia. apply Hl; [lia|done|intuition lia].
Qed.

Lemma move_bwd_spec : 0 < len -> src <= dst ->
  exists m' d s, move_bwd m dst src len = Some (m', d, s) /\ copied m m' dst src 0 len.
Proof.
  intros Hlen Hov. unfold move_bwd, wmask, wsize.
  set (t := if _ || _ then len else _).
  destruct (Z.eqb_spec (Z.land (Z.lor (src + len) (dst + len)) (4 - 1)) 0) as [Ha|Ha]; mstep.
  - apply land3_lor in Ha as [??].
    apply (bwd_tail len m Hov); [lia|apply copied_nil|by right].
  - assert (0 < t <= len /\
      (t = len \/ aligned (dst + (len - t)) /\ aligned (src + (len - t)))) as [Ht Hal].
    { unfold t. destruct (Z.eqb_spec (Z.land (Z.lxor (src + len) (dst + len)) (4 - 1)) 0)
        as [Hx|]; simpl.
      - apply land3_lxor in Hx. rewrite land3_lor in Ha. rewrite land3. unfold aligned.
        zcase; [lia|]. split; [dlia|right; dlia].
      - lia. }
    unfold TLOOP1 at 1. destruct (Z.eqb_spec t 0); [lia|].
    destruct (tloop_bwd 1 _ bwd_byte (Z.to_nat t) bwd_byte_unit Hov m len)
      as (m2 & Hm2 & Hc2); try done; [apply copied_nil|lia|].
    rewrite !Z2Nat.id, Z.mul_1_l in * by lia. rewrite Hm2. mstep.
    apply (bwd_tail (len - t) m2 Hov); [lia|done|intuition lia].
Qed.

End copy.

(** A complete copy is one block overwrite of the reference model. *)
Lemma copied_splice m m' dst src len :
  0 <= len -> operand m dst len -> operand m src len -> copied m m' dst src 0 len ->
  splice m dst (slice m src len) = Some m'.
Proof.
  intros ? [??] [??] [Hl Hc].
  pose proof (length_slice m src len ltac:(lia) ltac:(lia) ltac:(lia)) as Hln.
  destruct (splice_Some m dst (slice m src len)) as (m2 & Hm2); [lia|lia|].
  rewrite Hm2. f_equal. apply rd_ext. intros i.
  rewrite (rd_splice _ _ _ _ _ Hm2), Hln, Hc, rd_slice, Z.add_0_r by lia.
  destruct (decide (dst <= i < dst + len)); [|done].
  rewrite decide_True by lia. f_equal. lia.
Qed.

(** The loops of [memcpy] are runs of the unit copies. *)
Lemma tloop_n_app {S} a b (body : S -> option S) s :
  tloop_n (a + b) body s = s' ← tloop_n a body s; tloop_n b body s'.
Proof.
  revert s. induction a as [|a IH]; intros s; [done|]. simpl.
  destruct (body s) as [s'|]; mstep; [apply IH|done].
Qed.

Lemma copy_little_run fuel : forall m d s num, num <= Z.of_nat fuel * 4 -> 0 <= num ->
  copy_little fuel m d s num =
    '(m', d', s') ← tloop_n (Z.to_nat (num / 4)) fwd_word (m, d, s);
    Some (m', d', s', num mod 4).
Proof.
  induction fuel as [|fuel IH]; intros m d s num Hf Hn; simpl; unfold LITTLEBLOCKSIZE.
  - replace num with 0 by lia. done.
  - zcase.
    + replace (Z.to_nat (num / 4)) with (S (Z.to_nat ((num - 4) / 4))) by dlia. simpl.
      destruct (cpw m d s) as [m1|]; mstep; [|done].
      rewrite IH by lia. replace ((num - 4) mod 4) with (num mod 4) by dlia. done.
    + rewrite Z.div_small, Z.mod_small by lia. done.
Qed.

Lemma fwd_word4 m d s :
  tloop_n 4 fwd_word (m, d, s) =
    m ← cpw m d s; m ← cpw m (d + 4) (s + 4); m ← cpw m (d + 8) (s + 8);
    m ← cpw m (d + 12) (s + 12); Some (m, d + 16, s + 16).
Proof.
  replace (d + 16) with (d + 12 + 4) by lia. replace (s + 16) with (s + 12 + 4) by lia.
  replace (d + 12) with (d + 8 + 4) by lia. replace (s + 12) with (s + 8 + 4) by lia.
  replace (d + 8) with (d + 4 + 4) by lia. replace (s + 8) with (s + 4 + 4) by lia.
  cbn [tloop_n]. unfold fwd_word, wsize. mstep.
  do 4 (match goal with |- context [cpw m ?d ?s] => destruct (cpw m d s) as [?|] end;
        mstep; [|done]; clear m; rename l into m).
  done.
Qed.

Lemma copy_big_run fuel : forall m d s num, num <= Z.of_nat fuel * 16 -> 0 <= num ->
  copy_big fuel m d s num =
    '(m', d', s') ← tloop_n (4 * Z.to_nat (num / 16)) fwd_word (m, d, s);
    Some (m', d', s', num mod 16).
Proof.
  induction fuel as [|fuel IH]; intros m d s num Hf Hn; cbn [copy_big];
    change BIGBLOCKSIZE with 16.
  - replace num with 0 by lia. done.
  - zcase.
    + replace (4 * Z.to_nat (num / 16))%nat with (4 + 4 * Z.to_nat ((num - 16) / 16))%nat
        by dlia.
      rewrite tloop_n_app, fwd_word4.
      repeat (destruct (cpw _ _ _); mstep; [|done]).
      rewrite IH by lia. replace ((num - 16) mod 16) with (num mod 16) by dlia. done.
    + rewrite Z.div_small, Z.mod_small by lia. done.
Qed.

Lemma copy_bytes_run num : forall m d s,
  copy_bytes num m d s = '(m', _, _) ← tloop_n num fwd_byte (m, d, s); Some m'.
Proof.
  induction num as [|num IH]; intros m d s; [done|]. cbn [copy_bytes tloop_n fwd_byte].
  destruct (cpb m d s) as [m1|]; mstep; [apply IH|done].
Qed.

Lemma memcpy_run m dst src num : 0 <= num ->
  memcpy m dst src num =
    '(m', _, _) ←
      (if negb (TOO_SMALL num) && negb (UNALIGNED src dst) then
         s ← tloop_n (Z.to_nat (num / 4)) fwd_word (m, dst, src);
         tloop_n (Z.to_nat (num mod 4)) fwd_byte s
       else tloop_n (Z.to_nat num) fwd_byte (m, dst, src));
    Some (dst, m').
Proof.
  intros Hn. unfold memcpy. destruct (_ && _); mstep.
  - rewrite copy_big_run by lia.
    replace (Z.to_nat (num / 4)) with
      (4 * Z.to_nat (num / 16) + Z.to_nat (num mod 16 / 4))%nat by dlia.
    rewrite tloop_n_app.
    destruct (tloop_n (4 * _) _ _) as [[[m1 d1] s1]|]; mstep; [|done].
    rewrite copy_little_run by dlia.
    destruct (tloop_n _ fwd_word _) as [[[m2 d2] s2]|]; mstep; [|done].
    rewrite copy_bytes_run. replace (num mod 16 mod 4) with (num mod 4) by dlia.
    by destruct (tloop_n _ _ _) as [[[m3 d3] s3]|].
  - rewrite copy_bytes_run. by destruct (tloop_n _ _ _) as [[[m3 d3] s3]|].
Qed.

(** ** memset *)

(** [m'] is [m] with the [n] bytes from [p] on equal to [v]. *)
Definition filled (m m' : mem) (p v n : Z) : Prop :=
  length m' = length m /\
  forall i, m'.[i] = if decide (p <= i < p + n) then Some v else m.[i].

Lemma filled_nil m p v : filled m m p v 0.
Proof. split; [done|]. intros i. by rewrite decide_False by lia. Qed.

Lemma filled_block m m1 p v n k :
  filled m m1 p v n -> 0 <= p -> 0 <= n -> p + n + Z.of_nat k <= Z.of_nat (length m) ->
  exists m2, splice m1 (p + n) (replicate k v) = Some m2 /\ filled m m2 p v (n + Z.of_nat k).
Proof.
  intros [Hl Hf] ???.
  destruct (splice_Some m1 (p + n) (replicate k v)) as (m2 & Hm2);
    [lia|rewrite length_replicate; lia|].
  exists m2. split; [done|]. split; [by rewrite (splice_length _ _ _ _ Hm2)|]. intros i.
  rewrite (rd_splice _ _ _ _ _ Hm2), length_replicate.
  destruct (decide (p + n <= i < p + n + Z.of_nat k)).
  - rewrite decide_True by lia. unfold rd. zcase; [lia|].
    apply lookup_replicate_2. lia.
  - rewrite Hf. repeat case_decide; (lia || done).
Qed.

Lemma wr_splice (m : mem) p v : m.[p <- v] = splice m p [v].
Proof.
  unfold wr, splice. destruct (Z.ltb_spec p 0); [done|]. cbn [orb length].
  destruct (Z.leb_spec (Z.of_nat (length m)) p),
    (Z.ltb_spec (Z.of_nat (length m)) (p + Z.of_nat 1)); try lia; [done|].
  rewrite insert_take_drop by lia. do 4 f_equal. lia.
Qed.

Lemma set_buffer_bytes c : le32 (set_buffer c) = replicate 4 (u8 c).
Proof.
  unfold set_buffer, u8. change 0xff with (Z.ones 8). rewrite Z.land_ones by lia.
  change (2 ^ 8) with 256. pose proof (Z.mod_pos_bound c 256 ltac:(lia)) as Hd.
  revert Hd. generalize (c mod 256) as d. intros d Hd.
  assert (Forall (fun d => le32 (u32 (Z.lor (Z.lor (Z.shiftl d 8) d)
    (Z.shiftl (Z.lor (Z.shiftl d 8) d) 16))) = replicate 4 d) (seqZ 0 256)) as HF
    by (apply (bool_decide_unpack _); vm_compute; exact I).
  rewrite Forall_forall in HF. apply HF, elem_of_seqZ. lia.
Qed.

Section memset.
Context (m : mem) (p c len : Z).
Context (Hp : operand m p len) (Hlen : 0 <= len).
Let v := u8 c.

Lemma set_align_spec fuel : forall m1 n, filled m m1 p v n -> 0 <= n <= len ->
  (- (p + n)) mod 4 < Z.of_nat fuel ->
  match set_align fuel m1 (p + n) c (len - n) with
  | None => False
  | Some (inr m2) => filled m m2 p v len
  | Some (inl (m2, s, k)) => exists n', n <= n' <= len /\ s = p + n' /\ k = len - n' /\
      aligned (p + n') /\ filled m m2 p v n'
  end.
Proof.
  destruct Hp. induction fuel as [|fuel IH]; intros m1 n Hf Hn Hfuel; [dlia|].
  cbn [set_align]. unfold LBLOCKSIZE. rewrite land3.
  destruct (Z.eqb_spec ((p + n) mod 4) 0); cbn [negb].
  { exists n. split_and!; (done || lia). }
  zcase.
  { by replace len with n by lia. }
  rewrite wr_splice.
  destruct (filled_block m m1 p v n 1) as (m2 & Hm2 & Hf2); try lia; [done|].
  change [u8 c] with (replicate 1 v). rewrite Hm2. mstep.
  specialize (IH m2 (n + 1) Hf2 ltac:(lia) ltac:(dlia)).
  replace (len - n - 1) with (len - (n + 1)) by lia. rewrite <-Z.add_assoc.
  destruct (set_align _ _ _ _ _) as [[[[m3 s] k]|m3]|]; [|done|done].
  destruct IH as (n' & ? & ?). exists n'. split; [lia|done].
Qed.

Lemma stw_block m1 n : filled m m1 p v n -> 0 <= n -> n + 4 <= len -> aligned (p + n) ->
  exists m2, stw m1 (p + n) (le32 (set_buffer c)) = Some m2 /\ filled m m2 p v (n + 4) /\
    aligned (p + (n + 4)).
Proof.
  destruct Hp. intros Hf ?? Ha. unfold stw. rewrite Ha, set_buffer_bytes. simpl (0 =? 0).
  destruct (filled_block m m1 p v n 4) as (m2 & ? & ?); try lia; [done|].
  exists m2. split_and!; try done. unfold aligned in *. dlia.
Qed.

Lemma set_little_spec fuel : forall m1 n, filled m m1 p v n -> 0 <= n <= len ->
  aligned (p + n) -> len - n < 4 * Z.of_nat fuel + 4 ->
  exists m2 n', set_little fuel m1 (p + n) (le32 (set_buffer c)) (len - n) =
    Some (m2, p + n', len - n') /\ n <= n' <= len /\ filled m m2 p v n'.
Proof.
  induction fuel as [|fuel IH]; intros m1 n Hf Hn Ha Hfuel; cbn [set_little];
    unfold LBLOCKSIZE; zcase; try lia; try by (exists m1, n; split_and!; (done || lia)).
  destruct (stw_block m1 n) as (m2 & -> & ? & ?); try done; try lia. mstep.
  destruct (IH m2 (n + 4)) as (m3 & n' & E & ? & ?); try done; try lia.
  exists m3, n'. rewrite <-Z.add_assoc. replace (len - n - 4) with (len - (n + 4)) by lia.
  rewrite E. split_and!; (done || lia).
Qed.

Lemma set_big_spec fuel : forall m1 n, filled m m1 p v n -> 0 <= n <= len ->
  aligned (p + n) -> len - n < 16 * Z.of_nat fuel + 16 ->
  exists m2 n', set_big fuel m1 (p + n) (le32 (set_buffer c)) (len - n) =
    Some (m2, p + n', len - n') /\ n <= n' <= len /\ filled m m2 p v n' /\ aligned (p + n').
Proof.
  induction fuel as [|fuel IH]; intros m1 n Hf Hn Ha Hfuel; cbn [set_big];
    unfold LBLOCKSIZE; zcase; try lia; try by (exists m1, n; split_and!; (done || lia)).
  destruct (stw_block m1 n) as (m2 & -> & ? & ?); try done; try lia. mstep.
  rewrite <-!Z.add_assoc.
  destruct (stw_block m2 (n + 4)) as (m3 & -> & ? & ?); try done; try lia. mstep.
  replace (n + 8) with (n + 4 + 4) by lia.
  destruct (stw_block m3 (n + 4 + 4)) as (m4 & -> & ? & ?); try done; try lia. mstep.
  replace (n + 12) with (n + 4 + 4 + 4) by lia.
  destruct (stw_block m4 (n + 4 + 4 + 4)) as (m5 & -> & ? & ?); try done; try lia. mstep.
  destruct (IH m5 (n + 4 + 4 + 4 + 4)) as (m6 & n' & E & ? & ? & ?); try done; try lia.
  exists m6, n'. replace (n + 16) with (n + 4 + 4 + 4 + 4) by lia.
  replace (len - n - 4 * 4) with (len - (n + 4 + 4 + 4 + 4)) by lia.
  rewrite E. split_and!; (done || lia).
Qed.

Lemma set_bytes_spec k : forall m1 n, filled m m1 p v n -> 0 <= n ->
  n + Z.of_nat k = len ->
  exists m2, set_bytes k m1 (p + n) c = Some m2 /\ filled m m2 p v len.
Proof.
  destruct Hp. induction k as [|k IH]; intros m1 n Hf Hn Hk.
  - exists m1. by replace len with n by lia.
  - cbn [set_bytes]. rewrite wr_splice.
    destruct (filled_block m m1 p v n 1) as (m2 & Hm2 & Hf2); try lia; [done|].
    change [u8 c] with (replicate 1 v). rewrite Hm2. mstep. rewrite <-Z.add_assoc.
    apply IH; [done|lia|lia].
Qed.

Lemma memset_filled : exists m', memset m p c len = Some (p, m') /\ filled m m' p v len.
Proof.
  unfold memset.
  pose proof (set_align_spec 4 m 0 (filled_nil _ _ _) ltac:(lia) ltac:(dlia)) as Ha.
  rewrite Z.add_0_r, Z.sub_0_r in Ha.
  destruct (set_align _ _ _ _ _) as [[[[m1 s] k]|m1]|]; mstep; [|by eauto|done].
  destruct Ha as (n & Hn & -> & -> & Hal & Hf).
  enough (exists m2 n', (if negb (len - n <? LBLOCKSIZE) then
      '(m, s, n) ← set_big (Z.to_nat (len - n)) m1 (p + n) (le32 (set_buffer c)) (len - n);
      set_little (Z.to_nat n) m s (le32 (set_buffer c)) n
    else Some (m1, p + n, len - n)) = Some (m2, p + n', len - n') /\
    n <= n' <= len /\ filled m m2 p v n') as (m2 & n' & E & ? & Hf2).
  { cbv zeta. rewrite E. mstep.
    destruct (set_bytes_spec (Z.to_nat (len - n')) m2 n') as (m3 & -> & ?); try done; try lia.
    mstep. eauto. }
  destruct (negb _); [|by exists m1, n; split_and!; (done || lia)].
  destruct (set_big_spec (Z.to_nat (len - n)) m1 n) as (m2 & n1 & -> & ? & ? & ?);
    try done; try lia. mstep.
  destruct (set_little_spec (Z.to_nat (len - n1)) m2 n1) as (m3 & n2 & E & ? & ?);
    try done; try lia.
  exists m3, n2. split_and!; (done || lia).
Qed.
End memset.

(** ** memcmp, memalign and sizetto *)

Lemma slice_cons (m : mem) p n v : 0 <= p -> 0 < n -> m.[p] = Some v ->
  slice m p n = v :: slice m (p + 1) (n - 1).
Proof.
  intros Hp Hn Hv. apply rd_ext. intros i. rewrite rd_slice by lia.
  destruct (decide (i = 0)) as [->|].
  - rewrite decide_True by lia. by rewrite Z.add_0_r, Hv.
  - assert ((v :: slice m (p + 1) (n - 1)).[i] = (slice m (p + 1) (n - 1)).[i - 1]) as ->.
    { unfold rd. repeat zcase; try lia; try done.
      by replace (Z.to_nat i) with (S (Z.to_nat (i - 1))) by lia. }
    rewrite rd_slice by lia. repeat case_decide; try lia; try done. f_equal. lia.
Qed.

(** [memcmp] compares lexicographically: it returns zero exactly on equal
    ranges, and otherwise the difference of the first bytes that differ. *)
Lemma memcmp_spec n : forall m s1 s2,
  operand m s1 (Z.of_nat n) -> operand m s2 (Z.of_nat n) ->
  exists r, memcmp m s1 s2 (Z.of_nat n) = Some r /\
    ((r = 0 /\ slice m s1 (Z.of_nat n) = slice m s2 (Z.of_nat n)) \/
     exists k b1 b2, 0 <= k < Z.of_nat n /\ slice m s1 k = slice m s2 k /\
       m.[s1 + k] = Some b1 /\ m.[s2 + k] = Some b2 /\ b1 <> b2 /\ r = b1 - b2).
Proof.
  unfold memcmp. induction n as [|n IH]; intros m s1 s2 [??] [??].
  - exists 0. split; [done|]. by left.
  - rewrite Nat2Z.id in *. simpl.
    destruct (rd_is_Some m s1) as [b1 Hb1]; [lia|]. destruct (rd_is_Some m s2) as [b2 Hb2]; [lia|].
    rewrite Hb1, Hb2. mstep. destruct (Z.eqb_spec b1 b2) as [<-|Hne]; cbn [negb].
    + specialize (IH m (s1 + 1) (s2 + 1)).
      destruct IH as (r & -> & Hr); [split; lia|split; lia|]. exists r. split; [done|].
      destruct Hr as [[-> Heq]|(k & c1 & c2 & ? & ? & Hc1 & Hc2 & ? & ?)].
      * left. split; [done|]. rewrite (slice_cons m s1 _ b1), (slice_cons m s2 _ b1) by
          first [done|lia]. replace (Z.of_nat (S n) - 1) with (Z.of_nat n) by lia. by f_equal.
      * right. exists (k + 1), c1, c2. rewrite (slice_cons m s1 _ b1), (slice_cons m s2 _ b1)
          by first [done|lia]. rewrite Z.add_simpl_r. split_and!; try lia; try congruence.
        -- by rewrite <-Hc1; f_equal; lia.
        -- by rewrite <-Hc2; f_equal; lia.
    + exists (b1 - b2). split; [done|]. right. exists 0, b1, b2.
      rewrite !Z.add_0_r. split_and!; (done || lia).
Qed.

Lemma MOD_AL_pow2 x k : 0 <= k < 32 -> MOD_AL x (2 ^ k) = x mod 2 ^ k.
Proof.
  intros Hk. unfold MOD_AL. rewrite u32_small.
  - rewrite Z.sub_1_r, <-Z.ones_equiv. by rewrite Z.land_ones by lia.
  - assert (2 ^ k <= 2 ^ 31) by (apply Z.pow_le_mono_r; lia). lia.
Qed.

(** Rounding up to a power of two: the least multiple that is not smaller. *)
Lemma memalign_size_spec size k :
  0 <= k < 31 -> 0 <= size -> size + 2 ^ k < 2 ^ 32 ->
  memalign_size size (2 ^ k) mod 2 ^ k = 0 /\
  size <= memalign_size size (2 ^ k) < size + 2 ^ k.
Proof.
  intros Hk Hs Hb. unfold memalign_size. rewrite !MOD_AL_pow2 by lia.
  assert (0 < 2 ^ k) as Hp by lia. revert Hp Hb. generalize (2 ^ k) as b. intros b Hp Hb.
  pose proof (Z.mod_pos_bound size b Hp). rewrite (u32_small (b - _)) by lia.
  assert ((b - size mod b) mod b = (- size) mod b) as ->.
  { rewrite Zminus_mod_idemp_r. replace (b - size) with (- size + 1 * b) by lia.
    apply Z_mod_plus_full. }
  pose proof (Z.mod_pos_bound (- size) b Hp). rewrite u32_small by lia.
  split; [|lia]. rewrite Zplus_mod_idemp_r. by rewrite Z.add_opp_diag_r.
Qed.

Lemma memalign_4 size : memalign size = memalign_size size 4.
Proof. done. Qed.

Lemma le_bytes_value n : forall v, 0 <= v < 256 ^ Z.of_nat n ->
  foldr (fun b acc => b + 256 * acc) 0 (le_bytes n v) = v.
Proof.
  induction n as [|n IH]; intros v Hv; simpl le_bytes.
  - simpl in *. lia.
  - cbn [foldr]. rewrite IH; [dlia|].
    rewrite Nat2Z.inj_succ, Z.pow_succ_r in Hv by lia.
    split; [dlia|]. apply Z.div_lt_upper_bound; lia.
Qed.

(** [sizetto] stores the value in every supported width that holds it. *)
Lemma sizetto_spec m value p size :
  size ∈ [1; 2; 4; 8] -> operand m p size -> 0 <= value < 2 ^ 32 -> value < 256 ^ size ->
  exists m', sizetto m value p size = Some (0, m') /\
    foldr (fun b acc => b + 256 * acc) 0 (slice m' p size) = value /\
    forall i, ~ (p <= i < p + size) -> m'.[i] = m.[i].
Proof.
  intros Hs [??] Hv Hfit.
  assert (exists n, size = Z.of_nat n /\ sizetto m value p size =
    m' ← splice m p (le_bytes n value); Some (0, m')) as (n & -> & ->).
  { unfold sizetto. rewrite !elem_of_cons in Hs.
    destruct Hs as [->|[->|[->|[->|Hs]]]]; [exists 1%nat|exists 2%nat|exists 4%nat|exists 8%nat|];
      [..|by apply elem_of_nil in Hs]; split; try done; simpl (_ =? _); cbv iota;
      unfold u8, u16, u32, u64; rewrite Z.mod_small by lia; done. }
  assert (length (le_bytes n value) = n) as Hl.
  { clear. revert value. induction n; intros; simpl; [done|by rewrite IHn]. }
  destruct (splice_Some m p (le_bytes n value)) as (m' & Hm'); [lia|lia|].
  rewrite Hm'. mstep. exists m'. split; [done|]. split.
  - pose proof (slice_splice_eq _ _ _ _ Hm') as Hsl. rewrite Hl in Hsl. rewrite Hsl.
    apply le_bytes_value; split; [lia|done].
  - intros i Hi. rewrite (rd_splice _ _ _ _ _ Hm'), decide_False by lia. done.
Qed.

(** ** Claims *)

(** C39. [memmove] copies the source range as it was before the call, whatever
    the overlap and the alignment of the two ranges, changes no other byte and
    makes only aligned word accesses: it equals the one-block overwrite. *)
Theorem memmove_correct (m : mem) (dst src len : Z) (Hlen : 0 <= len)
    (Hdst : operand m dst len) (Hsrc : operand m src len) :
  exists m', memmove m dst src len = Some (dst, m') /\
    splice m dst (slice m src len) = Some m'.
Proof.
  enough (exists m', memmove m dst src len = Some (dst, m') /\ copied m m' dst src 0 len)
    as (m' & ? & ?) by eauto using copied_splice.
  unfold memmove. destruct (Z.eqb_spec len 0) as [->|]; [eauto using copied_nil|].
  destruct (Z.eqb_spec dst src) as [<-|]; cbn [orb].
  { exists m. split; [done|]. split; [done|]. intros i. case_decide; [|done]. f_equal. lia. }
  destruct (Z.ltb_spec dst src).
  - destruct (move_fwd_spec m dst src len) as (m' & d & s & -> & ?); try done; [lia|lia|].
    mstep. eauto.
  - destruct (move_bwd_spec m dst src len) as (m' & d & s & -> & ?); try done; [lia|].
    mstep. eauto.
Qed.

Definition mem_example : mem := seqZ 1 40.

Lemma memmove_correct_witness :
  exists m', memmove mem_example 7 3 18 = Some (7, m') /\
    splice mem_example 7 (slice mem_example 3 18) = Some m'.
Proof. apply (memmove_correct mem_example 7 3 18); [|split|split]; vm_compute; congruence. Defined.

(** [memcpy] of ranges that do not overlap equals the one-block
    overwrite, through the four-word, the one-word and the byte loop alike. *)
Theorem memcpy_correct (m : mem) (dst src len : Z) (Hlen : 0 <= len)
    (Hdst : operand m dst len) (Hsrc : operand m src len)
    (Hdisj : dst + len <= src \/ src + len <= dst) :
  exists m', memcpy m dst src len = Some (dst, m') /\
    splice m dst (slice m src len) = Some m'.
Proof.
  assert (dst <= src \/ src + len <= dst) as Hov by lia.
  enough (exists m' , memcpy m dst src len = Some (dst, m') /\ copied m m' dst src 0 len)
    as (m' & ? & ?) by eauto using copied_splice.
  rewrite memcpy_run by done. destruct (negb _ && negb _) eqn:E.
  - unfold UNALIGNED in E. apply andb_prop in E as [_ E].
    rewrite negb_involutive, !land3 in E. apply Z.eqb_eq, Z.lor_eq_0_iff in E as [Ha Hb].
    pose proof (fwd_tail m dst src len Hdst Hsrc len m Hov) as Ht.
    rewrite land3, Z.sub_diag, !Z.add_0_r in Ht.
    destruct Ht as (m' & d & s & Ht & ?); [lia|apply copied_nil|by right|].
    rewrite !TLOOP_n in Ht. destruct (tloop_n _ fwd_word _) as [s1|]; [|done].
    cbn [mbind option_bind] in *. rewrite TLOOP_n in Ht. rewrite Ht. mstep. eauto.
  - destruct (tloop_fwd m dst src len Hdst Hsrc 1 _ fwd_byte (Z.to_nat len) fwd_byte_unit Hov m 0)
      as (m2 & Hm2 & Hc2); try done; [apply copied_nil|lia|].
    rewrite !Z.add_0_r, !Z2Nat.id, Z.add_0_l, Z.mul_1_l in * by lia. rewrite Hm2. mstep. eauto.
Qed.

Lemma memcpy_correct_witness :
  exists m', memcpy mem_example 20 0 19 = Some (20, m') /\
    splice mem_example 20 (slice mem_example 0 19) = Some m'.
Proof.
  apply (memcpy_correct mem_example 20 0 19); [|split|split|];
    vm_compute; first [congruence|right; congruence|left; congruence].
Defined.

(** [memset] sets every byte of the range to the low byte of its argument
    and no other byte, through the alignment, word and byte loops. *)
Theorem memset_correct (m : mem) (p c len : Z) (Hlen : 0 <= len) (Hp : operand m p len) :
  exists m', memset m p c len = Some (p, m') /\
    length m' = length m /\
    forall i, m'.[i] = if decide (p <= i < p + len) then Some (u8 c) else m.[i].
Proof. destruct (memset_filled m p c len Hp Hlen) as (m' & ? & ? & ?). eauto. Qed.

Lemma memset_correct_witness :
  exists m', memset mem_example 3 0x1ff 30 = Some (3, m') /\
    length m' = length mem_example /\
    forall i, m'.[i] = if decide (3 <= i < 3 + 30) then Some (u8 0x1ff) else mem_example.[i].
Proof. apply (memset_correct mem_example 3 0x1ff 30); [|split]; vm_compute; congruence. Defined.
