(* ===== verification/KString.v ===== *)
(** * String functions: kern/libkern/kstring/str*.c, kstr*.c, atoi.c, uitoa.c

    Strings live in the byte memory of [Mem]; a pointer is an address and the
    null pointer, where a function returns one, is [None].  [char] is unsigned
    on ARM.  The scanning loops have the size of the memory as fuel: each round
    reads a higher address, so a loop that leaves the memory has failed before
    the fuel runs out. *)
From S2P Require Import Prelude Mem.

(** ** Lengths and searches *)

(** [while (str[len++] != '\0' && --max > 0); return --len;] *)
Fixpoint strlenn_loop (fuel : nat) (m : mem) (str len max : Z) : option Z :=
  match fuel with
  | O => None
  | S fuel =>
      c ← m.[str + len];
      if c =? 0 then Some len
      else
        let max := u32 (max - 1) in
        if 0 <? max then strlenn_loop fuel m str (len + 1) max else Some len
  end.
Definition strlenn (m : mem) (str max : Z) : option Z :=
  strlenn_loop (S (length m)) m str 0 max.

Fixpoint strvalid_loop (k : nat) (m : mem) (buf i : Z) : option Z :=
  match k with
  | O => Some 0
  | S k => c ← m.[buf + i]; if c =? 0 then Some 1 else strvalid_loop k m buf (i + 1)
  end.
Definition strvalid (m : mem) (buf len : Z) : option Z :=
  strvalid_loop (Z.to_nat len) m buf 0.

Fixpoint kstrchr_loop (fuel : nat) (m : mem) (p c : Z) : option (option Z) :=
  match fuel with
  | O => None
  | S fuel =>
      x ← m.[p];
      if x =? c then Some (Some p)
      else if x =? 0 then Some None
      else kstrchr_loop fuel m (p + 1) c
  end.
Definition kstrchr (m : mem) (p c : Z) : option (option Z) :=
  kstrchr_loop (S (length m)) m p c.

Fixpoint kstrrchr_loop (fuel : nat) (m : mem) (p c : Z) (save : option Z)
    : option (option Z) :=
  match fuel with
  | O => None
  | S fuel =>
      x ← m.[p];
      let save := if x =? c then Some p else save in
      if x =? 0 then Some save else kstrrchr_loop fuel m (p + 1) c save
  end.
Definition kstrrchr (m : mem) (p c : Z) : option (option Z) :=
  kstrrchr_loop (S (length m)) m p c None.

(** ** Comparison *)

Fixpoint strcmp_loop (fuel : nat) (m : mem) (str1 str2 : Z) : option Z :=
  match fuel with
  | O => None
  | S fuel =>
      c1 ← m.[str1]; c2 ← m.[str2];
      if negb (c1 =? 0) && (c1 =? c2) then strcmp_loop fuel m (str1 + 1) (str2 + 1)
      else Some (c1 - c2)
  end.
Definition strcmp (m : mem) (str1 str2 : Z) : option Z :=
  strcmp_loop (S (length m)) m str1 str2.

Fixpoint strncmp_loop (fuel : nat) (m : mem) (str1 str2 n : Z) : option Z :=
  match fuel with
  | O => None
  | S fuel =>
      c1 ← m.[str1]; c2 ← m.[str2];
      if negb (c1 =? 0) && (c1 =? c2) then
        let n := u32 (n - 1) in
        if 0 <? n then strncmp_loop fuel m (str1 + 1) (str2 + 1) n else Some (c1 - c2)
      else Some (c1 - c2)
  end.
Definition strncmp (m : mem) (str1 str2 n : Z) : option Z :=
  strncmp_loop (S (length m)) m str1 str2 n.

Fixpoint strstr_len (fuel : nat) (m : mem) (str2 n : Z) : option Z :=
  match fuel with
  | O => None
  | S fuel => c ← m.[str2 + n]; if c =? 0 then Some n else strstr_len fuel m str2 (n + 1)
  end.
Fixpoint strstr_loop (fuel : nat) (m : mem) (str1 str2 n i : Z) : option (option Z) :=
  match fuel with
  | O => None
  | S fuel =>
      c ← m.[str1 + i];
      let i := i + 1 in
      if c =? 0 then Some None
      else
        r ← strncmp m (str1 + i) str2 n;
        if r =? 0 then Some (Some (str1 + i)) else strstr_loop fuel m str1 str2 n i
  end.
Definition strstr (m : mem) (str1 str2 : Z) : option (option Z) :=
  n ← strstr_len (S (length m)) m str2 0;
  strstr_loop (S (length m)) m str1 str2 n 0.

(** ** Copying *)

(** [while (source[n++] != '\0');] *)
Fixpoint strcpy_len (fuel : nat) (m : mem) (source n : Z) : option Z :=
  match fuel with
  | O => None
  | S fuel =>
      c ← m.[source + n];
      if c =? 0 then Some (n + 1) else strcpy_len fuel m source (n + 1)
  end.
Definition strcpy (m : mem) (destination source : Z) : option (Z * mem) :=
  n ← strcpy_len (S (length m)) m source 0;
  '(_, m) ← memcpy m destination source n;
  Some (destination, m).

(** [do { if ( ( *d++ = *s++) == '\0') break; } while (--n != 0);] with the
    value of [n] the loop leaves behind. *)
Fixpoint strlcpy_copy (n : nat) (m : mem) (d s : Z) : option (mem * Z * Z * Z) :=
  match n with
  | O => Some (m, d, s, 0)
  | S n' =>
      c ← m.[s]; m ← m.[d <- c];
      if c =? 0 then Some (m, d + 1, s + 1, Z.of_nat n)
      else strlcpy_copy n' m (d + 1) (s + 1)
  end.
(** [while ( *s++);] *)
Fixpoint strlcpy_skip (fuel : nat) (m : mem) (s : Z) : option Z :=
  match fuel with
  | O => None
  | S fuel => c ← m.[s]; if c =? 0 then Some (s + 1) else strlcpy_skip fuel m (s + 1)
  end.
Definition strlcpy (m : mem) (dst src siz : Z) : option (Z * mem) :=
  '(m, d, s, n) ←
    (if negb (siz =? 0) && negb (siz - 1 =? 0)
     then strlcpy_copy (Z.to_nat (siz - 1)) m dst src
     else Some (m, dst, src, 0));
  '(m, s) ←
    (if n =? 0 then
       m ← (if negb (siz =? 0) then m.[d <- 0] else Some m);
       s ← strlcpy_skip (S (length m)) m s;
       Some (m, s)
     else Some (m, s));
  Some (s - src - 1, m).

(** [while (n-- != 0)]: [inl] is the early return. *)
Fixpoint strscpy_loop (n : nat) (m : mem) (d s src : Z) : option ((Z * mem) + (mem * Z)) :=
  match n with
  | O => Some (inr (m, d))
  | S n =>
      c ← m.[s]; m ← m.[d <- c];
      if c =? 0 then Some (inl (s + 1 - src - 1, m))
      else strscpy_loop n m (d + 1) (s + 1) src
  end.
Definition strscpy (m : mem) (dst src siz : Z) : option (Z * mem) :=
  if siz =? 0 then c ← m.[src]; Some (if negb (c =? 0) then - E2BIG else 0, m)
  else
    r ← strscpy_loop (Z.to_nat siz) m dst src src;
    match r with
    | inl (len, m) => Some (len, m)
    | inr (m, d) => m ← m.[d - 1 <- 0]; Some (- E2BIG, m)
    end.

Fixpoint strncpy_pad (n : nat) (m : mem) (d : Z) : option mem :=
  match n with
  | O => Some m
  | S n => m ← m.[d <- 0]; strncpy_pad n m (d + 1)
  end.
Fixpoint strncpy_loop (n : nat) (m : mem) (d s : Z) : option mem :=
  match n with
  | O => Some m
  | S n =>
      c ← m.[s]; m ← m.[d <- c];
      if c =? 0 then strncpy_pad n m (d + 1) else strncpy_loop n m (d + 1) (s + 1)
  end.
Definition strncpy (m : mem) (dst src n : Z) : option (Z * mem) :=
  m ← strncpy_loop (Z.to_nat n) m dst src; Some (dst, m).

Fixpoint strnn_len (k : nat) (m : mem) (p n : Z) : option Z :=
  match k with
  | O => Some n
  | S k => c ← m.[p + n]; if c =? 0 then Some n else strnn_len k m p (n + 1)
  end.
Fixpoint strnncat_copy (k : nat) (m : mem) (dst j src i n2 last : Z) : option (mem * Z) :=
  if (i <? n2) && (j <? last) then
    match k with
    | O => None
    | S k =>
        c ← m.[src + i]; m ← m.[dst + j <- c];
        strnncat_copy k m dst (j + 1) src (i + 1) n2 last
    end
  else Some (m, j).
Definition strnncat (m : mem) (dst ndst src nsrc : Z) : option (Z * mem) :=
  n1 ← strnn_len (Z.to_nat ndst) m dst 0;
  n2 ← strnn_len (Z.to_nat nsrc) m src 0;
  '(m, j) ← strnncat_copy (Z.to_nat n2) m dst n1 src 0 n2 (u32 (ndst - 1));
  m ← m.[dst + j <- 0];
  Some (dst, m).

(** ** Tokens *)

(** [do { if ((sc = *spanp++) == c) ... } while (sc != 0)]: is [c] a delimiter,
    the terminating null included? *)
Fixpoint delim_match (fuel : nat) (m : mem) (spanp c : Z) : option bool :=
  match fuel with
  | O => None
  | S fuel =>
      sc ← m.[spanp];
      if sc =? c then Some true
      else if sc =? 0 then Some false else delim_match fuel m (spanp + 1) c
  end.

(** The scanning loop: the new [*stringp] and the memory. *)
Fixpoint strsep_loop (fuel : nat) (m : mem) (s delim : Z) : option (option Z * mem) :=
  match fuel with
  | O => None
  | S fuel =>
      c ← m.[s];
      let s := s + 1 in
      hit ← delim_match (S (length m)) m delim c;
      if (hit : bool) then
        if c =? 0 then Some (None, m)
        else m ← m.[s - 1 <- 0]; Some (Some s, m)
      else strsep_loop fuel m s delim
  end.
Definition strsep (m : mem) (stringp : option Z) (delim : Z)
    : option (option Z * option Z * mem) :=
  match stringp with
  | None => Some (None, None, m)
  | Some s =>
      '(next, m) ← strsep_loop (S (length m)) m s delim;
      Some (Some s, next, m)
  end.

(** [for (spanp = delim; (sc = *spanp++) != 0;) if (c == sc) goto cont;] *)
Fixpoint span_match (fuel : nat) (m : mem) (spanp c : Z) : option bool :=
  match fuel with
  | O => None
  | S fuel =>
      sc ← m.[spanp];
      if sc =? 0 then Some false
      else if c =? sc then Some true else span_match fuel m (spanp + 1) c
  end.
(** [cont:] the first character that is not a delimiter and the address after
    it. *)
Fixpoint kstrtok_skip (fuel : nat) (m : mem) (s delim : Z) : option (Z * Z) :=
  match fuel with
  | O => None
  | S fuel =>
      c ← m.[s];
      hit ← span_match (S (length m)) m delim c;
      if (hit : bool) then kstrtok_skip fuel m (s + 1) delim else Some (c, s + 1)
  end.
Definition kstrtok (m : mem) (s : option Z) (delim : Z) (lasts : option Z)
    : option (option Z * option Z * mem) :=
  match (match s with Some s => Some s | None => lasts end) with
  | None => Some (None, lasts, m)
  | Some s =>
      '(c, s) ← kstrtok_skip (S (length m)) m s delim;
      if c =? 0 then Some (None, None, m)
      else
        let tok := s - 1 in
        '(next, m) ← strsep_loop (S (length m)) m s delim;
        Some (Some tok, next, m)
  end.

(** ** Numbers *)

(** The switch of [atoi]: blanks are skipped, one sign is consumed. *)
Fixpoint atoi_skip (fuel : nat) (m : mem) (str : Z) : option (Z * bool) :=
  match fuel with
  | O => None
  | S fuel =>
      c ← m.[str];
      if (c =? 32) || (c =? 9) then atoi_skip fuel m (str + 1)
      else if c =? 45 then Some (str + 1, true)
      else if c =? 43 then Some (str + 1, false)
      else Some (str, false)
  end.
Fixpoint atoi_digits (fuel : nat) (m : mem) (str n : Z) : option Z :=
  match fuel with
  | O => None
  | S fuel =>
      c ← m.[str];
      if (48 <=? c) && (c <=? 57) then atoi_digits fuel m (str + 1) (s32 (n * 10 + c - 48))
      else Some n
  end.
Definition atoi (m : mem) (str : Z) : option Z :=
  '(str, f) ← atoi_skip (S (length m)) m str;
  n ← atoi_digits (S (length m)) m str 0;
  Some (if (f : bool) then s32 (- n) else n).

(** [for (; value / div >= base; div *= base, digs++);] on [w]-bit unsigned
    integers. *)
Fixpoint uitoa_div (fuel : nat) (w base value div digs : Z) : option (Z * Z) :=
  if div =? 0 then None
  else if base <=? value / div then
    match fuel with
    | O => None
    | S fuel => uitoa_div fuel w base value (div * base mod 2 ^ w) (digs + 1)
    end
  else Some (div, digs).
(** [do { str[n++] = ((value / div) % base) + '0'; } while (div /= base);] *)
Fixpoint uitoa_digits (fuel : nat) (m : mem) (str base value div n : Z)
    : option (mem * Z) :=
  match fuel with
  | O => None
  | S fuel =>
      m ← m.[str + n <- u8 (value / div mod base + 48)];
      let div := div / base in
      if div =? 0 then Some (m, n + 1)
      else uitoa_digits fuel m str base value div (n + 1)
  end.
Definition UITOA_TYPE (w : Z) (m : mem) (str value base : Z) : option (Z * mem) :=
  '(div, digs) ← uitoa_div (Z.to_nat w) w base value 1 1;
  '(m, n) ← uitoa_digits (S (Z.to_nat w)) m str base value div 0;
  m ← m.[str + n <- 0];
  Some (digs, m).
Definition uitoa32 (m : mem) (str value : Z) : option (Z * mem) :=
  UITOA_TYPE 32 m str value 10.
Definition uitoa64 (m : mem) (str value : Z) : option (Z * mem) :=
  UITOA_TYPE 64 m str value 10.
Definition uitoa32base (m : mem) (str value base : Z) : option (Z * mem) :=
  UITOA_TYPE 32 m str value base.
Definition uitoa64base (m : mem) (str value base : Z) : option (Z * mem) :=
  UITOA_TYPE 64 m str value base.
Definition ui64_chcnt (value : Z) : option Z :=
  '(_, digs) ← uitoa_div 64 64 10 value 1 1; Some digs.

(** [for (; n >= 0; n -= 4)] with the mask shifted along. *)
Fixpoint uitoah_loop (k : nat) (m : mem) (str value mask n i : Z) : option (mem * Z) :=
  if n <? 0 then Some (m, i)
  else
    match k with
    | O => None
    | S k =>
        let c := u8 (Z.shiftr (Z.land value mask) n) in
        let c := if c <? 10 then 48 + c else 97 + (c - 10) in
        m ← m.[str + i <- c];
        uitoah_loop k m str value (Z.shiftr mask 4) (n - 4) (i + 1)
    end.
Definition uitoah_nbits (m : mem) (str value nbits : Z) : option (Z * mem) :=
  let n := nbits - 4 in
  let mask := u64 (Z.shiftl 0xF n) in
  '(m, i) ← uitoah_loop (Z.to_nat nbits) m str value mask n 0;
  m ← m.[str + i <- 0];
  Some (i, m).
Definition uitoah32 (m : mem) (str value : Z) : option (Z * mem) :=
  uitoah_nbits m str value 32.
Definition uitoah64 (m : mem) (str value : Z) : option (Z * mem) :=
  uitoah_nbits m str value 64.

(** ** C strings

    [cstr m p s]: the null-terminated string at [p] is [s]. *)
Fixpoint cstr (m : mem) (p : Z) (s : list Z) : Prop :=
  match s with
  | [] => m.[p] = Some 0
  | c :: s => m.[p] = Some c /\ c <> 0 /\ cstr m (p + 1) s
  end.

Abbreviation zlen s := (Z.of_nat (length s)).

Lemma cstr_bounds m p s : cstr m p s -> 0 <= p /\ p + zlen s < Z.of_nat (length m).
Proof.
  revert p. induction s as [|c s IH]; intros p; simpl.
  - intros H%rd_Some_lt. lia.
  - intros (H%rd_Some_lt & _ & Hs%IH). lia.
Qed.

Lemma cstr_ext m m' p s :
  cstr m p s -> (forall i, p <= i <= p + zlen s -> m'.[i] = m.[i]) -> cstr m' p s.
Proof.
  revert p. induction s as [|c s IH]; intros p; simpl; intros Hs Hi.
  - by rewrite Hi by lia.
  - destruct Hs as (? & ? & ?). rewrite Hi by lia. split_and!; try done.
    apply IH; [done|]. intros. apply Hi. lia.
Qed.

Lemma cstr_wr m m' p s d v :
  cstr m p s -> m.[d <- v] = Some m' -> d < p \/ p + zlen s < d -> cstr m' p s.
Proof.
  intros Hs Hw Hd. apply (cstr_ext m); [done|]. intros i Hi.
  eapply rd_wr_ne; [done|lia].
Qed.

Lemma cstr_app m p a b : cstr m p (a ++ b) -> cstr m (p + zlen a) b.
Proof.
  revert p. induction a as [|c a IH]; intros p Hs; simpl app in *; cbn [length].
  - by rewrite Z.add_0_r.
  - destruct Hs as (_ & _ & Hs%IH). by replace (p + Z.of_nat (S (length a)))
      with (p + 1 + zlen a) by lia.
Qed.

Lemma cstr_fun m p s s' : cstr m p s -> cstr m p s' -> s = s'.
Proof.
  revert p s'. induction s as [|c s IH]; intros p [|c' s']; simpl; try done.
  - intros ? (? & ? & ?). congruence.
  - intros (? & ? & ?) ?. congruence.
  - intros (? & ? & ?) (? & ? & ?). f_equal; [congruence|eauto].
Qed.

(** Overwriting a buffer byte by byte. *)
Lemma splice_cons (m m1 m' : mem) d c xs :
  m.[d <- c] = Some m1 -> splice m1 (d + 1) xs = Some m' -> splice m d (c :: xs) = Some m'.
Proof.
  intros H1 H2. pose proof (wr_inv _ _ _ _ H1) as [? _].
  pose proof (splice_inv _ _ _ _ H2) as (? & ? & _). pose proof (wr_length _ _ _ _ H1).
  destruct (splice_Some m d (c :: xs)) as (m2 & Hm2); [lia|cbn [length]; lia|].
  rewrite Hm2. f_equal. apply rd_ext. intros i.
  rewrite (rd_splice _ _ _ _ _ Hm2), (rd_splice _ _ _ _ _ H2). cbn [length].
  destruct (decide (i = d)) as [->|].
  - rewrite decide_True, decide_False, Z.sub_diag by lia. by rewrite (rd_wr_eq _ _ _ _ H1).
  - rewrite (rd_wr_ne _ _ _ _ _ H1) by done. repeat case_decide; try lia; try done.
    unfold rd. repeat zcase; try lia.
    by replace (Z.to_nat (i - d)) with (S (Z.to_nat (i - (d + 1)))) by lia.
Qed.

Lemma splice_nil (m : mem) d : 0 <= d <= Z.of_nat (length m) -> splice m d [] = Some m.
Proof.
  intros. unfold splice. simpl. repeat zcase; try lia. simpl.
  by rewrite Nat.add_0_r, take_drop.
Qed.

Lemma splice_cstr m d s m' :
  Forall (fun c => c <> 0) s -> splice m d (s ++ [0]) = Some m' -> cstr m' d s.
Proof.
  intros HF Hm. pose proof (splice_inv _ _ _ _ Hm) as (? & _).
  assert (forall i, 0 <= i <= zlen s -> m'.[d + i] = (s ++ [0]).[i]) as Hrd.
  { intros i Hi. rewrite (rd_splice _ _ _ _ _ Hm), decide_True; [f_equal; lia|].
    rewrite length_app. simpl. lia. }
  clear Hm. revert d H Hrd. induction HF as [|c s Hc HF IH]; intros d Hd Hrd.
  - specialize (Hrd 0). rewrite Z.add_0_r in Hrd. simpl. by apply Hrd.
  - simpl. split_and!; [|done|].
    + specialize (Hrd 0). rewrite Z.add_0_r in Hrd. by apply Hrd.
    + apply IH; [lia|]. intros i Hi. specialize (Hrd (i + 1)).
      rewrite <-Z.add_assoc, (Z.add_comm 1), Hrd by (simpl; lia).
      unfold rd. repeat zcase; try lia.
      by replace (Z.to_nat (i + 1)) with (S (Z.to_nat i)) by lia.
Qed.

Lemma cstr_nonzero m p s : cstr m p s -> Forall (fun c => c <> 0) s.
Proof. revert p. induction s; intros p; [done|]. intros (? & ? & ?). eauto. Qed.

(** ** Lengths, searches and comparison *)

(** [strlenn] counts at most [max - 1] characters. *)
Lemma strlenn_spec m p s max :
  cstr m p s -> 0 < max < 2 ^ 32 -> strlenn m p max = Some (Z.min (zlen s) (max - 1)).
Proof.
  intros Hs Hmax. unfold strlenn. pose proof (cstr_bounds _ _ _ Hs) as [? Hb].
  assert (forall fuel s n max, cstr m (p + n) s -> 0 < max < 2 ^ 32 ->
    (length s < fuel)%nat ->
    strlenn_loop fuel m p n max = Some (n + Z.min (zlen s) (max - 1))) as Hl.
  { clear s max Hs Hmax Hb. intros fuel.
    induction fuel as [|fuel IH]; intros s n max Hs Hmax Hf; [lia|].
    cbn [strlenn_loop]. destruct s as [|c s]; cbn [length cstr] in *.
    - rewrite Hs. mstep. simpl. f_equal. lia.
    - destruct Hs as (Hc & Hne & Hs). rewrite Hc. mstep.
      destruct (Z.eqb_spec c 0); [done|]. rewrite u32_small by lia. zcase.
      + rewrite <-Z.add_assoc in Hs. rewrite (IH s (n + 1)) by first [done|lia]. f_equal. lia.
      + f_equal. lia. }
  rewrite (Hl _ s); [by rewrite Z.add_0_l|by rewrite Z.add_0_r|done|lia].
Qed.

(** [strcmp] is zero exactly on equal strings and otherwise the difference of
    the first characters that differ. *)
Lemma strcmp_spec m p q a b :
  cstr m p a -> cstr m q b ->
  exists r, strcmp m p q = Some r /\ (r = 0 <-> a = b) /\
    forall k x y, take k a = take k b -> (a ++ [0]) !! k = Some x -> (b ++ [0]) !! k = Some y ->
      x <> y -> r = x - y.
Proof.
  intros Ha Hb. unfold strcmp. pose proof (cstr_bounds _ _ _ Ha) as [? Hf].
  assert (length a < S (length m))%nat as Hfuel by lia. clear Hf H.
  revert p q b Ha Hb Hfuel. generalize (S (length m)) as fuel. intros fuel. revert a.
  induction fuel as [|fuel IH]; intros a p q b Ha Hb Hfuel; [lia|]. cbn [strcmp_loop].
  destruct a as [|x a], b as [|y b]; cbn [cstr length] in *.
  - rewrite Ha, Hb. mstep. exists 0. split_and!; try done. intros [|k] ?? _ ??; naive_solver.
  - destruct Hb as (Hb & ? & _). rewrite Ha, Hb. mstep. simpl. eexists. split_and!; try done.
    { split; [lia|done]. } intros [|k]; simpl; intros; [naive_solver|done].
  - destruct Ha as (Ha & ? & _). rewrite Ha, Hb. mstep.
    destruct (Z.eqb_spec x 0); [done|]. simpl. eexists. split_and!; try done.
    { split; [lia|done]. } intros [|k]; simpl; intros; [naive_solver|done].
  - destruct Ha as (Ha & ? & Has), Hb as (Hb & ? & Hbs). rewrite Ha, Hb. mstep.
    destruct (Z.eqb_spec x 0); [done|]. simpl. destruct (Z.eqb_spec x y) as [<-|].
    + destruct (IH a (p + 1) (q + 1) b) as (r & -> & Hr & Hd); try done; [lia|].
      exists r. split_and!; [done|rewrite Hr; split; congruence|].
      intros [|k] x' y'; simpl; intros; [congruence|]. eapply (Hd k); congruence.
    + eexists. split_and!; try done. { split; [lia|congruence]. }
      intros [|k]; simpl; intros; [naive_solver|congruence].
Qed.

Lemma kstrchr_spec m p s c :
  cstr m p s -> c <> 0 ->
  kstrchr m p c = Some ((fun i => p + Z.of_nat i) <$> (fst <$> list_find (fun x => x = c) s)).
Proof.
  intros Hs Hc. unfold kstrchr. pose proof (cstr_bounds _ _ _ Hs) as [? Hb].
  assert (length s < S (length m))%nat as Hf by lia. clear Hb H. revert p Hs Hf.
  generalize (S (length m)) as fuel. intros fuel. revert s.
  induction fuel as [|fuel IH]; intros s p Hs Hf; [lia|]. cbn [kstrchr_loop].
  destruct s as [|x s]; cbn [cstr length] in *.
  - rewrite Hs. mstep. zcase; [congruence|done].
  - destruct Hs as (Hx & ? & Hs). rewrite Hx. mstep. simpl.
    destruct (Z.eqb_spec x c); destruct (decide (x = c)); try done.
    + simpl. by rewrite Z.add_0_r.
    + destruct (Z.eqb_spec x 0); [done|]. rewrite (IH s) by first [done|lia].
      destruct (list_find _ s) as [[i y]|]; simpl; [|done]. do 2 f_equal. lia.
Qed.

(** ** Copying

    [buffer m d n]: the [n] bytes at [d] are inside the memory and do not meet
    the string [s] at [p], its terminator included. *)
Definition apart (m : mem) (d n p : Z) (s : list Z) : Prop :=
  operand m d n /\ (d + n <= p \/ p + zlen s < d).

Lemma apart_step m d n p c s m1 :
  apart m d n p (c :: s) -> 0 < n -> m.[d <- c] = Some m1 -> apart m1 (d + 1) (n - 1) (p + 1) s.
Proof.
  intros [[??] Ha] ? Hw. pose proof (wr_length _ _ _ _ Hw). cbn [length] in *.
  split; [split|]; lia.
Qed.

Lemma copy_step m d n p c s :
  cstr m p (c :: s) -> apart m d n p (c :: s) -> 0 < n ->
  exists m1, m.[d <- c] = Some m1 /\ apart m1 (d + 1) (n - 1) (p + 1) s /\ cstr m1 (p + 1) s.
Proof.
  intros (_ & _ & Hs) Ha Hn. pose proof Ha as [[??] Hd]. cbn [length] in Hd.
  assert (exists m1, m.[d <- c] = Some m1) as [m1 Hw] by (rewrite wr_Some by lia; eauto).
  exists m1. split_and!; [done|by eapply apart_step|]. eapply cstr_wr; [done|done|lia].
Qed.

Lemma copy_last m d n p :
  apart m d n p [] -> 0 < n -> exists m1, m.[d <- 0] = Some m1 /\ splice m d [0] = Some m1.
Proof.
  intros [[??] _] Hn. assert (exists m1, m.[d <- 0] = Some m1) as [m1 Hw]
    by (rewrite wr_Some by lia; eauto).
  exists m1. split; [done|]. by rewrite <-wr_splice.
Qed.

Lemma strscpy_loop_spec n : forall m d p s src,
  cstr m p s -> apart m d (Z.of_nat n) p s ->
  exists m', strscpy_loop n m d p src =
    (if decide (length s < n)%nat then Some (inl (p + zlen s - src, m'))
     else Some (inr (m', d + Z.of_nat n))) /\
    splice m d (if decide (length s < n)%nat then s ++ [0] else take n s) = Some m'.
Proof.
  induction n as [|n IH]; intros m d p s src Hs Ha; cbn [strscpy_loop].
  - pose proof Ha as [[??] _]. exists m. rewrite !decide_False by lia.
    rewrite Z.add_0_r. split; [done|]. apply splice_nil. lia.
  - destruct s as [|c s].
    + simpl in Hs. rewrite Hs. mstep. destruct (copy_last m d _ p Ha) as (m1 & -> & ?); [lia|].
      mstep. simpl. exists m1. split; [|done]. do 3 f_equal. lia.
    + destruct (copy_step m d _ p c s Hs Ha) as (m1 & Hw & Ha1 & Hs1); [lia|].
      replace (Z.of_nat (S n) - 1) with (Z.of_nat n) in Ha1 by lia.
      destruct Hs as (Hc & Hne & _). rewrite Hc. mstep. rewrite Hw. mstep.
      destruct (Z.eqb_spec c 0); [done|].
      destruct (IH m1 (d + 1) (p + 1) s src Hs1 Ha1) as (m' & -> & Hsp).
      exists m'. cbn [length]. destruct (decide (length s < n)%nat).
      * rewrite !decide_True by lia. split; [do 3 f_equal; lia|]. by eapply splice_cons.
      * rewrite !decide_False by lia. split; [do 3 f_equal; lia|]. by eapply splice_cons.
Qed.

(** One more byte after a block, and overwriting the last byte of one. *)
Lemma splice_snoc (m m1 m2 : mem) d xs v :
  splice m d xs = Some m1 -> m1.[d + zlen xs <- v] = Some m2 ->
  splice m d (xs ++ [v]) = Some m2.
Proof.
  intros H Hw. pose proof (splice_inv _ _ _ _ H) as (? & _).
  pose proof (splice_length _ _ _ _ H). pose proof (wr_inv _ _ _ _ Hw) as [? _].
  destruct (splice_Some m d (xs ++ [v])) as (m3 & Hm3); [lia|rewrite length_app; simpl; lia|].
  rewrite Hm3. f_equal. apply rd_ext. intros i.
  rewrite (rd_splice _ _ _ _ _ Hm3), length_app, Nat2Z.inj_add. simpl length.
  destruct (decide (i = d + zlen xs)) as [->|].
  - rewrite (rd_wr_eq _ _ _ _ Hw), decide_True by lia. unfold rd. zcase; [lia|].
    rewrite lookup_app_r by lia.
    by replace (Z.to_nat (d + zlen xs - d) - length xs)%nat with 0%nat by lia.
  - rewrite (rd_wr_ne _ _ _ _ _ Hw), (rd_splice _ _ _ _ _ H) by done.
    repeat case_decide; try lia; try done. unfold rd. zcase; [lia|].
    by rewrite lookup_app_l by lia.
Qed.

Lemma splice_last (m m1 : mem) d xs c v :
  splice m d (xs ++ [c]) = Some m1 ->
  exists m2, m1.[d + zlen xs <- v] = Some m2 /\ splice m d (xs ++ [v]) = Some m2.
Proof.
  intros H. pose proof (splice_inv _ _ _ _ H) as (? & Hb & _). rewrite length_app in Hb.
  simpl in Hb. pose proof (splice_length _ _ _ _ H).
  assert (exists m2, m1.[d + zlen xs <- v] = Some m2) as [m2 Hw] by (rewrite wr_Some by lia; eauto).
  exists m2. split; [done|].
  destruct (splice_Some m d (xs ++ [v])) as (m3 & Hm3); [lia|rewrite length_app; simpl; lia|].
  rewrite Hm3. f_equal. apply rd_ext. intros i. rewrite (rd_splice _ _ _ _ _ Hm3).
  destruct (decide (i = d + zlen xs)) as [->|].
  - rewrite (rd_wr_eq _ _ _ _ Hw), decide_True by (rewrite length_app; simpl; lia).
    unfold rd. zcase; [lia|]. rewrite lookup_app_r by lia.
    by replace (Z.to_nat (d + zlen xs - d) - length xs)%nat with 0%nat by lia.
  - rewrite (rd_wr_ne _ _ _ _ _ Hw) by done. rewrite (rd_splice _ _ _ _ _ H), !length_app.
    simpl. case_decide; [|done]. unfold rd. zcase; [lia|]. by rewrite !lookup_app_l by lia.
Qed.

Lemma strlcpy_copy_spec n : forall m d p s,
  cstr m p s -> apart m d (Z.of_nat n + 1) p s ->
  exists m', splice m d (if decide (length s < n)%nat then s ++ [0] else take n s) = Some m' /\
    if decide (length s < n)%nat then
      exists d' k, strlcpy_copy n m d p = Some (m', d', p + zlen s + 1, k) /\ k <> 0
    else strlcpy_copy n m d p = Some (m', d + Z.of_nat n, p + Z.of_nat n, 0).
Proof.
  induction n as [|n IH]; intros m d p s Hs Ha; cbn [strlcpy_copy].
  - pose proof Ha as [[??] _]. exists m. rewrite !decide_False by lia.
    rewrite !Z.add_0_r. split; [|done]. apply splice_nil. lia.
  - destruct s as [|c s].
    + simpl in Hs. rewrite Hs. mstep. destruct (copy_last m d _ p Ha) as (m1 & -> & ?); [lia|].
      mstep. simpl. exists m1. split; [done|]. exists (d + 1), (Z.of_nat (S n)).
      rewrite Z.add_0_r. split; [done|lia].
    + destruct (copy_step m d _ p c s Hs Ha) as (m1 & Hw & Ha1 & Hs1); [lia|].
      replace (Z.of_nat (S n) + 1 - 1) with (Z.of_nat n + 1) in Ha1 by lia.
      destruct Hs as (Hc & Hne & _). rewrite Hc. mstep. rewrite Hw. mstep.
      destruct (Z.eqb_spec c 0); [done|].
      destruct (IH m1 (d + 1) (p + 1) s Hs1 Ha1) as (m' & Hsp & Hr).
      exists m'. cbn [length]. destruct (decide (length s < n)%nat).
      * rewrite !decide_True by lia. split; [by eapply splice_cons|].
        destruct Hr as (d' & k & -> & ?). exists d', k. split; [do 3 f_equal; lia|done].
      * rewrite !decide_False by lia. split; [by eapply splice_cons|]. rewrite Hr.
        rewrite Nat2Z.inj_succ, <-!Z.add_1_l, !Z.add_assoc. done.
Qed.

Lemma strlcpy_skip_spec m s : forall fuel p,
  cstr m p s -> (length s < fuel)%nat -> strlcpy_skip fuel m p = Some (p + zlen s + 1).
Proof.
  induction s as [|c s IH]; intros [|fuel] p Hs Hf; try lia; cbn [strlcpy_skip length cstr] in *;
    try lia.
  - rewrite Hs. mstep. simpl. f_equal. lia.
  - destruct Hs as (Hc & ? & Hs). rewrite Hc. mstep. destruct (Z.eqb_spec c 0); [done|].
    rewrite IH by first [done|lia]. f_equal. lia.
Qed.

Lemma strncpy_pad_spec n : forall m d, operand m d (Z.of_nat n) ->
  exists m', strncpy_pad n m d = Some m' /\ splice m d (replicate n 0) = Some m'.
Proof.
  induction n as [|n IH]; intros m d [??]; cbn [strncpy_pad].
  - exists m. split; [done|]. apply splice_nil. lia.
  - assert (exists m1, m.[d <- 0] = Some m1) as [m1 Hw] by (rewrite wr_Some by lia; eauto).
    rewrite Hw. mstep. destruct (IH m1 (d + 1)) as (m' & ? & ?).
    { pose proof (wr_length _ _ _ _ Hw). split; lia. }
    exists m'. split; [done|]. by eapply (splice_cons m m1).
Qed.

Lemma strncpy_loop_spec n : forall m d p s,
  cstr m p s -> apart m d (Z.of_nat n) p s ->
  exists m', strncpy_loop n m d p = Some m' /\
    splice m d (take n (s ++ replicate n 0)) = Some m'.
Proof.
  induction n as [|n IH]; intros m d p s Hs Ha; cbn [strncpy_loop].
  - pose proof Ha as [[??] _]. exists m. split; [done|]. apply splice_nil. lia.
  - destruct s as [|c s].
    + pose proof Ha as [[??] _]. destruct (copy_last m d _ p Ha) as (m1 & Hw & _); [lia|].
      simpl in Hs. rewrite Hs. mstep. rewrite Hw. mstep. simpl.
      destruct (strncpy_pad_spec n m1 (d + 1)) as (m' & -> & ?).
      { pose proof (wr_length _ _ _ _ Hw). split; lia. }
      exists m'. split; [done|]. rewrite take_ge by (rewrite length_replicate; lia).
      by eapply splice_cons.
    + destruct (copy_step m d _ p c s Hs Ha) as (m1 & Hw & Ha1 & Hs1); [lia|].
      replace (Z.of_nat (S n) - 1) with (Z.of_nat n) in Ha1 by lia.
      destruct Hs as (Hc & Hne & _). rewrite Hc. mstep. rewrite Hw. mstep.
      destruct (Z.eqb_spec c 0); [done|].
      destruct (IH m1 (d + 1) (p + 1) s Hs1 Ha1) as (m' & -> & Hsp).
      exists m'. split; [done|]. simpl. eapply splice_cons; [done|]. rewrite <-Hsp.
      f_equal. destruct (decide (length s < n)%nat).
      * rewrite !take_app, !(take_ge s) by lia. f_equal.
        rewrite take_replicate. change (0 :: replicate n 0) with (replicate (S n) 0).
        rewrite take_replicate. f_equal. lia.
      * by rewrite !take_app_le by lia.
Qed.

(** [strncpy] copies at most [n] characters and pads with nulls; a source of
    [n] or more characters is not terminated. *)
Lemma strncpy_spec m dst src n s :
  cstr m src s -> 0 <= n -> apart m dst n src s ->
  exists m', strncpy m dst src n = Some (dst, m') /\
    splice m dst (take (Z.to_nat n) (s ++ replicate (Z.to_nat n) 0)) = Some m'.
Proof.
  intros Hs Hn Ha. unfold strncpy.
  destruct (strncpy_loop_spec (Z.to_nat n) m dst src s Hs) as (m' & -> & ?);
    [by rewrite Z2Nat.id by lia|]. mstep. eauto.
Qed.

(** ** Tokens *)

Lemma delim_match_spec m ds c : forall fuel q,
  cstr m q ds -> (length ds < fuel)%nat ->
  delim_match fuel m q c = Some (bool_decide (c ∈ ds ++ [0])).
Proof.
  induction ds as [|x ds IH]; intros [|fuel] q Hs Hf; try lia;
    cbn [delim_match length cstr] in *; try lia.
  - rewrite Hs. mstep. rewrite (Z.eqb_sym 0 c). destruct (Z.eqb_spec c 0) as [->|].
    + by rewrite bool_decide_true by by apply list_elem_of_singleton.
    + simpl. rewrite bool_decide_false by by rewrite list_elem_of_singleton. done.
  - destruct Hs as (Hx & ? & Hs). rewrite Hx. mstep. destruct (Z.eqb_spec x c) as [->|].
    + rewrite bool_decide_true by by apply elem_of_cons; left. done.
    + destruct (Z.eqb_spec x 0); [done|]. rewrite IH by first [done|lia]. f_equal.
      apply bool_decide_ext. simpl. rewrite elem_of_cons. intuition congruence.
Qed.

Lemma strsep_loop_spec m ds q : cstr m q ds -> forall a fuel p,
  Forall (fun c => c ∉ ds ++ [0]) a -> (length a < fuel)%nat ->
  (cstr m p a -> strsep_loop fuel m p q = Some (None, m)) /\
  (forall c b m', c ∈ ds -> cstr m p (a ++ c :: b) -> m.[p + zlen a <- 0] = Some m' ->
    strsep_loop fuel m p q = Some (Some (p + zlen a + 1), m')).
Proof.
  intros Hq. pose proof (cstr_bounds _ _ _ Hq) as [? Hb].
  assert (forall c, delim_match (S (length m)) m q c = Some (bool_decide (c ∈ ds ++ [0])))
    as Hd by (intros; apply delim_match_spec; [done|lia]).
  induction a as [|x a IH]; intros [|fuel] p Ha Hf; try lia; cbn [length] in *; try lia;
    cbn [strsep_loop].
  - split.
    + intros Hs. simpl in Hs. rewrite Hs. mstep. rewrite Hd. mstep.
      rewrite bool_decide_true by (apply elem_of_app; right; by apply list_elem_of_singleton).
      done.
    + intros c b m' Hc (Hp & Hne & _) Hw. rewrite Hp. mstep. rewrite Hd. mstep.
      rewrite bool_decide_true by (apply elem_of_app; by left).
      destruct (Z.eqb_spec c 0); [done|]. rewrite Z.add_simpl_r. rewrite Z.add_0_r in Hw.
      rewrite Hw. mstep. by rewrite Z.add_0_r.
  - apply Forall_cons in Ha as [Hx Ha]. destruct (IH fuel (p + 1) Ha) as [IH1 IH2]; [lia|].
    split.
    + intros (Hp & Hne & Hs). rewrite Hp. mstep. rewrite Hd. mstep.
      rewrite bool_decide_false by done. auto.
    + intros c b m' Hc (Hp & Hne & Hs) Hw. rewrite Hp. mstep. rewrite Hd. mstep.
      rewrite bool_decide_false by done. erewrite (IH2 c b m'); try done.
      * do 3 f_equal. lia.
      * rewrite <-Hw. f_equal. lia.
Qed.

(** Cutting a string at a delimiter leaves two strings. *)
Lemma cstr_cut m p a c b m' :
  cstr m p (a ++ c :: b) -> m.[p + zlen a <- 0] = Some m' ->
  cstr m' p a /\ cstr m' (p + zlen a + 1) b.
Proof.
  intros Hs Hw. split.
  - revert p Hs Hw. induction a as [|x a IH]; intros p Hs Hw; cbn [length] in *; simpl.
    + rewrite Z.add_0_r in Hw. by apply rd_wr_eq in Hw.
    + destruct Hs as (? & ? & Hs). rewrite (rd_wr_ne _ _ _ _ _ Hw) by lia.
      split_and!; try done. apply IH; [done|]. rewrite <-Hw. f_equal. lia.
  - apply cstr_app in Hs as (_ & _ & Hs). eapply cstr_wr; [done|done|]. lia.
Qed.

(** ** Claims *)

(** [strlcpy] always returns the length of the source and, for a
    non-empty buffer, leaves in it the longest prefix that fits, always
    terminated; nothing outside the buffer changes. *)
Theorem strlcpy_correct (m : mem) (dst src siz : Z) (s : list Z)
    (Hs : cstr m src s) (Hsiz : 0 < siz) (Hap : apart m dst siz src s) :
  exists m', strlcpy m dst src siz = Some (zlen s, m') /\
    splice m dst (take (Z.to_nat (siz - 1)) s ++ [0]) = Some m'.
Proof.
  unfold strlcpy. pose proof (cstr_bounds _ _ _ Hs).
  destruct (Z.eqb_spec siz 0) as [|_]; [lia|]. cbn [negb andb].
  set (n := Z.to_nat (siz - 1)).
  destruct (strlcpy_copy_spec n m dst src s Hs) as (m' & Hsp & Hr).
  { by replace (Z.of_nat n + 1) with siz by lia. }
  assert ((if negb (siz - 1 =? 0) then strlcpy_copy n m dst src else Some (m, dst, src, 0))
    = strlcpy_copy n m dst src) as ->.
  { destruct (Z.eqb_spec (siz - 1) 0); [|done]. by replace n with 0%nat by lia. }
  destruct (decide (length s < n)%nat).
  - destruct Hr as (d' & k & -> & ?). mstep. destruct (Z.eqb_spec k 0); [done|]. mstep.
    exists m'. split; [do 2 f_equal; lia|]. by rewrite take_ge by lia.
  - rewrite Hr. mstep. cbn [Z.eqb].
    destruct Hap as [[??] Hd]. pose proof (splice_length _ _ _ _ Hsp) as Hl.
    assert (exists m2, m'.[dst + Z.of_nat n <- 0] = Some m2) as [m2 Hw]
      by (rewrite wr_Some by lia; eauto).
    rewrite Hw. mstep. pose proof (wr_length _ _ _ _ Hw).
    assert (cstr m2 (src + Z.of_nat n) (drop n s)) as Hs2.
    { assert (zlen (take n s) = Z.of_nat n) as Ht by (rewrite length_take; lia).
      pose proof Hs as Hs'. rewrite <-(take_drop n s) in Hs'. apply cstr_app in Hs'.
      rewrite Ht in Hs'. eapply cstr_ext; [done|]. intros i Hi. rewrite length_drop in Hi.
      rewrite (rd_wr_ne _ _ _ _ _ Hw) by lia.
      rewrite (rd_splice _ _ _ _ _ Hsp), decide_False by (rewrite Ht; lia). done. }
    rewrite (strlcpy_skip_spec m2 (drop n s)) by (try done; rewrite length_drop; lia). mstep.
    exists m2. rewrite length_drop. split; [do 2 f_equal; lia|].
    apply (splice_snoc m m'); [done|]. by rewrite length_take_le by lia.
Qed.

Definition str_example : mem := [104; 101; 108; 44; 108; 111; 0; 44; 32; 0; 9; 9; 9; 9; 9; 9; 9; 9].

Lemma strlcpy_correct_witness :
  exists m', strlcpy str_example 11 0 4 = Some (6, m') /\
    splice str_example 11 ([104; 101; 108] ++ [0]) = Some m'.
Proof.
  apply (strlcpy_correct str_example 11 0 4 [104; 101; 108; 44; 108; 111]).
  - vm_compute; split_and!; (reflexivity || congruence).
  - vm_compute; congruence.
  - split; [split|right]; vm_compute; (reflexivity || congruence).
Defined.

(** [strscpy] copies a string that fits and returns its length; otherwise
    it leaves the longest terminated prefix and returns [-E2BIG]. *)
Theorem strscpy_correct (m : mem) (dst src siz : Z) (s : list Z)
    (Hs : cstr m src s) (Hsiz : 0 < siz) (Hap : apart m dst siz src s) :
  exists m', strscpy m dst src siz =
      Some (if decide (zlen s < siz) then zlen s else - E2BIG, m') /\
    splice m dst (take (Z.to_nat (siz - 1)) s ++ [0]) = Some m'.
Proof.
  unfold strscpy. destruct (Z.eqb_spec siz 0); [lia|].
  destruct (strscpy_loop_spec (Z.to_nat siz) m dst src s src Hs) as (m' & -> & Hsp).
  { by rewrite Z2Nat.id by lia. }
  destruct (decide (length s < Z.to_nat siz)%nat); mstep.
  - exists m'. rewrite decide_True by lia. split; [do 2 f_equal; lia|].
    by rewrite take_ge by lia.
  - rewrite decide_False by lia.
    replace (Z.to_nat siz) with (S (Z.to_nat (siz - 1))) in Hsp by lia.
    destruct (lookup_lt_is_Some_2 s (Z.to_nat (siz - 1))) as [c Hc]; [lia|].
    rewrite (take_S_r _ _ _ Hc) in Hsp.
    destruct (splice_last m m' dst _ c 0 Hsp) as (m2 & Hw & ?).
    rewrite length_take_le in Hw by lia.
    replace (dst + Z.of_nat (Z.to_nat siz) - 1) with (dst + Z.of_nat (Z.to_nat (siz - 1))) by lia.
    rewrite Hw. mstep. eauto.
Qed.

Lemma strscpy_correct_witness :
  exists m', strscpy str_example 11 0 4 = Some (- E2BIG, m') /\
    splice str_example 11 ([104; 101; 108] ++ [0]) = Some m'.
Proof.
  apply (strscpy_correct str_example 11 0 4 [104; 101; 108; 44; 108; 111]).
  - vm_compute; split_and!; (reflexivity || congruence).
  - vm_compute; congruence.
  - split; [split|right]; vm_compute; (reflexivity || congruence).
Defined.

(** [strsep] cuts the string at its first delimiter: the token returned is
    the text before it, [*stringp] is the text after it, and both are
    terminated strings; without a delimiter the whole string is the token and
    [*stringp] becomes null. *)
Theorem strsep_correct (m : mem) (p q : Z) (a ds : list Z)
    (Hds : cstr m q ds) (Ha : Forall (fun c => c ∉ ds ++ [0]) a) :
  (cstr m p a -> strsep m (Some p) q = Some (Some p, None, m)) /\
  (forall c b, c ∈ ds -> cstr m p (a ++ c :: b) ->
     exists m', strsep m (Some p) q = Some (Some p, Some (p + zlen a + 1), m') /\
       cstr m' p a /\ cstr m' (p + zlen a + 1) b /\
       forall i, i <> p + zlen a -> m'.[i] = m.[i]).
Proof.
  unfold strsep. split.
  - intros Hs. pose proof (cstr_bounds _ _ _ Hs).
    destruct (strsep_loop_spec m ds q Hds a (S (length m)) p Ha) as [Hl _]; [lia|].
    by rewrite Hl.
  - intros c b Hc Hs. pose proof (cstr_bounds _ _ _ Hs) as [? Hb].
    rewrite length_app in Hb. simpl in Hb.
    destruct (strsep_loop_spec m ds q Hds a (S (length m)) p Ha) as [_ Hl]; [lia|].
    assert (exists m', m.[p + zlen a <- 0] = Some m') as [m' Hw]
      by (rewrite wr_Some by lia; eauto).
    rewrite (Hl c b m') by done. mstep. exists m'. split; [done|].
    destruct (cstr_cut _ _ _ _ _ _ Hs Hw). split_and!; try done.
    intros i Hi. eapply rd_wr_ne; [done|]. lia.
Qed.

Lemma strsep_correct_witness :
  exists m', strsep str_example (Some 0) 7 = Some (Some 0, Some (0 + 3 + 1), m') /\
    cstr m' 0 [104; 101; 108] /\ cstr m' (0 + 3 + 1) [108; 111] /\
    forall i, i <> 0 + 3 -> m'.[i] = str_example.[i].
Proof.
  apply (strsep_correct str_example 0 7 [104; 101; 108] [44; 32]) with (c := 44).
  - vm_compute; split_and!; (reflexivity || congruence).
  - apply (bool_decide_unpack _); vm_compute; exact I.
  - apply (bool_decide_unpack _); vm_compute; exact I.
  - vm_compute; split_and!; (reflexivity || congruence).
Defined.

Lemma span_match_spec m ds c : c <> 0 -> forall fuel q,
  cstr m q ds -> (length ds < fuel)%nat ->
  span_match fuel m q c = Some (bool_decide (c ∈ ds)).
Proof.
  intros Hc. induction ds as [|x ds IH]; intros [|fuel] q Hs Hf; try lia;
    cbn [span_match length cstr] in *; try lia.
  - rewrite Hs. mstep. done.
  - destruct Hs as (Hx & ? & Hs). rewrite Hx. mstep. destruct (Z.eqb_spec x 0); [done|].
    destruct (Z.eqb_spec c x) as [->|].
    + rewrite bool_decide_true by by apply elem_of_cons; left. done.
    + rewrite IH by first [done|lia]. f_equal.
      apply bool_decide_ext. rewrite elem_of_cons. intuition congruence.
Qed.

(** [kstrtok] skips leading delimiters and then cuts like [strsep]. *)
Lemma kstrtok_spec m p q ds pre x a c b lasts :
  cstr m q ds -> Forall (fun c => c ∈ ds) pre -> Forall (fun c => c ∉ ds ++ [0]) (x :: a) ->
  c ∈ ds -> cstr m p (pre ++ (x :: a) ++ c :: b) ->
  exists m', kstrtok m (Some p) q lasts =
      Some (Some (p + zlen pre), Some (p + zlen pre + zlen (x :: a) + 1), m') /\
    cstr m' (p + zlen pre) (x :: a) /\ cstr m' (p + zlen pre + zlen (x :: a) + 1) b.
Proof.
  intros Hq Hpre Ha Hc Hs. unfold kstrtok. pose proof (cstr_bounds _ _ _ Hq).
  pose proof (cstr_bounds _ _ _ Hs) as [? Hb]. rewrite !length_app in Hb. simpl in Hb.
  assert (forall fuel p, cstr m p (pre ++ (x :: a) ++ c :: b) -> (length pre < fuel)%nat ->
    kstrtok_skip fuel m p q = Some (x, p + zlen pre + 1)) as Hskip.
  { clear Hs Hb. apply Forall_cons in Ha as [Hx _].
    rewrite elem_of_app, list_elem_of_singleton in Hx.
    induction Hpre as [|y pre Hy Hpre IH]; intros [|fuel] p' Hs Hf; try lia;
      cbn [kstrtok_skip length] in *; try lia; destruct Hs as (Hp & Hne & Hs); rewrite Hp; mstep.
    - rewrite (span_match_spec m ds) by first [done|lia]. mstep.
      rewrite bool_decide_false by tauto. do 2 f_equal. lia.
    - rewrite (span_match_spec m ds) by first [done|lia]. mstep.
      rewrite bool_decide_true by done. rewrite IH by first [done|lia]. do 2 f_equal. lia. }
  rewrite (Hskip _ p Hs) by lia. mstep. apply cstr_app in Hs. pose proof Hs as (Hx & Hx0 & Hs1).
  destruct (Z.eqb_spec x 0); [done|].
  assert (exists m', m.[p + zlen pre + zlen (x :: a) <- 0] = Some m') as [m' Hw]
    by (rewrite wr_Some by (cbn [length]; lia); eauto).
  apply Forall_cons in Ha as [_ Ha].
  destruct (strsep_loop_spec m ds q Hq a (S (length m)) (p + zlen pre + 1) Ha) as [_ Hl]; [lia|].
  rewrite (Hl c b m'); try done.
  - mstep. exists m'. cbn [length] in *. split.
    { replace (p + zlen pre + 1 - 1) with (p + zlen pre) by lia.
      replace (p + zlen pre + 1 + zlen a + 1) with (p + zlen pre + Z.of_nat (S (length a)) + 1)
        by lia. done. }
    by apply (cstr_cut m _ (x :: a) c b).
  - rewrite <-Hw. cbn [length]. f_equal. lia.
Qed.

(** ** Numbers *)

(** The [k + 1] lowest digits of [v] in base [b], most significant first. *)
Fixpoint digits (b v : Z) (k : nat) : list Z :=
  v / b ^ Z.of_nat k mod b :: match k with O => [] | S k => digits b v k end.

Definition numeral (b v : Z) (k : nat) : list Z := (fun d => d + 48) <$> digits b v k.

Lemma length_digits b v k : length (digits b v k) = S k.
Proof. induction k as [|k IH]; simpl in *; [done|by rewrite IH]. Qed.

Lemma digits_range b v k : 0 < b -> Forall (fun d => 0 <= d < b) (digits b v k).
Proof. intros Hb. induction k; simpl; constructor; try apply Z.mod_pos_bound; auto. Qed.

Lemma digits_value b v k acc : 1 < b -> 0 <= v ->
  foldl (fun acc d => acc * b + d) acc (digits b v k) =
  acc * b ^ Z.of_nat (S k) + v mod b ^ Z.of_nat (S k).
Proof.
  intros Hb Hv. revert acc. induction k as [|k IH]; intros acc.
  - cbn [digits foldl Z.of_nat Pos.of_succ_nat]. by rewrite Z.pow_0_r, Z.pow_1_r, Z.div_1_r.
  - cbn [digits foldl]. rewrite IH. rewrite (Nat2Z.inj_succ (S k)), Z.pow_succ_r by lia.
    set (P := b ^ Z.of_nat (S k)). assert (0 < P) by (apply Z.pow_pos_nonneg; lia).
    rewrite (Z.mul_comm b P), Z.rem_mul_r by lia. lia.
Qed.

(** The first loop finds the largest power of the base not above the value. *)
Lemma uitoa_div_spec w b v : 1 < b -> 0 <= v < 2 ^ w -> 0 <= w -> forall fuel k,
  (k = O \/ b ^ Z.of_nat k <= v) -> w <= Z.of_nat fuel + Z.of_nat k ->
  exists k', uitoa_div fuel w b v (b ^ Z.of_nat k) (Z.of_nat (S k)) =
      Some (b ^ Z.of_nat k', Z.of_nat (S k')) /\ v < b ^ Z.of_nat (S k') /\
    (k' = O \/ b ^ Z.of_nat k' <= v).
Proof.
  intros Hb Hv Hw. induction fuel as [|fuel IH]; intros k Hk Hf; cbn [uitoa_div];
    set (P := b ^ Z.of_nat k); assert (0 < P) by (apply Z.pow_pos_nonneg; lia);
    destruct (Z.eqb_spec P 0); try lia; zcase.
  - exfalso. assert (b * P <= v) by (pose proof (Z.mul_div_le v P); nia).
    assert (2 ^ Z.of_nat k <= P) by (apply Z.pow_le_mono_l; lia).
    assert (2 ^ w <= 2 ^ Z.of_nat k) by (apply Z.pow_le_mono_r; lia). nia.
  - exists k. split_and!; try done. rewrite Nat2Z.inj_succ, Z.pow_succ_r by lia. fold P.
    pose proof (Z.mul_succ_div_gt v P). nia.
  - assert (P * b <= v) by (pose proof (Z.mul_div_le v P); nia).
    rewrite Z.mod_small by nia.
    replace (P * b) with (b ^ Z.of_nat (S k)) by (rewrite Nat2Z.inj_succ, Z.pow_succ_r; lia).
    replace (Z.of_nat (S k) + 1) with (Z.of_nat (S (S k))) by lia.
    apply IH; [|lia]. right. rewrite Nat2Z.inj_succ, Z.pow_succ_r by lia. fold P. lia.
  - exists k. split_and!; try done. rewrite Nat2Z.inj_succ, Z.pow_succ_r by lia. fold P.
    pose proof (Z.mul_succ_div_gt v P). nia.
Qed.

Lemma uitoa_digits_spec b v str : 1 < b <= 10 -> forall k fuel m n,
  (k < fuel)%nat -> operand m (str + n) (Z.of_nat (S k)) ->
  exists m', uitoa_digits fuel m str b v (b ^ Z.of_nat k) n = Some (m', n + Z.of_nat (S k)) /\
    splice m (str + n) (numeral b v k) = Some m'.
Proof.
  intros Hb. induction k as [|k IH]; intros [|fuel] m n Hf [??]; try lia;
    cbn [uitoa_digits]; unfold u8;
    match goal with |- context [?x mod b] =>
      pose proof (Z.mod_pos_bound x b ltac:(lia)) end;
    rewrite (Z.mod_small (_ + 48)) by lia;
    set (d := _ mod b + 48);
    assert (exists m1, m.[str + n <- d] = Some m1) as [m1 Hw] by (rewrite wr_Some by lia; eauto);
    rewrite Hw; mstep; pose proof (wr_length _ _ _ _ Hw).
  - rewrite Z.pow_0_r, (Z.div_small 1 b) by lia. simpl. exists m1. split; [done|].
    eapply splice_cons; [done|]. apply splice_nil. lia.
  - assert (b ^ Z.of_nat (S k) / b = b ^ Z.of_nat k) as ->.
    { rewrite Nat2Z.inj_succ, Z.pow_succ_r, Z.mul_comm by lia. by apply Z.div_mul; lia. }
    assert (0 < b ^ Z.of_nat k) by (apply Z.pow_pos_nonneg; lia).
    destruct (Z.eqb_spec (b ^ Z.of_nat k) 0); [lia|].
    destruct (IH fuel m1 (n + 1)) as (m' & -> & ?); [lia|split; lia|].
    exists m'. split; [do 2 f_equal; lia|]. cbn [numeral digits fmap list_fmap].
    eapply splice_cons; [done|]. rewrite <-Z.add_assoc. done.
Qed.

(** The numeral has no leading zero. *)
Lemma UITOA_TYPE_spec w m str v b : 1 < b <= 10 -> 0 <= w -> 0 <= v < 2 ^ w ->
  operand m str (w + 2) ->
  exists k m', UITOA_TYPE w m str v b = Some (Z.of_nat (S k), m') /\
    splice m str (numeral b v k ++ [0]) = Some m' /\
    v < b ^ Z.of_nat (S k) /\ (k = O \/ b ^ Z.of_nat k <= v) /\ Z.of_nat k <= w.
Proof.
  intros Hb Hw Hv [??]. unfold UITOA_TYPE.
  destruct (uitoa_div_spec w b v ltac:(lia) Hv Hw (Z.to_nat w) 0) as (k & E & Hlt & Hk);
    [by left|lia|].
  rewrite Z.pow_0_r in E. change (Z.of_nat 1) with 1 in E. rewrite E. mstep.
  assert (Z.of_nat k <= w) as Hkw.
  { destruct Hk as [->|Hk]; [lia|]. apply Z.nlt_ge. intros Hlt'.
    assert (2 ^ Z.of_nat k <= b ^ Z.of_nat k) by (apply Z.pow_le_mono_l; lia).
    assert (2 ^ w < 2 ^ Z.of_nat k) by (apply Z.pow_lt_mono_r; lia). lia. }
  destruct (uitoa_digits_spec b v str Hb k (S (Z.to_nat w)) m 0) as (m1 & -> & Hs);
    [lia|split; lia|]. mstep. rewrite Z.add_0_r in Hs. rewrite Z.add_0_l.
  pose proof (splice_length _ _ _ _ Hs).
  assert (exists m2, m1.[str + Z.of_nat (S k) <- 0] = Some m2) as [m2 Hw2]
    by (rewrite wr_Some by lia; eauto).
  rewrite Hw2. mstep. exists k, m2. split_and!; try done.
  eapply splice_snoc; [done|]. unfold numeral. by rewrite length_fmap, length_digits.
Qed.

Lemma numeral_chars b v k : 1 < b <= 10 -> Forall (fun c => 48 <= c < 48 + b) (numeral b v k).
Proof.
  intros Hb. unfold numeral. apply Forall_fmap. eapply Forall_impl; [by apply digits_range; lia|].
  simpl. lia.
Qed.

Lemma s32_congr x y : x mod 2 ^ 32 = y mod 2 ^ 32 -> s32 x = s32 y.
Proof. unfold s32. by intros ->. Qed.

Lemma s32_mod x : s32 x mod 2 ^ 32 = x mod 2 ^ 32.
Proof. unfold s32. zcase; [by rewrite Z.mod_mod by lia|]. dlia. Qed.

Lemma atoi_digits_spec m s : forall fuel p n,
  cstr m p s -> Forall (fun c => 48 <= c < 58) s -> (length s < fuel)%nat ->
  atoi_digits fuel m p (s32 n) =
    Some (s32 (foldl (fun acc d => acc * 10 + d) n ((fun c => c - 48) <$> s))).
Proof.
  induction s as [|c s IH]; intros [|fuel] p n Hs HF Hf; cbn [atoi_digits length cstr] in *;
    try lia.
  - rewrite Hs. done.
  - destruct Hs as (Hc & ? & Hs). apply Forall_cons in HF as [? HF]. rewrite Hc. mstep.
    destruct (Z.leb_spec 48 c), (Z.leb_spec c 57); try lia. cbn [andb].
    replace (s32 (s32 n * 10 + c - 48)) with (s32 (n * 10 + (c - 48))).
    { rewrite (IH fuel) by first [done|lia]. done. }
    apply s32_congr. pose proof (s32_mod n). dlia.
Qed.

Lemma atoi_numeral m p b v k : 1 < b <= 10 -> cstr m p (numeral b v k) -> b = 10 ->
  0 <= v < b ^ Z.of_nat (S k) -> atoi m p = Some (s32 v).
Proof.
  intros Hb Hs Hb10 Hv. unfold atoi. pose proof (cstr_bounds _ _ _ Hs).
  pose proof (numeral_chars b v k Hb) as HF.
  assert (atoi_skip (S (length m)) m p = Some (p, false)) as ->.
  { cbn [atoi_skip]. destruct (numeral b v k) as [|c s] eqn:E.
    { apply (f_equal length) in E. unfold numeral in E.
      by rewrite length_fmap, length_digits in E. }
    destruct Hs as (Hc & _). apply Forall_cons in HF as [? _]. rewrite Hc. mstep.
    repeat (zcase; [lia|]). done. }
  mstep. change 0 with (s32 0) at 1.
  rewrite (atoi_digits_spec m (numeral b v k)); [|done| |lia].
  - mstep. do 2 f_equal. unfold numeral. rewrite <-list_fmap_compose.
    rewrite (list_fmap_ext _ id) by (intros; unfold compose, id; lia). rewrite list_fmap_id.
    subst b. rewrite digits_value by lia. rewrite Z.mod_small by lia. lia.
  - eapply Forall_impl; [done|]. simpl. lia.
Qed.

(** Printing an unsigned 32-bit integer with [uitoa32] writes its decimal
    numeral without leading zeros and returns its length, and [atoi] reads the
    same 32-bit value back from the buffer. *)
Theorem uitoa32_atoi_roundtrip (m : mem) (str v : Z) (Hv : 0 <= v < 2 ^ 32)
    (Hroom : operand m str 34) :
  exists k m', uitoa32 m str v = Some (Z.of_nat (S k), m') /\
    splice m str (numeral 10 v k ++ [0]) = Some m' /\
    cstr m' str (numeral 10 v k) /\ (k = O \/ 10 ^ Z.of_nat k <= v) /\
    atoi m' str = Some (s32 v).
Proof.
  destruct (UITOA_TYPE_spec 32 m str v 10) as (k & m' & H & Hs & ? & ? & ?);
    [lia|lia|done|done|].
  exists k, m'. assert (cstr m' str (numeral 10 v k)) as Hc.
  { eapply splice_cstr; [|done]. eapply Forall_impl; [apply numeral_chars; lia|].
    simpl. lia. }
  split_and!; try done. apply (atoi_numeral m' str 10 v k); (done || lia).
Qed.

Lemma uitoa32_atoi_roundtrip_witness :
  exists k m', uitoa32 (replicate 40 7) 3 4294967295 = Some (Z.of_nat (S k), m') /\
    splice (replicate 40 7) 3 (numeral 10 4294967295 k ++ [0]) = Some m' /\
    cstr m' 3 (numeral 10 4294967295 k) /\ (k = O \/ 10 ^ Z.of_nat k <= 4294967295) /\
    atoi m' 3 = Some (s32 4294967295).
Proof.
  apply (uitoa32_atoi_roundtrip (replicate 40 7) 3 4294967295);
    split; vm_compute; congruence.
Defined.

Definition hexchar (d : Z) : Z := if d <? 10 then 48 + d else 97 + (d - 10).

Lemma nibble v n : 0 <= n -> Z.shiftr (Z.land v (Z.shiftl 0xF n)) n = v / 2 ^ n mod 2 ^ 4.
Proof.
  intros Hn. rewrite Z.shiftr_land, Z.shiftr_shiftl_l, Z.sub_diag, Z.shiftl_0_r by lia.
  change 0xF with (Z.ones 4). by rewrite Z.land_ones, Z.shiftr_div_pow2 by lia.
Qed.

Lemma uitoah_loop_spec str v : forall k fuel m i,
  (k < fuel)%nat -> operand m (str + i) (Z.of_nat (S k)) ->
  exists m', uitoah_loop fuel m str v (Z.shiftl 0xF (4 * Z.of_nat k)) (4 * Z.of_nat k) i =
      Some (m', i + Z.of_nat (S k)) /\
    splice m (str + i) (hexchar <$> digits 16 v k) = Some m'.
Proof.
  induction k as [|k IH]; intros [|fuel] m i Hf [??]; try lia; cbn [uitoah_loop];
    (match goal with |- context [?a <? 0] => destruct (Z.ltb_spec a 0) end; [lia|]);
    rewrite nibble by lia; rewrite Z.pow_mul_r by lia; change (2 ^ 4) with 16; unfold u8;
    match goal with |- context [?x mod 16] =>
      pose proof (Z.mod_pos_bound x 16 ltac:(lia)) end;
    rewrite (Z.mod_small (_ mod 16)) by lia;
    match goal with |- context [m.[_ <- ?e]] => set (d := e) end;
    assert (exists m1, m.[str + i <- d] = Some m1) as [m1 Hw] by (rewrite wr_Some by lia; eauto);
    rewrite Hw; mstep; pose proof (wr_length _ _ _ _ Hw).
  - exists m1. split; [by destruct fuel|].
    eapply splice_cons; [done|]. apply splice_nil. lia.
  - rewrite Z.shiftr_shiftl_l by lia.
    replace (4 * Z.of_nat (S k) - 4) with (4 * Z.of_nat k) by lia.
    destruct (IH fuel m1 (i + 1)) as (m' & -> & ?); [lia|split; lia|].
    exists m'. split; [do 2 f_equal; lia|].
    eapply (splice_cons m m1); [done|]. rewrite <-Z.add_assoc. done.
Qed.

(** The hexadecimal printers write exactly one digit per nibble. *)
Lemma uitoah32_spec m str v : operand m str 9 ->
  exists m', uitoah32 m str v = Some (8, m') /\
    splice m str ((hexchar <$> digits 16 v 7) ++ [0]) = Some m'.
Proof.
  intros [??]. unfold uitoah32, uitoah_nbits.
  destruct (uitoah_loop_spec str v 7 32 m 0) as (m1 & E & Hs); [lia|split; lia|].
  rewrite Z.add_0_r in Hs. cbv zeta.
  change (uitoah_loop _ _ _ _ _ _ _) with
    (uitoah_loop 32 m str v (Z.shiftl 0xF (4 * Z.of_nat 7)) (4 * Z.of_nat 7) 0).
  rewrite E. mstep. pose proof (splice_length _ _ _ _ Hs).
  assert (exists m2, m1.[str + 8 <- 0] = Some m2) as [m2 Hw] by (rewrite wr_Some by lia; eauto).
  change (0 + Z.of_nat 8) with 8. rewrite Hw. mstep. exists m2. split; [done|].
  eapply splice_snoc; [done|]. by rewrite length_fmap, length_digits.
Qed.

(** [strstr] is documented to return the first occurrence of [str2], but
    it starts to compare at the second character: a match at the start of
    [str1] is never returned, for any memory and operands. *)
Theorem strstr_never_at_start (m : mem) (str1 str2 : Z) :
  strstr m str1 str2 <> Some (Some str1).
Proof.
  unfold strstr. destruct (strstr_len _ _ _ _) as [n|]; mstep; [|done].
  assert (forall fuel i r, 0 <= i -> strstr_loop fuel m str1 str2 n i = Some (Some r) ->
    str1 < r) as Hl.
  { induction fuel as [|fuel IH]; intros i r Hi; cbn [strstr_loop]; [done|].
    destruct (m.[str1 + i]) as [c|]; mstep; [|done]. zcase; [done|].
    destruct (strncmp _ _ _ _) as [x|]; mstep; [|done]. zcase.
    - intros [= <-]. lia.
    - apply IH. lia. }
  intros H%Hl; lia.
Qed.
