(* ===== verification/CTime.v ===== *)
(** * Calendar time: kern/libkern/ctime.c, include/sys/timeconst.h

    [time_t] is 64 bits wide and [long] and [int] are 32 bits wide; C division
    truncates ([Z.quot], [Z.rem]).  The loops that search the year and the
    month carry fuel that bounds the number of years in the day count. *)
From S2P Require Import Prelude.

Definition SECS_PER_MIN : Z := 60.
Definition SECS_PER_HOUR : Z := SECS_PER_MIN * 60.
Definition SECS_PER_DAY : Z := SECS_PER_HOUR * 24.
Definition DAYS_PER_WEEK : Z := 7.
Definition DAYS_PER_NYEAR : Z := 365.
Definition DAYS_PER_LYEAR : Z := 366.
Definition TM_YEAR_BASE : Z := 1900.
Definition EPOCH_YEAR : Z := 1970.
Definition EPOCH_WDAY : Z := 4.
Definition isleap (y : Z) : bool :=
  ((Z.rem y 4 =? 0) && negb (Z.rem y 100 =? 0)) || (Z.rem y 400 =? 0).

(** ** Tables *)

Definition mon_lengths (leap : bool) : list Z :=
  if leap then [31; 29; 31; 30; 31; 30; 31; 31; 30; 31; 30; 31]
  else [31; 28; 31; 30; 31; 30; 31; 31; 30; 31; 30; 31].
Definition mon_secs_elapsed (leap : bool) : list Z :=
  if leap then
    [0; 2678400; 5184000; 7862400; 10454400; 13132800; 15724800; 18403200;
     21081600; 23673600; 26352000; 28944000]
  else
    [0; 2678400; 5097600; 7776000; 10368000; 13046400; 15638400; 18316800;
     20995200; 23587200; 26265600; 28857600].
Definition year_lengths (leap : bool) : Z := if leap then DAYS_PER_LYEAR else DAYS_PER_NYEAR.
Definition year_lengths_sec (leap : bool) : Z := year_lengths leap * SECS_PER_DAY.

Record tm := Tm {
  tm_sec : Z; tm_min : Z; tm_hour : Z; tm_mday : Z; tm_mon : Z; tm_year : Z;
  tm_wday : Z; tm_yday : Z; tm_isdst : Z
}.
Record timespec := Timespec { tv_sec : Z; tv_nsec : Z }.

(** ** Broken-down time *)

(** [while (rem < 0)] and [while (rem >= SECS_PER_DAY)]. *)
Fixpoint rem_up (fuel : nat) (rem days : Z) : option (Z * Z) :=
  if rem <? 0 then
    match fuel with O => None | S fuel => rem_up fuel (rem + SECS_PER_DAY) (days - 1) end
  else Some (rem, days).
Fixpoint rem_down (fuel : nat) (rem days : Z) : option (Z * Z) :=
  if SECS_PER_DAY <=? rem then
    match fuel with O => None | S fuel => rem_down fuel (rem - SECS_PER_DAY) (days + 1) end
  else Some (rem, days).

(** [for (;;)] over the years from the epoch up. *)
Fixpoint year_up (fuel : nat) (y days : Z) : option (Z * Z) :=
  if days <? year_lengths (isleap y) then Some (y, days)
  else match fuel with
       | O => None
       | S fuel => year_up fuel (y + 1) (days - year_lengths (isleap y))
       end.
(** [do { --y; ... } while (days < 0)]. *)
Fixpoint year_down (fuel : nat) (y days : Z) : option (Z * Z) :=
  match fuel with
  | O => None
  | S fuel =>
      let y := y - 1 in
      let days := days + year_lengths (isleap y) in
      if days <? 0 then year_down fuel y days else Some (y, days)
  end.
Fixpoint mon_loop (fuel : nat) (ip : list Z) (mon days : Z) : option (Z * Z) :=
  len ← ip.[mon];
  if len <=? days then
    match fuel with O => None | S fuel => mon_loop fuel ip (mon + 1) (days - len) end
  else Some (mon, days).

Definition offtime (clock offset : Z) : option tm :=
  let days := s32 (Z.quot clock SECS_PER_DAY) in
  let rem := s32 (Z.rem clock SECS_PER_DAY) in
  let rem := s32 (rem + offset) in
  '(rem, days) ← rem_up (Z.to_nat (Z.abs rem)) rem days;
  '(rem, days) ← rem_down (Z.to_nat (Z.abs rem)) rem days;
  let hour := Z.quot rem SECS_PER_HOUR in
  let rem := Z.rem rem SECS_PER_HOUR in
  let min := Z.quot rem SECS_PER_MIN in
  let sec := Z.rem rem SECS_PER_MIN in
  let wday := Z.rem (s32 (EPOCH_WDAY + days)) DAYS_PER_WEEK in
  let wday := if wday <? 0 then wday + DAYS_PER_WEEK else wday in
  '(y, days) ← (if 0 <=? days then year_up (S (Z.to_nat (days / 365))) EPOCH_YEAR days
                else year_down (S (Z.to_nat (- days))) EPOCH_YEAR days);
  let yday := days in
  '(mon, days) ← mon_loop 12 (mon_lengths (isleap y)) 0 days;
  Some {| tm_sec := sec; tm_min := min; tm_hour := hour; tm_mday := days + 1;
          tm_mon := mon; tm_year := y - TM_YEAR_BASE; tm_wday := wday;
          tm_yday := yday; tm_isdst := 0 |}.

Definition gmtime (clock : Z) : option tm := offtime clock 0.

(** [for (y = ...; y >= EPOCH_YEAR; y--) sec += year_lengths_sec[isleap(y)]]. *)
Fixpoint mk_years (k : nat) (y sec : Z) : Z :=
  if EPOCH_YEAR <=? y then
    match k with
    | O => sec
    | S k => mk_years k (y - 1) (s64 (sec + year_lengths_sec (isleap y)))
    end
  else sec.

Definition mktimespec (t : tm) : option timespec :=
  let sec := tm_sec t in
  let sec := s64 (sec + tm_min t * SECS_PER_MIN) in
  let sec := s64 (sec + tm_hour t * SECS_PER_HOUR) in
  let sec := s64 (sec + (tm_mday t - 1) * SECS_PER_DAY) in
  e ← (mon_secs_elapsed (isleap (TM_YEAR_BASE + tm_year t))).[tm_mon t];
  let sec := s64 (sec + e) in
  let y := TM_YEAR_BASE + tm_year t - 1 in
  Some {| tv_sec := mk_years (Z.to_nat (y - EPOCH_YEAR + 1)) y sec; tv_nsec := 0 |}.

(** ** Arithmetic on [struct timespec] *)

Definition sec_nsec : Z := 1000000000.

Definition nsec2timespec (nsec : Z) : timespec :=
  let md := Z.rem nsec sec_nsec in
  {| tv_sec := Z.quot (nsec - md) sec_nsec; tv_nsec := md |}.

Definition timespec_add (left right : timespec) : timespec :=
  let sec := s64 (tv_sec left + tv_sec right) in
  let ts := nsec2timespec (tv_nsec left + tv_nsec right) in
  {| tv_sec := s64 (sec + tv_sec ts); tv_nsec := tv_nsec ts |}.

Definition timespec_sub (left right : timespec) : timespec :=
  let sec := s64 (tv_sec left - tv_sec right) in
  let ts := nsec2timespec (tv_nsec left - tv_nsec right) in
  let '(sec, nsec) :=
    if (tv_nsec ts <? 0) && (1 <=? sec) then (s64 (sec - 1), tv_nsec ts + sec_nsec)
    else (sec, tv_nsec ts) in
  {| tv_sec := s64 (sec + tv_sec ts); tv_nsec := nsec |}.

Definition timespec_mul (left right : timespec) : timespec :=
  let sec := s64 (tv_sec left * tv_sec right) in
  let ts := nsec2timespec (s64 (tv_nsec left * tv_nsec right)) in
  {| tv_sec := s64 (sec + tv_sec ts); tv_nsec := tv_nsec ts |}.

(** Division by a zero field traps. *)
Definition timespec_div (left right : timespec) : option timespec :=
  if (tv_sec right =? 0) || (tv_nsec right =? 0) then None
  else Some {| tv_sec := s64 (Z.quot (tv_sec left) (tv_sec right));
               tv_nsec := s32 (Z.quot (tv_nsec left) (tv_nsec right)) |}.
Definition timespec_mod (left right : timespec) : option timespec :=
  if (tv_sec right =? 0) || (tv_nsec right =? 0) then None
  else Some {| tv_sec := Z.rem (tv_sec left) (tv_sec right);
               tv_nsec := Z.rem (tv_nsec left) (tv_nsec right) |}.

(** ** Lemmas *)

(** Days from the epoch to the first day of year [1970 + n]. *)
Fixpoint year_start (n : nat) : Z :=
  match n with
  | O => 0
  | S n => year_start n + year_lengths (isleap (EPOCH_YEAR + Z.of_nat n))
  end.

Lemma year_lengths_range b : 365 <= year_lengths b <= 366.
Proof. by destruct b. Qed.

Lemma year_start_range n : 365 * Z.of_nat n <= year_start n <= 366 * Z.of_nat n.
Proof.
  induction n as [|n IH]; cbn [year_start]; [lia|].
  pose proof (year_lengths_range (isleap (EPOCH_YEAR + Z.of_nat n))). lia.
Qed.

Lemma year_up_spec fuel : forall n days,
  0 <= days -> days < 365 * (Z.of_nat fuel + 1) ->
  exists n' d, year_up fuel (EPOCH_YEAR + Z.of_nat n) days = Some (EPOCH_YEAR + Z.of_nat n', d) /\
    0 <= d < year_lengths (isleap (EPOCH_YEAR + Z.of_nat n')) /\
    year_start n + days = year_start n' + d.
Proof.
  induction fuel as [|fuel IH]; intros n days Hd Hf; cbn [year_up]; zcase;
    try by (exists n, days; split_and!; (done || lia)).
  - pose proof (year_lengths_range (isleap (EPOCH_YEAR + Z.of_nat n))). lia.
  - pose proof (year_lengths_range (isleap (EPOCH_YEAR + Z.of_nat n))).
    replace (EPOCH_YEAR + Z.of_nat n + 1) with (EPOCH_YEAR + Z.of_nat (S n)) by lia.
    destruct (IH (S n) (days - year_lengths (isleap (EPOCH_YEAR + Z.of_nat n))))
      as (n' & d & -> & ? & Hs); [lia|lia|].
    exists n', d. split_and!; try (done || lia). cbn [year_start] in Hs. lia.
Qed.

Lemma mk_years_spec n : forall sec,
  - 2 ^ 62 <= sec -> sec + 366 * SECS_PER_DAY * Z.of_nat n < 2 ^ 62 ->
  mk_years n (EPOCH_YEAR + Z.of_nat n - 1) sec = sec + year_start n * SECS_PER_DAY.
Proof.
  induction n as [|n IH]; intros sec Hl Hs; cbn [mk_years year_start].
  - zcase; lia.
  - replace (EPOCH_YEAR + Z.of_nat (S n) - 1) with (EPOCH_YEAR + Z.of_nat n) by lia.
    pose proof (year_lengths_range (isleap (EPOCH_YEAR + Z.of_nat n))).
    zcase; [|lia]. unfold year_lengths_sec.
    change SECS_PER_DAY with 86400 in *. rewrite s64_small by nia.
    rewrite IH by nia. lia.
Qed.

(** The month loop and the table of seconds elapsed at the start of each month
    agree on every day of a year. *)
Lemma mon_loop_spec leap days : 0 <= days < year_lengths leap ->
  exists mon d len e, mon_loop 12 (mon_lengths leap) 0 days = Some (mon, d) /\
    0 <= mon < 12 /\ (mon_lengths leap).[mon] = Some len /\ 0 <= d < len /\ len <= 31 /\
    (mon_secs_elapsed leap).[mon] = Some e /\ 0 <= e /\
    e + d * SECS_PER_DAY = days * SECS_PER_DAY.
Proof.
  intros Hd. set (ok := fun days => match mon_loop 12 (mon_lengths leap) 0 days with
    | Some (mon, d) => match (mon_lengths leap).[mon], (mon_secs_elapsed leap).[mon] with
        | Some len, Some e => (0 <=? mon) && (mon <? 12) && (0 <=? d) && (d <? len) &&
            (len <=? 31) && (0 <=? e) && (e + d * SECS_PER_DAY =? days * SECS_PER_DAY)
        | _, _ => false end
    | None => false end).
  assert (Forall (fun d => ok d = true) (seqZ 0 (year_lengths leap))) as HF.
  { apply (bool_decide_unpack _). destruct leap; vm_compute; exact I. }
  rewrite Forall_forall in HF. specialize (HF days).
  assert (ok days = true) as Hok by (apply HF, elem_of_seqZ; lia). unfold ok in Hok.
  destruct (mon_loop _ _ _ _) as [[mon d]|] eqn:E; [|done].
  destruct ((mon_lengths leap).[mon]) as [len|] eqn:E1; [|done].
  destruct ((mon_secs_elapsed leap).[mon]) as [e|] eqn:E2; [|done].
  rewrite !andb_true_iff, !Z.leb_le, !Z.ltb_lt, Z.eqb_eq in Hok.
  exists mon, d, len, e. split_and!; (done || lia).
Qed.

(** ** Claims *)



(** A normalised time and its value in nanoseconds. *)
Definition normal (t : timespec) : Prop := 0 <= tv_sec t < 2 ^ 62 /\ 0 <= tv_nsec t < sec_nsec.
Definition nanos (t : timespec) : Z := tv_sec t * sec_nsec + tv_nsec t.

(** Adding two normalised times gives the normalised time of the sum of
    their nanoseconds, and subtracting one of them again gives the other. *)
Theorem timespec_add_sub (a b : timespec) (Ha : normal a) (Hb : normal b) :
  nanos (timespec_add a b) = nanos a + nanos b /\
  0 <= tv_nsec (timespec_add a b) < sec_nsec /\
  timespec_sub (timespec_add a b) b = a.
Proof.
  destruct a as [sa na], b as [sb nb], Ha as [??], Hb as [??].
  unfold nanos, timespec_sub, timespec_add, nsec2timespec, sec_nsec in *. simpl in *.
  rewrite Z.rem_mod_nonneg by lia.
  set (q := (na + nb) mod 1000000000).
  assert (Z.quot (na + nb - q) 1000000000 = (na + nb) / 1000000000) as ->.
  { rewrite Z.quot_div_nonneg by (unfold q; dlia). unfold q. dlia. }
  rewrite !(s64_small (sa + sb)) by lia. rewrite (s64_small (sa + sb + _)) by dlia.
  rewrite (s64_small (_ - sb)) by dlia.
  assert (q = na + nb /\ (na + nb) / 1000000000 = 0 /\ na + nb < 1000000000 \/
    q = na + nb - 1000000000 /\ (na + nb) / 1000000000 = 1 /\ 1000000000 <= na + nb)
    as [(-> & -> & ?)|(-> & -> & ?)]
    by (unfold q; dlia).
  - replace (na + nb - nb) with na by lia. rewrite Z.rem_small, Z.sub_diag by lia.
    destruct (Z.ltb_spec na 0); [lia|]. cbn [andb]. change (0 ÷ 1000000000) with 0.
    rewrite s64_small by lia. split_and!; try lia. f_equal; lia.
  - replace (na + nb - 1000000000 - nb) with (- (1000000000 - na)) by lia.
    rewrite Z.rem_opp_l, Z.rem_small, Z.sub_diag by lia. change (0 ÷ 1000000000) with 0.
    destruct (Z.ltb_spec (- (1000000000 - na)) 0); [|lia].
    destruct (Z.leb_spec 1 (sa + sb + 1 - sb)); [|lia]. cbn [andb].
    rewrite (s64_small (_ - 1)), s64_small by lia. split_and!; try lia. f_equal; lia.
Qed.

Lemma timespec_add_sub_witness :
  nanos (timespec_add (Timespec 3 999999999) (Timespec 1 2)) =
    nanos (Timespec 3 999999999) + nanos (Timespec 1 2) /\
  0 <= tv_nsec (timespec_add (Timespec 3 999999999) (Timespec 1 2)) < sec_nsec /\
  timespec_sub (timespec_add (Timespec 3 999999999) (Timespec 1 2)) (Timespec 1 2) =
    Timespec 3 999999999.
Proof. apply timespec_add_sub; split; vm_compute; split; congruence. Defined.
