(* ===== verification/SegTree.v ===== *)
(** * Segment tree: kern/libkern/segtree/segtree.c

    A segment tree answers range queries for a min/max style comparison.  An
    object pointer is an [option] whose [None] is the null pointer.  The
    comparison function is the caller's: the operations take it as an
    argument and [MinMax] states what its documentation asks of it. *)
From S2P Require Import Prelude.

Record segt (A : Type) := Segt { s_n : Z; s_arr : list (option A) }.
Arguments Segt {A}. Arguments s_n {A}. Arguments s_arr {A}.

(** ** Code *)

(** The smallest power of two not below [n], by smearing bits. *)
Definition round_pow2 (n : Z) : Z :=
  let n := u32 (n - 1) in
  let n := Z.lor n (Z.shiftr n 1) in
  let n := Z.lor n (Z.shiftr n 2) in
  let n := Z.lor n (Z.shiftr n 4) in
  let n := Z.lor n (Z.shiftr n 8) in
  let n := Z.lor n (Z.shiftr n 16) in
  u32 (n + 1).

Section code.
Context {A : Type} (cmp : option A -> option A -> option A).

Definition segt_init (n : Z) : segt A :=
  let n := round_pow2 n in
  {| s_n := n; s_arr := replicate (Z.to_nat (2 * n)) None |}.

(** [for (k >>= 1; k >= 1; k >>= 1)]. *)
Fixpoint alt_loop (fuel : nat) (arr : list (option A)) (k : Z) : option (list (option A)) :=
  if 1 <=? k then
    match fuel with
    | O => None
    | S fuel =>
        let j := Z.shiftl k 1 in
        l ← arr.[j]; r ← arr.[j + 1];
        arr ← arr.[k <- cmp l r];
        alt_loop fuel arr (Z.shiftr k 1)
    end
  else Some arr.

Definition segt_alt (s : segt A) (k : Z) (x : option A) : option (segt A) :=
  let k := k + s_n s in
  arr ← (s_arr s).[k <- x];
  arr ← alt_loop (Z.to_nat k) arr (Z.shiftr k 1);
  Some {| s_n := s_n s; s_arr := arr |}.

(** [p = cmp(q, x); if (p) q = p;] *)
Definition improve (q x : option A) : option A :=
  match cmp q x with Some p => Some p | None => q end.

Fixpoint find_loop (fuel : nat) (arr : list (option A)) (q : option A) (a b : Z)
    : option (option A) :=
  if a <=? b then
    match fuel with
    | O => None
    | S fuel =>
        '(q, a) ← (if negb (Z.land a 1 =? 0)
                   then pa ← arr.[a]; Some (improve q pa, a + 1) else Some (q, a));
        '(q, b) ← (if Z.land b 1 =? 0
                   then pb ← arr.[b]; Some (improve q pb, b - 1) else Some (q, b));
        find_loop fuel arr q (Z.shiftr a 1) (Z.shiftr b 1)
    end
  else Some q.

Definition segt_find (s : segt A) (a b : Z) : option (option A) :=
  let a := a + s_n s in
  let b := b + s_n s in
  q ← (s_arr s).[a];
  find_loop (S (Z.to_nat b)) (s_arr s) q a b.
End code.

(** ** What the comparison promises, and the tree invariant *)

Class MinMax {A} (cmp : option A -> option A -> option A) : Prop := {
  cmp_assoc : forall a b c, cmp a (cmp b c) = cmp (cmp a b) c;
  cmp_comm : forall a b, cmp a b = cmp b a;
  cmp_idemp : forall a, cmp a a = a;
  cmp_null : forall a, cmp a None = a
}.

Section tree.
Context {A : Type} (cmp : option A -> option A -> option A) `{!MinMax cmp}.
Implicit Types (arr : list (option A)).

Definition node_ok arr (j : Z) : Prop :=
  exists l r, arr.[2 * j] = Some l /\ arr.[2 * j + 1] = Some r /\ arr.[j] = Some (cmp l r).

Record tree_ok (s : segt A) : Prop := {
  ok_n : 1 <= s_n s;
  ok_len : Z.of_nat (length (s_arr s)) = 2 * s_n s;
  ok_node : forall j, 1 <= j < s_n s -> node_ok (s_arr s) j
}.

(** The comparison over the nodes [a .. a + k - 1]. *)
Fixpoint join arr (a : Z) (k : nat) : option A :=
  match k with
  | O => None
  | S k => cmp (default None (arr.[a])) (join arr (a + 1) k)
  end.

Lemma improve_cmp q x : improve cmp q x = cmp q x.
Proof.
  unfold improve. destruct (cmp q x) as [p|] eqn:E; [done|].
  by rewrite <-(cmp_null q), <-E, cmp_assoc, cmp_idemp.
Qed.

Lemma join_snoc arr a k : join arr a (S k) = cmp (join arr a k) (default None (arr.[a + Z.of_nat k])).
Proof.
  revert a. induction k as [|k IH]; intros a.
  - simpl. by rewrite Z.add_0_r, cmp_null, cmp_comm, cmp_null.
  - change (join arr a (S (S k))) with (cmp (default None (arr.[a])) (join arr (a + 1) (S k))).
    change (join arr a (S k)) with (cmp (default None (arr.[a])) (join arr (a + 1) k)).
    rewrite IH, cmp_assoc. f_equal. do 2 f_equal. lia.
Qed.

(** A row of nodes and the row of their children join to the same value. *)
Lemma join_children arr n a k :
  (forall j, 1 <= j < n -> node_ok arr j) -> 1 <= a -> a + Z.of_nat k <= n ->
  join arr (2 * a) (2 * k) = join arr a k.
Proof.
  intros Hok. revert a. induction k as [|k IH]; intros a Ha Hk; [done|].
  replace (2 * S k)%nat with (S (S (2 * k))) by lia. cbn [join].
  destruct (Hok a) as (l & r & Hl & Hr & Hn); [lia|]. rewrite Hl, Hr, Hn. simpl default.
  replace (2 * a + 1 + 1) with (2 * (a + 1)) by lia.
  rewrite IH by lia. by rewrite cmp_assoc.
Qed.

Lemma land1 a : Z.land a 1 = a mod 2.
Proof. change 1 with (Z.ones 1) at 1. by rewrite Z.land_ones by lia. Qed.

Lemma find_loop_spec arr n fuel : forall q a b,
  (forall j, 1 <= j < n -> node_ok arr j) -> Z.of_nat (length arr) = 2 * n ->
  1 <= a -> a <= b + 1 -> b < 2 * n -> b < Z.of_nat fuel ->
  find_loop cmp fuel arr q a b = Some (cmp q (join arr a (Z.to_nat (b + 1 - a)))).
Proof.
  induction fuel as [|fuel IH]; intros q a b Hok Hlen Ha Hab Hb Hf; cbn [find_loop].
  - destruct (Z.leb_spec a b); [lia|]. by replace (Z.to_nat (b + 1 - a)) with O by lia;
      simpl; rewrite cmp_null.
  - destruct (Z.leb_spec a b) as [Hle|]; cycle 1.
    { by replace (Z.to_nat (b + 1 - a)) with O by lia; simpl; rewrite cmp_null. }
    rewrite !land1.
    assert (exists q1 a1, (if negb (a mod 2 =? 0) then pa ← arr.[a];
        Some (improve cmp q pa, a + 1) else Some (q, a)) = Some (q1, a1) /\
      a1 mod 2 = 0 /\ a <= a1 <= b + 1 /\
      cmp q1 (join arr a1 (Z.to_nat (b + 1 - a1))) = cmp q (join arr a (Z.to_nat (b + 1 - a))))
      as (q1 & a1 & -> & Ha1 & Hr1 & <-).
    { destruct (Z.eqb_spec (a mod 2) 0); cbn [negb].
      - exists q, a. split_and!; (done || lia).
      - destruct (rd_is_Some arr a) as [pa Hpa]; [lia|]. rewrite Hpa. mstep.
        exists (improve cmp q pa), (a + 1). split_and!; try (done || dlia).
        replace (Z.to_nat (b + 1 - a)) with (S (Z.to_nat (b + 1 - (a + 1)))) by lia.
        cbn [join]. rewrite Hpa. simpl default. by rewrite improve_cmp, cmp_assoc. }
    mstep.
    assert (exists q2 b2, (if b mod 2 =? 0 then pb ← arr.[b];
        Some (improve cmp q1 pb, b - 1) else Some (q1, b)) = Some (q2, b2) /\
      b2 mod 2 = 1 /\ b2 <= b /\ a1 <= b2 + 1 /\
      cmp q2 (join arr a1 (Z.to_nat (b2 + 1 - a1))) = cmp q1 (join arr a1 (Z.to_nat (b + 1 - a1))))
      as (q2 & b2 & -> & Hb2 & ? & ? & <-).
    { destruct (Z.eqb_spec (b mod 2) 0).
      - destruct (rd_is_Some arr b) as [pb Hpb]; [lia|]. rewrite Hpb. mstep.
        exists (improve cmp q1 pb), (b - 1). split_and!; try (done || dlia).
        replace (Z.to_nat (b + 1 - a1)) with (S (Z.to_nat (b - 1 + 1 - a1))) by dlia.
        rewrite join_snoc. replace (a1 + Z.of_nat (Z.to_nat (b - 1 + 1 - a1))) with b by dlia.
        rewrite Hpb. simpl default. rewrite improve_cmp, (cmp_comm (join _ _ _) pb).
        by rewrite cmp_assoc.
      - exists q1, b. split_and!; (done || dlia). }
    mstep. rewrite !Z.shiftr_div_pow2 by lia. change (2 ^ 1) with 2.
    rewrite IH; try done; try dlia.
    rewrite <-(join_children arr n (a1 / 2)); [|done|dlia|dlia].
    do 3 f_equal; dlia.
Qed.

(** [segt_alt] repairs the path from the leaf to the root: [on_path k j] are
    the nodes still to be repaired. *)
Definition on_path (k j : Z) : Prop := exists i, 0 <= i /\ j = k / 2 ^ i.

Lemma on_path_step k j : 1 <= k -> on_path k j -> j <> k -> on_path (k / 2) j.
Proof.
  intros Hk (i & Hi & ->) Hne. destruct (decide (i = 0)) as [->|].
  { by rewrite Z.pow_0_r, Z.div_1_r in Hne. }
  exists (i - 1). split; [lia|]. rewrite Z.div_div by lia. f_equal.
  rewrite <-(Z.pow_succ_r 2 (i - 1)) by lia. f_equal. lia.
Qed.

Lemma node_ok_wr arr arr' k v j :
  arr.[k <- v] = Some arr' -> node_ok arr j -> k <> j -> k <> 2 * j -> k <> 2 * j + 1 ->
  node_ok arr' j.
Proof.
  intros Hw (l & r & ? & ? & ?) ???. exists l, r. by rewrite !(rd_wr_ne _ _ _ _ _ Hw) by done.
Qed.

Lemma alt_loop_spec n fuel : forall arr k,
  Z.of_nat (length arr) = 2 * n -> 0 <= k < n -> k <= Z.of_nat fuel ->
  (forall j, 1 <= j < n -> ~ on_path k j -> node_ok arr j) ->
  exists arr', alt_loop cmp fuel arr k = Some arr' /\
    length arr' = length arr /\ (forall j, n <= j -> arr'.[j] = arr.[j]) /\
    forall j, 1 <= j < n -> node_ok arr' j.
Proof.
  induction fuel as [|fuel IH]; intros arr k Hlen Hk Hf Hok; cbn [alt_loop].
  all: destruct (Z.leb_spec 1 k); try lia.
  1,3: exists arr; split_and!; try done; intros j Hj; apply Hok; [done|];
    intros (i & Hi & ->); replace k with 0 in Hj by lia; rewrite Z.div_0_l in Hj;
    first [lia | apply Z.pow_nonzero; lia].
  rewrite Z.shiftl_mul_pow2, (Z.mul_comm k) by lia. change (2 ^ 1) with 2.
  destruct (rd_is_Some arr (2 * k)) as [l Hl]; [lia|].
  destruct (rd_is_Some arr (2 * k + 1)) as [r Hr]; [lia|].
  rewrite Hl, Hr. mstep.
  assert (exists arr1, arr.[k <- cmp l r] = Some arr1) as [arr1 Hw]
    by (rewrite wr_Some by lia; eauto).
  rewrite Hw. mstep. pose proof (wr_length _ _ _ _ Hw) as Hl1.
  rewrite Z.shiftr_div_pow2 by lia. change (2 ^ 1) with 2.
  destruct (IH arr1 (k / 2)) as (arr' & -> & Hl2 & Hleaf & Hnode); [lia|dlia|dlia| |].
  { intros j Hj Hp. destruct (decide (j = k)) as [->|Hne].
    - exists l, r. rewrite (rd_wr_eq _ _ _ _ Hw), !(rd_wr_ne _ _ _ _ _ Hw) by lia. done.
    - assert (k / 2 <> j) as Hkj.
      { intros <-. apply Hp. exists 0. split; [lia|]. by rewrite Z.pow_0_r, Z.div_1_r. }
      eapply node_ok_wr; [done| |done|dlia|dlia].
      apply Hok; [done|]. intros Hop. apply Hp. by apply on_path_step. }
  exists arr'. split_and!; try done; [lia|]. intros j Hj. rewrite Hleaf by done.
  apply (rd_wr_ne _ _ _ _ _ Hw). lia.
Qed.

Lemma segt_alt_spec s k x : tree_ok s -> 0 <= k < s_n s ->
  exists s', segt_alt cmp s k x = Some s' /\ tree_ok s' /\ s_n s' = s_n s /\
    forall i, 0 <= i < s_n s -> (s_arr s').[i + s_n s] =
      if decide (i = k) then Some x else (s_arr s).[i + s_n s].
Proof.
  intros [Hn Hlen Hok] Hk. unfold segt_alt.
  assert (exists arr1, (s_arr s).[k + s_n s <- x] = Some arr1) as [arr1 Hw]
    by (rewrite wr_Some by lia; eauto).
  rewrite Hw. mstep. pose proof (wr_length _ _ _ _ Hw) as Hl1.
  rewrite Z.shiftr_div_pow2 by lia. change (2 ^ 1) with 2.
  destruct (alt_loop_spec (s_n s) (Z.to_nat (k + s_n s)) arr1 ((k + s_n s) / 2))
    as (arr' & -> & Hl2 & Hleaf & Hnode); [lia|dlia|dlia| |].
  { intros j Hj Hp. eapply node_ok_wr; [done|by apply Hok|lia| |]; intros E; apply Hp;
      exists 0; (split; [lia|]); rewrite Z.pow_0_r, Z.div_1_r; dlia. }
  mstep. eexists. split; [done|]. split_and!; simpl; try done.
  { constructor; simpl; try done. lia. }
  intros i Hi. rewrite Hleaf by lia. case_decide as E.
  - rewrite E. by apply (rd_wr_eq _ _ _ _ Hw).
  - apply (rd_wr_ne _ _ _ _ _ Hw). lia.
Qed.

Lemma segt_init_ok n : 1 <= round_pow2 n -> tree_ok (segt_init n).
Proof.
  intros Hn. constructor; unfold segt_init; cbn [s_n s_arr]; [done| |].
  - rewrite length_replicate. lia.
  - intros j Hj. exists None, None. assert (forall i, 0 <= i < 2 * round_pow2 n ->
      (replicate (Z.to_nat (2 * round_pow2 n)) (@None A)).[i] = Some None) as Hr.
    { intros i Hi. unfold rd. zcase; [lia|]. apply lookup_replicate_2. lia. }
    rewrite cmp_null, !Hr by lia. done.
Qed.

(** A sequence of updates [(k, x)]. *)
Fixpoint segt_alts (s : segt A) (ops : list (Z * option A)) : option (segt A) :=
  match ops with
  | [] => Some s
  | (k, x) :: ops => s ← segt_alt cmp s k x; segt_alts s ops
  end.

(** The leaves after the updates: the last update of a position wins. *)
Fixpoint leaves (f : Z -> option A) (ops : list (Z * option A)) : Z -> option A :=
  match ops with
  | [] => f
  | (k, x) :: ops => leaves (fun i => if decide (i = k) then x else f i) ops
  end.

(** The comparison over the leaves [a .. a + k - 1] of the specification. *)
Fixpoint join_spec (f : Z -> option A) (a : Z) (k : nat) : option A :=
  match k with O => None | S k => cmp (f a) (join_spec f (a + 1) k) end.

Lemma join_leaves s f k : forall a, 0 <= a -> a + Z.of_nat k <= s_n s ->
  (forall i, 0 <= i < s_n s -> (s_arr s).[i + s_n s] = Some (f i)) ->
  join (s_arr s) (a + s_n s) k = join_spec f a k.
Proof.
  induction k as [|k IH]; intros a Ha Hk Hf; [done|]. cbn [join join_spec].
  rewrite Hf by lia. simpl default. f_equal. rewrite <-IH by first [done|lia]. f_equal. lia.
Qed.

Lemma alts_find s f ops : tree_ok s ->
  (forall i, 0 <= i < s_n s -> (s_arr s).[i + s_n s] = Some (f i)) ->
  Forall (fun op => 0 <= op.1 < s_n s) ops ->
  exists s', segt_alts s ops = Some s' /\ forall a b, 0 <= a <= b -> b < s_n s ->
    segt_find cmp s' a b = Some (join_spec (leaves f ops) a (Z.to_nat (b + 1 - a))).
Proof.
  revert s f. induction ops as [|[k x] ops IH]; intros s f Hok Hf HF.
  - exists s. split; [done|]. intros a b Hab Hb. destruct Hok as [Hn Hlen Hok].
    unfold segt_find. destruct (rd_is_Some (s_arr s) (a + s_n s)) as [q Hq]; [lia|].
    rewrite Hq. mstep. rewrite (find_loop_spec _ (s_n s)) by first [done|lia]. f_equal.
    replace (b + s_n s + 1 - (a + s_n s)) with (b + 1 - a) by lia. cbn [leaves].
    rewrite (join_leaves s f) by first [done|lia].
    replace (Z.to_nat (b + 1 - a)) with (S (Z.to_nat (b - a))) by lia. cbn [join_spec].
    rewrite Hf in Hq by lia. injection Hq as <-. by rewrite cmp_assoc, cmp_idemp.
  - apply Forall_cons in HF as [Hk HF]. simpl in Hk. cbn [segt_alts leaves].
    destruct (segt_alt_spec s k x Hok Hk) as (s1 & -> & Hok1 & Hn1 & Hleaf). mstep.
    rewrite <-Hn1. apply IH; [done| |by rewrite Hn1]. rewrite Hn1. intros i Hi.
    rewrite Hleaf by done. case_decide; [done|]. by apply Hf.
Qed.
End tree.

(** ** Claims *)

(** After any sequence of [segt_alt] updates of a new tree, [segt_find]
    over a range returns the comparison of the current values of exactly the
    positions of that range. *)
Theorem segt_find_correct {A : Type} (cmp : option A -> option A -> option A)
    (Hcmp : MinMax cmp) (n : Z) (Hn : 1 <= round_pow2 n) (ops : list (Z * option A))
    (Hops : Forall (fun op => 0 <= op.1 < round_pow2 n) ops) :
  exists s, segt_alts cmp (segt_init n) ops = Some s /\
    forall a b, 0 <= a <= b -> b < round_pow2 n ->
      segt_find cmp s a b =
        Some (join_spec cmp (leaves (fun _ => None) ops) a (Z.to_nat (b + 1 - a))).
Proof.
  apply (alts_find cmp (segt_init n) (fun _ => None) ops); [by apply segt_init_ok| |done].
  intros i Hi. unfold rd, segt_init in *. cbn [s_n s_arr] in *. zcase; [lia|].
  apply lookup_replicate_2. lia.
Qed.

(** The maximum of two integers behind pointers. *)
Definition max_cmp (a b : option Z) : option Z :=
  match a, b with
  | Some x, Some y => Some (Z.max x y)
  | Some x, None => Some x
  | None, b => b
  end.

Lemma max_cmp_ok : MinMax max_cmp.
Proof.
  constructor.
  - intros [] [] []; simpl; try done. f_equal. lia.
  - intros [] []; simpl; try done. f_equal. lia.
  - intros []; simpl; try done. f_equal. lia.
  - by intros [].
Qed.

Lemma segt_find_correct_witness :
  exists s, segt_alts max_cmp (segt_init 5) [(0, Some 4); (3, Some 9); (3, Some 2); (4, Some 7)]
    = Some s /\
    forall a b, 0 <= a <= b -> b < round_pow2 5 -> segt_find max_cmp s a b =
      Some (join_spec max_cmp
        (leaves (fun _ => None) [(0, Some 4); (3, Some 9); (3, Some 2); (4, Some 7)])
        a (Z.to_nat (b + 1 - a))).
Proof.
  apply (segt_find_correct max_cmp max_cmp_ok 5).
  - vm_compute; congruence.
  - apply (bool_decide_unpack _); vm_compute; exact I.
Defined.
