(* ===== verification/SigSet.v ===== *)
(** * Signal sets: kern/ksignal_setops.c, include/sys/_sigset.h

    A [sigset_t] is an array of four 32-bit words; signal [s] is bit
    [(s - 1) mod 32] of word [(s - 1) / 32].  The operations refine finite sets
    of signal numbers. *)
From S2P Require Import Prelude.

Definition _SIG_WORDS : Z := 4.
Definition _SIG_MAXSIG : Z := 128.
Definition _SIG_IDX (sig : Z) : Z := sig - 1.
Definition _SIG_WORD (sig : Z) : Z := Z.shiftr (_SIG_IDX sig) 5.
Definition _SIG_BIT (sig : Z) : Z := shl1 (Z.land (_SIG_IDX sig) 31).

Record sigset_t := Sigset { __bits : list Z }.

Definition bad_signo (signo : Z) : bool := (signo <=? 0) || (_SIG_MAXSIG <? signo).

Definition sigaddset (set : sigset_t) (signo : Z) : option (Z * sigset_t) :=
  if bad_signo signo then Some (- EINVAL, set)
  else
    w ← (__bits set).[_SIG_WORD signo];
    b ← (__bits set).[_SIG_WORD signo <- Z.lor w (_SIG_BIT signo)];
    Some (0, Sigset b).

Definition sigdelset (set : sigset_t) (signo : Z) : option (Z * sigset_t) :=
  if bad_signo signo then Some (- EINVAL, set)
  else
    w ← (__bits set).[_SIG_WORD signo];
    b ← (__bits set).[_SIG_WORD signo <- Z.land w (u32 (Z.lnot (_SIG_BIT signo)))];
    Some (0, Sigset b).

(** [for (i = 0; i < _SIG_WORDS; i++) set->__bits[i] = v]. *)
Fixpoint fill_words (k : nat) (bits : list Z) (i v : Z) : option (list Z) :=
  match k with
  | O => Some bits
  | S k => bits ← bits.[i <- v]; fill_words k bits (i + 1) v
  end.
Definition sigemptyset (set : sigset_t) : option (Z * sigset_t) :=
  b ← fill_words (Z.to_nat _SIG_WORDS) (__bits set) 0 0; Some (0, Sigset b).
Definition sigfillset (set : sigset_t) : option (Z * sigset_t) :=
  b ← fill_words (Z.to_nat _SIG_WORDS) (__bits set) 0 (u32 (Z.lnot 0)); Some (0, Sigset b).

Definition sigismember (set : sigset_t) (signo : Z) : option Z :=
  if bad_signo signo then Some (- EINVAL)
  else
    w ← (__bits set).[_SIG_WORD signo];
    Some (if negb (Z.land w (_SIG_BIT signo) =? 0) then 1 else 0).

Fixpoint isempty_loop (k : nat) (bits : list Z) (i : Z) : option Z :=
  match k with
  | O => Some 1
  | S k => w ← bits.[i]; if negb (w =? 0) then Some 0 else isempty_loop k bits (i + 1)
  end.
Definition sigisemptyset (set : sigset_t) : option Z :=
  isempty_loop (Z.to_nat _SIG_WORDS) (__bits set) 0.

(** The inner loop runs over [sizeof(set->__bits[0])], four, bit positions. *)
Fixpoint ffs_bits (k : nat) (w i j : Z) : option Z :=
  match k with
  | O => None
  | S k => if negb (Z.land w (shl1 j) =? 0) then Some (i * 4 * 8 + j)
           else ffs_bits k w i (j + 1)
  end.
Fixpoint ffs_words (k : nat) (bits : list Z) (i : Z) : option Z :=
  match k with
  | O => Some (-1)
  | S k =>
      w ← bits.[i];
      match ffs_bits 4 w i 0 with
      | Some r => Some r
      | None => ffs_words k bits (i + 1)
      end
  end.
Definition sigffs (set : sigset_t) : option Z :=
  ffs_words (Z.to_nat _SIG_WORDS) (__bits set) 0.

(** [for (i = 0; i < _SIG_WORDS; i++) tmp.__bits[i] = f(a->__bits[i],
    b->__bits[i])], then the copy to the target. *)
Fixpoint map_words (k : nat) (f : Z -> Z -> Z) (a b : list Z) (i : Z) : option (list Z) :=
  match k with
  | O => Some []
  | S k => x ← a.[i]; y ← b.[i]; t ← map_words k f a b (i + 1); Some (f x y :: t)
  end.
Definition sigunion (a b : sigset_t) : option sigset_t :=
  t ← map_words (Z.to_nat _SIG_WORDS) Z.lor (__bits a) (__bits b) 0; Some (Sigset t).
Definition sigintersect (a b : sigset_t) : option sigset_t :=
  t ← map_words (Z.to_nat _SIG_WORDS) Z.land (__bits a) (__bits b) 0; Some (Sigset t).
Definition sigcompl (set : sigset_t) : option sigset_t :=
  t ← map_words (Z.to_nat _SIG_WORDS) (fun x _ => u32 (Z.lnot x)) (__bits set) (__bits set) 0;
  Some (Sigset t).

(** ** Abstraction *)

Definition signals : gset Z := list_to_set (seqZ 1 128).

Definition sig_in (bits : list Z) (s : Z) : bool :=
  Z.testbit (default 0 (bits.[_SIG_WORD s])) (Z.land (_SIG_IDX s) 31).

(** The set of signals a [sigset_t] stands for. *)
Definition members (set : sigset_t) : gset Z :=
  filter (fun s => sig_in (__bits set) s = true) signals.

Definition sigset_wf (set : sigset_t) : Prop :=
  length (__bits set) = 4%nat /\ Forall (fun w => 0 <= w < 2 ^ 32) (__bits set).

Lemma elem_of_signals s : s ∈ signals <-> 1 <= s <= 128.
Proof. unfold signals. rewrite elem_of_list_to_set, elem_of_seqZ. lia. Qed.

Lemma elem_of_members set s :
  s ∈ members set <-> 1 <= s <= 128 /\ sig_in (__bits set) s = true.
Proof. unfold members. rewrite elem_of_filter, elem_of_signals. tauto. Qed.

Lemma SIG_WORD_eq s : _SIG_WORD s = (s - 1) / 32.
Proof. unfold _SIG_WORD, _SIG_IDX. by rewrite Z.shiftr_div_pow2 by lia. Qed.

Lemma SIG_OFF_eq s : Z.land (_SIG_IDX s) 31 = (s - 1) mod 32.
Proof. unfold _SIG_IDX. change 31 with (Z.ones 5). by rewrite Z.land_ones by lia. Qed.

Lemma bad_signo_spec s : bad_signo s = false <-> 1 <= s <= 128.
Proof. unfold bad_signo, _SIG_MAXSIG. destruct (Z.leb_spec s 0), (Z.ltb_spec 128 s); simpl; intuition lia. Qed.

(** Reading a signal after a word has been replaced. *)
Lemma sig_in_wr bits bits' s v t :
  length bits = 4%nat -> bits.[_SIG_WORD s <- v] = Some bits' -> 1 <= s <= 128 -> 1 <= t <= 128 ->
  sig_in bits' t =
    if decide ((t - 1) / 32 = (s - 1) / 32) then Z.testbit v ((t - 1) mod 32) else sig_in bits t.
Proof.
  intros Hl Hw Hs Ht. unfold sig_in. rewrite SIG_OFF_eq. rewrite !SIG_WORD_eq in *.
  case_decide as E.
  - by rewrite E, (rd_wr_eq _ _ _ _ Hw).
  - by rewrite (rd_wr_ne _ _ _ _ _ Hw) by done.
Qed.

Lemma wf_word set i : sigset_wf set -> 0 <= i < 4 ->
  exists w, (__bits set).[i] = Some w /\ 0 <= w < 2 ^ 32.
Proof.
  intros [Hl HF] Hi. destruct (rd_is_Some (__bits set) i) as [w Hw]; [lia|].
  exists w. split; [done|]. by apply (Forall_rd _ _ _ _ HF Hw).
Qed.

Lemma SIG_BIT_range s : 0 <= _SIG_BIT s < 2 ^ 32.
Proof. unfold _SIG_BIT. apply shl1_range. rewrite SIG_OFF_eq. dlia. Qed.

Lemma SIG_BIT_testbit s k : 0 <= k -> Z.testbit (_SIG_BIT s) k = (k =? (s - 1) mod 32).
Proof. intros. unfold _SIG_BIT. rewrite SIG_OFF_eq, shl1_testbit; (done || dlia). Qed.

Lemma sigaddset_spec set s : sigset_wf set -> 1 <= s <= 128 ->
  exists set', sigaddset set s = Some (0, set') /\ sigset_wf set' /\
    members set' = {[s]} ∪ members set.
Proof.
  intros Hwf Hs. pose proof Hwf as [Hl HF]. unfold sigaddset.
  rewrite (proj2 (bad_signo_spec s) Hs).
  destruct (wf_word set (_SIG_WORD s)) as (w & Hw & Hr); [done|rewrite SIG_WORD_eq; dlia|].
  rewrite Hw. mstep.
  assert (exists b, (__bits set).[_SIG_WORD s <- Z.lor w (_SIG_BIT s)] = Some b) as [b Hb].
  { rewrite wr_Some by (rewrite SIG_WORD_eq; dlia). eauto. }
  rewrite Hb. mstep. eexists. split; [done|]. split.
  - split; simpl; [by rewrite (wr_length _ _ _ _ Hb)|].
    eapply Forall_wr; [done| |done]. apply lor_range; [done|apply SIG_BIT_range].
  - apply set_eq. intros t. rewrite elem_of_union, elem_of_singleton, !elem_of_members. simpl.
    destruct (decide (1 <= t <= 128)) as [Ht|]; [|intuition lia].
    assert (forall Q, 1 <= t <= 128 /\ Q <-> Q) as Hiff by (intros; split; [by intros []|done]).
    rewrite !Hiff.
    rewrite (sig_in_wr _ _ _ _ _ Hl Hb Hs Ht).
    destruct (decide ((t - 1) / 32 = (s - 1) / 32)) as [E|].
    + rewrite Z.lor_spec, SIG_BIT_testbit by dlia. unfold sig_in.
      rewrite SIG_OFF_eq, SIG_WORD_eq, E, <-SIG_WORD_eq, Hw. simpl default.
      destruct (Z.eqb_spec ((t - 1) mod 32) ((s - 1) mod 32)) as [E2|E2].
      * rewrite orb_true_r. assert (t = s) by dlia. intuition congruence.
      * rewrite orb_false_r. assert (t <> s) by (intros ->; done). intuition congruence.
    + assert (t <> s) by (intros ->; done). intuition congruence.
Qed.

Lemma sigdelset_spec set s : sigset_wf set -> 1 <= s <= 128 ->
  exists set', sigdelset set s = Some (0, set') /\ sigset_wf set' /\
    members set' = members set ∖ {[s]}.
Proof.
  intros Hwf Hs. pose proof Hwf as [Hl HF]. unfold sigdelset.
  rewrite (proj2 (bad_signo_spec s) Hs).
  destruct (wf_word set (_SIG_WORD s)) as (w & Hw & Hr); [done|rewrite SIG_WORD_eq; dlia|].
  rewrite Hw. mstep.
  assert (exists b, (__bits set).[_SIG_WORD s <- Z.land w (u32 (Z.lnot (_SIG_BIT s)))] = Some b)
    as [b Hb].
  { rewrite wr_Some by (rewrite SIG_WORD_eq; dlia). eauto. }
  rewrite Hb. mstep. eexists. split; [done|]. split.
  - split; simpl; [by rewrite (wr_length _ _ _ _ Hb)|].
    eapply Forall_wr; [done| |done]. by apply land_range.
  - apply set_eq. intros t. rewrite elem_of_difference, elem_of_singleton, !elem_of_members. simpl.
    destruct (decide (1 <= t <= 128)) as [Ht|]; [|intuition lia].
    assert (forall Q, 1 <= t <= 128 /\ Q <-> Q) as Hiff by (intros; split; [by intros []|done]).
    rewrite !Hiff.
    rewrite (sig_in_wr _ _ _ _ _ Hl Hb Hs Ht).
    destruct (decide ((t - 1) / 32 = (s - 1) / 32)) as [E|].
    + rewrite Z.land_spec, u32_testbit, Z.lnot_spec, SIG_BIT_testbit by dlia. unfold sig_in.
      rewrite SIG_OFF_eq, SIG_WORD_eq, E, <-SIG_WORD_eq, Hw. simpl default.
      destruct (Z.eqb_spec ((t - 1) mod 32) ((s - 1) mod 32)) as [E2|E2].
      * rewrite andb_false_r. assert (t = s) by dlia. intuition congruence.
      * rewrite andb_true_r. assert (t <> s) by (intros ->; done). intuition congruence.
    + assert (t <> s) by (intros ->; done). intuition congruence.
Qed.

Lemma sigismember_spec set s : sigset_wf set -> 1 <= s <= 128 ->
  sigismember set s = Some (if bool_decide (s ∈ members set) then 1 else 0).
Proof.
  intros Hwf Hs. unfold sigismember. rewrite (proj2 (bad_signo_spec s) Hs).
  destruct (wf_word set (_SIG_WORD s)) as (w & Hw & Hr); [done|rewrite SIG_WORD_eq; dlia|].
  rewrite Hw. mstep. unfold _SIG_BIT. rewrite SIG_OFF_eq, land_shl1_eqb, negb_involutive by dlia.
  assert (sig_in (__bits set) s = Z.testbit w ((s - 1) mod 32)) as Hin.
  { unfold sig_in. rewrite Hw, SIG_OFF_eq. done. }
  rewrite <-Hin. f_equal. destruct (sig_in (__bits set) s) eqn:E.
  - by rewrite bool_decide_true by by apply elem_of_members.
  - rewrite bool_decide_false; [done|]. rewrite elem_of_members. by rewrite E; intros [_ ?].
Qed.

Lemma four {A} (l : list A) : length l = 4%nat -> exists a b c d, l = [a; b; c; d].
Proof. destruct l as [|a [|b [|c [|d []]]]]; try done. eauto. Qed.

Lemma map_words_spec f a b : length a = 4%nat -> length b = 4%nat ->
  map_words (Z.to_nat _SIG_WORDS) f a b 0 = Some (zip_with f a b).
Proof.
  intros (a0 & a1 & a2 & a3 & ->)%four (b0 & b1 & b2 & b3 & ->)%four. done.
Qed.

(** A wordwise operation acts on signals through the bits of the words. *)
Lemma sig_in_zip f g a b t : length a = 4%nat -> length b = 4%nat ->
  1 <= t <= 128 ->
  (forall x y k, 0 <= k < 32 -> Z.testbit (f x y) k = g (Z.testbit x k) (Z.testbit y k)) ->
  sig_in (zip_with f a b) t = g (sig_in a t) (sig_in b t).
Proof.
  intros Ha Hb Ht Hfg. unfold sig_in. rewrite SIG_OFF_eq, SIG_WORD_eq.
  destruct (rd_is_Some a ((t - 1) / 32)) as [x Hx]; [dlia|].
  destruct (rd_is_Some b ((t - 1) / 32)) as [y Hy]; [dlia|].
  assert ((zip_with f a b).[(t - 1) / 32] = Some (f x y)) as ->.
  { unfold rd in *. zcase; [dlia|]. by rewrite lookup_zip_with, Hx; simpl; rewrite Hy. }
  rewrite Hx, Hy. simpl default. apply Hfg. dlia.
Qed.

Lemma zip_words f a b : (forall x y, 0 <= x < 2 ^ 32 -> 0 <= y < 2 ^ 32 -> 0 <= f x y < 2 ^ 32) ->
  sigset_wf a -> sigset_wf b -> sigset_wf (Sigset (zip_with f (__bits a) (__bits b))).
Proof.
  intros Hf [Ha HFa] [Hb HFb]. split; simpl; [by rewrite length_zip_with, Ha, Hb|].
  revert HFa HFb. destruct (four _ Ha) as (a0 & a1 & a2 & a3 & ->).
  destruct (four _ Hb) as (b0 & b1 & b2 & b3 & ->). simpl.
  rewrite !Forall_cons. intros (? & ? & ? & ? & _) (? & ? & ? & ? & _).
  split_and!; try apply Hf; done.
Qed.

Lemma sigunion_spec a b : sigset_wf a -> sigset_wf b ->
  exists t, sigunion a b = Some t /\ sigset_wf t /\ members t = members a ∪ members b.
Proof.
  intros Ha Hb. unfold sigunion. rewrite map_words_spec by apply Ha || apply Hb. mstep.
  eexists. split; [done|]. split; [apply zip_words; try done; intros; by apply lor_range|].
  apply set_eq. intros t. rewrite elem_of_union, !elem_of_members. simpl.
  destruct (decide (1 <= t <= 128)); [|intuition lia].
  rewrite (sig_in_zip _ orb); [|apply Ha|apply Hb|done|intros; by rewrite Z.lor_spec].
  rewrite orb_true_iff. intuition lia.
Qed.

Lemma sigintersect_spec a b : sigset_wf a -> sigset_wf b ->
  exists t, sigintersect a b = Some t /\ sigset_wf t /\ members t = members a ∩ members b.
Proof.
  intros Ha Hb. unfold sigintersect. rewrite map_words_spec by apply Ha || apply Hb. mstep.
  eexists. split; [done|]. split; [apply zip_words; try done; intros; by apply land_range|].
  apply set_eq. intros t. rewrite elem_of_intersection, !elem_of_members. simpl.
  destruct (decide (1 <= t <= 128)); [|intuition lia].
  rewrite (sig_in_zip _ andb); [|apply Ha|apply Hb|done|intros; by rewrite Z.land_spec].
  rewrite andb_true_iff. intuition lia.
Qed.

Lemma sigcompl_spec a : sigset_wf a ->
  exists t, sigcompl a = Some t /\ sigset_wf t /\ members t = signals ∖ members a.
Proof.
  intros Ha. unfold sigcompl. rewrite map_words_spec by apply Ha. mstep.
  eexists. split; [done|]. split; [apply zip_words; try done; intros; apply u32_range|].
  apply set_eq. intros t. rewrite elem_of_difference, !elem_of_members, elem_of_signals. simpl.
  destruct (decide (1 <= t <= 128)); [|intuition lia].
  rewrite (sig_in_zip _ (fun x _ => negb x)); [|apply Ha|apply Ha|done|].
  - rewrite negb_true_iff. destruct (sig_in _ t); intuition (lia || congruence).
  - intros x y k Hk. by rewrite u32_testbit, Z.lnot_spec by lia.
Qed.

Lemma fill_spec set v : sigset_wf set -> 0 <= v < 2 ^ 32 ->
  fill_words (Z.to_nat _SIG_WORDS) (__bits set) 0 v = Some [v; v; v; v] /\
  sigset_wf (Sigset [v; v; v; v]).
Proof.
  intros [Hl _] Hv. destruct set as [bits]. simpl in *.
  destruct (four bits Hl) as (a & b & c & d & ->). split; [done|].
  split; [done|]. simpl. rewrite !Forall_cons. split_and!; (done || apply Forall_nil_2 || lia).
Qed.

Lemma sig_in_const v t : 1 <= t <= 128 ->
  sig_in [v; v; v; v] t = Z.testbit v ((t - 1) mod 32).
Proof.
  intros Ht. unfold sig_in. rewrite SIG_OFF_eq, SIG_WORD_eq.
  assert ((t - 1) / 32 = 0 \/ (t - 1) / 32 = 1 \/ (t - 1) / 32 = 2 \/ (t - 1) / 32 = 3)
    as [-> | [-> | [-> | ->]]] by dlia; done.
Qed.

Lemma sigemptyset_spec set : sigset_wf set ->
  exists set', sigemptyset set = Some (0, set') /\ sigset_wf set' /\ members set' = ∅.
Proof.
  intros Hwf. unfold sigemptyset. destruct (fill_spec set 0 Hwf ltac:(lia)) as [-> ?]. mstep.
  eexists. do 2 (split; [done|]). apply set_eq. intros t. rewrite elem_of_members. simpl.
  split; [|intros []%elem_of_empty]. intros [Ht Hin]. rewrite sig_in_const in Hin by done.
  by rewrite Z.bits_0 in Hin.
Qed.

Lemma sigfillset_spec set : sigset_wf set ->
  exists set', sigfillset set = Some (0, set') /\ sigset_wf set' /\ members set' = signals.
Proof.
  intros Hwf. unfold sigfillset.
  destruct (fill_spec set (u32 (Z.lnot 0)) Hwf (u32_range _)) as [-> ?]. mstep.
  eexists. do 2 (split; [done|]). apply set_eq. intros t. rewrite elem_of_members, elem_of_signals.
  simpl. split; [by intros []|]. intros Ht. split; [done|].
  rewrite sig_in_const, u32_testbit by dlia. rewrite Z.lnot_spec, Z.bits_0 by dlia. done.
Qed.

Lemma sigisemptyset_spec set : sigset_wf set ->
  sigisemptyset set = Some (if bool_decide (members set = ∅) then 1 else 0).
Proof.
  intros [Hl HF]. destruct set as [bits]. unfold sigisemptyset. simpl in *.
  assert (forall s w, 1 <= s <= 128 -> bits.[(s - 1) / 32] = Some w ->
    Z.testbit w ((s - 1) mod 32) = true -> members (Sigset bits) <> ∅) as Hne.
  { intros s w Hs Hw Hb He. assert (s ∈ members (Sigset bits)) as Hin.
    { apply elem_of_members. split; [done|]. unfold sig_in.
      by rewrite SIG_OFF_eq, SIG_WORD_eq; simpl; rewrite Hw. }
    rewrite He in Hin. by apply elem_of_empty in Hin. }
  assert (forall i w, 0 <= i < 4 -> bits.[i] = Some w -> w <> 0 ->
    members (Sigset bits) <> ∅) as Hword.
  { intros i w Hi Hw Hw0. pose proof (Forall_rd _ _ _ _ HF Hw) as Hr. cbv beta in Hr.
    assert (Z.testbit w (Z.log2 w) = true) as Hb by (apply Z.bit_log2; lia).
    assert (0 <= Z.log2 w < 32).
    { split; [apply Z.log2_nonneg|]. apply Z.log2_lt_pow2; lia. }
    apply (Hne (32 * i + Z.log2 w + 1) w); [lia| |].
    - rewrite <-Hw. f_equal. dlia.
    - rewrite <-Hb. f_equal. dlia. }
  destruct (four bits Hl) as (a & b & c & d & ->). clear Hne.
  cbn [isempty_loop Z.to_nat _SIG_WORDS Pos.to_nat Pos.iter_op Nat.add].
  pose proof (Hword 0 a ltac:(lia) eq_refl). pose proof (Hword 1 b ltac:(lia) eq_refl).
  pose proof (Hword 2 c ltac:(lia) eq_refl). pose proof (Hword 3 d ltac:(lia) eq_refl).
  simpl. repeat (zcase; cbn [negb]; [|rewrite bool_decide_false by auto; done]). subst.
  rewrite bool_decide_true; [done|]. apply set_eq. intros t. rewrite elem_of_members. simpl.
  split; [|intros []%elem_of_empty]. intros [Ht Hin]. rewrite sig_in_const in Hin by done.
  by rewrite Z.bits_0 in Hin.
Qed.

(** ** Refinement of finite sets *)

(** One caller-visible operation on a set; the binary ones take their second
    operand as an argument. *)
Inductive sigop :=
| OpAdd (s : Z) | OpDel (s : Z) | OpEmpty | OpFill | OpIsMember (s : Z) | OpIsEmpty
| OpUnion (b : sigset_t) | OpIntersect (b : sigset_t) | OpCompl.

Definition sig_step (set : sigset_t) (op : sigop) : option (Z * sigset_t) :=
  match op with
  | OpAdd s => sigaddset set s
  | OpDel s => sigdelset set s
  | OpEmpty => sigemptyset set
  | OpFill => sigfillset set
  | OpIsMember s => r ← sigismember set s; Some (r, set)
  | OpIsEmpty => r ← sigisemptyset set; Some (r, set)
  | OpUnion b => t ← sigunion set b; Some (0, t)
  | OpIntersect b => t ← sigintersect set b; Some (0, t)
  | OpCompl => t ← sigcompl set; Some (0, t)
  end.

Definition valid (s : Z) : bool := bool_decide (1 <= s <= 128).

(** The same operations on finite sets of signal numbers. *)
Definition set_step (X : gset Z) (op : sigop) : Z * gset Z :=
  match op with
  | OpAdd s => if valid s then (0, {[s]} ∪ X) else (- EINVAL, X)
  | OpDel s => if valid s then (0, X ∖ {[s]}) else (- EINVAL, X)
  | OpEmpty => (0, ∅)
  | OpFill => (0, signals)
  | OpIsMember s =>
      if valid s then (if bool_decide (s ∈ X) then 1 else 0, X) else (- EINVAL, X)
  | OpIsEmpty => (if bool_decide (X = ∅) then 1 else 0, X)
  | OpUnion b => (0, X ∪ members b)
  | OpIntersect b => (0, X ∩ members b)
  | OpCompl => (0, signals ∖ X)
  end.

Definition sigop_wf (op : sigop) : Prop :=
  match op with OpUnion b | OpIntersect b => sigset_wf b | _ => True end.

Fixpoint sig_run (set : sigset_t) (ops : list sigop) : option (list Z * sigset_t) :=
  match ops with
  | [] => Some ([], set)
  | op :: ops =>
      '(r, set) ← sig_step set op; '(rs, set) ← sig_run set ops; Some (r :: rs, set)
  end.
Fixpoint set_run (X : gset Z) (ops : list sigop) : list Z * gset Z :=
  match ops with
  | [] => ([], X)
  | op :: ops => let '(r, X) := set_step X op in let '(rs, X) := set_run X ops in (r :: rs, X)
  end.

Lemma sig_step_refines set op : sigset_wf set -> sigop_wf op ->
  exists set', sig_step set op = Some ((set_step (members set) op).1, set') /\
    sigset_wf set' /\ members set' = (set_step (members set) op).2.
Proof.
  intros Hwf Hop.
  assert (forall s, valid s = false -> bad_signo s = true) as Hbad.
  { intros s Hv%bool_decide_eq_false. destruct (bad_signo s) eqn:E; [done|].
    by apply bad_signo_spec in E. }
  destruct op as [s|s| | |s| |b|b|]; simpl.
  - destruct (valid s) eqn:E; [by apply sigaddset_spec; [|apply bool_decide_eq_true in E]|].
    unfold sigaddset. rewrite Hbad by done. eauto.
  - destruct (valid s) eqn:E; [by apply sigdelset_spec; [|apply bool_decide_eq_true in E]|].
    unfold sigdelset. rewrite Hbad by done. eauto.
  - by apply sigemptyset_spec.
  - by apply sigfillset_spec.
  - destruct (valid s) eqn:E.
    + rewrite sigismember_spec by first [done|by apply bool_decide_eq_true in E]. mstep. eauto.
    + unfold sigismember. rewrite Hbad by done. mstep. eauto.
  - rewrite sigisemptyset_spec by done. mstep. eauto.
  - destruct (sigunion_spec set b) as (t & -> & ? & ?); try done. mstep. eauto.
  - destruct (sigintersect_spec set b) as (t & -> & ? & ?); try done. mstep. eauto.
  - destruct (sigcompl_spec set) as (t & -> & ? & ?); try done. mstep. eauto.
Qed.

(** C38. Every sequence of signal-set operations returns what the same
    operations on finite sets of the signals 1 to 128 return, out-of-range
    signal numbers included, and ends in a set of exactly those signals. *)
Theorem sigset_refines_set (ops : list sigop) (set : sigset_t) (Hwf : sigset_wf set)
    (Hops : Forall sigop_wf ops) :
  exists set', sig_run set ops = Some ((set_run (members set) ops).1, set') /\
    sigset_wf set' /\ members set' = (set_run (members set) ops).2.
Proof.
  revert set Hwf. induction Hops as [|op ops Hop Hops IH]; intros set Hwf; cbn [sig_run set_run].
  - eauto.
  - destruct (sig_step_refines set op Hwf Hop) as (set1 & -> & Hwf1 & Hm1). mstep.
    destruct (IH set1 Hwf1) as (set2 & -> & Hwf2 & Hm2). mstep. exists set2.
    destruct (set_step (members set) op) as [r X]. simpl in *. subst X.
    destruct (set_run (members set1) ops) as [rs Y]. simpl in *. eauto.
Qed.

Definition sig_example : sigset_t := Sigset [0; 0; 0; 0].

Lemma sigset_refines_set_witness :
  exists set', sig_run sig_example [OpAdd 9; OpAdd 129; OpCompl; OpIsMember 9; OpDel 33] =
      Some ((set_run (members sig_example)
        [OpAdd 9; OpAdd 129; OpCompl; OpIsMember 9; OpDel 33]).1, set') /\
    sigset_wf set' /\
    members set' = (set_run (members sig_example)
      [OpAdd 9; OpAdd 129; OpCompl; OpIsMember 9; OpDel 33]).2.
Proof.
  apply sigset_refines_set.
  - split; [reflexivity|]. apply (bool_decide_unpack _); vm_compute; exact I.
  - repeat constructor.
Defined.

(** [sigffs] scans only the first four bits of each word: it reports an
    empty set for a set that holds just one signal whose bit is higher, for
    every such signal. *)
Theorem sigffs_misses (s : Z) (Hs : 1 <= s <= 128) (Hbit : 4 <= (s - 1) mod 32) :
  exists set, sigaddset sig_example s = Some (0, set) /\ sigffs set = Some (-1).
Proof.
  assert (Forall (fun s => 4 <= (s - 1) mod 32 -> (match sigaddset sig_example s with
    | Some (r, set) => (r =? 0) && match sigffs set with Some x => x =? -1 | None => false end
    | None => false end) = true) (seqZ 1 128)) as HF
    by (apply (bool_decide_unpack _); vm_compute; exact I).
  rewrite Forall_forall in HF. specialize (HF s).
  rewrite elem_of_seqZ in HF. specialize (HF ltac:(lia) Hbit).
  destruct (sigaddset _ _) as [[r set]|]; [|done].
  destruct (sigffs set) as [x|] eqn:E; [|by rewrite andb_false_r in HF].
  apply andb_prop in HF as [->%Z.eqb_eq ->%Z.eqb_eq]. by exists set.
Qed.

Lemma sigffs_misses_witness :
  exists set, sigaddset sig_example 9 = Some (0, set) /\ sigffs set = Some (-1).
Proof. apply (sigffs_misses 9); vm_compute; intuition congruence. Defined.
