(* ===== verification/Priv.v ===== *)
(** * Process credentials and capabilities: kern/priv.c, include/sys/priv.h

    A credential holds two capability sets of 256 bits, the effective and the
    bounding set, as bit maps of the allocator [Bitmap].  The user-space
    arguments of the system call are the values [copyin] delivers; a failing
    [copyin] is [None]. *)
From S2P Require Import Prelude Bitmap.

Definition _PRIV_MENT : Z := 256.
Definition _PRIV_MLEN : Z := _PRIV_MENT / (4 * 8).
Definition NGROUPS_MAX : Z := 16.
Definition NOGROUP : Z := 65535.

Definition PRIV_CLRCAP : Z := 1.
Definition PRIV_SETEFF : Z := 2.
Definition PRIV_SETBND : Z := 3.
Definition PRIV_EXEC_B2E : Z := 4.
Definition PRIV_MAXFILES : Z := 11.
Definition PRIV_MAXPROC : Z := 12.
Definition PRIV_CRED_SETUID : Z := 30.
Definition PRIV_CRED_SETEUID : Z := 31.
Definition PRIV_CRED_SETSUID : Z := 32.
Definition PRIV_CRED_SETGID : Z := 33.
Definition PRIV_CRED_SETEGID : Z := 34.
Definition PRIV_CRED_SETSGID : Z := 35.
Definition PRIV_KMEM_READ : Z := 42.
Definition PRIV_PROC_FORK : Z := 60.
Definition PRIV_PROC_LIMIT : Z := 61.
Definition PRIV_PROC_SETLOGIN : Z := 62.
Definition PRIV_PROC_SETRLIMIT : Z := 63.
Definition PRIV_SCHED_SETPRIORITY : Z := 71.
Definition PRIV_SIGNAL_OTHER : Z := 80.
Definition PRIV_SIGNAL_ACTION : Z := 81.
Definition PRIV_TTY_SETA : Z := 106.
Definition PRIV_VFS_READ : Z := 111.
Definition PRIV_VFS_WRITE : Z := 112.
Definition PRIV_VFS_EXEC : Z := 114.
Definition PRIV_VFS_LOOKUP : Z := 115.
Definition PRIV_VFS_CHROOT : Z := 117.
Definition PRIV_VFS_STAT : Z := 124.

Record cred := Cred {
  uid : Z; euid : Z; suid : Z; gid : Z; egid : Z; sgid : Z;
  sup_gid : list Z;
  pcap_effmap : list Z;
  pcap_bndmap : list Z
}.
Definition set_eff (c : cred) (m : list Z) : cred :=
  Cred (uid c) (euid c) (suid c) (gid c) (egid c) (sgid c) (sup_gid c) m (pcap_bndmap c).
Definition set_bnd (c : cred) (m : list Z) : cred :=
  Cred (uid c) (euid c) (suid c) (gid c) (egid c) (sgid c) (sup_gid c) (pcap_effmap c) m.
Definition set_groups (c : cred) (g : list Z) : cred :=
  Cred (uid c) (euid c) (suid c) (gid c) (egid c) (sgid c) g (pcap_effmap c) (pcap_bndmap c).

Definition default_privs : list Z :=
  [PRIV_CLRCAP; PRIV_TTY_SETA; PRIV_VFS_READ; PRIV_VFS_WRITE; PRIV_VFS_EXEC; PRIV_VFS_LOOKUP;
   PRIV_VFS_CHROOT; PRIV_VFS_STAT; PRIV_PROC_FORK; PRIV_SIGNAL_ACTION].

Definition securelevel_ge (securelevel level : Z) : Z := if level <=? securelevel then - EPERM else 0.
Definition securelevel_gt (securelevel level : Z) : Z := if level <? securelevel then - EPERM else 0.

(** ** Groups *)

Fixpoint grp_loop (k : nat) (g : list Z) (i x : Z) : option Z :=
  match k with
  | O => Some 0
  | S k => y ← g.[i]; if y =? x then Some 1 else grp_loop k g (i + 1) x
  end.
Definition priv_grp_is_member (c : cred) (g : Z) : option Z :=
  if egid c =? g then Some 1 else grp_loop (Z.to_nat NGROUPS_MAX) (sup_gid c) 0 g.

(** ** Capability sets; an [int] index is converted to [size_t] *)

Definition priv_cred_eff_get (c : cred) (priv : Z) : option Z :=
  bitmap_status (pcap_effmap c) (u32 priv) _PRIV_MLEN.

Definition priv_cred_eff_set (c : cred) (priv : Z) : option (Z * cred) :=
  bound ← bitmap_status (pcap_bndmap c) (u32 priv) _PRIV_MLEN;
  if bound <? 0 then Some (bound, c)
  else if bound =? 0 then Some (- EPERM, c)
  else '(err, m) ← bitmap_set (pcap_effmap c) (u32 priv) _PRIV_MLEN; Some (err, set_eff c m).

Definition priv_cred_eff_clear (c : cred) (priv : Z) : option (Z * cred) :=
  '(err, m) ← bitmap_clear (pcap_effmap c) (u32 priv) _PRIV_MLEN; Some (err, set_eff c m).

Definition priv_cred_bound_get (c : cred) (priv : Z) : option Z :=
  bitmap_status (pcap_bndmap c) (u32 priv) _PRIV_MLEN.

Definition priv_cred_bound_set (c : cred) (priv : Z) : option (Z * cred) :=
  '(err, m) ← bitmap_set (pcap_bndmap c) (u32 priv) _PRIV_MLEN; Some (err, set_bnd c m).

Definition priv_cred_bound_clear (c : cred) (priv : Z) : option (Z * cred) :=
  '(err, m) ← bitmap_clear (pcap_bndmap c) (u32 priv) _PRIV_MLEN; Some (err, set_bnd c m).

Fixpoint bound_set_all (c : cred) (privs : list Z) : option cred :=
  match privs with
  | [] => Some c
  | v :: privs => '(_, c) ← priv_cred_bound_set c v; bound_set_all c privs
  end.
(** The assertion on the update is a panic. *)
Definition priv_cred_bound_reset (c : cred) : option cred :=
  '(err, m) ← bitmap_block_update (pcap_bndmap c) 0 0 _PRIV_MENT _PRIV_MLEN;
  if err =? 0 then bound_set_all (set_bnd c m) default_privs else None.

Fixpoint init_all (c : cred) (privs : list Z) : option cred :=
  match privs with
  | [] => Some c
  | v :: privs =>
      '(_, c) ← priv_cred_bound_set c v; '(_, c) ← priv_cred_eff_set c v; init_all c privs
  end.
Fixpoint clear_groups (k : nat) (g : list Z) (i : Z) : option (list Z) :=
  match k with
  | O => Some g
  | S k => g ← g.[i <- NOGROUP]; clear_groups k g (i + 1)
  end.
Definition priv_cred_init (c : cred) : option cred :=
  g ← clear_groups (Z.to_nat NGROUPS_MAX) (sup_gid c) 0;
  let c := set_groups c g in
  '(_, m) ← bitmap_block_update (pcap_effmap c) 0 0 _PRIV_MENT _PRIV_MLEN;
  let c := set_eff c m in
  '(_, m) ← bitmap_block_update (pcap_bndmap c) 0 0 _PRIV_MENT _PRIV_MLEN;
  let c := set_bnd c m in
  init_all c default_privs.

Fixpoint fork_loop (k : nat) (c : cred) (i : Z) : option cred :=
  match k with
  | O => Some c
  | S k =>
      b ← priv_cred_bound_get c i;
      c ← (if b =? 0 then '(_, c) ← priv_cred_eff_clear c i; Some c else Some c);
      fork_loop k c (i + 1)
  end.
Definition priv_cred_init_fork (c : cred) : option cred :=
  fork_loop (Z.to_nat _PRIV_MENT) c 0.

(** The test is on the raw status, so an error code counts as set. *)
Definition priv_cred_init_exec (c : cred) : option cred :=
  b ← priv_cred_eff_get c PRIV_EXEC_B2E;
  Some (if negb (b =? 0) then set_eff c (pcap_bndmap c) else c).

(** ** Checks *)

Definition real_uid_priv (priv : Z) : bool :=
  (priv =? PRIV_MAXFILES) || (priv =? PRIV_MAXPROC) || (priv =? PRIV_PROC_LIMIT).

Definition priv_check (suser_enabled : bool) (c : cred) (priv : Z) : option Z :=
  if suser_enabled && (if real_uid_priv priv then uid c =? 0 else euid c =? 0) then Some 0
  else if priv =? PRIV_KMEM_READ then Some 0
  else
    error ← priv_cred_eff_get c priv;
    if error <? 0 then Some error
    else if 0 <? error then Some 0
    else Some (- EPERM).

Definition priv_check_cred (suser_enabled : bool) (fromcred tocred : cred) (priv : Z)
    : option Z :=
  err ← priv_check suser_enabled fromcred priv;
  if (err =? 0) || negb (err =? - EPERM) then Some err
  else if priv =? PRIV_SIGNAL_OTHER then
    if negb ((negb (euid fromcred =? uid tocred) && negb (euid fromcred =? suid tocred)) &&
             (negb (uid fromcred =? uid tocred) && negb (uid fromcred =? suid tocred)))
    then Some 0 else Some (- EPERM)
  else if euid fromcred =? euid tocred then Some 0 else Some (- EPERM).

(** ** System calls *)

Inductive priv_pcap_mode :=
| PRIV_PCAP_MODE_GET_EFF | PRIV_PCAP_MODE_SET_EFF | PRIV_PCAP_MODE_CLR_EFF
| PRIV_PCAP_MODE_GET_BND | PRIV_PCAP_MODE_SET_BND | PRIV_PCAP_MODE_CLR_BND
| PRIV_PCAP_MODE_RST_BND | PRIV_PCAP_MODE_OTHER.

(** A guarded mode: [err = priv_check(...); if (err) err = -EPERM; else ...]. *)
Definition guarded (su : bool) (c : cred) (cap : Z) (k : option (Z * cred)) : option (Z * cred) :=
  err ← priv_check su c cap;
  if negb (err =? 0) then Some (- EPERM, c) else k.

(** The result, [errno] when the call fails, and the credential. *)
Definition sys_priv_pcap (su : bool) (c : cred) (args : option (priv_pcap_mode * Z))
    : option (Z * option Z * cred) :=
  '(err, c) ←
    match args with
    | None => Some (- EFAULT, c)
    | Some (mode, priv) =>
        match mode with
        | PRIV_PCAP_MODE_GET_EFF => err ← priv_cred_eff_get c priv; Some (err, c)
        | PRIV_PCAP_MODE_SET_EFF => guarded su c PRIV_SETEFF (priv_cred_eff_set c priv)
        | PRIV_PCAP_MODE_CLR_EFF => guarded su c PRIV_CLRCAP (priv_cred_eff_clear c priv)
        | PRIV_PCAP_MODE_GET_BND => err ← priv_cred_bound_get c priv; Some (err, c)
        | PRIV_PCAP_MODE_SET_BND => guarded su c PRIV_SETBND (priv_cred_bound_set c priv)
        | PRIV_PCAP_MODE_CLR_BND => guarded su c PRIV_CLRCAP
            ('(_, c) ← priv_cred_bound_clear c priv; Some (0, c))
        | PRIV_PCAP_MODE_RST_BND => guarded su c PRIV_SETBND
            (c ← priv_cred_bound_reset c; Some (0, c))
        | PRIV_PCAP_MODE_OTHER => Some (- EINVAL, c)
        end
    end;
  if negb (err =? 0) then Some (-1, Some (- err), c) else Some (err, None, c).

(** ** Capability sets as sets of capabilities *)

Definition has (m : list Z) (p : Z) : Prop := bit m p = Some true.
#[global] Instance has_dec m p : Decision (has m p) := decide (bit m p = Some true).

Definition map_wf (m : list Z) : Prop := bitmap_wf m /\ length m = 8%nat.
Definition cred_wf (c : cred) : Prop :=
  map_wf (pcap_effmap c) /\ map_wf (pcap_bndmap c) /\ length (sup_gid c) = 16%nat.

Lemma has_range m p : map_wf m -> has m p -> 0 <= p < 256.
Proof.
  intros [_ Hl] Hh. unfold has, bit in Hh. destruct (m.[p / 32]) as [w|] eqn:E; [|done].
  apply rd_Some_lt in E. rewrite Hl in E. dlia.
Qed.

Lemma status_spec m p : map_wf m -> 0 <= p ->
  bitmap_status m p _PRIV_MLEN =
    Some (if decide (256 <= p) then - EINVAL else if decide (has m p) then 1 else 0).
Proof.
  intros [Hwf Hl] Hp. change _PRIV_MLEN with 8. rewrite bitmap_status_spec by (done || lia).
  change (8 * 32) with 256. destruct (Z.leb_spec 256 p), (decide (256 <= p)); try lia; [done|].
  assert (exists b, bit m p = Some b) as [b Hb].
  { unfold bit. destruct (rd_is_Some m (p / 32)) as [w ->]; [rewrite Hl; dlia|]. simpl. eauto. }
  rewrite Hb. simpl. case_decide as E; unfold has in E; rewrite Hb in E; destruct b; congruence.
Qed.

Lemma set_spec m p : map_wf m -> 0 <= p ->
  exists err m', bitmap_set m p _PRIV_MLEN = Some (err, m') /\ map_wf m' /\
    forall q, 0 <= q -> has m' q <-> has m q \/ (q = p /\ p < 256).
Proof.
  intros Hm Hp. pose proof Hm as [Hwf Hl]. change _PRIV_MLEN with 8.
  destruct (decide (256 <= p)).
  - exists (- EINVAL), m. split; [|split; [done|intros; intuition lia]].
    unfold bitmap_set. change (u32 (8 * SIZEOF_BITMAP_T)) with 256. by zcase; [|lia].
  - destruct (bitmap_set_spec m p 8) as (m' & H' & Hwf' & Hl' & Hb); try (done || lia).
    exists 0, m'. split; [done|]. split; [split; [done|lia]|]. intros q Hq. unfold has. rewrite Hb by done.
    zcase; intuition congruence || (intuition lia).
Qed.

Lemma clear_spec m p : map_wf m -> 0 <= p ->
  exists err m', bitmap_clear m p _PRIV_MLEN = Some (err, m') /\ map_wf m' /\
    forall q, 0 <= q -> has m' q <-> has m q /\ q <> p.
Proof.
  intros Hm Hp. pose proof Hm as [Hwf Hl]. change _PRIV_MLEN with 8.
  destruct (decide (256 <= p)).
  - exists (- EINVAL), m. split; [|split; [done|]].
    + unfold bitmap_clear. change (u32 (8 * SIZEOF_BITMAP_T)) with 256. by zcase; [|lia].
    + intros q Hq. split; [|by intros []]. intros Hh. split; [done|].
      apply has_range in Hh; [lia|done].
  - destruct (bitmap_clear_spec m p 8) as (m' & H' & Hwf' & Hl' & Hb); try (done || lia).
    exists 0, m'. split; [done|]. split; [split; [done|lia]|]. intros q Hq. unfold has. rewrite Hb by done.
    zcase; intuition congruence.
Qed.

(** Clearing all 256 bits reaches only the first word. *)
Lemma clear_all_spec m : map_wf m ->
  exists m', bitmap_block_update m 0 0 _PRIV_MENT _PRIV_MLEN = Some (0, m') /\ map_wf m' /\
    forall q, 0 <= q -> has m' q <-> has m q /\ 32 <= q.
Proof.
  intros [Hwf Hl]. change _PRIV_MENT with 256. change _PRIV_MLEN with 8.
  destruct (block_update_spec m 0 0 256 8) as (m' & Hu & Hwf' & Hl' & Hb); try (done || lia).
  exists m'. split; [done|]. split; [split; [done|lia]|]. intros q Hq. unfold has. rewrite Hb by done.
  change (update_end 0 256) with 32. change (Z.odd 0) with false.
  destruct (Z.leb_spec 0 q), (Z.ltb_spec q 32); simpl; try lia; intuition (congruence || lia).
Qed.

(** ** What the operations do to the sets *)

Lemma eff_get_spec c p : cred_wf c -> 0 <= p < 2 ^ 32 ->
  priv_cred_eff_get c p =
    Some (if decide (256 <= p) then - EINVAL else if decide (has (pcap_effmap c) p) then 1 else 0).
Proof.
  intros (He & _) Hp. unfold priv_cred_eff_get. rewrite u32_small by done.
  by apply status_spec; [|lia].
Qed.

(** The decision of [priv_check] for a process that is no superuser. *)
Lemma priv_check_spec su c p : cred_wf c -> su = false \/ euid c <> 0 ->
  real_uid_priv p = false -> 0 <= p < 256 -> p <> PRIV_KMEM_READ ->
  priv_check su c p = Some (if decide (has (pcap_effmap c) p) then 0 else - EPERM).
Proof.
  intros Hwf Hsu Hr Hp Hk. unfold priv_check. rewrite Hr.
  assert (su && (euid c =? 0) = false) as ->.
  { destruct Hsu as [->|?]; [done|]. destruct su; [|done]. simpl. by apply Z.eqb_neq. }
  destruct (Z.eqb_spec p PRIV_KMEM_READ); [done|]. rewrite eff_get_spec by (done || lia).
  rewrite decide_False by lia. mstep. by case_decide.
Qed.

Definition same_ids (c c' : cred) : Prop := uid c' = uid c /\ euid c' = euid c.

(** [grow c c' addE addB]: the sets of [c'] are those of [c] plus at most the
    capabilities that satisfy [addE] and [addB]. *)
Definition grow (c c' : cred) (addE addB : Z -> Prop) : Prop :=
  cred_wf c' /\ same_ids c c' /\
  (forall p, has (pcap_effmap c') p -> has (pcap_effmap c) p \/ addE p) /\
  (forall p, has (pcap_bndmap c') p -> has (pcap_bndmap c) p \/ addB p).

Definition none (p : Z) : Prop := False.

Lemma grow_refl c addE addB : cred_wf c -> grow c c addE addB.
Proof. intros. split_and!; try done; auto. Qed.

Lemma has_nonneg m p : map_wf m -> has m p -> 0 <= p.
Proof. intros Hm Hh. by apply has_range in Hh as [? _]. Qed.

Lemma eff_set_grow c p : cred_wf c ->
  exists err c', priv_cred_eff_set c p = Some (err, c') /\
    grow c c' (has (pcap_bndmap c)) none.
Proof.
  intros Hwf. pose proof Hwf as (He & Hb & Hg). pose proof (u32_range p).
  unfold priv_cred_eff_set. rewrite status_spec by (done || lia). mstep.
  destruct (decide (256 <= u32 p)); simpl; [eauto using grow_refl|].
  destruct (decide (has (pcap_bndmap c) (u32 p))) as [Hh|]; simpl; [|eauto using grow_refl].
  destruct (set_spec (pcap_effmap c) (u32 p)) as (err & m' & -> & Hm' & Hset); [done|lia|].
  mstep. eexists _, _. split; [done|]. split_and!; simpl; try done; auto.
  intros q Hq. pose proof (has_nonneg _ _ Hm' Hq). apply Hset in Hq as [?|[-> ?]]; auto.
Qed.

Lemma eff_clear_grow c p : cred_wf c ->
  exists err c', priv_cred_eff_clear c p = Some (err, c') /\ grow c c' none none.
Proof.
  intros Hwf. pose proof Hwf as (He & Hb & Hg). pose proof (u32_range p).
  unfold priv_cred_eff_clear.
  destruct (clear_spec (pcap_effmap c) (u32 p)) as (err & m' & -> & Hm' & Hset); [done|lia|].
  mstep. eexists _, _. split; [done|]. split_and!; simpl; try done; auto.
  intros q Hq. pose proof (has_nonneg _ _ Hm' Hq). apply Hset in Hq as [? _]; auto.
Qed.

Lemma bound_clear_grow c p : cred_wf c ->
  exists err c', priv_cred_bound_clear c p = Some (err, c') /\ grow c c' none none.
Proof.
  intros Hwf. pose proof Hwf as (He & Hb & Hg). pose proof (u32_range p).
  unfold priv_cred_bound_clear.
  destruct (clear_spec (pcap_bndmap c) (u32 p)) as (err & m' & -> & Hm' & Hset); [done|lia|].
  mstep. eexists _, _. split; [done|]. split_and!; simpl; try done; auto.
  intros q Hq. pose proof (has_nonneg _ _ Hm' Hq). apply Hset in Hq as [? _]; auto.
Qed.

Lemma guarded_grow su c cap k addE addB :
  cred_wf c -> su = false \/ euid c <> 0 -> real_uid_priv cap = false -> 0 <= cap < 256 ->
  cap <> PRIV_KMEM_READ ->
  (has (pcap_effmap c) cap -> exists err c', k = Some (err, c') /\ grow c c' addE addB) ->
  exists err c', guarded su c cap k = Some (err, c') /\ grow c c' addE addB.
Proof.
  intros Hwf Hsu ??? Hk. unfold guarded. rewrite priv_check_spec by done. mstep.
  case_decide; simpl; [by apply Hk|]. eauto using grow_refl.
Qed.

(** One system call of a process without [PRIV_SETBND] changes its sets by at
    most setting effective capabilities of the bounding set, for which it needs
    [PRIV_SETEFF]. *)
Lemma pcap_grow su c args :
  cred_wf c -> su = false \/ euid c <> 0 -> ~ has (pcap_effmap c) PRIV_SETBND ->
  exists r e c', sys_priv_pcap su c args = Some (r, e, c') /\
    grow c c' (fun p => has (pcap_bndmap c) p /\ has (pcap_effmap c) PRIV_SETEFF) none.
Proof.
  intros Hwf Hsu Hnb.
  set (E := fun p => has (pcap_bndmap c) p /\ has (pcap_effmap c) PRIV_SETEFF).
  assert (forall x : option (Z * cred),
    (exists err c', x = Some (err, c') /\ grow c c' E none) ->
    exists r e c', ('(err, c) ← x; if negb (err =? 0) then Some (-1, Some (- err), c)
      else Some (err, None, c)) = Some (r, e, c') /\ grow c c' E none) as Hk.
  { intros x (err & c' & -> & Hgr). mstep. destruct (negb _); eauto. }
  assert (forall c', grow c c' none none -> grow c c' E none) as Hmono.
  { intros c' (? & ? & H1 & H2). split_and!; try done. intros p [?|[]]%H1; auto. }
  apply Hk. destruct args as [[mode p]|]; [|eauto using grow_refl].
  pose proof (u32_range p).
  destruct mode; try apply guarded_grow; try done; try (by eauto using grow_refl).
  - unfold priv_cred_eff_get. rewrite status_spec by (apply Hwf || lia). mstep.
    eauto using grow_refl.
  - intros Hs. destruct (eff_set_grow c p Hwf) as (err & c' & -> & ? & ? & H1 & ?).
    eexists _, _. split; [done|]. split_and!; try done.
    intros q [?|?]%H1; [by left|]. right. by split.
  - intros _. destruct (eff_clear_grow c p Hwf) as (err & c' & -> & ?). eauto.
  - unfold priv_cred_bound_get. rewrite status_spec by (apply Hwf || lia). mstep.
    eauto using grow_refl.
  - intros _. destruct (bound_clear_grow c p Hwf) as (err & c' & -> & ?). mstep. eauto.
Qed.

(** ** Fork and initialisation *)

Lemma fork_loop_spec k : forall c i, cred_wf c -> 0 <= i -> i + Z.of_nat k <= 256 ->
  exists c', fork_loop k c i = Some c' /\ cred_wf c' /\ same_ids c c' /\
    pcap_bndmap c' = pcap_bndmap c /\
    forall p, 0 <= p -> has (pcap_effmap c') p <->
      has (pcap_effmap c) p /\ (i <= p < i + Z.of_nat k -> has (pcap_bndmap c) p).
Proof.
  induction k as [|k IH]; intros c i Hwf Hi Hk; cbn [fork_loop].
  - exists c. split_and!; try done; try apply Hwf. intros p Hp. intuition lia.
  - pose proof Hwf as (He & Hb & Hg). unfold priv_cred_bound_get.
    rewrite u32_small, status_spec by (done || lia). mstep. rewrite decide_False by lia.
    destruct (decide (has (pcap_bndmap c) i)) as [Hh|Hh]; simpl.
    + destruct (IH c (i + 1)) as (c' & -> & ? & ? & ? & Hp); [done|lia|lia|].
      exists c'. split_and!; try done; try apply H. intros p Hp0. rewrite Hp by done.
      destruct (decide (p = i)) as [->|]; [intuition|].
      assert (i + 1 <= p < i + 1 + Z.of_nat k <-> i <= p < i + Z.of_nat (S k)) as -> by lia. done.
    + unfold priv_cred_eff_clear. rewrite u32_small by lia.
      destruct (clear_spec (pcap_effmap c) i) as (err & m' & -> & Hm' & Hset); [done|lia|].
      mstep. destruct (IH (set_eff c m') (i + 1)) as (c' & -> & ? & ? & Hbe & Hp); [|lia|lia|].
      { split_and!; done. }
      exists c'. split_and!; try done; try apply H. intros p Hp0. rewrite Hp by done.
      simpl. rewrite Hset by done.
      destruct (decide (p = i)) as [->|]; cycle 1.
      { assert (i + 1 <= p < i + 1 + Z.of_nat k <-> i <= p < i + Z.of_nat (S k)) as -> by lia. tauto. }
      split; [by intros [[_ ?] _]|]. intros [_ Hx]. exfalso. apply Hh, Hx. lia.
Qed.

Lemma init_all_spec privs : forall c, cred_wf c -> Forall (fun v => 0 <= v < 256) privs ->
  exists c', init_all c privs = Some c' /\ cred_wf c' /\
    (forall p, 0 <= p -> has (pcap_bndmap c') p <-> has (pcap_bndmap c) p \/ p ∈ privs) /\
    (forall p, 0 <= p -> has (pcap_effmap c') p <-> has (pcap_effmap c) p \/ p ∈ privs).
Proof.
  induction privs as [|v privs IH]; intros c Hwf HF; cbn [init_all].
  - exists c. split_and!; try done; try apply Hwf; intros p Hp; rewrite elem_of_nil; tauto.
  - apply Forall_cons in HF as [Hv HF]. pose proof Hwf as (He & Hb & Hg).
    unfold priv_cred_bound_set. rewrite u32_small by lia.
    destruct (set_spec (pcap_bndmap c) v) as (e1 & m1 & -> & Hm1 & Hs1); [done|lia|]. mstep.
    unfold priv_cred_eff_set. rewrite u32_small by lia. simpl (pcap_bndmap (set_bnd _ _)).
    rewrite status_spec by (done || lia). mstep. rewrite decide_False by lia.
    rewrite decide_True by (apply Hs1; [lia|]; right; split; [done|lia]). simpl (1 <? 0).
    destruct (set_spec (pcap_effmap c) v) as (e2 & m2 & Hm & Hm2 & Hs2); [done|lia|].
    simpl. rewrite Hm. mstep.
    destruct (IH (set_eff (set_bnd c m1) m2)) as (c' & -> & ? & Hbn & Hef); [by split_and!|done|].
    exists c'. split; [done|]. split; [done|]. simpl in *.
    split; intros p Hp; rewrite elem_of_cons; [rewrite Hbn, Hs1 by done|rewrite Hef, Hs2 by done];
      (assert (p = v -> v < 256) by (intros; lia); tauto).
Qed.

Lemma clear_groups_spec k : forall g i, 0 <= i -> i + Z.of_nat k <= Z.of_nat (length g) ->
  exists g', clear_groups k g i = Some g' /\ length g' = length g /\
    forall j, i <= j < i + Z.of_nat k -> g'.[j] = Some NOGROUP.
Proof.
  induction k as [|k IH]; intros g i Hi Hk; cbn [clear_groups].
  - exists g. split_and!; try done. lia.
  - assert (exists g1, g.[i <- NOGROUP] = Some g1) as [g1 Hw] by (rewrite wr_Some by lia; eauto).
    rewrite Hw. mstep. pose proof (wr_length _ _ _ _ Hw).
    destruct (IH g1 (i + 1)) as (g' & E & ? & Hg); [lia|lia|].
    exists g'. split_and!; [done|lia|]. intros j Hj.
    destruct (decide (j = i)) as [->|]; [|apply Hg; lia].
    clear -E Hw. revert g1 g' E Hw. generalize (i + 1) as i1. intros i1.
    assert (forall k i1 (g1 g' : list Z) j v, clear_groups k g1 i1 = Some g' ->
      g1.[j] = Some v -> v = NOGROUP -> g'.[j] = Some NOGROUP) as Hkeep.
    { induction k0 as [|k0 IH]; intros i2 h h' j v E Hj ->; cbn [clear_groups] in E.
      - congruence.
      - destruct (h.[i2 <- NOGROUP]) as [h1|] eqn:Hh; [|done]. mstep in E.
        eapply IH; [done| |done]. destruct (decide (i2 = j)) as [->|].
        + by apply rd_wr_eq in Hh.
        + by rewrite (rd_wr_ne _ _ _ _ _ Hh). }
    intros g1 g' E Hw. eapply Hkeep; [done| |done]. by apply rd_wr_eq in Hw.
Qed.

(** ** Claims *)

(** A sequence of capability system calls of one process. *)
Fixpoint pcap_run (su : bool) (c : cred) (calls : list (option (priv_pcap_mode * Z)))
    : option cred :=
  match calls with
  | [] => Some c
  | args :: calls => '(_, _, c) ← sys_priv_pcap su c args; pcap_run su c calls
  end.

(** C17. No escalation: whatever capability system calls a process makes, if it
    is no superuser and [PRIV_SETBND] is in neither of its sets, its bounding
    set never grows, every effective capability it gains was in its bounding
    set, and without [PRIV_SETEFF] it gains none. *)
Theorem priv_no_escalation (su : bool) (c : cred)
    (calls : list (option (priv_pcap_mode * Z))) (Hwf : cred_wf c)
    (Hsu : su = false \/ euid c <> 0)
    (Heff : ~ has (pcap_effmap c) PRIV_SETBND) (Hbnd : ~ has (pcap_bndmap c) PRIV_SETBND) :
  exists c', pcap_run su c calls = Some c' /\
    (forall p, has (pcap_bndmap c') p -> has (pcap_bndmap c) p) /\
    (forall p, has (pcap_effmap c') p -> has (pcap_effmap c) p \/
       (has (pcap_bndmap c) p /\ has (pcap_effmap c) PRIV_SETEFF)).
Proof.
  set (inv := fun c' => cred_wf c' /\ euid c' = euid c /\
    (forall p, has (pcap_bndmap c') p -> has (pcap_bndmap c) p) /\
    (forall p, has (pcap_effmap c') p -> has (pcap_effmap c) p \/
       (has (pcap_bndmap c) p /\ has (pcap_effmap c) PRIV_SETEFF))).
  assert (forall c1, inv c1 -> exists c', pcap_run su c1 calls = Some c' /\ inv c') as Hrun.
  { induction calls as [|args calls IH]; intros c1 Hi; cbn [pcap_run]; [eauto|].
    pose proof Hi as (Hwf1 & Hid & Hb & He).
    destruct (pcap_grow su c1 args) as (r & e & c2 & -> & Hwf2 & [_ Hid2] & He2 & Hb2); try done.
    - by rewrite Hid.
    - intros [?|[? _]]%He; done.
    - mstep. apply IH. split_and!; try done; try apply Hwf2; [congruence| |].
      + intros p [?|[]]%Hb2. auto.
      + intros p [?|[Hp Hse]]%He2; [auto|]. right. split; [auto|].
        by apply He in Hse as [?|[_ ?]]. }
  destruct (Hrun c) as (c' & ? & _ & _ & ? & ?); [split_and!; try done; try apply Hwf; auto|].
  eauto.
Qed.

Definition cred_example : cred :=
  Cred 1000 1000 1000 100 100 100 (replicate 16 65535) [6; 0; 0; 0; 0; 0; 0; 0]
    [2; 0; 0; 4; 0; 0; 0; 0].

Lemma cred_example_wf : cred_wf cred_example.
Proof.
  split_and!; try done; try (apply (bool_decide_unpack _); vm_compute; exact I).
Qed.

Lemma priv_no_escalation_witness :
  exists c', pcap_run true cred_example [Some (PRIV_PCAP_MODE_SET_BND, 15);
      Some (PRIV_PCAP_MODE_SET_EFF, 98); Some (PRIV_PCAP_MODE_CLR_BND, 1); None] = Some c' /\
    (forall p, has (pcap_bndmap c') p -> has (pcap_bndmap cred_example) p) /\
    (forall p, has (pcap_effmap c') p -> has (pcap_effmap cred_example) p \/
       (has (pcap_bndmap cred_example) p /\ has (pcap_effmap cred_example) PRIV_SETEFF)).
Proof.
  apply (priv_no_escalation true cred_example).
  - apply cred_example_wf.
  - right. vm_compute. congruence.
  - vm_compute. congruence.
  - vm_compute. congruence.
Defined.

(** After a fork the child's effective set is the intersection of the
    parent's effective and bounding sets, and the bounding set is unchanged. *)
Theorem priv_fork_bounded (c : cred) (Hwf : cred_wf c) :
  exists c', priv_cred_init_fork c = Some c' /\ pcap_bndmap c' = pcap_bndmap c /\
    forall p, has (pcap_effmap c') p <-> has (pcap_effmap c) p /\ has (pcap_bndmap c) p.
Proof.
  destruct (fork_loop_spec 256 c 0 Hwf) as (c' & Hf & Hwf' & _ & Hb & He); [lia|lia|].
  exists c'. split_and!; try done. intros p. split.
  - intros Hh. pose proof (has_range _ _ (proj1 Hwf') Hh) as Hp.
    apply He in Hh as [? Hi]; [|lia]. split; [done|]. apply Hi. lia.
  - intros [Hh Hbn]. pose proof (has_range _ _ (proj1 Hwf) Hh).
    apply He; [lia|]. auto.
Qed.

Lemma priv_fork_bounded_witness :
  exists c', priv_cred_init_fork cred_example = Some c' /\
    pcap_bndmap c' = pcap_bndmap cred_example /\
    forall p, has (pcap_effmap c') p <->
      has (pcap_effmap cred_example) p /\ has (pcap_bndmap cred_example) p.
Proof. apply (priv_fork_bounded cred_example). apply cred_example_wf. Defined.

(** [priv_cred_init] is to give a new credential exactly the default
    capabilities, but its clearing of the maps stops after the first word: the
    credential keeps every stale capability from 32 on. *)
Theorem priv_init_keeps_stale (c : cred) (Hwf : cred_wf c) :
  exists c', priv_cred_init c = Some c' /\
    forall p, 0 <= p -> has (pcap_effmap c') p <->
      p ∈ default_privs \/ (32 <= p /\ has (pcap_effmap c) p).
Proof.
  pose proof Hwf as (He & Hb & Hg). unfold priv_cred_init.
  destruct (clear_groups_spec (Z.to_nat NGROUPS_MAX) (sup_gid c) 0) as (g & -> & Hlg & _);
    [lia|rewrite Hg; vm_compute; congruence|]. mstep.
  destruct (clear_all_spec (pcap_effmap c) He) as (m1 & E1 & Hm1 & Hs1).
  simpl (pcap_effmap (set_groups _ _)). rewrite E1. mstep.
  destruct (clear_all_spec (pcap_bndmap c) Hb) as (m2 & E2 & Hm2 & Hs2).
  simpl (pcap_bndmap (set_eff _ _)). rewrite E2. mstep.
  destruct (init_all_spec default_privs (set_bnd (set_eff (set_groups c g) m1) m2))
    as (c' & -> & _ & _ & Heff).
  { split_and!; try done; try apply Hm1; try apply Hm2. simpl. lia. }
  { apply (bool_decide_unpack _); vm_compute; exact I. }
  exists c'. split; [done|]. intros p Hp. rewrite Heff by done. simpl. rewrite Hs1 by done. tauto.
Qed.

Lemma priv_init_keeps_stale_witness :
  exists c', priv_cred_init cred_example = Some c' /\
    forall p, 0 <= p -> has (pcap_effmap c') p <->
      p ∈ default_privs \/ (32 <= p /\ has (pcap_effmap cred_example) p).
Proof. apply (priv_init_keeps_stale cred_example). apply cred_example_wf. Defined.
