(* ===== verification/Klocks.v ===== *)
(** * Kernel locks: kern/klocks_mtx.c, klocks_rwlock.c, klocks_sema.c,
    klocks_isema.c, include/klocks.h, include/sys/mach/arm/atomic.h

    The mutex is a transition system: the state is the shared [mtx] and the
    program counter of every thread, and one step is one atomic access of
    [mtx_lock], [mtx_trylock] or [mtx_unlock].  Ticket counters are 32-bit
    integers that wrap around.  Priority ceiling, interrupt masking and the
    sleep timers do not touch the lock words and are left out; the spinning
    time-out of [mtx_lock] is a step. *)
From stdpp Require Import relations.
From S2P Require Import Prelude.

Inductive mtx_type := MTX_TYPE_UNDEF | MTX_TYPE_SPIN | MTX_TYPE_TICKET.

Record mtx := Mtx {
  m_type : mtx_type;
  m_flags : Z;
  mtx_lock_v : Z;
  t_queue : Z;
  t_dequeue : Z
}.
Definition set_lock (m : mtx) (v : Z) : mtx := Mtx (m_type m) (m_flags m) v (t_queue m) (t_dequeue m).
Definition set_queue (m : mtx) (v : Z) : mtx := Mtx (m_type m) (m_flags m) (mtx_lock_v m) v (t_dequeue m).
Definition set_dequeue (m : mtx) (v : Z) : mtx := Mtx (m_type m) (m_flags m) (mtx_lock_v m) (t_queue m) v.

Definition mtx_init (type : mtx_type) (opt : Z) : mtx := Mtx type opt 0 0 0.

(** [mtx_lock] with a non-zero time-out option. *)
Definition opt_timeout (m : mtx) : bool := negb (Z.land (m_flags m) 0xf =? 0).

(** Where a thread is; the ticket is the local variable of the call. *)
Inductive pc :=
| Idle                    (* not using the lock *)
| WaitSpin                (* loop of mtx_lock, spin lock *)
| WaitTicket (t : Z)      (* loop of mtx_lock, ticket lock *)
| EnterTicket (t : Z)     (* saw its ticket, about to set mtx_lock *)
| Held (t : Z)            (* returned from mtx_lock with success *)
| Releasing               (* mtx_unlock, dequeue already advanced *)
| TryTicket (t : Z)       (* mtx_trylock, ticket drawn *)
| TryFail.                (* mtx_trylock, about to give the ticket back *)

Definition holding (p : pc) : Prop :=
  match p with EnterTicket _ | Held _ => True | _ => False end.
#[global] Instance holding_dec p : Decision (holding p).
Proof. destruct p; simpl; apply _. Defined.

Definition mstate : Type := mtx * list pc.

(** [mtx_lock]. *)
Inductive lock_step : mstate -> mstate -> Prop :=
| step_lock_spin m l1 l2 : m_type m = MTX_TYPE_SPIN ->
    lock_step (m, l1 ++ Idle :: l2) (m, l1 ++ WaitSpin :: l2)
| step_spin_get m l1 l2 : mtx_lock_v m <> 1 ->
    lock_step (m, l1 ++ WaitSpin :: l2) (set_lock m 1, l1 ++ Held 0 :: l2)
| step_spin_busy m l1 l2 : (* already set, or the exclusive store failed *)
    lock_step (m, l1 ++ WaitSpin :: l2) (m, l1 ++ WaitSpin :: l2)
| step_lock_ticket m l1 l2 : m_type m = MTX_TYPE_TICKET ->
    lock_step (m, l1 ++ Idle :: l2)
      (set_queue m (u32 (t_queue m + 1)), l1 ++ WaitTicket (t_queue m) :: l2)
| step_ticket_mine m l1 l2 t : t_dequeue m = t ->
    lock_step (m, l1 ++ WaitTicket t :: l2) (m, l1 ++ EnterTicket t :: l2)
| step_ticket_yield m l1 l2 t : t_dequeue m <> t ->
    lock_step (m, l1 ++ WaitTicket t :: l2) (m, l1 ++ WaitTicket t :: l2)
| step_ticket_enter m l1 l2 t :
    lock_step (m, l1 ++ EnterTicket t :: l2) (set_lock m 1, l1 ++ Held t :: l2)
| step_timeout_ticket m l1 l2 t : opt_timeout m = true ->
    lock_step (m, l1 ++ WaitTicket t :: l2) (m, l1 ++ Idle :: l2)
| step_timeout_spin m l1 l2 : opt_timeout m = true ->
    lock_step (m, l1 ++ WaitSpin :: l2) (m, l1 ++ Idle :: l2).

(** [mtx_unlock]: a ticket lock advances [dequeue] before it clears
    [mtx_lock]. *)
Inductive unlock_step : mstate -> mstate -> Prop :=
| step_unlock_ticket m l1 l2 t : m_type m = MTX_TYPE_TICKET ->
    unlock_step (m, l1 ++ Held t :: l2)
      (set_dequeue m (u32 (t_dequeue m + 1)), l1 ++ Releasing :: l2)
| step_unlock_clear m l1 l2 :
    unlock_step (m, l1 ++ Releasing :: l2) (set_lock m 0, l1 ++ Idle :: l2)
| step_unlock_spin m l1 l2 t : m_type m = MTX_TYPE_SPIN ->
    unlock_step (m, l1 ++ Held t :: l2) (set_lock m 0, l1 ++ Idle :: l2).

(** [mtx_trylock]. *)
Inductive try_step : mstate -> mstate -> Prop :=
| step_try_spin_get m l1 l2 : m_type m = MTX_TYPE_SPIN -> mtx_lock_v m <> 1 ->
    try_step (m, l1 ++ Idle :: l2) (set_lock m 1, l1 ++ Held 0 :: l2)
| step_try_spin_fail m l1 l2 : m_type m = MTX_TYPE_SPIN ->
    try_step (m, l1 ++ Idle :: l2) (m, l1 ++ Idle :: l2)
| step_try_inc m l1 l2 : m_type m = MTX_TYPE_TICKET ->
    try_step (m, l1 ++ Idle :: l2)
      (set_queue m (u32 (t_queue m + 1)), l1 ++ TryTicket (t_queue m) :: l2)
| step_try_mine m l1 l2 t : t_dequeue m = t ->
    try_step (m, l1 ++ TryTicket t :: l2) (m, l1 ++ EnterTicket t :: l2)
| step_try_fail m l1 l2 t : t_dequeue m <> t ->
    try_step (m, l1 ++ TryTicket t :: l2) (m, l1 ++ TryFail :: l2)
| step_try_dec m l1 l2 :
    try_step (m, l1 ++ TryFail :: l2) (set_queue m (u32 (t_queue m - 1)), l1 ++ Idle :: l2).

Definition lu_step (s s' : mstate) : Prop := lock_step s s' \/ unlock_step s s'.
Definition mtx_step (s s' : mstate) : Prop := lu_step s s' \/ try_step s s'.

Lemma rtc_preserves {A} (R : relation A) (I : A -> Prop) a b :
  (forall x y, I x -> R x y -> I y) -> rtc R a b -> I a -> I b.
Proof. intros HR. induction 1; eauto. Qed.

(** ** Ticket locks: ghost tickets

    Every thread between drawing its ticket and advancing [dequeue] owns one
    unbounded ghost ticket; together they are the interval from the ghost
    dequeue counter to the ghost queue counter, once each. *)

Inductive gpc := GFree (p : pc) | GTicket (p : pc) (g : Z).
Definition erase (x : gpc) : pc := match x with GFree p | GTicket p _ => p end.
Definition gticket (x : gpc) : option Z := match x with GFree _ => None | GTicket _ g => Some g end.

Definition gpc_ok (gd : Z) (x : gpc) : Prop :=
  match x with
  | GFree p => p = Idle \/ p = Releasing
  | GTicket (WaitTicket t) g => t = u32 g
  | GTicket (EnterTicket t) g | GTicket (Held t) g => g = gd
  | GTicket _ _ => False
  end.

Definition ticket_inv (s : mstate) : Prop :=
  m_type s.1 = MTX_TYPE_TICKET /\ opt_timeout s.1 = false /\ Z.of_nat (length s.2) <= 2 ^ 32 /\
  exists gl gd (n : nat), erase <$> gl = s.2 /\ Forall (gpc_ok gd) gl /\
    t_dequeue s.1 = u32 gd /\ t_queue s.1 = u32 (gd + Z.of_nat n) /\
    omap gticket gl ≡ₚ seqZ gd (Z.of_nat n).

Lemma fmap_split {A B} (f : A -> B) (l : list A) l1 x l2 :
  f <$> l = l1 ++ x :: l2 ->
  exists k1 y k2, l = k1 ++ y :: k2 /\ f <$> k1 = l1 /\ f y = x /\ f <$> k2 = l2.
Proof.
  intros (k1 & k2' & H1 & H2 & Hl)%fmap_app_inv.
  destruct k2' as [|y k2]; simpl in *; simplify_eq; eauto 10.
Qed.

Lemma seqZ_snoc a (n : nat) : seqZ a (Z.of_nat (S n)) = seqZ a (Z.of_nat n) ++ [a + Z.of_nat n].
Proof.
  replace (Z.of_nat (S n)) with (Z.of_nat n + 1) by lia. rewrite seqZ_app by lia. done.
Qed.

Lemma u32_inj_near a b : - 2 ^ 32 < a - b < 2 ^ 32 -> u32 a = u32 b -> a = b.
Proof. unfold u32. intros ? H. dlia. Qed.

(** The number of outstanding tickets is at most the number of threads. *)
Lemma omap_length_le {A B} (f : A -> option B) l : (length (omap f l) <= length l)%nat.
Proof. induction l as [|x l IH]; csimpl; [lia|]. destruct (f x); csimpl; lia. Qed.

Lemma tickets_mid k1 y k2 :
  omap gticket (k1 ++ y :: k2) ≡ₚ
    match gticket y with Some g => [g] | None => [] end ++ omap gticket (k1 ++ k2).
Proof.
  rewrite !omap_app. csimpl. destruct (gticket y) as [g|]; csimpl; [|done].
  by rewrite <-Permutation_middle.
Qed.

Lemma seqZ_bounds (x gd : Z) (n : nat) (l : list Z) :
  l ≡ₚ seqZ gd (Z.of_nat n) -> x ∈ l -> gd <= x < gd + Z.of_nat n.
Proof. intros Hp. rewrite Hp, elem_of_seqZ. done. Qed.

(** At most one ghost ticket equals the dequeue counter. *)
Lemma ticket_unique k1 p g k2 x gd n :
  omap gticket (k1 ++ GTicket p g :: k2) ≡ₚ seqZ gd (Z.of_nat n) ->
  x ∈ k1 ++ k2 -> gticket x <> Some g.
Proof.
  intros Hp Hx Hg. assert (NoDup (omap gticket (k1 ++ GTicket p g :: k2))) as Hnd
    by (rewrite Hp; apply NoDup_seqZ).
  rewrite tickets_mid in Hnd. csimpl in Hnd. apply NoDup_cons in Hnd as [Hnin _].
  apply Hnin. apply list_elem_of_omap. eauto.
Qed.

Lemma ticket_inv_mk m k1 y k2 gd n :
  m_type m = MTX_TYPE_TICKET -> opt_timeout m = false ->
  Z.of_nat (length (k1 ++ y :: k2)) <= 2 ^ 32 ->
  Forall (gpc_ok gd) (k1 ++ k2) -> gpc_ok gd y ->
  t_dequeue m = u32 gd -> t_queue m = u32 (gd + Z.of_nat n) ->
  match gticket y with Some g => [g] | None => [] end ++ omap gticket (k1 ++ k2) ≡ₚ
    seqZ gd (Z.of_nat n) ->
  ticket_inv (m, (erase <$> k1) ++ erase y :: (erase <$> k2)).
Proof.
  intros Hty Hto Hlen [HF1 HF2]%Forall_app Hy Hd Hq Hp.
  split; [done|]. split; [done|]. split.
  { cbn [snd]. rewrite !length_app in *. cbn [length] in *. rewrite !length_fmap. lia. }
  exists (k1 ++ y :: k2), gd, n. cbn [fst snd]. rewrite fmap_app, tickets_mid.
  split_and!; try done. apply Forall_app. split; [done|]. by constructor.
Qed.

(** The view of the thread that steps. *)
Lemma ticket_inv_split m l1 p l2 : ticket_inv (m, l1 ++ p :: l2) ->
  exists k1 y k2 gd (n : nat), l1 = erase <$> k1 /\ p = erase y /\ l2 = erase <$> k2 /\
    m_type m = MTX_TYPE_TICKET /\ opt_timeout m = false /\
    Z.of_nat (length (k1 ++ y :: k2)) <= 2 ^ 32 /\
    Forall (gpc_ok gd) (k1 ++ k2) /\ gpc_ok gd y /\
    t_dequeue m = u32 gd /\ t_queue m = u32 (gd + Z.of_nat n) /\ Z.of_nat n <= 2 ^ 32 /\
    omap gticket (k1 ++ y :: k2) ≡ₚ seqZ gd (Z.of_nat n).
Proof.
  intros (Hty & Hto & Hlen & gl & gd & n & Her & HF & Hd & Hq & Hp). cbn [fst snd] in *.
  apply fmap_split in Her as (k1 & y & k2 & -> & <- & <- & <-).
  apply Forall_app in HF as [HF1 [Hok HF2]%Forall_cons].
  pose proof (Permutation_length Hp) as Hl. rewrite length_seqZ, Nat2Z.id in Hl.
  pose proof (omap_length_le gticket (k1 ++ y :: k2)) as Hle.
  rewrite !length_app in *. cbn [length] in *. rewrite !length_fmap in *.
  exists k1, y, k2, gd, n. split_and!; try done; [rewrite length_app; simpl; lia|by apply Forall_app|lia].
Qed.

Ltac open_ticket H :=
  apply ticket_inv_split in H as
    (k1 & y & k2 & gd & n & -> & Hy & -> & Hty & Hto & Hlen & HF & Hok & Hd & Hq & Hn & Hp);
  try congruence;
  destruct y as [p|p g]; simpl in Hy; subst p; simpl in Hok;
  try (by destruct Hok as [?|?]); try done.

Lemma ticket_inv_lock s s' : ticket_inv s -> lock_step s s' -> ticket_inv s'.
Proof.
  intros Hi Hstep. destruct Hstep as [m l1 l2 ?|m l1 l2 ?|m l1 l2|m l1 l2 ?|m l1 l2 t ?
    |m l1 l2 t ?|m l1 l2 t|m l1 l2 t ?|m l1 l2 ?]; open_ticket Hi.
  - (* draw a ticket *)
    apply (ticket_inv_mk _ k1 (GTicket (WaitTicket (t_queue m)) (gd + Z.of_nat n)) k2 gd (S n));
      try done.
    + rewrite length_app in *. done.
    + simpl. rewrite Hq. unfold u32. rewrite Zplus_mod_idemp_l. f_equal. lia.
    + rewrite tickets_mid in Hp. csimpl in *. rewrite Hp, seqZ_snoc.
      by rewrite Permutation_app_comm.
  - (* the ticket comes up *)
    assert (g = gd) as ->.
    { assert (gd <= g < gd + Z.of_nat n) as Hg.
      { eapply seqZ_bounds; [done|]. rewrite tickets_mid. csimpl. by left. }
      apply u32_inj_near; [lia|]. congruence. }
    apply (ticket_inv_mk _ k1 (GTicket (EnterTicket t) gd) k2 gd n); try done.
    + rewrite length_app in *. done.
    + by rewrite tickets_mid in Hp.
  - apply (ticket_inv_mk _ k1 (GTicket (WaitTicket t) g) k2 gd n); try done.
    by rewrite tickets_mid in Hp.
  - apply (ticket_inv_mk _ k1 (GTicket (Held t) g) k2 gd n); try done.
    + rewrite length_app in *. done.
    + by rewrite tickets_mid in Hp.
Qed.

Lemma ticket_inv_unlock s s' : ticket_inv s -> unlock_step s s' -> ticket_inv s'.
Proof.
  intros Hi Hstep. destruct Hstep as [m l1 l2 t ?|m l1 l2|m l1 l2 t ?]; open_ticket Hi.
  - (* advance the dequeue counter *)
    subst g. assert (exists n', n = S n') as [n' ->].
    { destruct n as [|n']; [|eauto]. apply Permutation_nil_r in Hp.
      rewrite omap_app in Hp. csimpl in Hp. by apply app_eq_nil in Hp as [_ ?]. }
    apply (ticket_inv_mk _ k1 (GFree Releasing) k2 (gd + 1) n'); try done.
    + rewrite length_app in *. done.
    + apply Forall_forall. intros x Hx. pose proof (ticket_unique _ _ _ _ x _ _ Hp Hx) as Hne.
      rewrite Forall_forall in HF. specialize (HF x Hx).
      destruct x as [q|[] q]; simpl in *; try done; subst; done.
    + by right.
    + simpl. rewrite Hd. unfold u32. by rewrite Zplus_mod_idemp_l.
    + simpl. rewrite Hq. f_equal. lia.
    + rewrite tickets_mid in Hp. csimpl in *. rewrite seqZ_cons in Hp by lia.
      apply (Permutation_cons_inv (a := gd)). rewrite Hp. rewrite <-Z.add_1_r.
      by replace (Z.pred (Z.of_nat (S n'))) with (Z.of_nat n') by lia.
  - apply (ticket_inv_mk _ k1 (GFree Idle) k2 gd n); try done.
    + rewrite length_app in *. done.
    + by left.
    + by rewrite tickets_mid in Hp.
Qed.

Definition holders (l : list pc) : nat := length (filter holding l).

Lemma holders_mid l1 p l2 :
  holders (l1 ++ p :: l2) = (holders (l1 ++ l2) + if decide (holding p) then 1 else 0)%nat.
Proof.
  unfold holders. rewrite !filter_app, filter_cons, !length_app.
  case_decide; simpl; lia.
Qed.

Lemma holders_0 l : Forall (fun p => ~ holding p) l -> holders l = 0%nat.
Proof.
  induction 1 as [|p l Hp _ IH]; [done|]. unfold holders in *. rewrite filter_cons.
  by rewrite decide_False by done.
Qed.

Lemma holding_ticket gd x : gpc_ok gd x -> holding (erase x) -> gticket x = Some gd.
Proof.
  destruct x as [p|[] g]; simpl; try done; [by intros [->| ->]|by intros ->..].
Qed.

Lemma ticket_inv_exclusive s : ticket_inv s -> (holders s.2 <= 1)%nat.
Proof.
  intros (_ & _ & _ & gl & gd & n & <- & HF & _ & _ & Hp).
  assert (forall k, Forall (gpc_ok gd) k -> NoDup (omap gticket k) ->
    (holders (erase <$> k) <= 1)%nat) as Hk.
  { clear. induction k as [|x k IH]; intros HF Hnd; [unfold holders; simpl; lia|].
    apply Forall_cons in HF as [Hx HF]. rewrite fmap_cons.
    change (erase x :: (erase <$> k)) with ([] ++ erase x :: (erase <$> k)).
    rewrite holders_mid. simpl app.
    assert (NoDup (omap gticket k)) as Hnd'.
    { csimpl in Hnd. destruct (gticket x); [by apply NoDup_cons in Hnd as [_ ?]|done]. }
    specialize (IH HF Hnd'). case_decide as Hh; [|lia].
    assert (holders (erase <$> k) = 0%nat) as ->; [|lia].
    pose proof (holding_ticket gd x Hx Hh) as Ht.
    csimpl in Hnd. rewrite Ht in Hnd. apply NoDup_cons in Hnd as [Hnin _].
    apply holders_0. apply Forall_fmap, Forall_forall. intros y Hy Hhy. apply Hnin.
    apply list_elem_of_omap. exists y. split; [done|]. rewrite Forall_forall in HF.
    by apply (holding_ticket gd y (HF _ Hy) Hhy). }
  apply Hk; [done|]. rewrite Hp. apply NoDup_seqZ.
Qed.

(** ** Spin locks *)

Definition spin_pc (p : pc) : Prop := p = Idle \/ p = WaitSpin \/ exists t, p = Held t.

Definition spin_inv (s : mstate) : Prop :=
  m_type s.1 = MTX_TYPE_SPIN /\ Forall spin_pc s.2 /\
  (mtx_lock_v s.1 = 0 /\ holders s.2 = 0%nat \/ mtx_lock_v s.1 = 1 /\ holders s.2 = 1%nat).

Lemma spin_inv_step s s' : spin_inv s -> mtx_step s s' -> spin_inv s'.
Proof.
  intros (Hty & HF & Hl) [[Hs|Hs]|Hs]; destruct Hs; cbn [fst snd] in *; try congruence;
    apply Forall_app in HF as [HF1 [Hp HF2]%Forall_cons];
    try (by destruct Hp as [?|[?|[? ?]]]);
    (split; [done|]; split;
     [cbn [snd]; apply Forall_app; split; [done|]; constructor; [|done]; unfold spin_pc; eauto|]);
    cbn [fst snd] in *; rewrite !holders_mid in *; simpl in *; lia.
Qed.

(** ** Claims on the mutex *)

(** C23. Mutual exclusion: from a freshly initialised spin or ticket mutex
    without time-out, in every interleaving of the atomic steps of any number of
    threads (up to the range of the ticket counters, which wrap) that call
    [mtx_lock] and [mtx_unlock], at most one thread holds the lock. *)
Theorem mtx_mutual_exclusion (type : mtx_type) (opt : Z) (threads : nat) (s : mstate)
    (Hopt : Z.land opt 0xf = 0) (Hthreads : Z.of_nat threads <= 2 ^ 32)
    (Hrun : rtc lu_step (mtx_init type opt, replicate threads Idle) s) :
  (holders s.2 <= 1)%nat.
Proof.
  assert (holders (replicate threads Idle) = 0%nat) as H0.
  { apply holders_0. apply Forall_replicate. by intros ?. }
  destruct type.
  - set (I := fun a : mstate => m_type a.1 = MTX_TYPE_UNDEF /\ Forall (eq Idle) a.2).
    enough (I s) as [_ HF].
    { rewrite holders_0; [lia|]. eapply Forall_impl; [done|]. by intros ? <- []. }
    eapply (rtc_preserves lu_step I); [|done|].
    + intros a b [Hty HF] [Hab|Hab]; destruct Hab; cbn [fst snd] in *; try congruence;
        by apply Forall_app in HF as [_ [? _]%Forall_cons].
    + split; [done|]. by apply Forall_replicate.
  - enough (spin_inv s) as (_ & _ & ?) by lia.
    assert (spin_inv (mtx_init MTX_TYPE_SPIN opt, replicate threads Idle)) as Hi.
    { split; [done|]. split; [apply Forall_replicate; by left|]. by left. }
    eapply (rtc_preserves lu_step spin_inv); [|done|done].
    intros a b ??. eapply spin_inv_step; [done|by left].
  - enough (ticket_inv s) as Hi by by apply ticket_inv_exclusive.
    assert (ticket_inv (mtx_init MTX_TYPE_TICKET opt, replicate threads Idle)) as Hi.
    { split; [done|]. split; [unfold opt_timeout; simpl; by rewrite Hopt|].
      split; [simpl; by rewrite length_replicate|].
      exists (replicate threads (GFree Idle)), 0, 0%nat. split_and!; try done.
      - by rewrite fmap_replicate.
      - apply Forall_replicate. by left.
      - simpl. replace (omap gticket _) with (@nil Z); [done|]. clear.
        induction threads; [done|]. csimpl. done. }
    eapply (rtc_preserves lu_step ticket_inv); [|done|done].
    intros a b ? [?|?]; [by eapply ticket_inv_lock|by eapply ticket_inv_unlock].
Qed.

Lemma mtx_mutual_exclusion_witness :
  (holders [WaitTicket 1; Held 0] <= 1)%nat.
Proof.
  apply (mtx_mutual_exclusion MTX_TYPE_TICKET 0 2
    (Mtx MTX_TYPE_TICKET 0 1 2 0, [WaitTicket 1; Held 0])).
  - reflexivity.
  - vm_compute. congruence.
  - eapply rtc_l; [left; apply (step_lock_ticket (mtx_init MTX_TYPE_TICKET 0) [Idle] []); reflexivity|].
    eapply rtc_l; [left; apply (step_ticket_mine _ [Idle] []); reflexivity|].
    eapply rtc_l; [left; apply (step_ticket_enter _ [Idle] [])|].
    eapply rtc_l; [left; apply (step_lock_ticket _ [] [Held 0]); reflexivity|].
    apply rtc_refl.
Defined.

(** A ticket that [mtx_trylock] drew, and that was followed by another one
    before it was given back, is lost. *)
Definition cnt (p : pc) : Z := match p with Idle => 0 | _ => 1 end.
Definition stuck_pc (p : pc) : Prop :=
  match p with
  | Idle | TryFail => True
  | WaitTicket t | TryTicket t => 2 <= t <= 4
  | _ => False
  end.
Definition stuck (s : mstate) : Prop :=
  exists a b, s = (Mtx MTX_TYPE_TICKET 0 0 (2 + cnt a + cnt b) 1, [a; b; WaitTicket 2]) /\
    stuck_pc a /\ stuck_pc b.

Lemma split3 {A} (l1 : list A) p l2 a b c : l1 ++ p :: l2 = [a; b; c] ->
  l1 = [] /\ p = a /\ l2 = [b; c] \/ l1 = [a] /\ p = b /\ l2 = [c] \/
  l1 = [a; b] /\ p = c /\ l2 = [].
Proof.
  destruct l1 as [|x [|y [|z [|w l1]]]]; simpl; intros; simplify_eq; auto.
Qed.

Lemma cnt_range p : 0 <= cnt p <= 1.
Proof. by destruct p. Qed.

Lemma stuck_intro q a b : u32 q = 2 + cnt a + cnt b -> stuck_pc a -> stuck_pc b ->
  stuck (Mtx MTX_TYPE_TICKET 0 0 (u32 q) 1, [a; b; WaitTicket 2]).
Proof. intros ->. exists a, b. done. Qed.

Lemma stuck_step s s' : stuck s -> mtx_step s s' -> stuck s'.
Proof.
  intros (a & b & -> & Ha & Hb) Hs. pose proof (cnt_range a). pose proof (cnt_range b).
  rewrite <-(u32_small (2 + cnt a + cnt b)) in Hs by lia.
  destruct Hs as [[Hs|Hs]|Hs]; inversion Hs; subst; clear Hs; unfold set_queue, set_lock, set_dequeue;
    cbn [m_type m_flags mtx_lock_v t_queue t_dequeue opt_timeout] in *; subst;
    repeat match goal with H : _ ++ _ :: _ = [_; _; _] |- _ =>
      apply split3 in H as [(-> & <- & ->)|[(-> & <- & ->)|(-> & ? & ->)]]; simplify_eq
    end; cbn [cnt stuck_pc app] in *; try done; try lia.
  all: match goal with |- context [Mtx _ _ _ (u32 (u32 ?q + ?k)) _] =>
         rewrite (u32_small q) by lia
       | |- context [Mtx _ _ _ (u32 (u32 ?q - ?k)) _] => rewrite (u32_small q) by lia
       | |- _ => idtac end.
  all: rewrite ?(u32_small (2 + _ + _)) by lia.
  all: match goal with |- stuck (Mtx _ _ _ (u32 _) _, _) => idtac
       | |- stuck (Mtx _ _ _ ?q _, _) => rewrite <-(u32_small q) by lia end.
  all: apply stuck_intro; [rewrite u32_small by lia; cbn [cnt]; lia| |]; cbn [stuck_pc];
    (done || lia).
Qed.

(** [mtx_trylock] on a ticket mutex can lose a ticket: one failing
    [mtx_trylock] that overlaps a [mtx_lock] leads to a state in which the mutex
    is free and a thread waits for it, and from which no thread ever acquires
    it again, whatever the threads do. *)
Theorem mtx_trylock_deadlock :
  exists s, rtc mtx_step (mtx_init MTX_TYPE_TICKET 0, [Idle; Idle; Idle]) s /\
    s.2 = [Idle; Idle; WaitTicket 2] /\ mtx_lock_v s.1 = 0 /\
    forall s', rtc mtx_step s s' -> holders s'.2 = 0%nat.
Proof.
  exists (Mtx MTX_TYPE_TICKET 0 0 2 1, [Idle; Idle; WaitTicket 2]). split; [|split_and!; try done].
  - eapply rtc_l; [left; left; by apply (step_lock_ticket _ [] [Idle; Idle])|].
    eapply rtc_l; [left; left; by apply (step_ticket_mine _ [] [Idle; Idle])|].
    eapply rtc_l; [left; left; by apply (step_ticket_enter _ [] [Idle; Idle])|].
    eapply rtc_l; [right; by apply (step_try_inc _ [Held 0] [Idle])|].
    eapply rtc_l; [left; left; by apply (step_lock_ticket _ [Held 0; TryTicket 1] [])|].
    eapply rtc_l; [right; by apply (step_try_fail _ [Held 0] [WaitTicket 2] 1)|].
    eapply rtc_l; [right; by apply (step_try_dec _ [Held 0] [WaitTicket 2])|].
    eapply rtc_l; [left; right; by apply (step_unlock_ticket _ [] [Idle; WaitTicket 2] 0)|].
    eapply rtc_l; [left; right; by apply (step_unlock_clear _ [] [Idle; WaitTicket 2])|].
    apply rtc_refl.
  - intros s' Hr. assert (stuck s') as (a & b & -> & Ha & Hb).
    { eapply (rtc_preserves mtx_step stuck); [apply stuck_step|done|]. by exists Idle, Idle. }
    apply holders_0. simpl. rewrite !Forall_cons. split_and!; try done.
    + destruct a; simpl in *; tauto.
    + destruct b; simpl in *; tauto.
    + by intros [].
Qed.

(** ** Readers-writer lock

    The attributes are protected by a spin mutex, so each critical section is
    one step; the unprotected accesses are the early reads of the waiting
    loops, which only decide when to try again, and [rwlock_wrwait] and
    [rwlock_wrunwait], which are steps of their own. *)

Record rwlock := Rwlock { rw_state : Z; wr_waiting : Z }.

Definition rwlock_init : rwlock := Rwlock 0 0.

(** First critical section of [rwlock_wrlock]; the boolean says that the lock
    was taken. *)
Definition rwlock_wrlock (l : rwlock) : bool * rwlock :=
  if rw_state l =? 0 then (true, Rwlock (-1) (wr_waiting l))
  else (false, Rwlock (rw_state l) (s32 (wr_waiting l + 1))).
(** One round of its waiting loop. *)
Definition rwlock_wrlock_retry (l : rwlock) : bool * rwlock :=
  if rw_state l =? 0 then (true, Rwlock (-1) (s32 (wr_waiting l - 1))) else (false, l).
(** The try operations fail when the inner mutex is busy. *)
Definition rwlock_trywrlock (busy : bool) (l : rwlock) : bool * rwlock :=
  if busy then (false, l)
  else if rw_state l =? 0 then (true, Rwlock (-1) (wr_waiting l)) else (false, l).
Definition rwlock_wrwait (l : rwlock) : rwlock :=
  if wr_waiting l =? 0 then Rwlock (rw_state l) 1 else l.
Definition rwlock_wrunwait (l : rwlock) : rwlock := Rwlock (rw_state l) 0.
Definition rwlock_wrunlock (l : rwlock) : rwlock :=
  if rw_state l =? -1 then Rwlock 0 (wr_waiting l) else l.
(** The critical section of [rwlock_rdlock], at its start and in its loop. *)
Definition rwlock_rdlock (l : rwlock) : bool * rwlock :=
  if (wr_waiting l =? 0) && (0 <=? rw_state l)
  then (true, Rwlock (s32 (rw_state l + 1)) (wr_waiting l)) else (false, l).
Definition rwlock_tryrdlock (busy : bool) (l : rwlock) : bool * rwlock :=
  if busy then (false, l) else rwlock_rdlock l.
Definition rwlock_rdunlock (l : rwlock) : rwlock :=
  if 0 <? rw_state l then Rwlock (rw_state l - 1) (wr_waiting l) else l.

Inductive role := RNone | RWaitW | RWaitR | RWriter | RReader.
#[global] Instance role_eq_dec : EqDecision role.
Proof. solve_decision. Defined.

Definition rwstate : Type := rwlock * list role.

Inductive rw_step : rwstate -> rwstate -> Prop :=
| rw_wrlock l l' b l1 l2 : rwlock_wrlock l = (b, l') ->
    rw_step (l, l1 ++ RNone :: l2) (l', l1 ++ (if b : bool then RWriter else RWaitW) :: l2)
| rw_wrlock_retry l l' b l1 l2 : rwlock_wrlock_retry l = (b, l') ->
    rw_step (l, l1 ++ RWaitW :: l2) (l', l1 ++ (if b : bool then RWriter else RWaitW) :: l2)
| rw_trywrlock l l' busy b l1 l2 : rwlock_trywrlock busy l = (b, l') ->
    rw_step (l, l1 ++ RNone :: l2) (l', l1 ++ (if b : bool then RWriter else RNone) :: l2)
| rw_wrwait l r : rw_step (l, r) (rwlock_wrwait l, r)
| rw_wrunwait l r : rw_step (l, r) (rwlock_wrunwait l, r)
| rw_wrunlock l l1 l2 :
    rw_step (l, l1 ++ RWriter :: l2) (rwlock_wrunlock l, l1 ++ RNone :: l2)
| rw_rdlock l l' b l1 l2 : rwlock_rdlock l = (b, l') ->
    rw_step (l, l1 ++ RNone :: l2) (l', l1 ++ (if b : bool then RReader else RWaitR) :: l2)
| rw_rdlock_retry l l' b l1 l2 : rwlock_rdlock l = (b, l') ->
    rw_step (l, l1 ++ RWaitR :: l2) (l', l1 ++ (if b : bool then RReader else RWaitR) :: l2)
| rw_tryrdlock l l' busy b l1 l2 : rwlock_tryrdlock busy l = (b, l') ->
    rw_step (l, l1 ++ RNone :: l2) (l', l1 ++ (if b : bool then RReader else RNone) :: l2)
| rw_rdunlock l l1 l2 :
    rw_step (l, l1 ++ RReader :: l2) (rwlock_rdunlock l, l1 ++ RNone :: l2).

(** How many threads have a role. *)
Definition count (x : role) (l : list role) : Z := Z.of_nat (length (filter (eq x) l)).

Lemma count_mid x l1 p l2 :
  count x (l1 ++ p :: l2) = count x (l1 ++ l2) + if decide (x = p) then 1 else 0.
Proof.
  unfold count. rewrite !filter_app, filter_cons, !length_app. case_decide; simpl; lia.
Qed.

Lemma rw_count_range x l : 0 <= count x l <= Z.of_nat (length l).
Proof. unfold count. pose proof (length_filter (eq x) l). lia. Qed.

Definition rw_inv (s : rwstate) : Prop :=
  Z.of_nat (length s.2) < 2 ^ 31 /\
  (rw_state s.1 = -1 /\ count RWriter s.2 = 1 /\ count RReader s.2 = 0 \/
   rw_state s.1 = count RReader s.2 /\ count RWriter s.2 = 0).

Lemma rw_inv_step s s' : rw_inv s -> rw_step s s' -> rw_inv s'.
Proof.
  intros [Hlen Hinv] Hstep.
  destruct Hstep as [l l' b l1 l2 E|l l' b l1 l2 E|l l' busy b l1 l2 E|l r|l r|l l1 l2
    |l l' b l1 l2 E|l l' b l1 l2 E|l l' busy b l1 l2 E|l l1 l2];
    (split; [cbn [snd] in *; rewrite ?length_app in *; cbn [length] in *; lia|]);
    cbn [fst snd] in *; rewrite ?length_app in Hlen; cbn [length] in Hlen;
    try (pose proof (rw_count_range RReader (l1 ++ l2)) as Hr; rewrite length_app in Hr;
         pose proof (rw_count_range RWriter (l1 ++ l2)));
    rewrite ?count_mid in *; cbn in Hinv;
    unfold rwlock_wrlock, rwlock_wrlock_retry, rwlock_trywrlock, rwlock_wrwait, rwlock_wrunwait,
      rwlock_wrunlock, rwlock_tryrdlock, rwlock_rdlock, rwlock_rdunlock in *.
  all: try destruct busy; repeat (zcase_in E || zcase); simpl in *; simplify_eq; simpl in *;
    rewrite ?s32_small by lia; try lia.
Qed.

(** The readers-writer lock admits one writer alone or any number of
    readers: in every interleaving of its critical sections a writer excludes
    every other holder, and the state word is -1 or the number of readers. *)
Theorem rwlock_exclusion (threads : nat) (s : rwstate)
    (Hthreads : Z.of_nat threads < 2 ^ 31)
    (Hrun : rtc rw_step (rwlock_init, replicate threads RNone) s) :
  rw_state s.1 = -1 /\ count RWriter s.2 = 1 /\ count RReader s.2 = 0 \/
  rw_state s.1 = count RReader s.2 /\ count RWriter s.2 = 0.
Proof.
  enough (rw_inv s) as [_ ?] by done.
  eapply (rtc_preserves rw_step rw_inv); [apply rw_inv_step|done|].
  split; cbn [fst snd]; [by rewrite length_replicate|]. right.
  assert (forall x, x <> RNone -> count x (replicate threads RNone) = 0) as Hc.
  { intros x Hx. unfold count. clear -Hx. induction threads as [|n IH]; [done|].
    simpl replicate. rewrite filter_cons, decide_False by done. done. }
  by rewrite !Hc.
Qed.

Lemma rwlock_exclusion_witness :
  let s := (Rwlock 1 1, [RReader; RWaitW]) in
  rw_state s.1 = -1 /\ count RWriter s.2 = 1 /\ count RReader s.2 = 0 \/
  rw_state s.1 = count RReader s.2 /\ count RWriter s.2 = 0.
Proof.
  apply (rwlock_exclusion 2 (Rwlock 1 1, [RReader; RWaitW])).
  - vm_compute. reflexivity.
  - eapply rtc_l; [apply (rw_rdlock _ (Rwlock 1 0) true [] [RNone]); reflexivity|].
    eapply rtc_l; [apply (rw_wrlock _ (Rwlock 1 1) false [RReader] []); reflexivity|].
    apply rtc_refl.
Defined.

(** ** Semaphores *)

Definition sema_init (val : Z) : Z := s32 (val - 1).
Definition sema_up (s : Z) : Z := s32 (s + 1).

(** [while (atomic_read(s) >= old) thread_yield()]: [others] are the values
    the semaphore has at the following reads, left there by other threads. *)
Fixpoint sema_wait (s old : Z) (others : list Z) : option Z :=
  if old <=? s then match others with [] => None | s :: others => sema_wait s old others end
  else Some s.
Definition sema_down (s : Z) (others : list Z) : option Z :=
  let old := s in
  let s := s32 (s - 1) in
  if 0 <=? old then Some s else sema_wait s old others.

(** [sema_down] is to wait when no resource is left, but its loop condition is
    inverted: it returns at once for every value of the counter. *)
Theorem sema_down_never_waits (s : Z) :
  - 2 ^ 31 < s < 2 ^ 31 -> sema_down s [] = Some (s - 1).
Proof.
  intros Hs. unfold sema_down. rewrite s32_small by lia. zcase; [done|].
  cbn [sema_wait]. zcase; [lia|done].
Qed.

(** ** Index semaphores *)

Fixpoint isema_scan (k : nat) (isema : list Z) (i : Z) : option (option Z * list Z) :=
  match k with
  | O => Some (None, isema)
  | S k =>
      old ← isema.[i]; isema ← isema.[i <- 1];
      if old =? 0 then Some (Some i, isema) else isema_scan k isema (i + 1)
  end.
(** [do { ... } while (index == 0)]. *)
Fixpoint isema_acquire (fuel : nat) (isema : list Z) (isema_n : Z) : option (Z * list Z) :=
  match fuel with
  | O => None
  | S fuel =>
      '(r, isema) ← isema_scan (Z.to_nat isema_n) isema 0;
      let index := default 0 r in
      if index =? 0 then isema_acquire fuel isema isema_n else Some (index, isema)
  end.
Definition isema_release (isema : list Z) (index : Z) : option (list Z) := isema.[index <- 0].

(** Index 0 doubles as the mark for no index: it is never returned, and a free
    slot 0 is taken and lost. *)
Theorem isema_never_zero (fuel : nat) (isema isema' : list Z) (n i : Z) :
  isema_acquire fuel isema n = Some (i, isema') -> i <> 0.
Proof.
  revert isema. induction fuel as [|fuel IH]; intros isema; cbn [isema_acquire]; [done|].
  destruct (isema_scan _ _ _) as [[r is1]|]; mstep; [|done]. zcase; [apply IH|].
  by intros [= <- <-].
Qed.
