(* ===== verification/Kobj.v ===== *)
(** * Reference-counted kernel objects: kern/kobj.c, include/kobj.h

    A [kobj] is shared by threads that run [kobj_ref], [kobj_unref] and
    [kobj_destroy] concurrently.  One step of the transition system is one
    atomic access outside of the fast lock, or the work done while the fast
    lock is held.  The state has two ghost counters: the references clients own
    and the number of times [ko_free] has been called. *)
From stdpp Require Import relations.
From S2P Require Import Prelude.

Definition KO_FLAG_DYING : Z := 1.

Record kobj := Kobj {
  ko_flags : Z;
  ko_fast_lock : Z;
  ko_refcount : Z;
  refs : Z;          (* references owned by clients *)
  freed : Z          (* calls of ko_free *)
}.

Definition kobj_init : kobj := Kobj 0 0 1 1 0.
Definition kobj_refcnt (k : kobj) : Z := ko_refcount k.

Definition set_fast_lock (k : kobj) (v : Z) : kobj :=
  Kobj (ko_flags k) v (ko_refcount k) (refs k) (freed k).
Definition take_ref (k : kobj) : kobj :=
  Kobj (ko_flags k) (ko_fast_lock k) (ko_refcount k) (refs k - 1) (freed k).
Definition set_dying (k : kobj) : kobj :=
  Kobj (Z.lor (ko_flags k) KO_FLAG_DYING) (ko_fast_lock k) (ko_refcount k) (refs k) (freed k).

(** The body of [kobj_ref] between [kobj_fast_lock] and [kobj_fast_unlock]. *)
Definition kobj_ref_body (k : kobj) : Z * kobj :=
  if negb (Z.land (ko_flags k) KO_FLAG_DYING =? 0) then (- EIDRM, k)
  else
    let prev := ko_refcount k in
    if prev <=? 0 then (- EIDRM, Kobj (ko_flags k) (ko_fast_lock k) (-1) (refs k) (freed k))
    else (0, Kobj (ko_flags k) (ko_fast_lock k) (s32 (prev + 1)) (refs k + 1) (freed k)).

(** The body of [kobj_unref]; the boolean asks for [kobj_fast_unlock]. *)
Definition kobj_unref_body (k : kobj) : bool * kobj :=
  let prev := ko_refcount k in
  if prev =? 1 then
    (false, Kobj (Z.lor (ko_flags k) KO_FLAG_DYING) (ko_fast_lock k) (-1) (refs k) (freed k + 1))
  else (true, Kobj (ko_flags k) (ko_fast_lock k) (s32 (prev - 1)) (refs k) (freed k)).

(** The calls without contention; [kobj_unref] returns true when it called
    [ko_free]. *)
Definition kobj_ref (k : kobj) : Z * kobj :=
  if ko_refcount k <=? 0 then (- EIDRM, k) else kobj_ref_body k.
Definition kobj_unref (k : kobj) : bool * kobj :=
  if ko_refcount k <=? 0 then (false, k)
  else let '(unlock, k) := kobj_unref_body k in (negb unlock, k).

Inductive kop := ORef | OUnref.
#[global] Instance kop_eq_dec : EqDecision kop.
Proof. solve_decision. Defined.

(** Where a thread is in [kobj_ref] or [kobj_unref]. *)
Inductive kpc :=
| KIdle
| KCheck (o : kop)     (* kobj_fast_lock, about to read the refcount *)
| KTas (o : kop)       (* kobj_fast_lock, saw it positive *)
| KCrit (o : kop)      (* holds the fast lock *)
| KUnlock.             (* about to release it *)

Definition kstate : Type := kobj * list kpc.

Inductive kobj_step : kstate -> kstate -> Prop :=
| k_ref k l1 l2 : kobj_step (k, l1 ++ KIdle :: l2) (k, l1 ++ KCheck ORef :: l2)
| k_unref k l1 l2 : 0 < refs k ->
    kobj_step (k, l1 ++ KIdle :: l2) (take_ref k, l1 ++ KCheck OUnref :: l2)
| k_destroy k l1 l2 : 0 < refs k ->
    kobj_step (k, l1 ++ KIdle :: l2) (take_ref (set_dying k), l1 ++ KCheck OUnref :: l2)
| k_alive k l1 l2 o : 0 < ko_refcount k ->
    kobj_step (k, l1 ++ KCheck o :: l2) (k, l1 ++ KTas o :: l2)
| k_dead k l1 l2 o : ko_refcount k <= 0 ->
    kobj_step (k, l1 ++ KCheck o :: l2) (k, l1 ++ KIdle :: l2)
| k_locked k l1 l2 o : ko_fast_lock k <> 1 ->
    kobj_step (k, l1 ++ KTas o :: l2) (set_fast_lock k 1, l1 ++ KCrit o :: l2)
| k_busy k l1 l2 o : kobj_step (k, l1 ++ KTas o :: l2) (k, l1 ++ KCheck o :: l2)
| k_ref_body k k' r l1 l2 : kobj_ref_body k = (r, k') ->
    kobj_step (k, l1 ++ KCrit ORef :: l2) (k', l1 ++ KUnlock :: l2)
| k_unref_body k k' b l1 l2 : kobj_unref_body k = (b, k') ->
    kobj_step (k, l1 ++ KCrit OUnref :: l2)
      (k', l1 ++ (if b : bool then KUnlock else KIdle) :: l2)
| k_unlock k l1 l2 :
    kobj_step (k, l1 ++ KUnlock :: l2) (set_fast_lock k 0, l1 ++ KIdle :: l2).

(** ** Invariant *)

Definition in_lock (p : kpc) : Z := match p with KCrit _ | KUnlock => 1 | _ => 0 end.
Definition in_unref (p : kpc) : Z :=
  match p with KCheck OUnref | KTas OUnref | KCrit OUnref => 1 | _ => 0 end.

Fixpoint total (f : kpc -> Z) (l : list kpc) : Z :=
  match l with [] => 0 | p :: l => f p + total f l end.

Lemma total_mid f l1 p l2 : total f (l1 ++ p :: l2) = f p + total f (l1 ++ l2).
Proof. induction l1; simpl; lia. Qed.

Lemma total_range f l : (forall p, 0 <= f p <= 1) -> 0 <= total f l <= Z.of_nat (length l).
Proof. intros Hf. induction l as [|p l IH]; cbn [total length]; [lia|]. pose proof (Hf p). lia. Qed.

Lemma in_lock_range p : 0 <= in_lock p <= 1.
Proof. by destruct p. Qed.
Lemma in_unref_range p : 0 <= in_unref p <= 1.
Proof. by destruct p as [|[]|[]|[]|]. Qed.

(** Alive: the count is the number of references, the lock word says whether a
    thread is inside.  Freed: the lock stays taken and nobody has a reference. *)
Definition kobj_inv (s : kstate) : Prop :=
  0 <= refs s.1 /\
  (freed s.1 = 0 /\ 0 < ko_refcount s.1 /\
     ko_refcount s.1 = refs s.1 + total in_unref s.2 /\
     ko_fast_lock s.1 = total in_lock s.2 \/
   freed s.1 = 1 /\ ko_refcount s.1 = -1 /\ refs s.1 = 0 /\ total in_unref s.2 = 0 /\
     ko_fast_lock s.1 = 1 /\ total in_lock s.2 = 0) /\
  total in_lock s.2 <= 1.

(** Steps during which the number of references stays in range. *)
Definition bounded_step (s s' : kstate) : Prop :=
  kobj_step s s' /\ refs s'.1 + Z.of_nat (length s'.2) < 2 ^ 31.

Lemma kobj_inv_step s s' : kobj_inv s -> bounded_step s s' -> kobj_inv s'.
Proof.
  intros (Hr & Hinv & Hl) [Hstep Hb].
  destruct Hstep as [k l1 l2|k l1 l2 ?|k l1 l2 ?|k l1 l2 o ?|k l1 l2 o ?|k l1 l2 o ?|k l1 l2 o
    |k k' r l1 l2 E|k k' b l1 l2 E|k l1 l2]; unfold kobj_inv; cbn [fst snd] in *;
    rewrite length_app in Hb; cbn [length] in Hb;
    rewrite !total_mid in *;
    pose proof (total_range in_lock (l1 ++ l2) in_lock_range);
    pose proof (total_range in_unref (l1 ++ l2) in_unref_range) as Hu;
    rewrite length_app in Hu;
    unfold kobj_ref_body, kobj_unref_body in *.
  all: try destruct o; repeat first [zcase_in E; cbn [negb] in E]; simplify_eq;
    cbn [in_lock in_unref take_ref set_dying set_fast_lock ko_flags ko_fast_lock ko_refcount
      refs freed] in *; rewrite ?s32_small in * by lia; lia.
Qed.

(** ** Claims *)

(** C36. In every interleaving of [kobj_ref], [kobj_unref] and [kobj_destroy]
    by clients that drop only references they own, [ko_free] is called at most
    once, and only when no reference is left; until then the reference count
    counts exactly the references. *)
Theorem kobj_free_once (threads : nat) (s : kstate)
    (Hthreads : Z.of_nat threads < 2 ^ 30)
    (Hrun : rtc bounded_step (kobj_init, replicate threads KIdle) s) :
  (freed s.1 = 0 /\ 0 < kobj_refcnt s.1 /\ kobj_refcnt s.1 = refs s.1 + total in_unref s.2) \/
  (freed s.1 = 1 /\ kobj_refcnt s.1 = -1 /\ refs s.1 = 0 /\ total in_unref s.2 = 0).
Proof.
  enough (kobj_inv s) as (_ & ? & _) by (unfold kobj_refcnt; intuition).
  assert (forall f, f KIdle = 0 -> total f (replicate threads KIdle) = 0) as H0.
  { intros f Hf. clear -Hf. induction threads; simpl; lia. }
  assert (kobj_inv (kobj_init, replicate threads KIdle)) as Hi.
  { unfold kobj_inv. cbn [fst snd]. rewrite !H0 by done. cbn. lia. }
  revert Hi. clear -Hrun. induction Hrun as [|a b c Hab _ IH]; [done|].
  intros Hi. apply IH. by eapply kobj_inv_step.
Qed.

Lemma kobj_free_once_witness :
  let s := (Kobj 1 1 (-1) 0 1, [KIdle]) in
  (freed s.1 = 0 /\ 0 < kobj_refcnt s.1 /\ kobj_refcnt s.1 = refs s.1 + total in_unref s.2) \/
  (freed s.1 = 1 /\ kobj_refcnt s.1 = -1 /\ refs s.1 = 0 /\ total in_unref s.2 = 0).
Proof.
  apply (kobj_free_once 1 (Kobj 1 1 (-1) 0 1, [KIdle])).
  - vm_compute. reflexivity.
  - eapply rtc_l; [split; [apply (k_destroy _ [] []); vm_compute; reflexivity|vm_compute; reflexivity]|].
    eapply rtc_l; [split; [apply (k_alive _ [] []); vm_compute; reflexivity|vm_compute; reflexivity]|].
    eapply rtc_l; [split; [apply (k_locked _ [] []); vm_compute; congruence|vm_compute; reflexivity]|].
    eapply rtc_l; [split; [apply (k_unref_body _ (Kobj 1 1 (-1) 0 1) false [] []); vm_compute; reflexivity|vm_compute; reflexivity]|].
    apply rtc_refl.
Defined.
