(* ===== verification/Regions.v ===== *)
(** * Memory regions: the interface between dynmem and its users

    [RegionAllocator] is what the kernel heap (kern/kmalloc.c) and the page
    allocator (kern/vralloc.c) ask of the provider of their memory, as both call
    [dynmem_alloc_region] and [dynmem_free_region]; the instance for
    kern/dynmem.c is proved from its refinement. *)
From S2P Require Import Prelude Bitmap Dynmem.

(** Sizes are in megabytes; [ra_rep] relates the state of the provider to its
    live regions.  An allocation is a new region that is disjoint from them; a
    live region can be given back. *)
Class RegionAllocator (D : Type) := {
  ra_alloc : D -> Z -> option (Z * D);
  ra_free : D -> Z -> option D;
  ra_rep : D -> gmap Z Z -> Prop;
  ra_alloc_spec : forall d L n, ra_rep d L -> 0 < n ->
    exists a d', ra_alloc d n = Some (a, d') /\
      (a = 0 /\ ra_rep d' L \/
       0 < a /\ a + n * 2 ^ 20 < 2 ^ 32 /\ ra_rep d' (<[a := n]> L) /\
       forall b k, L !! b = Some k -> b + k * 2 ^ 20 <= a \/ a + n * 2 ^ 20 <= b);
  ra_free_spec : forall d L a n, ra_rep d L -> L !! a = Some n ->
    exists d', ra_free d a = Some d' /\ ra_rep d' (delete a L)
}.

(** ** Dynmem provides the regions *)

Definition MMU_AP_RWNA : Z := 1.
Definition MMU_CTRL_MEMTYPE_WB : Z := Z.shiftl 3 5.

Section dynmem_provider.
Context `{DynmemConfigOk} (Hw : DYNMEM_MAPSIZE = 32).

Definition dyn_rep (d : dynmem) (L : gmap Z Z) : Prop :=
  exists A, represents A d /\
    forall a n, L !! a = Some n <->
      exists p R, A !! p = Some R /\ a = dindex2addr p /\ n = g_pages R /\ g_ref R = 1.

Lemma dyn_rep_insert A d L p R : represents (<[p := R]> A) d -> g_ref R = 1 ->
  (forall a n, L !! a = Some n <->
     exists p R, A !! p = Some R /\ a = dindex2addr p /\ n = g_pages R /\ g_ref R = 1) ->
  dyn_rep d (<[dindex2addr p := g_pages R]> L).
Proof.
  intros Hr H1 HL. exists (<[p := R]> A). split; [done|].
  assert (forall q R', <[p := R]> A !! q = Some R' -> addr2dindex (dindex2addr q) = q) as Hinj.
  { intros q R' Hq. destruct (rep_range _ _ Hr q R' Hq) as (? & ? & ? & _).
    apply addr_index. lia. }
  intros a n. destruct (decide (a = dindex2addr p)) as [->|Ha].
  - rewrite lookup_insert_eq. split.
    + intros [= <-]. exists p, R. by rewrite lookup_insert_eq.
    + intros (q & R' & Hq & E & -> & _). assert (q = p) as ->.
      { rewrite <-(Hinj q R' Hq), <-E. apply (Hinj p R). apply lookup_insert_eq. }
      rewrite lookup_insert_eq in Hq. congruence.
  - rewrite lookup_insert_ne by done. rewrite HL.
    split; intros (q & R' & Hq & -> & -> & ?); exists q, R'; split_and!; try done.
    + rewrite lookup_insert_ne; [done|]. by intros ->.
    + rewrite lookup_insert_ne in Hq; [done|]. by intros ->.
Qed.

Lemma dyn_alloc_spec d L n : dyn_rep d L -> 0 < n ->
  exists a d', dynmem_alloc_region d n MMU_AP_RWNA MMU_CTRL_MEMTYPE_WB = Some (a, d') /\
    (a = 0 /\ dyn_rep d' L \/
     0 < a /\ a + n * 2 ^ 20 < 2 ^ 32 /\ dyn_rep d' (<[a := n]> L) /\
     forall b k, L !! b = Some k -> b + k * 2 ^ 20 <= a \/ a + n * 2 ^ 20 <= b).
Proof.
  intros (A & Hrep & HL) Hn.
  pose proof (alloc_refines A d Hrep n MMU_AP_RWNA MMU_CTRL_MEMTYPE_WB Hn) as Ha.
  destruct (dynmem_alloc_region d n _ _) as [[a d']|]; [|done]. exists a, d'. split; [done|].
  destruct Ha as [[-> ->]|(p & -> & Hp & Hps & Hf & Hr & _)]; [left; split; [done|by exists A]|].
  right. specialize (Hr ltac:(lia)).
  assert (0 <= p < DYNMEM_MAPSIZE) as Hpr by lia.
  destruct (addr_index p Hpr) as (_ & Hpos & Eaddr & _). split; [done|].
  pose proof cfg_size. pose proof cfg_end. split_and!.
  - rewrite Eaddr. unfold DYNMEM_START, DYNMEM_PAGE_SIZE in *. lia.
  - by apply (dyn_rep_insert A d' L p) in Hr.
  - intros b k (q & R & Hq & -> & -> & _)%HL. destruct (rep_range _ _ Hrep q R Hq) as (? & ? & ? & _).
    destruct (addr_index q) as (_ & _ & -> & _); [lia|]. rewrite Eaddr. unfold DYNMEM_PAGE_SIZE.
    enough (q + g_pages R <= p \/ p + n <= q) by lia.
    destruct (decide (q + g_pages R <= p)); [by left|]. destruct (decide (p + n <= q)); [by right|].
    exfalso. apply (free_not_in_region A d Hrep (Z.max p q) q R); [apply Hf; lia|done|].
    unfold in_region. lia.
Qed.

Lemma dyn_free_spec d L a n : dyn_rep d L -> L !! a = Some n ->
  exists d', dynmem_free_region d a = Some d' /\ dyn_rep d' (delete a L).
Proof.
  intros (A & Hrep & HL) Ha. apply HL in Ha as (p & R & Hp & -> & -> & H1).
  destruct (free_refines A d Hrep p R Hp) as (d' & Hd & Hrep' & _). rewrite H1 in Hrep'. simpl in Hrep'.
  exists d'. split; [done|]. exists (delete p A). split; [done|].
  assert (forall q R', A !! q = Some R' -> addr2dindex (dindex2addr q) = q) as Hinj.
  { intros q R' Hq. destruct (rep_range _ _ Hrep q R' Hq) as (? & ? & ? & _). apply addr_index. lia. }
  intros b k. rewrite lookup_delete_Some, HL. split.
  - intros (Hne & q & R' & Hq & -> & -> & ?). exists q, R'. rewrite lookup_delete_ne; [done|congruence].
  - intros (q & R' & Hq & -> & -> & ?). apply lookup_delete_Some in Hq as [Hne Hq].
    split; [|eauto 10]. intros E. apply Hne. rewrite <-(Hinj p R Hp), <-(Hinj q R' Hq). by f_equal.
Qed.

Definition dynmem_provider : RegionAllocator dynmem := {|
  ra_alloc := fun d n => dynmem_alloc_region d n MMU_AP_RWNA MMU_CTRL_MEMTYPE_WB;
  ra_free := dynmem_free_region;
  ra_rep := dyn_rep;
  ra_alloc_spec := dyn_alloc_spec;
  ra_free_spec := dyn_free_spec
|}.
End dynmem_provider.

(** A configuration with 32 sections, whose bit map is one word. *)
Definition config32 : DynmemConfig :=
  {| configDYNMEM_START := 0x800000; configDYNMEM_SIZE := 0x2000000 |}.
Lemma config32_ok : @DynmemConfigOk config32.
Proof. by split. Qed.
Definition provider32 : RegionAllocator dynmem :=
  @dynmem_provider config32 config32_ok eq_refl.
