(* ===== verification/Kmalloc.v ===== *)
(** * Kernel heap: kern/kmalloc.c

    The heap is a doubly linked list of memory blocks, each a header followed by
    its data; headers are kept in a map from addresses, and the contents of the
    data areas are not modelled.  The regions come from an allocator that is
    used through the interface [RegionAllocator]; [Dynmem] implements it.
    Every entry point runs under the giant lock, so operations are sequential. *)
From S2P Require Import Prelude Mem Bitmap Dynmem Regions.

Definition KM_SIGNATURE_VALID : Z := 0xBAADF00D.
Definition KM_SIGNATURE_INVALID : Z := 0xDEADF00D.
Definition MBLOCK_SIZE : Z := 24.
Definition MB_TO_BYTES (v : Z) : Z := u32 (v * 1024 * 1024).
Definition get_mblock (p : Z) : Z := u32 (p - MBLOCK_SIZE).
Definition data (b : Z) : Z := b + MBLOCK_SIZE.

Record mblock := Mblock {
  signature : Z; size : Z; next : Z; prev : Z; refcount : Z; ptr : Z
}.
Definition set_signature (m : mblock) v := Mblock v (size m) (next m) (prev m) (refcount m) (ptr m).
Definition set_size (m : mblock) v := Mblock (signature m) v (next m) (prev m) (refcount m) (ptr m).
Definition set_next (m : mblock) v := Mblock (signature m) (size m) v (prev m) (refcount m) (ptr m).
Definition set_prev (m : mblock) v := Mblock (signature m) (size m) (next m) v (refcount m) (ptr m).
Definition set_ref (m : mblock) v := Mblock (signature m) (size m) (next m) (prev m) v (ptr m).

Record kmalloc_stat := KmallocStat {
  kms_mem_res : Z; kms_mem_max : Z; kms_mem_alloc : Z; kms_mem_alloc_max : Z
}.

Record km (D : Type) := Km {
  heap : gmap Z mblock; kmalloc_base : Z; stat : kmalloc_stat; dyn : D
}.
Arguments Km {D}. Arguments heap {D}. Arguments kmalloc_base {D}. Arguments stat {D}.
Arguments dyn {D}.

(** ** Code *)

Definition stat_res_up (s : kmalloc_stat) (amount : Z) : kmalloc_stat :=
  let act := u32 (kms_mem_res s + amount) in
  KmallocStat act (if kms_mem_max s <? act then act else kms_mem_max s)
    (kms_mem_alloc s) (kms_mem_alloc_max s).
(** [update_stat_up] and [update_stat_down] on the allocation counter. *)
Definition update_stat_up (s : kmalloc_stat) (amount : Z) : kmalloc_stat :=
  let act := u32 (kms_mem_alloc s + amount) in
  KmallocStat (kms_mem_res s) (kms_mem_max s) act
    (if kms_mem_alloc_max s <? act then act else kms_mem_alloc_max s).
Definition update_stat_down (s : kmalloc_stat) (amount : Z) : kmalloc_stat :=
  KmallocStat (kms_mem_res s) (kms_mem_max s) (u32 (kms_mem_alloc s - amount))
    (kms_mem_alloc_max s).

Section code.
Context {D : Type} `{RegionAllocator D}.
Implicit Types st : km D.

Definition set_heap st (h : gmap Z mblock) : km D := Km h (kmalloc_base st) (stat st) (dyn st).
Definition set_base st (b : Z) : km D := Km (heap st) b (stat st) (dyn st).
Definition set_stat st (s : kmalloc_stat) : km D := Km (heap st) (kmalloc_base st) s (dyn st).
Definition set_dyn st (d : D) : km D := Km (heap st) (kmalloc_base st) (stat st) d.

(** A fresh header in memory. *)
Definition new_mblock (b sz nx pv : Z) : mblock :=
  Mblock KM_SIGNATURE_VALID sz nx pv 0 (data b).

Definition extend st (last s : Z) : option (Z * km D) :=
  let s := u32 (s + MBLOCK_SIZE) in
  let s_mbytes := Z.shiftr s 20 + (if Z.land 0xfffff s =? 0 then 0 else 1) in
  '(b, d) ← ra_alloc (dyn st) s_mbytes;
  let st := set_dyn st d in
  if b =? 0 then Some (0, st)
  else
    let st := set_stat st (stat_res_up (stat st) (MB_TO_BYTES s_mbytes)) in
    let h := <[b := new_mblock b (u32 (s - MBLOCK_SIZE)) 0 last]> (heap st) in
    h ← (if negb (last =? 0) then m ← h !! last; Some (<[last := set_next m b]> h) else Some h);
    let memfree_b := u32 (MB_TO_BYTES s_mbytes - s) in
    h ← (if negb (memfree_b =? 0) then
           let bl := b + s in
           let h := <[bl := new_mblock bl (u32 (memfree_b - MBLOCK_SIZE)) 0 b]> h in
           m ← h !! b; Some (<[b := set_next m bl]> h)
         else Some h);
    Some (b, set_heap st h).

(** The found block (0: none) and the last block visited; a header without its
    data pointer ends the search. *)
Fixpoint find_mblock_loop (fuel : nat) (h : gmap Z mblock) (b last sz : Z) : option (Z * Z) :=
  match fuel with
  | O => None
  | S fuel =>
      m ← h !! b;
      if ptr m =? 0 then Some (0, last)
      else if (refcount m =? 0) && (sz <=? size m) then Some (b, b)
      else if next m =? 0 then Some (0, b)
      else find_mblock_loop fuel h (next m) b sz
  end.
Definition find_mblock st (last sz : Z) : option (Z * Z) :=
  find_mblock_loop (S (base.size (heap st))) (heap st) (kmalloc_base st) last sz.

Definition split_mblock (h : gmap Z mblock) (b s : Z) : option (gmap Z mblock) :=
  let nb := data b + s in
  m ← h !! b;
  let h := <[nb := new_mblock nb (u32 (size m - s - MBLOCK_SIZE)) (next m) b]> h in
  m ← h !! b;
  let h := <[b := set_next (set_size m s) nb]> h in
  n ← h !! nb;
  if negb (next n =? 0) then m' ← h !! next n; Some (<[next n := set_prev m' nb]> h)
  else Some h.

Definition merge (h : gmap Z mblock) (b : Z) : option (gmap Z mblock) :=
  m ← h !! b;
  if next m =? 0 then Some h
  else
    n ← h !! next m;
    if negb (refcount n =? 0) then Some h
    else if negb (data b + size m =? next m) then Some h
    else
      let h := <[next m := set_signature n KM_SIGNATURE_INVALID]> h in
      m ← h !! b;
      let h := <[b := set_next (set_size m (u32 (size m + MBLOCK_SIZE + size n))) (next n)]> h in
      if negb (next n =? 0) then m' ← h !! next n; Some (<[next n := set_prev m' b]> h)
      else Some h.

Definition valid_addr st (p : Z) : option bool :=
  if p =? 0 then Some false
  else if kmalloc_base st =? 0 then Some false
  else m ← heap st !! get_mblock p;
       Some ((p =? ptr m) && (signature m =? KM_SIGNATURE_VALID)).

(** The block [kmalloc] picks, 0 when there is no memory. *)
Definition kmalloc_block st (s : Z) : option (Z * km D) :=
  if negb (kmalloc_base st =? 0) then
    '(b, last) ← find_mblock st (kmalloc_base st) s;
    if negb (b =? 0) then
      m ← heap st !! b;
      if MBLOCK_SIZE + 4 <=? u32 (size m - s)
      then h ← split_mblock (heap st) b s; Some (b, set_heap st h)
      else Some (b, st)
    else extend st last s
  else
    '(b, st) ← extend st 0 s;
    Some (b, if b =? 0 then st else set_base st b).

(** The result is the data address. *)
Definition kmalloc st (sz : Z) : option (Z * km D) :=
  '(b, st) ← kmalloc_block st (memalign sz);
  if b =? 0 then Some (0, st)
  else
    m ← heap st !! b;
    let st := set_stat st (update_stat_up (stat st) (size m)) in
    Some (data b, set_heap st (<[b := set_ref m 1]> (heap st))).

Definition kfree st (p : Z) : option (km D) :=
  v ← valid_addr st p;
  if negb v then Some st
  else
    let b := get_mblock p in
    m ← heap st !! b;
    if refcount m <=? 0 then Some st
    else
      let st := set_heap st (<[b := set_ref m (refcount m - 1)]> (heap st)) in
      if 0 <? refcount m - 1 then Some st
      else
        let st := set_stat st (update_stat_down (stat st) (size m)) in
        '(b, st) ←
          (if prev m =? 0 then Some (b, st)
           else pm ← heap st !! prev m;
                if refcount pm =? 0
                then h ← merge (heap st) (prev m); Some (prev m, set_heap st h)
                else Some (b, st));
        m ← heap st !! b;
        if negb (next m =? 0) then h ← merge (heap st) b; Some (set_heap st h)
        else
          st ← (if negb (prev m =? 0)
                then pm ← heap st !! prev m;
                     Some (set_heap st (<[prev m := set_next pm 0]> (heap st)))
                else Some (set_base st 0));
          d ← ra_free (dyn st) b;
          Some (set_dyn st d).

Definition kpalloc st (p : Z) : option (Z * km D) :=
  v ← valid_addr st p;
  if (v : bool) then
    m ← heap st !! get_mblock p;
    Some (p, set_heap st (<[get_mblock p := set_ref m (s32 (refcount m + 1))]> (heap st)))
  else Some (p, st).

(** Growing into a new block also copies the data, which is not modelled. *)
Definition krealloc_new st (p s : Z) : option (Z * km D) :=
  '(np, st) ← kmalloc st s;
  if np =? 0 then Some (0, st) else st ← kfree st p; Some (np, st).

Definition krealloc st (p sz : Z) : option (Z * km D) :=
  if p =? 0 then kmalloc st sz
  else
    v ← valid_addr st p;
    if negb v then Some (0, st)
    else
      let s := memalign sz in
      let b := get_mblock p in
      m ← heap st !! b;
      if s <=? size m then
        if MBLOCK_SIZE + 4 <=? u32 (size m - s)
        then h ← split_mblock (heap st) b s; Some (p, set_heap st h)
        else Some (p, st)
      else
        fits ← (if next m =? 0 then Some false
                else n ← heap st !! next m;
                     Some ((refcount n =? 0) && (s <=? u32 (size m + MBLOCK_SIZE + size n))));
        if (fits : bool) then
          h ← merge (heap st) b;
          m' ← h !! b;
          if size m' <? s then krealloc_new (set_heap st h) p s
          else
            let st := set_stat (set_heap st h) (update_stat_down (stat st) (size m)) in
            h ← (if MBLOCK_SIZE + 4 <=? u32 (size m' - s) then split_mblock h b s else Some h);
            m' ← h !! b;
            Some (p, set_stat (set_heap st h) (update_stat_up (stat st) (size m')))
        else krealloc_new st p s.
End code.

(** ** The list of blocks *)

Record blk := Blk { ba : Z; bsz : Z; bref : Z }.
Definition hdr (b : blk) (pv nx : Z) : mblock :=
  Mblock KM_SIGNATURE_VALID (bsz b) nx pv (bref b) (data (ba b)).

Definition first (bs : list blk) (nx : Z) : Z := match bs with [] => nx | b :: _ => ba b end.
Fixpoint last_of (pv : Z) (bs : list blk) : Z :=
  match bs with [] => pv | b :: bs => last_of (ba b) bs end.

(** [seg h pv bs nx]: the headers of [bs] are linked in this order, between the
    block [pv] before them and the block [nx] after them. *)
Fixpoint seg (h : gmap Z mblock) (pv : Z) (bs : list blk) (nx : Z) : Prop :=
  match bs with
  | [] => True
  | b :: bs => h !! ba b = Some (hdr b pv (first bs nx)) /\ seg h (ba b) bs nx
  end.

Definition bend (b : blk) : Z := ba b + MBLOCK_SIZE + bsz b.
Definition apart (b c : blk) : Prop := bend b <= ba c \/ bend c <= ba b.

(** A block lies in live regions; the ones that are adjacent in memory may
    share a block. *)
Definition blk_ok (L : gmap Z Z) (b : blk) : Prop :=
  0 < ba b /\ 0 <= bsz b /\ 0 <= bref b /\ bend b < 2 ^ 32 /\
  forall x, ba b <= x < bend b -> exists a n, L !! a = Some n /\ a <= x < a + n * 2 ^ 20.

Fixpoint pairwise (bs : list blk) : Prop :=
  match bs with [] => True | b :: bs => Forall (apart b) bs /\ pairwise bs end.

Lemma seg_app h pv l1 l2 nx :
  seg h pv (l1 ++ l2) nx <-> seg h pv l1 (first l2 nx) /\ seg h (last_of pv l1) l2 nx.
Proof.
  revert pv. induction l1 as [|b l1 IH]; intros pv; simpl; [tauto|]. rewrite IH.
  assert (first (l1 ++ l2) nx = first l1 (first l2 nx)) as -> by by destruct l1. tauto.
Qed.

Lemma pairwise_app l1 l2 : pairwise (l1 ++ l2) <->
  pairwise l1 /\ pairwise l2 /\ forall b c, b ∈ l1 -> c ∈ l2 -> apart b c.
Proof.
  induction l1 as [|x l1 IH]; simpl.
  - split; [|tauto]. intros. split_and!; try done. by intros ?? ?%elem_of_nil.
  - rewrite Forall_app, IH, !Forall_forall. setoid_rewrite elem_of_cons. split.
    + intros ([Ha Hb] & ? & ? & Hc). split_and!; try done. intros b c [->|?] ?; eauto.
    + intros ([Ha ?] & ? & Hc). split_and!; try done; eauto.
Qed.

Lemma apart_sym b c : apart b c -> apart c b.
Proof. unfold apart. tauto. Qed.

(** Headers of disjoint blocks are at different addresses. *)
Lemma apart_ne b c : apart b c -> 0 <= bsz b -> 0 <= bsz c -> ba b <> ba c.
Proof. unfold apart, bend, MBLOCK_SIZE. lia. Qed.

Lemma seg_frame h h' pv bs nx :
  seg h pv bs nx -> (forall b, b ∈ bs -> h' !! ba b = h !! ba b) -> seg h' pv bs nx.
Proof.
  revert pv. induction bs as [|b bs IH]; intros pv; simpl; [done|]. intros [Hb Hs] Hf. split.
  - rewrite Hf; [done|]. by left.
  - apply IH; [done|]. intros c Hc. apply Hf. by right.
Qed.

Lemma last_snoc pv l1 b : last_of pv (l1 ++ [b]) = ba b.
Proof. revert pv. induction l1; intros; simpl; auto. Qed.

Lemma seg_lookup h pv l1 b l2 nx : seg h pv (l1 ++ b :: l2) nx ->
  h !! ba b = Some (hdr b (last_of pv l1) (first l2 nx)).
Proof. rewrite seg_app. intros [_ [? _]]. done. Qed.

(** ** Splitting and merging on the list *)

Definition blocks (L : gmap Z Z) (bs : list blk) : Prop := Forall (blk_ok L) bs /\ pairwise bs.

Lemma blocks_mid L l1 b l2 : blocks L (l1 ++ b :: l2) ->
  blocks L (l1 ++ l2) /\ blk_ok L b /\ forall c, c ∈ l1 ++ l2 -> apart b c.
Proof.
  intros [[HF1 [Hb HF2]%Forall_cons]%Forall_app Hp]. apply pairwise_app in Hp as (Hp1 & Hp2 & Hx).
  simpl in Hp2. destruct Hp2 as [Hb2 Hp2]. rewrite Forall_forall in Hb2. split; [split|split].
  - by apply Forall_app.
  - apply pairwise_app. split_and!; try done. intros c d Hc Hd. apply Hx; [done|]. by right.
  - done.
  - intros c [Hc|Hc]%elem_of_app; [|by apply Hb2]. apply apart_sym, Hx; [done|]. by left.
Qed.

(** Inserting a block at a position of the list. *)
Lemma blocks_insert L l1 b l2 : blocks L (l1 ++ l2) -> blk_ok L b ->
  (forall c, c ∈ l1 ++ l2 -> apart b c) -> blocks L (l1 ++ b :: l2).
Proof.
  intros [[HF1 HF2]%Forall_app (Hp1 & Hp2 & Hx)%pairwise_app] Hb Ha. split.
  - apply Forall_app. split; [done|]. by constructor.
  - apply pairwise_app. split_and!; [done| |].
    + simpl. split; [|done]. apply Forall_forall. intros c Hc. apply Ha, elem_of_app. by right.
    + intros c d Hc [->|Hd]%elem_of_cons; [|by apply Hx].
      apply apart_sym, Ha, elem_of_app. by left.
Qed.

Lemma blocks_ok L bs c : blocks L bs -> c ∈ bs -> blk_ok L c.
Proof. intros [HF _] Hc. rewrite Forall_forall in HF. auto. Qed.

(** No header of another block is inside a block. *)
Lemma outside L b c x : blk_ok L c -> apart b c -> ba b <= x < bend b -> ba c <> x.
Proof.
  intros (_ & ? & _) Ha Hx. unfold apart, bend, MBLOCK_SIZE in *. lia.
Qed.

Lemma seg_relink h h' pv pv' bs nx :
  seg h pv bs nx ->
  match bs with
  | [] => True
  | c :: bs => h' !! ba c = Some (hdr c pv' (first bs nx)) /\
               forall d, d ∈ bs -> h' !! ba d = h !! ba d
  end -> seg h' pv' bs nx.
Proof.
  destruct bs as [|c bs]; simpl; [done|]. intros [_ Hs] [Hc Hf]. split; [done|].
  by eapply seg_frame.
Qed.

(** Replacing the middle of the list, whose first block keeps its address. *)
Lemma seg_replace h h' l1 mid mid' l2 :
  seg h 0 (l1 ++ mid ++ l2) 0 -> first (mid' ++ l2) 0 = first (mid ++ l2) 0 ->
  (forall c, c ∈ l1 -> h' !! ba c = h !! ba c) ->
  seg h' (last_of 0 l1) mid' (first l2 0) ->
  match l2 with
  | [] => True
  | c :: l3 => h' !! ba c = Some (hdr c (last_of (last_of 0 l1) mid') (first l3 0)) /\
               forall d, d ∈ l3 -> h' !! ba d = h !! ba d
  end -> seg h' 0 (l1 ++ mid' ++ l2) 0.
Proof.
  rewrite !seg_app. intros (H1 & _ & H2) Hfirst Hl1 Hmid Hl2. split; [|split; [done|]].
  - rewrite Hfirst. by eapply seg_frame.
  - eapply seg_relink; [done|]. by destruct l2.
Qed.

Lemma first_ok L l2 : Forall (blk_ok L) l2 ->
  (l2 = [] /\ first l2 0 = 0) \/ exists c l3, l2 = c :: l3 /\ first l2 0 = ba c /\ 0 < ba c.
Proof.
  destruct 1 as [|c l3 Hc]; [by left|]. right. exists c, l3. split_and!; try done. apply Hc.
Qed.

Section list_ops.
Context (L : gmap Z Z) (h : gmap Z mblock) (l1 l2 : list blk) (b : blk).
Context (Hseg : seg h 0 (l1 ++ b :: l2) 0) (Hbs : blocks L (l1 ++ b :: l2)).

(** The map agrees outside of [b] and the head of [l2]. *)
Lemma others_ne x c : ba b <= x < bend b -> c ∈ l1 ++ l2 -> ba c <> x.
Proof.
  intros Hx Hc. destruct (blocks_mid _ _ _ _ Hbs) as (Hrest & _ & Ha).
  eapply outside; [by eapply blocks_ok|by apply Ha|done].
Qed.

Lemma head_ne c l3 d : l2 = c :: l3 -> d ∈ l1 \/ d ∈ l3 -> ba d <> ba c.
Proof.
  intros -> Hd. destruct (blocks_mid _ _ _ _ Hbs) as (Hrest & _ & _).
  destruct (blocks_mid _ _ _ _ Hrest) as (Hr2 & Hc & Ha).
  assert (d ∈ l1 ++ l3) as Hin by (apply elem_of_app; tauto).
  intros E. eapply (outside L c d (ba c)); [by eapply blocks_ok|by apply Ha| |done].
  destruct Hc as (_ & ? & _). unfold bend, MBLOCK_SIZE. lia.
Qed.

(** The headers [split_mblock] writes. *)
Lemma split_heap s : 0 <= s -> s + MBLOCK_SIZE <= bsz b ->
  let b' := Blk (ba b) s (bref b) in
  let nb := Blk (data (ba b) + s) (bsz b - s - MBLOCK_SIZE) 0 in
  exists h', split_mblock h (ba b) s = Some h' /\
    (forall c, c ∈ l1 -> h' !! ba c = h !! ba c) /\
    h' !! ba b = Some (hdr b' (last_of 0 l1) (ba nb)) /\
    h' !! ba nb = Some (hdr nb (ba b) (first l2 0)) /\
    match l2 with
    | [] => True
    | c :: l3 => h' !! ba c = Some (hdr c (ba nb) (first l3 0)) /\
                 forall d, d ∈ l3 -> h' !! ba d = h !! ba d
    end.
Proof.
  intros Hs0 Hs b' nb. destruct (blocks_mid _ _ _ _ Hbs) as (_ & (Hb0 & Hb1 & _ & Hhi & _) & _).
  unfold bend, MBLOCK_SIZE in *. pose proof (seg_lookup _ _ _ _ _ _ Hseg) as Hl.
  assert (ba nb <> ba b /\ ba b <= ba nb < ba b + 24 + bsz b) as [Hnb Hnbr]
    by (simpl; unfold data, MBLOCK_SIZE; lia).
  assert (forall c, c ∈ l1 ++ l2 -> ba c <> ba b /\ ba c <> ba nb) as Hcne.
  { intros c Hc. split; (eapply others_ne; [unfold bend, MBLOCK_SIZE; lia|done]). }
  unfold split_mblock. rewrite Hl. mstep. change (data (ba b) + s) with (ba nb).
  rewrite lookup_insert_ne, Hl by done. mstep.
  rewrite lookup_insert_ne, lookup_insert_eq by done. mstep. cbn [next new_mblock hdr size].
  assert (u32 (bsz b - s - MBLOCK_SIZE) = bsz nb) as -> by (simpl; apply u32_small;
    unfold MBLOCK_SIZE; lia).
  destruct (first_ok L l2) as [[-> ->]|(c & l3 & E & -> & Hc0)].
  { destruct Hbs as [HF _]. by apply Forall_app in HF as [_ [_ ?]%Forall_cons]. }
  - simpl. eexists. split; [done|]. split_and!; try done.
    + intros c Hc. destruct (Hcne c) as [??]; [apply elem_of_app; by left|].
      by rewrite !lookup_insert_ne by done.
    + by rewrite lookup_insert_eq.
    + by rewrite lookup_insert_ne, lookup_insert_eq by done.
  - destruct (Z.eqb_spec (ba c) 0); [lia|]. cbn [negb].
    destruct (Hcne c) as [Hcb Hcn]; [rewrite E; apply elem_of_app; right; by left|].
    assert (h !! ba c = Some (hdr c (ba b) (first l3 0))) as Hlc.
    { pose proof Hseg as Hs'. rewrite E in Hs'.
      change (l1 ++ b :: c :: l3) with (l1 ++ [b] ++ c :: l3) in Hs'. rewrite app_assoc in Hs'.
      apply seg_lookup in Hs'. by rewrite last_snoc in Hs'. }
    rewrite !lookup_insert_ne, Hlc by done. mstep. eexists. split; [done|]. rewrite E.
    split_and!.
    + intros d Hd. destruct (Hcne d) as [??]; [apply elem_of_app; by left|].
      assert (ba d <> ba c) by (eapply head_ne; eauto). by rewrite !lookup_insert_ne by done.
    + by rewrite lookup_insert_ne, lookup_insert_eq by done.
    + by rewrite !lookup_insert_ne, lookup_insert_eq by done.
    + by rewrite lookup_insert_eq.
    + intros d Hd. destruct (Hcne d) as [??]; [rewrite E; apply elem_of_app; right; by right|].
      assert (ba d <> ba c) by (eapply head_ne; eauto). by rewrite !lookup_insert_ne by done.
Qed.

Lemma split_spec s : 0 <= s -> s + MBLOCK_SIZE <= bsz b ->
  let b' := Blk (ba b) s (bref b) in
  let nb := Blk (data (ba b) + s) (bsz b - s - MBLOCK_SIZE) 0 in
  exists h', split_mblock h (ba b) s = Some h' /\
    seg h' 0 (l1 ++ b' :: nb :: l2) 0 /\ blocks L (l1 ++ b' :: nb :: l2).
Proof.
  intros Hs0 Hs b' nb. destruct (blocks_mid _ _ _ _ Hbs) as (Hrest & Hb & Ha).
  pose proof Hb as (Hb0 & Hb1 & Hb2 & Hhi & HL).
  destruct (split_heap s Hs0 Hs) as (h' & Hsp & H1 & H2 & H3 & H4).
  unfold bend, MBLOCK_SIZE in *.
  exists h'. split; [done|]. split.
  - apply (seg_replace h h' l1 [b] [b'; nb] l2); try done.
  - apply (blocks_insert L l1 b'); [apply (blocks_insert L l1 nb)|..].
    + done.
    + subst nb. unfold blk_ok, bend, data, MBLOCK_SIZE. simpl. split_and!; try lia.
      intros x Hx. apply HL. lia.
    + intros c Hc. specialize (Ha c Hc). unfold apart, bend, data, MBLOCK_SIZE in *. simpl. lia.
    + subst b'. unfold blk_ok, bend, MBLOCK_SIZE. simpl. split_and!; try lia.
      intros x Hx. apply HL. lia.
    + intros c Hc. assert (c = nb \/ c ∈ l1 ++ l2) as [->|Hc'].
      { rewrite elem_of_app, elem_of_cons in Hc. rewrite elem_of_app. tauto. }
      * left. simpl. unfold bend, data, MBLOCK_SIZE. simpl. lia.
      * specialize (Ha c Hc'). unfold apart, bend, data, MBLOCK_SIZE in *. simpl. lia.
Qed.

(** [merge] joins [b] with the next block when that one is free and follows it
    in memory, and does nothing otherwise. *)
Definition joined (c : blk) : blk := Blk (ba b) (bsz b + MBLOCK_SIZE + bsz c) (bref b).

Lemma merge_heap c l3 : l2 = c :: l3 -> bref c = 0 -> data (ba b) + bsz b = ba c ->
  exists h', merge h (ba b) = Some h' /\
    (forall d, d ∈ l1 -> h' !! ba d = h !! ba d) /\
    h' !! ba b = Some (hdr (joined c) (last_of 0 l1) (first l3 0)) /\
    match l3 with
    | [] => True
    | e :: l4 => h' !! ba e = Some (hdr e (ba b) (first l4 0)) /\
                 forall d, d ∈ l4 -> h' !! ba d = h !! ba d
    end.
Proof.
  intros E Hfree Hcont. pose proof (seg_lookup _ _ _ _ _ _ Hseg) as Hl.
  assert (forall d, d ∈ l1 ++ l2 -> ba d <> ba b) as Hnb.
  { intros d Hd. apply others_ne; [|done]. destruct (blocks_mid _ _ _ _ Hbs) as (_ & (_ & ? & _) & _).
    unfold bend, MBLOCK_SIZE. lia. }
  assert (forall d, d ∈ l1 \/ d ∈ l3 -> ba d <> ba c) as Hnc by (intros; by eapply head_ne).
  destruct (blocks_mid _ _ _ _ Hbs) as (Hrest & Hb & _). rewrite E in Hrest.
  destruct (blocks_mid _ _ _ _ Hrest) as (Hr2 & Hc & _).
  assert (ba c <> ba b) as Hcb by (apply Hnb; rewrite E; apply elem_of_app; right; by left).
  assert (seg h (ba b) (c :: l3) 0) as [Hlc Hs3].
  { pose proof Hseg as Hs'. rewrite seg_app, E in Hs'. apply Hs'. }
  pose proof Hb as (_ & ? & _). destruct Hc as (? & ? & _ & ? & _).
  pose proof Hb as (? & _).
  unfold merge. rewrite Hl, E. mstep. cbn [next hdr first size].
  destruct (Z.eqb_spec (ba c) 0); [lia|]. rewrite Hlc. mstep. cbn [refcount hdr].
  rewrite Hfree, Hcont, !Z.eqb_refl. cbn [negb next size hdr].
  rewrite lookup_insert_ne, Hl by done. mstep. cbn [size hdr].
  rewrite u32_small by (unfold bend, data, MBLOCK_SIZE in *; lia).
  destruct (first_ok L l3) as [[-> ->]|(e & l4 & -> & -> & He0)].
  { destruct Hr2 as [HF _]. by apply Forall_app in HF as [_ ?]. }
  - simpl. eexists. split; [done|]. split_and!; try done.
    + intros d Hd. rewrite !lookup_insert_ne; [done|..]; apply not_eq_sym;
        [apply Hnc; by left|apply Hnb, elem_of_app; by left].
    + by rewrite lookup_insert_eq.
  - destruct (Z.eqb_spec (ba e) 0); [lia|]. cbn [negb].
    assert (ba e <> ba b) by (apply Hnb; rewrite E; set_solver).
    assert (ba e <> ba c) by (apply Hnc; set_solver).
    destruct Hs3 as [Hle _]. rewrite !lookup_insert_ne, Hle by done. mstep.
    assert (forall d, d ∈ l1 \/ d ∈ l4 -> ba d <> ba e) as Hne.
    { intros d Hd. destruct (blocks_mid L l1 e l4 Hr2) as (Hr3 & He & Ha).
      intros E'. assert (d ∈ l1 ++ l4) as Hin by (apply elem_of_app; tauto).
      eapply (outside L e d (ba e)); [by eapply blocks_ok|by apply Ha| |done].
      destruct He as (_ & ? & _). unfold bend, MBLOCK_SIZE. lia. }
    eexists. split; [done|]. split_and!.
    + intros d Hd. rewrite !lookup_insert_ne; [done|..]; apply not_eq_sym;
        [apply Hnc|apply Hnb|apply Hne]; set_solver.
    + by rewrite lookup_insert_ne, lookup_insert_eq by done.
    + by rewrite lookup_insert_eq.
    + intros d Hd. rewrite !lookup_insert_ne; [done|..]; apply not_eq_sym;
        [apply Hnc|apply Hnb|apply Hne]; rewrite ?E; set_solver.
Qed.

Lemma merge_spec : exists h' bs', merge h (ba b) = Some h' /\
  seg h' 0 bs' 0 /\ blocks L bs' /\
  (h' = h /\ bs' = l1 ++ b :: l2 \/
   exists c l3, l2 = c :: l3 /\ bref c = 0 /\ bs' = l1 ++ joined c :: l3).
Proof.
  pose proof (seg_lookup _ _ _ _ _ _ Hseg) as Hl.
  assert ((exists c l3, l2 = c :: l3 /\ bref c = 0 /\ data (ba b) + bsz b = ba c) \/
    merge h (ba b) = Some h) as [(c & l3 & E & Hf & Hcont)|Hno].
  { unfold merge. rewrite Hl. mstep. cbn [next hdr size].
    destruct (first_ok L l2) as [[-> ->]|(c & l3 & E & -> & Hc0)]; [|by right|].
    { destruct Hbs as [HF _]. by apply Forall_app in HF as [_ [_ ?]%Forall_cons]. }
    assert (h !! ba c = Some (hdr c (ba b) (first l3 0))) as Hlc.
    { pose proof Hseg as Hs'. rewrite seg_app, E in Hs'. apply Hs'. }
    destruct (Z.eqb_spec (ba c) 0); [lia|]. rewrite Hlc. mstep. cbn [refcount hdr].
    destruct (Z.eqb_spec (bref c) 0); [|by right].
    destruct (Z.eqb_spec (data (ba b) + bsz b) (ba c)); [left; by eauto|by right]. }
  - destruct (merge_heap c l3 E Hf Hcont) as (h' & Hm & H1 & H2 & H3).
    exists h', (l1 ++ joined c :: l3). split; [done|]. split; [|split]; [..|by eauto 10].
    + apply (seg_replace h h' l1 [b; c] [joined c] l3); try done. by rewrite E in Hseg.
    + destruct (blocks_mid _ _ _ _ Hbs) as (Hrest & Hb & Ha). rewrite E in Hrest, Ha.
      destruct (blocks_mid _ _ _ _ Hrest) as (Hr2 & Hc & Hac).
      apply blocks_insert; [done|..].
      * destruct Hb as (? & ? & ? & ? & HLb), Hc as (_ & ? & _ & ? & HLc).
        unfold blk_ok, bend, joined, data, MBLOCK_SIZE in *. simpl. split_and!; try lia.
        intros x Hx. destruct (decide (x < ba c)); [apply HLb|apply HLc]; lia.
      * intros d Hd. assert (apart b d) as Hbd by (apply Ha; set_solver).
        specialize (Hac d Hd). pose proof (blocks_ok _ _ _ Hr2 Hd) as (_ & ? & _).
        unfold apart, bend, joined, data, MBLOCK_SIZE in *. simpl. lia.
  - exists h, (l1 ++ b :: l2). split_and!; try done. by left.
Qed.
End list_ops.

(** ** Searching *)

Lemma find_block_spec h L fuel pv last sz bs : seg h pv bs 0 -> Forall (blk_ok L) bs ->
  bs <> [] -> (length bs <= fuel)%nat ->
  (exists l1 b l2, bs = l1 ++ b :: l2 /\ bref b = 0 /\ sz <= bsz b /\
     find_mblock_loop fuel h (first bs 0) last sz = Some (ba b, ba b)) \/
  find_mblock_loop fuel h (first bs 0) last sz = Some (0, last_of last bs).
Proof.
  revert pv last bs. induction fuel as [|fuel IH]; intros pv last [|b bs] Hs HF Hne Hlen;
    simpl in Hlen; try done; [lia|].
  destruct Hs as [Hb Hs]. apply Forall_cons in HF as [Hok HF].
  cbn [find_mblock_loop first]. rewrite Hb. mstep. cbn [ptr refcount size next hdr].
  destruct Hok as (? & ? & _). destruct (Z.eqb_spec (data (ba b)) 0).
  { unfold data, MBLOCK_SIZE in *. lia. }
  destruct (Z.eqb_spec (bref b) 0), (Z.leb_spec sz (bsz b)); simpl;
    try (left; exists [], b, bs; by split_and!).
  all: destruct (first_ok L bs HF) as [[-> ->]|(c & l3 & -> & Hf & Hc0)]; [by right|];
    rewrite Hf; destruct (Z.eqb_spec (ba c) 0); [lia|];
    rewrite <-Hf; destruct (IH (ba b) (ba b) (c :: l3) Hs HF) as
      [(l1 & d & l2 & E & ? & ? & ->)| ->]; try (simpl in *; done || lia);
    [left; exists (b :: l1), d, l2; rewrite E; by split_and!|by right].
Qed.

Lemma seg_subset h pv bs nx : seg h pv bs nx -> forall b, b ∈ bs -> is_Some (h !! ba b).
Proof.
  revert pv. induction bs as [|c bs IH]; intros pv Hs b Hb; [by apply elem_of_nil in Hb|].
  destruct Hs as [Hc Hs]. apply elem_of_cons in Hb as [->|Hb]; eauto.
Qed.

Lemma blocks_addr L bs : blocks L bs -> NoDup (ba <$> bs).
Proof.
  intros [HF Hp]. induction bs as [|b bs IH]; [by constructor|].
  apply Forall_cons in HF as [Hb HF]. destruct Hp as [Ha Hp]. constructor; [|by apply IH].
  intros (c & E & Hc)%list_elem_of_fmap. rewrite Forall_forall in Ha, HF.
  apply (apart_ne b c); [by apply Ha|apply Hb|by apply HF|done].
Qed.

(** The number of headers bounds the length of the list. *)
Lemma seg_length h L bs : seg h 0 bs 0 -> blocks L bs -> (length bs <= base.size h)%nat.
Proof.
  intros Hs Hb. rewrite <-(length_fmap ba bs), <-size_dom.
  rewrite <-(size_list_to_set (C := gset Z) (ba <$> bs)); [|by eapply blocks_addr].
  apply subseteq_size. intros x (b & -> & Hin)%elem_of_list_to_set%list_elem_of_fmap.
  by apply elem_of_dom, (seg_subset h 0 bs 0).
Qed.

(** ** Extending the heap *)

(** Sizes for which the rest of the new region is empty or has room for a
    header; [extend] computes with them without wrapping around. *)
Definition good_size (s : Z) : Prop :=
  0 <= s /\ s + MBLOCK_SIZE <= 2 ^ 32 - 2 ^ 20 /\
  ((s + MBLOCK_SIZE) mod 2 ^ 20 = 0 \/ (s + MBLOCK_SIZE) mod 2 ^ 20 + MBLOCK_SIZE <= 2 ^ 20).
#[export] Instance good_size_dec s : Decision (good_size s).
Proof. unfold good_size. apply _. Defined.

Definition s_mbytes (s : Z) : Z :=
  Z.shiftr s 20 + (if Z.land 0xfffff s =? 0 then 0 else 1).

Lemma s_mbytes_spec s : 0 <= s <= 2 ^ 32 - 2 ^ 20 ->
  s <= s_mbytes s * 2 ^ 20 /\ s_mbytes s * 2 ^ 20 < 2 ^ 32 /\ (0 < s -> 0 < s_mbytes s) /\
  s_mbytes s * 2 ^ 20 - s = (if s mod 2 ^ 20 =? 0 then 0 else 2 ^ 20 - s mod 2 ^ 20).
Proof.
  intros Hs. unfold s_mbytes. rewrite Z.shiftr_div_pow2, Z.land_comm by lia.
  change 0xfffff with (Z.ones 20). rewrite Z.land_ones by lia.
  zcase; dlia.
Qed.

(** A region that is disjoint from the live ones is apart from every block. *)
Lemma blk_ok_region L a n b : blk_ok L b -> 0 < n ->
  (forall c k, L !! c = Some k -> c + k * 2 ^ 20 <= a \/ a + n * 2 ^ 20 <= c) ->
  apart (Blk a (n * 2 ^ 20 - MBLOCK_SIZE) 0) b /\ blk_ok (<[a := n]> L) b.
Proof.
  intros (H1 & H2 & H3 & H4 & H5) Hn Hd. split.
  - unfold apart, bend, MBLOCK_SIZE in *. simpl.
    destruct (decide (a + 24 + (n * 2 ^ 20 - 24) <= ba b)); [by left|].
    destruct (decide (ba b + 24 + bsz b <= a)); [by right|].
    destruct (H5 (Z.max a (ba b))) as (c & k & Hc & ?); [lia|]. destruct (Hd c k Hc); lia.
  - split_and!; try done. intros x Hx. destruct (H5 x Hx) as (c & k & Hc & ?). exists c, k.
    split; [|done]. rewrite lookup_insert_ne; [done|]. intros <-. destruct (Hd a k Hc); lia.
Qed.

(** A free block inside of the new region. *)
Lemma region_block L a n (bs : list blk) b : 0 < a -> 0 < n -> a + n * 2 ^ 20 < 2 ^ 32 ->
  (forall c, c ∈ bs -> apart (Blk a (n * 2 ^ 20 - MBLOCK_SIZE) 0) c) ->
  a <= ba b -> 0 <= bsz b -> bref b = 0 -> bend b <= a + n * 2 ^ 20 ->
  blk_ok (<[a := n]> L) b /\ forall c, c ∈ bs -> apart b c.
Proof.
  intros Ha Hn Hmax Hap Hb1 Hb2 Hb3 Hb4. split.
  - split_and!; try lia. intros x Hx. exists a, n. rewrite lookup_insert_eq. split; [done|lia].
  - intros c [Hx|Hx]%Hap; unfold apart, bend, MBLOCK_SIZE in *; simpl in Hx; lia.
Qed.

Definition free_tail (tl : list blk) : Prop := Forall (fun b => bref b = 0) tl.

(** The rest of the new region becomes a free block. *)
Lemma extend_rest h L bs a s n : seg h 0 bs a -> blocks (<[a := n]> L) bs ->
  h !! a = Some (hdr (Blk a s 0) (last_of 0 bs) 0) -> 0 < a -> 0 < n -> 0 <= s ->
  a + n * 2 ^ 20 < 2 ^ 32 ->
  (forall c, c ∈ bs -> apart (Blk a (n * 2 ^ 20 - MBLOCK_SIZE) 0) c) ->
  let f := n * 2 ^ 20 - (s + MBLOCK_SIZE) in f = 0 \/ MBLOCK_SIZE <= f ->
  exists h' tl,
    (if negb (f =? 0) then
       let bl := a + (s + MBLOCK_SIZE) in
       let h := <[bl := new_mblock bl (u32 (f - MBLOCK_SIZE)) 0 a]> h in
       m ← h !! a; Some (<[a := set_next m bl]> h)
     else Some h) = Some h' /\ free_tail tl /\
    seg h' 0 (bs ++ Blk a s 0 :: tl) 0 /\ blocks (<[a := n]> L) (bs ++ Blk a s 0 :: tl).
Proof.
  intros Hseg Hbs Hnew Ha Hn Hs Hmax Hap f Hf.
  assert (forall b, a <= ba b -> 0 <= bsz b -> bref b = 0 -> bend b <= a + n * 2 ^ 20 ->
    blk_ok (<[a := n]> L) b /\ forall c, c ∈ bs -> apart b c) as Hin
    by (intros b; by apply region_block).
  destruct (Hin (Blk a s 0)) as [Hb Hbap]; try done; [unfold bend, f, MBLOCK_SIZE in *; simpl; lia|].
  destruct (Z.eqb_spec f 0) as [E|E]; cbn [negb].
  - exists h, []. split; [done|]. split; [by constructor|]. split.
    + apply seg_app. simpl. by split_and!.
    + apply blocks_insert; rewrite ?app_nil_r; done.
  - set (t := Blk (a + (s + MBLOCK_SIZE)) (f - MBLOCK_SIZE) 0).
    assert (ba t = a + (s + MBLOCK_SIZE)) as Et by done.
    assert (a < ba t < a + n * 2 ^ 20) by (rewrite Et; unfold f, MBLOCK_SIZE in *; lia).
    rewrite u32_small by (unfold f, MBLOCK_SIZE in *; lia).
    change (new_mblock _ (f - MBLOCK_SIZE) 0 a) with (hdr t a 0).
    change (a + (s + MBLOCK_SIZE)) with (ba t). cbv zeta.
    rewrite lookup_insert_ne, Hnew by lia. mstep. eexists _, [t]. split; [done|].
    split; [by repeat constructor|]. destruct (Hin t) as [Ht Htap];
      try (unfold bend, t, f in *; simpl; unfold MBLOCK_SIZE in *; lia). split.
    + apply seg_app. simpl. rewrite lookup_insert_eq, lookup_insert_ne, lookup_insert_eq by lia.
      split_and!; try done. eapply seg_frame; [done|]. intros c Hc.
      rewrite !lookup_insert_ne; [done|..]; apply not_eq_sym;
        (eapply outside; [by eapply blocks_ok|by apply Hap|]); unfold bend; simpl; lia.
    + apply blocks_insert; [apply blocks_insert; rewrite ?app_nil_r; done|done|].
      intros c [Hc|Hc]%elem_of_app; [by auto|]. apply list_elem_of_singleton in Hc as ->.
      left. unfold bend. rewrite Et. simpl. lia.
Qed.

Section ops.
Context {D : Type} `{RegionAllocator D}.
Implicit Types st : km D.

(** The headers [extend] writes. *)
Lemma extend_heap h L bs a s : seg h 0 bs 0 -> blocks L bs -> (forall c, c ∈ bs -> ba c <> a) ->
  let h1 := <[a := hdr (Blk a s 0) (last_of 0 bs) 0]> h in
  exists h2, (if negb (last_of 0 bs =? 0)
      then m ← h1 !! last_of 0 bs; Some (<[last_of 0 bs := set_next m a]> h1)
      else Some h1) = Some h2 /\
    seg h2 0 bs a /\ h2 !! a = Some (hdr (Blk a s 0) (last_of 0 bs) 0).
Proof.
  intros Hs Hbs Ha h1. destruct bs as [|c l _] using rev_ind.
  - simpl. exists h1. split; [done|]. split; [done|]. apply lookup_insert_eq.
  - subst h1. rewrite !last_snoc. assert (0 < ba c) as Hc.
    { eapply (blocks_ok _ _ c); [done|]. set_solver. }
    pose proof (blocks_addr _ _ Hbs) as Hnd. rewrite fmap_app in Hnd.
    apply NoDup_app in Hnd as (_ & Hnd & _).
    destruct (Z.eqb_spec (ba c) 0); [lia|]. cbn [negb]. apply seg_app in Hs as [Hl [Hlc _]].
    assert (ba c <> a) by (apply Ha; set_solver).
    rewrite lookup_insert_ne, Hlc by done. mstep. eexists. split; [done|].
    rewrite lookup_insert_ne, lookup_insert_eq by done. split; [|done].
    apply seg_app. simpl in *. rewrite lookup_insert_eq. split_and!; try done.
    eapply seg_frame; [done|]. intros d Hd. rewrite !lookup_insert_ne; [done|..].
    + apply not_eq_sym, Ha. set_solver.
    + intros E. apply (Hnd (ba d)); [by apply list_elem_of_fmap_2|]. rewrite E. by left.
Qed.

Lemma extend_spec st L bs s : seg (heap st) 0 bs 0 -> blocks L bs -> ra_rep (dyn st) L ->
  good_size s ->
  exists a st', extend st (last_of 0 bs) s = Some (a, st') /\
    kmalloc_base st' = kmalloc_base st /\
    (a = 0 /\ ra_rep (dyn st') L /\ heap st' = heap st \/
     exists L' tl, 0 < a /\ ra_rep (dyn st') L' /\ free_tail tl /\
       seg (heap st') 0 (bs ++ Blk a s 0 :: tl) 0 /\ blocks L' (bs ++ Blk a s 0 :: tl)).
Proof.
  intros Hs Hbs Hrep (H0 & Hmax & Hgood). unfold extend.
  rewrite (u32_small (s + MBLOCK_SIZE)) by (unfold MBLOCK_SIZE in *; lia).
  change (Z.shiftr (s + MBLOCK_SIZE) 20 + _) with (s_mbytes (s + MBLOCK_SIZE)).
  destruct (s_mbytes_spec (s + MBLOCK_SIZE)) as (Hn1 & Hn2 & Hn3 & Hfree);
    [unfold MBLOCK_SIZE in *; lia|].
  set (n := s_mbytes (s + MBLOCK_SIZE)) in *.
  specialize (Hn3 ltac:(unfold MBLOCK_SIZE; lia)).
  destruct (ra_alloc_spec (dyn st) L n Hrep Hn3) as (a & d & -> & Hra). mstep.
  destruct Hra as [[-> Hrep']|(Ha & Hamax & Hrep' & Hdis)].
  { simpl. eauto 10. }
  destruct (Z.eqb_spec a 0); [lia|]. cbn [heap set_stat set_dyn].
  assert (MB_TO_BYTES n = n * 2 ^ 20) as -> by (unfold MB_TO_BYTES; rewrite u32_small; lia).
  rewrite (u32_small (n * 2 ^ 20 - (s + MBLOCK_SIZE))) by (unfold MBLOCK_SIZE in *; lia).
  assert (forall c, c ∈ bs -> apart (Blk a (n * 2 ^ 20 - MBLOCK_SIZE) 0) c /\
    blk_ok (<[a := n]> L) c) as Hap.
  { intros c Hc. apply blk_ok_region; [by eapply blocks_ok|done..]. }
  assert (blocks (<[a := n]> L) bs) as Hbs'.
  { split; [|apply Hbs]. apply Forall_forall. intros c Hc. by apply Hap. }
  destruct (extend_heap (heap st) L bs a s Hs Hbs) as (h2 & Hh2 & Hseg & Hnew).
  { intros c Hc. destruct (Hap c Hc). eapply outside; [done..|]. unfold bend. simpl. lia. }
  rewrite (u32_small (s + MBLOCK_SIZE - MBLOCK_SIZE)) by (unfold MBLOCK_SIZE in *; lia).
  replace (s + MBLOCK_SIZE - MBLOCK_SIZE) with s by lia.
  change (new_mblock a s 0 (last_of 0 bs)) with (hdr (Blk a s 0) (last_of 0 bs) 0).
  rewrite Hh2. mstep.
  destruct (extend_rest h2 L bs a s n Hseg Hbs' Hnew) as (h3 & tl & Hh3 & ? & ? & ?); try done.
  { by intros c [? _]%Hap. }
  { rewrite Hfree. destruct Hgood; zcase; lia. }
  cbv zeta in Hh3. rewrite Hh3. mstep. do 2 eexists. split; [done|]. split; [done|]. right. by exists (<[a := n]> L), tl.
Qed.

(** The invariant of the heap: [bs] are its blocks, in the order of the list. *)
Definition km_inv st (bs : list blk) (L : gmap Z Z) : Prop :=
  ra_rep (dyn st) L /\ kmalloc_base st = first bs 0 /\ seg (heap st) 0 bs 0 /\ blocks L bs.

Definition live (bs : list blk) : list blk := filter (fun b => 0 < bref b) bs.

Lemma live_app l1 l2 : live (l1 ++ l2) = live l1 ++ live l2.
Proof. apply filter_app. Qed.
Lemma live_free b l : bref b = 0 -> live (b :: l) = live l.
Proof. intros E. apply filter_cons_False. lia. Qed.
Lemma live_cons b l : 0 < bref b -> live (b :: l) = b :: live l.
Proof. intros E. by apply filter_cons_True. Qed.
Lemma live_tail tl : free_tail tl -> live tl = [].
Proof. induction 1; [done|]. by rewrite live_free. Qed.

Definition with_ref (b : blk) (r : Z) : blk := Blk (ba b) (bsz b) r.

Lemma set_ref_spec L h l1 b l2 r : seg h 0 (l1 ++ b :: l2) 0 -> blocks L (l1 ++ b :: l2) ->
  0 <= r ->
  let h' := <[ba b := hdr (with_ref b r) (last_of 0 l1) (first l2 0)]> h in
  seg h' 0 (l1 ++ with_ref b r :: l2) 0 /\ blocks L (l1 ++ with_ref b r :: l2).
Proof.
  intros Hs Hb Hr h'. destruct (blocks_mid _ _ _ _ Hb) as (Hrest & Hok & Ha).
  assert (forall c, c ∈ l1 ++ l2 -> h' !! ba c = h !! ba c) as Hsame.
  { intros c Hc. apply lookup_insert_ne, not_eq_sym. eapply others_ne; [done| |done].
    destruct Hok as (_ & ? & _). unfold bend, MBLOCK_SIZE. lia. }
  split.
  - apply (seg_replace h h' l1 [b] [with_ref b r] l2); try done.
    + intros c Hc. apply Hsame. set_solver.
    + split; [apply lookup_insert_eq|done].
    + destruct l2 as [|c l3]; [done|]. split; [|intros d Hd; apply Hsame; set_solver].
      rewrite Hsame by set_solver. rewrite seg_app in Hs. apply Hs.
  - apply blocks_insert; [done| |].
    + destruct Hok as (? & ? & ? & ? & ?). unfold blk_ok, bend in *. simpl. by split_and!.
    + intros c Hc. apply (Ha c Hc).
Qed.

Lemma kmalloc_block_spec st bs L s : km_inv st bs L -> good_size s ->
  exists b st', kmalloc_block st s = Some (b, st') /\
    (b = 0 /\ km_inv st' bs L \/
     exists l1 B l2 L', b = ba B /\ km_inv st' (l1 ++ B :: l2) L' /\ s <= bsz B /\
       bref B = 0 /\ live (l1 ++ l2) = live bs).
Proof.
  intros (Hrep & Hbase & Hs & Hbs) Hg. unfold kmalloc_block. rewrite Hbase.
  pose proof Hbs as [HF _].
  destruct (first_ok L bs HF) as [[-> ->]|(c & l3 & E & Hf & Hc)].
  - simpl. destruct (extend_spec st L [] s Hs Hbs Hrep Hg) as (a & st' & He & Hb' & Hx).
    simpl in He. rewrite He. mstep. do 2 eexists. split; [done|].
    destruct Hx as [(-> & ? & Hh)|(L' & tl & Ha & ? & Htl & ? & ?)]; [left|right].
    + simpl. split; [done|]. split_and!; [done|congruence|done|done].
    + destruct (Z.eqb_spec a 0); [lia|]. exists [], (Blk a s 0), tl, L'.
      split_and!; try done. by apply live_tail.
  - rewrite Hf. destruct (Z.eqb_spec (ba c) 0); [lia|]. cbn [negb]. unfold find_mblock.
    rewrite Hbase. pose proof (seg_length _ _ _ Hs Hbs).
    destruct (find_block_spec (heap st) L (S (base.size (heap st))) 0 (ba c) s bs Hs HF)
      as [(l1 & B & l2 & -> & Hr & Hsz & ->)| ->]; [by rewrite E|lia|..]; mstep.
    + pose proof (blocks_ok L _ B Hbs ltac:(set_solver)) as (HB & HB2 & _ & HB3 & _).
      destruct (Z.eqb_spec (ba B) 0); [lia|]. cbn [negb].
      rewrite (seg_lookup _ _ _ _ _ _ Hs). mstep. cbn [size hdr].
      destruct Hg as (? & ? & _).
      rewrite u32_small by (unfold bend, MBLOCK_SIZE in *; lia).
      destruct (Z.leb_spec (MBLOCK_SIZE + 4) (bsz B - s)) as [Hl|Hl].
      * destruct (split_spec L (heap st) l1 l2 B Hs Hbs s) as (h' & -> & Hs' & Hbs');
          [done|lia|]. mstep. do 2 eexists. split; [done|]. right.
        do 4 eexists. split; [|split; [split_and!; [done| |apply Hs'|apply Hbs']|]]; [done|..].
        { simpl. rewrite Hbase. by destruct l1. }
        split_and!; [simpl; lia|done|].
        rewrite !live_app, live_free by done. by rewrite (live_free B).
      * do 2 eexists. split; [done|]. right. exists l1, B, l2, L.
        split_and!; try done. rewrite !live_app. by rewrite (live_free B).
    + simpl. assert (last_of (ba c) bs = last_of 0 bs) as -> by by rewrite E.
      destruct (extend_spec st L bs s Hs Hbs Hrep Hg) as (a & st' & He & Hb' & Hx).
      do 2 eexists. split; [done|].
      destruct Hx as [(-> & ? & Hh)|(L' & tl & Ha & ? & Htl & ? & ?)]; [left|right].
      * split; [done|]. split_and!; [done|congruence|by rewrite Hh|done].
      * exists bs, (Blk a s 0), tl, L'. split_and!; try done.
        { split_and!; try done. rewrite Hb', Hbase, E. done. }
        by rewrite live_app, (live_tail tl), app_nil_r.
Qed.

(** What [kmalloc] leaves behind. *)
Lemma kmalloc_spec st bs L sz : km_inv st bs L -> good_size (memalign sz) ->
  exists p st', kmalloc st sz = Some (p, st') /\
    (p = 0 /\ km_inv st' bs L \/
     exists b bs' L', km_inv st' bs' L' /\ p = data (ba b) /\ memalign sz <= bsz b /\
       bref b = 1 /\ live bs' ≡ₚ b :: live bs).
Proof.
  intros Hinv Hg. unfold kmalloc.
  destruct (kmalloc_block_spec st bs L _ Hinv Hg) as (b & st' & -> & [[-> Hi]|Hx]); mstep.
  { simpl. eauto 10. }
  destruct Hx as (l1 & B & l2 & L' & -> & (Hrep & Hbase & Hs & Hbs) & Hsz & Hr & Hlive).
  pose proof (blocks_ok L' _ B Hbs ltac:(set_solver)) as (HB & _).
  destruct (Z.eqb_spec (ba B) 0); [lia|]. rewrite (seg_lookup _ _ _ _ _ _ Hs). mstep.
  destruct (set_ref_spec L' (heap st') l1 B l2 1 Hs Hbs ltac:(lia)) as [Hs' Hbs'].
  do 2 eexists. split; [done|]. right. exists (with_ref B 1), (l1 ++ with_ref B 1 :: l2), L'.
  split; [|split_and!; try done].
  - split_and!; try done. simpl. rewrite Hbase. by destruct l1.
  - rewrite live_app, live_cons by done. rewrite <-Hlive, live_app. symmetry.
    apply Permutation_middle.
Qed.

(** Merging a free block does not change the live ones. *)
Lemma merge_free L h l1 b l2 : seg h 0 (l1 ++ b :: l2) 0 -> blocks L (l1 ++ b :: l2) ->
  bref b = 0 ->
  exists h' b' l2', merge h (ba b) = Some h' /\ ba b' = ba b /\ bref b' = 0 /\
    seg h' 0 (l1 ++ b' :: l2') 0 /\ blocks L (l1 ++ b' :: l2') /\ live l2' = live l2 /\
    (l2' = l2 \/ exists c, l2 = c :: l2').
Proof.
  intros Hs Hb Hr.
  destruct (merge_spec L h l1 l2 b Hs Hb) as
    (h' & bs' & Hm & Hs' & Hb' & [[-> ->]|(c & l3 & -> & Hc & ->)]).
  - exists h, b, l2. split_and!; try done. by left.
  - exists h', (joined b c), l3. split_and!; try done; [by rewrite live_free|]. right. by exists c.
Qed.

Lemma first_ne L l1 b l2 : blocks L (l1 ++ b :: l2) -> first (b :: l2) 0 <> 0.
Proof. intros Hb. pose proof (blocks_ok _ _ b Hb ltac:(set_solver)) as (? & _). simpl. lia. Qed.

(** The merges at the end of [kfree], when the freed block is not the last. *)
Lemma kfree_merges st L l1 b l2 : km_inv st (l1 ++ b :: l2) L -> bref b = 0 -> l2 <> [] ->
  exists st' bs',
    ('(b, st) ←
       (if last_of 0 l1 =? 0 then Some (ba b, st)
        else pm ← heap st !! last_of 0 l1;
             if refcount pm =? 0
             then h ← merge (heap st) (last_of 0 l1); Some (last_of 0 l1, set_heap st h)
             else Some (ba b, st));
     m ← heap st !! b;
     if negb (next m =? 0) then h ← merge (heap st) b; Some (set_heap st h)
     else
       st ← (if negb (prev m =? 0)
             then pm ← heap st !! prev m;
                  Some (set_heap st (<[prev m := set_next pm 0]> (heap st)))
             else Some (set_base st 0));
       d ← ra_free (dyn st) b;
       Some (set_dyn st d)) = Some st' /\
    km_inv st' bs' L /\ live bs' = live (l1 ++ l2).
Proof.
  intros (Hrep & Hbase & Hs & Hbs) Hr Hl2.
  assert (forall st1 k1 c k2, ra_rep (dyn st1) L -> kmalloc_base st1 = first (k1 ++ c :: k2) 0 ->
    seg (heap st1) 0 (k1 ++ c :: k2) 0 -> blocks L (k1 ++ c :: k2) -> bref c = 0 -> k2 <> [] ->
    exists h' bs', heap st1 !! ba c = Some (hdr c (last_of 0 k1) (first k2 0)) /\
      first k2 0 <> 0 /\ merge (heap st1) (ba c) = Some h' /\
      km_inv (set_heap st1 h') bs' L /\ live bs' = live (k1 ++ k2)) as Hlast.
  { intros st1 k1 c k2 Hrep1 Hbase1 Hs1 Hb1 Hc Hk2.
    destruct (merge_free L _ _ _ _ Hs1 Hb1 Hc) as (h' & c' & k2' & Hm & Ec & Hc' & Hs' & Hb' & El & _).
    exists h', (k1 ++ c' :: k2'). split_and!; try done; [by apply seg_lookup in Hs1| | |].
    - destruct k2 as [|e k2]; [done|]. apply (first_ne L (k1 ++ [c]) e k2).
      by rewrite <-app_assoc.
    - split_and!; try done. simpl. rewrite Hbase1. by destruct k1.
    - rewrite !live_app. by rewrite live_free, El. }
  destruct l1 as [|c l1 _] using rev_ind.
  - simpl. destruct (Hlast st [] b l2) as (h' & bs' & Hl & Hn & Hm & ? & ?); try done.
    simpl in Hl. rewrite Hl. mstep. cbn [next hdr].
    destruct (Z.eqb_spec (first l2 0) 0); [done|]. simpl. rewrite Hm. mstep. eauto.
  - rewrite last_snoc. rewrite <-app_assoc in Hs, Hbs, Hbase. simpl in Hs, Hbs, Hbase.
    pose proof (first_ne _ _ _ _ Hbs) as Hc0. simpl in Hc0.
    destruct (Z.eqb_spec (ba c) 0); [done|]. rewrite (seg_lookup _ _ _ _ _ _ Hs). mstep.
    cbn [refcount hdr]. destruct (Z.eqb_spec (bref c) 0) as [Hc|Hc].
    + destruct (merge_free L _ _ _ _ Hs Hbs Hc) as (h1 & c' & k2 & -> & Ec & Hc' & Hs' & Hb' & El & Hk).
      mstep. destruct (Hlast (set_heap st h1) l1 c' k2) as (h' & bs' & Hl & Hn & Hm & ? & Hlv);
        try done; [simpl; rewrite Hbase; by destruct l1|by destruct Hk as [->|(? & [= _ <-])]|].
      rewrite Ec in Hl, Hm. rewrite Hl. mstep. cbn [next hdr].
      destruct (Z.eqb_spec (first k2 0) 0); [done|]. simpl. simpl in Hm. rewrite Hm. mstep.
      do 2 eexists. split_and!; try done. rewrite Hlv, !live_app, El.
      by rewrite (live_free b), (live_free c), app_nil_r.
    + destruct (Hlast st (l1 ++ [c]) b l2) as (h' & bs' & Hl & Hn & Hm & ? & Hlv);
        rewrite <-?app_assoc; try done. rewrite <-app_assoc in Hlv.
      mstep. rewrite Hl. mstep. cbn [next hdr].
      destruct (Z.eqb_spec (first l2 0) 0); [done|]. simpl. rewrite Hm. mstep. eauto.
Qed.

Lemma kfree_spec st L l1 b l2 : km_inv st (l1 ++ b :: l2) L -> 0 < bref b -> l2 <> [] ->
  exists st' bs', kfree st (data (ba b)) = Some st' /\ km_inv st' bs' L /\
    live bs' ≡ₚ (if bref b =? 1 then [] else [with_ref b (bref b - 1)]) ++ live (l1 ++ l2).
Proof.
  intros (Hrep & Hbase & Hs & Hbs) Hr Hl2.
  pose proof (blocks_ok _ _ b Hbs ltac:(set_solver)) as (Hb0 & Hb1 & _ & Hb2 & _).
  pose proof (seg_lookup _ _ _ _ _ _ Hs) as Hl.
  assert (get_mblock (data (ba b)) = ba b) as Hg.
  { unfold get_mblock, data. rewrite u32_small; unfold bend, MBLOCK_SIZE in *; lia. }
  assert (valid_addr st (data (ba b)) = Some true) as Hv.
  { unfold valid_addr. destruct (Z.eqb_spec (data (ba b)) 0); [unfold data, MBLOCK_SIZE in *; lia|].
    rewrite Hbase. assert (first (l1 ++ b :: l2) 0 <> 0).
    { destruct l1 as [|c l1]; [|by apply (first_ne L [] c (l1 ++ b :: l2))].
      by apply (first_ne L [] b l2). }
    zcase; [done|]. rewrite Hg, Hl. mstep. cbn [ptr hdr signature].
    by rewrite !Z.eqb_refl. }
  unfold kfree. rewrite Hv. mstep. rewrite Hg, Hl. mstep. cbn [refcount hdr].
  destruct (Z.leb_spec (bref b) 0); [lia|].
  destruct (set_ref_spec L (heap st) l1 b l2 (bref b - 1) Hs Hbs ltac:(lia)) as [Hs' Hbs'].
  change (set_ref _ _) with (hdr (with_ref b (bref b - 1)) (last_of 0 l1) (first l2 0)).
  assert (forall s0, km_inv (set_stat (set_heap st (<[ba b:=hdr (with_ref b (bref b - 1))
    (last_of 0 l1) (first l2 0)]> (heap st))) s0) (l1 ++ with_ref b (bref b - 1) :: l2) L) as Hi.
  { intros s0. split_and!; try done. simpl. rewrite Hbase. by destruct l1. }
  destruct (Z.eqb_spec (bref b) 1) as [E|E].
  - destruct (Z.ltb_spec 0 (bref b - 1)); [lia|]. cbn [prev hdr].
    destruct (kfree_merges _ L l1 _ l2 (Hi (update_stat_down (stat st) (bsz b))))
      as (st' & bs' & Hk & Hinv & Hlive); [simpl; lia|done|].
    exists st', bs'. split_and!; [apply Hk|done|by rewrite Hlive].
  - destruct (Z.ltb_spec 0 (bref b - 1)); [|lia]. do 2 eexists. split; [done|].
    split; [apply (Hi (stat st))|]. rewrite !live_app, live_cons by (simpl; lia). simpl.
    symmetry. apply Permutation_middle.
Qed.
End ops.

(** ** Claims *)

Definition kmalloc_boot {D} (d : D) : km D := Km ∅ 0 (KmallocStat 0 0 0 0) d.

Lemma boot_inv {D} `{RegionAllocator D} (d : D) L : ra_rep d L -> km_inv (kmalloc_boot d) [] L.
Proof. intros Hr. by split_and!. Qed.


#[local] Existing Instances config32 config32_ok provider32.

Definition boot32 : km dynmem := kmalloc_boot dynmem_boot.
Lemma boot32_inv : km_inv boot32 [] ∅.
Proof.
  apply boot_inv. exists ∅. split; [apply boot_represents|].
  intros a n. rewrite lookup_empty. split; [done|]. by intros (? & ? & ? & _).
Qed.


(** C32. Release: [kfree] of a block that is not the last of the list drops one
    reference; with the last reference the block leaves the live blocks, merged
    with free neighbours, and every other live block keeps its address, size and
    references.  The heap invariant is kept. *)
Theorem kfree_removes_block {D : Type} `{RegionAllocator D} (st : km D) (l1 l2 : list blk)
    (b : blk) (L : gmap Z Z) :
  km_inv st (l1 ++ b :: l2) L -> 0 < bref b -> l2 <> [] ->
  exists st' bs', kfree st (data (ba b)) = Some st' /\ km_inv st' bs' L /\
    live bs' ≡ₚ (if bref b =? 1 then [] else [with_ref b (bref b - 1)]) ++ live (l1 ++ l2).
Proof. apply kfree_spec. Qed.

(** The heap after the first allocation: the block and the rest of the region. *)
Definition heap32 : option (km dynmem) := snd <$> kmalloc boot32 100.

Lemma heap32_inv : exists st, heap32 = Some st /\
  km_inv st ([] ++ Blk 0x800000 100 1 :: [Blk 0x80007c 1048428 0]) (<[0x800000 := 1]> ∅).
Proof.
  destruct heap32 as [st|] eqn:E; [|vm_compute in E; done]. exists st. split; [done|].
  pose proof boot32_inv as (Hrep & _).
  destruct (ra_alloc_spec dynmem_boot ∅ 1 Hrep ltac:(lia)) as (a & d & Ha & Hr).
  assert (a = 0x800000 /\ dyn st = d) as [-> Hd].
  { vm_compute in Ha, E. injection Ha as <- <-. injection E as <-. by split. }
  destruct Hr as [[? _]|(_ & _ & Hr & _)]; [done|].
  split; [rewrite Hd; exact Hr|]. vm_compute in E. injection E as <-. split; [done|].
  split; [by split_and!|]. clear. split.
  - repeat constructor; simpl; try lia; intros x Hx; exists 0x800000, 1;
      rewrite lookup_insert_eq; (split; [done|]); unfold bend, MBLOCK_SIZE in Hx;
      simpl in Hx; lia.
  - split_and!; try done. constructor; [|constructor]. left. done.
Qed.

Lemma kfree_removes_block_witness :
  exists st, heap32 = Some st /\
  exists st' bs', kfree st (data 0x800000) = Some st' /\ km_inv st' bs' (<[0x800000 := 1]> ∅) /\
    live bs' ≡ₚ [].
Proof.
  destruct heap32_inv as (st & E & Hinv). exists st. split; [exact E|].
  apply (kfree_removes_block st [] [Blk 0x80007c 1048428 0] (Blk 0x800000 100 1)
    (<[0x800000 := 1]> ∅)).
  - exact Hinv.
  - reflexivity.
  - discriminate.
Defined.

(** ** Two executions outside of these conditions *)

(** An execution in which [kfree] gives the last block of the list back to
    the region allocator although it is not the start of its region: the other
    block of the region is still allocated, with one reference, when the region
    has been unmapped and its descriptor cleared. *)
Theorem kfree_last_unmaps_live :
  exists p1 st1 p2 st2 st3 m,
    kmalloc boot32 100 = Some (p1, st1) /\ kmalloc st1 1048428 = Some (p2, st2) /\
    p1 <> 0 /\ p2 <> 0 /\ kfree st2 p2 = Some st3 /\
    heap st3 !! get_mblock p1 = Some m /\ refcount m = 1 /\
    (dynmemmap (dyn st2)).[0] <> Some desc_zero /\
    (dynmemmap (dyn st3)).[0] = Some desc_zero.
Proof.
  destruct (kmalloc boot32 100) as [[p1 st1]|] eqn:E1; [|by vm_compute in E1].
  vm_compute in E1. injection E1 as <- <-.
  do 6 eexists. split; [done|]. split; [vm_compute; reflexivity|].
  split; [done|]. split; [done|]. split; [vm_compute; reflexivity|].
  split; [vm_compute; reflexivity|]. by vm_compute.
Qed.

(** When less than a header is left in the new region, the size of the block
    made of the rest wraps around: a request of 64 MB succeeds although the heap
    has reserved one megabyte. *)
Theorem kmalloc_short_rest_wraps :
  exists p1 st1 p2 st2,
    kmalloc boot32 (2 ^ 20 - 28) = Some (p1, st1) /\ kmalloc st1 (2 ^ 26) = Some (p2, st2) /\
    p1 <> 0 /\ p2 <> 0 /\ kms_mem_res (stat st2) = 2 ^ 20.
Proof.
  destruct (kmalloc boot32 (2 ^ 20 - 28)) as [[p1 st1]|] eqn:E1; [|by vm_compute in E1].
  vm_compute in E1. injection E1 as <- <-.
  do 4 eexists. split; [done|]. split; [vm_compute; reflexivity|]. by vm_compute.
Qed.
