(* ===== verification/Sched.v ===== *)
(** * Scheduling: kern/sched (sched.c, sched_rr.c, idle.c, thread_flags.c)

    Threads are structures in memory named by their id, which is never reused;
    the thread map, the ready queue and the run queue hold ids.  The object of a
    scheduling class is the interface [scheduler], as in ksched.h; the round
    robin and the idle class are instances.  One CPU; [sched_handler] runs in
    the timer interrupt, so each operation is one step. *)
From S2P Require Import Prelude.

(** ** State *)

Inductive thread_state := INIT | READY | EXEC | BLOCKED | DEAD.
#[export] Instance thread_state_eq : EqDecision thread_state.
Proof. solve_decision. Defined.

Definition SCHED_IN_USE_FLAG : Z := Z.shiftl 1 0.
Definition SCHED_DETACH_FLAG : Z := Z.shiftl 1 1.
Definition SCHED_INTERNAL_FLAG : Z := Z.shiftl 1 5.
Definition SCHED_YIELD_FLAG : Z := Z.shiftl 1 6.
Definition SCHED_POLFLAG_INRRRQ : Z := 0x01.

Definition SCHED_FIFO : Z := 0.
Definition SCHED_RR : Z := 1.
Definition SCHED_OTHER : Z := 1.
Definition NICE_ERR : Z := -100.
(** [min] and [max] of libkern.h take unsigned arguments. *)
Definition NICE_RANGE (prio : Z) : Z :=
  s32 (Z.min (Z.max (u32 prio) (u32 NICE_MAX)) (u32 NICE_MIN)).

Record thread_info := ThreadInfo {
  flags : Z; state : thread_state; policy_flags : Z; ts_counter : Z;
  sched_policy : Z; sched_priority : Z; pid_owner : Z; wait_tim : Z
}.
Definition with_flags (t : thread_info) (f : Z) : thread_info :=
  ThreadInfo f (state t) (policy_flags t) (ts_counter t) (sched_policy t)
    (sched_priority t) (pid_owner t) (wait_tim t).
Definition with_state (t : thread_info) (s : thread_state) : thread_info :=
  ThreadInfo (flags t) s (policy_flags t) (ts_counter t) (sched_policy t)
    (sched_priority t) (pid_owner t) (wait_tim t).
Definition with_polflags (t : thread_info) (f : Z) : thread_info :=
  ThreadInfo (flags t) (state t) f (ts_counter t) (sched_policy t)
    (sched_priority t) (pid_owner t) (wait_tim t).
Definition with_ts (t : thread_info) (c : Z) : thread_info :=
  ThreadInfo (flags t) (state t) (policy_flags t) c (sched_policy t)
    (sched_priority t) (pid_owner t) (wait_tim t).
Definition with_policy (t : thread_info) (p : Z) : thread_info :=
  ThreadInfo (flags t) (state t) (policy_flags t) (ts_counter t) p
    (sched_priority t) (pid_owner t) (wait_tim t).
Definition with_priority (t : thread_info) (p : Z) : thread_info :=
  ThreadInfo (flags t) (state t) (policy_flags t) (ts_counter t) (sched_policy t)
    p (pid_owner t) (wait_tim t).

(** Calls to other parts of the kernel. *)
Inductive sched_event :=
  | TimersRelease (timer : Z)
  | ProcThreadRemoved (pid tid : Z)
  | ThreadDtors (tid : Z)
  | MapKstack (tid : Z).

Record sched_rr := SchedRr { runq : list Z; nr_active : Z }.

(** [procs] gives the nice value of the live processes. *)
Record cpu_sched := CpuSched {
  threads : gmap Z thread_info; threadmap : gset Z; readyq : list Z; rr : sched_rr;
  idle_info : option Z; thread_free_queue : list Z; anr_threads : Z;
  current_thread : option Z; procs : gmap Z Z; events : list sched_event
}.
Definition set_threads (w : cpu_sched) (m : gmap Z thread_info) : cpu_sched :=
  CpuSched m (threadmap w) (readyq w) (rr w) (idle_info w) (thread_free_queue w)
    (anr_threads w) (current_thread w) (procs w) (events w).
Definition set_thread (w : cpu_sched) (i : Z) (t : thread_info) : cpu_sched :=
  set_threads w (<[i := t]> (threads w)).
Definition set_readyq (w : cpu_sched) (q : list Z) : cpu_sched :=
  CpuSched (threads w) (threadmap w) q (rr w) (idle_info w) (thread_free_queue w)
    (anr_threads w) (current_thread w) (procs w) (events w).
Definition set_rr (w : cpu_sched) (q : sched_rr) : cpu_sched :=
  CpuSched (threads w) (threadmap w) (readyq w) q (idle_info w) (thread_free_queue w)
    (anr_threads w) (current_thread w) (procs w) (events w).
Definition set_idle (w : cpu_sched) (i : Z) : cpu_sched :=
  CpuSched (threads w) (threadmap w) (readyq w) (rr w) (Some i) (thread_free_queue w)
    (anr_threads w) (current_thread w) (procs w) (events w).
Definition set_current (w : cpu_sched) (i : Z) : cpu_sched :=
  CpuSched (threads w) (threadmap w) (readyq w) (rr w) (idle_info w) (thread_free_queue w)
    (anr_threads w) (Some i) (procs w) (events w).
Definition emit_event (w : cpu_sched) (e : sched_event) : cpu_sched :=
  CpuSched (threads w) (threadmap w) (readyq w) (rr w) (idle_info w) (thread_free_queue w)
    (anr_threads w) (current_thread w) (procs w) (e :: events w).

(** ** thread_flags.c *)

Definition thread_flags_set (t : thread_info) (mask : Z) : thread_info :=
  with_flags t (Z.lor (flags t) mask).
Definition thread_flags_clear (t : thread_info) (mask : Z) : thread_info :=
  with_flags t (Z.land (flags t) (u32 (Z.lnot mask))).
Definition thread_flags_get (t : thread_info) : Z := flags t.
Definition thread_flags_is_set (t : thread_info) (mask : Z) : bool :=
  Z.land (thread_flags_get t) mask =? mask.
Definition thread_flags_not_set (t : thread_info) (mask : Z) : bool :=
  Z.land (thread_flags_get t) mask =? 0.
Definition thread_state_get (t : thread_info) : thread_state := state t.
(** The new thread and the old state; a dead thread stays dead. *)
Definition thread_state_set (t : thread_info) (s : thread_state) : thread_info * thread_state :=
  (if decide (state t = DEAD) then t else with_state t s, state t).
Definition thread_test_polflag (t : thread_info) (flag : Z) : bool :=
  Z.land (policy_flags t) flag =? flag.

(** ** sched.c: threads *)

(** [NULL] is [None]. *)
Definition thread_lookup (w : cpu_sched) (i : Z) : option Z :=
  if decide (i ∈ threadmap w) then Some i else None.

Definition thread_ready (w : cpu_sched) (i : Z) : option (Z * cpu_sched) :=
  match thread_lookup w i with
  | None => Some (- ESRCH, w)
  | Some i =>
      t ← threads w !! i;
      if decide (thread_state_get t = DEAD) then Some (- ESRCH, w)
      else
        let '(t, prev_state) := thread_state_set t READY in
        let w := set_thread w i t in
        if decide (prev_state = READY) then Some (0, w)
        else Some (0, set_readyq w (readyq w ++ [i]))
  end.

Definition thread_remove_ready (w : cpu_sched) : option Z * cpu_sched :=
  match readyq w with
  | [] => (None, w)
  | i :: q => (Some i, set_readyq w q)
  end.

Definition thread_set_policy (w : cpu_sched) (i policy : Z) : option (Z * cpu_sched) :=
  match thread_lookup w i with
  | None => Some (- ESRCH, w)
  | Some i =>
      t ← threads w !! i;
      if thread_flags_not_set t SCHED_IN_USE_FLAG then Some (- ESRCH, w)
      else if SCHED_OTHER <? policy then Some (- EINVAL, w)
      else Some (0, set_thread w i (with_policy t policy))
  end.

Definition thread_get_policy (w : cpu_sched) (i : Z) : option Z :=
  match thread_lookup w i with
  | None => Some (u32 (- ESRCH))
  | Some i =>
      t ← threads w !! i;
      if thread_flags_not_set t SCHED_IN_USE_FLAG then Some (u32 (- ESRCH))
      else Some (sched_policy t)
  end.

Definition thread_set_priority (w : cpu_sched) (i priority : Z) : option (Z * cpu_sched) :=
  match thread_lookup w i with
  | None => Some (- ESRCH, w)
  | Some i =>
      t ← threads w !! i;
      if thread_flags_not_set t SCHED_IN_USE_FLAG then Some (- ESRCH, w)
      else if negb ((NICE_MIN <=? priority) && (priority <=? NICE_MAX)) then Some (- EACCES, w)
      else Some (0, set_thread w i (with_priority t priority))
  end.

Definition thread_get_priority (w : cpu_sched) (i : Z) : option Z :=
  match thread_lookup w i with
  | None => Some NICE_ERR
  | Some i =>
      t ← threads w !! i;
      if thread_flags_not_set t SCHED_IN_USE_FLAG then Some NICE_ERR
      else Some (sched_priority t)
  end.

Definition thread_p_get_scheduling_priority (w : cpu_sched) (t : thread_info) : Z :=
  if thread_flags_not_set t SCHED_IN_USE_FLAG then NICE_ERR
  else
    let prio := sched_priority t in
    if prio =? NICE_ERR then NICE_ERR
    else match procs w !! pid_owner t with
         | None => prio
         | Some nice => NICE_RANGE (prio + nice)
         end.

(** The queue of [configSCHED_FREEQ_SIZE] slots holds one element less; a thread
    that does not fit is leaked. *)
Definition configSCHED_FREEQ_SIZE : nat := 100.
Definition push_free (w : cpu_sched) (i : Z) : list Z :=
  if decide (length (thread_free_queue w) < configSCHED_FREEQ_SIZE - 1)%nat
  then thread_free_queue w ++ [i] else thread_free_queue w.

(** A missing thread is a null pointer access. *)
Definition thread_remove (w : cpu_sched) (i : Z) : option cpu_sched :=
  i ← thread_lookup w i;
  t ← threads w !! i;
  if thread_flags_not_set t SCHED_IN_USE_FLAG then Some w
  else if thread_flags_is_set t SCHED_INTERNAL_FLAG then Some w
  else
    let w := set_thread w i (with_priority (with_flags t 0) NICE_ERR) in
    let w := if 0 <=? wait_tim t then emit_event w (TimersRelease (wait_tim t)) else w in
    let w := if pid_owner t =? 0 then w else emit_event w (ProcThreadRemoved (pid_owner t) i) in
    let w := emit_event w (ThreadDtors i) in
    Some (CpuSched (threads w) (threadmap w ∖ {[i]}) (readyq w) (rr w) (idle_info w)
            (push_free w i) (anr_threads w - 1) (current_thread w) (procs w) (events w)).

(** ** sched_rr.c *)

Definition get_tts (w : cpu_sched) (t : thread_info) : Z :=
  21 + thread_p_get_scheduling_priority w t.

Definition rr_insert (w : cpu_sched) (i : Z) : option (Z * cpu_sched) :=
  t ← threads w !! i;
  if thread_test_polflag t SCHED_POLFLAG_INRRRQ then Some (0, w)
  else
    let t' := with_polflags (with_ts t (get_tts w t)) (Z.lor (policy_flags t) SCHED_POLFLAG_INRRRQ) in
    Some (0, set_rr (set_thread w i t')
               (SchedRr (runq (rr w) ++ [i]) (u32 (nr_active (rr w) + 1)))).

(** Unlinking a thread that is not in the queue is undefined. *)
Definition rr_remove (w : cpu_sched) (i : Z) : option cpu_sched :=
  t ← threads w !! i;
  if thread_test_polflag t SCHED_POLFLAG_INRRRQ then
    if decide (i ∈ runq (rr w)) then
      let t' := with_polflags t (Z.land (policy_flags t) (u32 (Z.lnot SCHED_POLFLAG_INRRRQ))) in
      Some (set_rr (set_thread w i t')
              (SchedRr (filter (.≠ i) (runq (rr w))) (u32 (nr_active (rr w) - 1))))
    else None
  else Some w.

(** An inconsistent state is a kernel panic. *)
Definition rr_thread_act (w : cpu_sched) (i : Z) (s : thread_state) : option cpu_sched :=
  match s with
  | READY | BLOCKED => rr_remove w i
  | EXEC =>
      t ← threads w !! i;
      Some (if ts_counter t <=? 0 then set_thread w i (with_ts t (get_tts w t)) else w)
  | DEAD =>
      w ← rr_remove w i;
      t ← threads w !! i;
      if thread_flags_is_set t SCHED_DETACH_FLAG then thread_remove w i else Some w
  | INIT => None
  end.

(** The loop body removes only the visited thread, so the safe traversal visits
    the threads that were in the queue. *)
Fixpoint rr_loop (l : list Z) (w : cpu_sched) : option (option Z * cpu_sched) :=
  match l with
  | [] => Some (None, w)
  | i :: l =>
      t ← threads w !! i;
      let s := thread_state_get t in
      let yield := thread_flags_is_set t SCHED_YIELD_FLAG in
      if thread_flags_not_set t SCHED_IN_USE_FLAG then
        w ← rr_thread_act w i s; rr_loop l w
      else if negb yield then
        if bool_decide (s = EXEC) && (0 <? ts_counter t) then Some (Some i, w)
        else w ← rr_thread_act w i s; rr_loop l w
      else rr_loop l (set_thread w i (thread_flags_clear t SCHED_YIELD_FLAG))
  end.
Definition rr_schedule (w : cpu_sched) : option (option Z * cpu_sched) :=
  rr_loop (runq (rr w)) w.

(** ** Scheduling classes *)

Record scheduler := Scheduler {
  s_insert : cpu_sched -> Z -> option (Z * cpu_sched);
  s_run : cpu_sched -> option (option Z * cpu_sched);
  s_nr_active : cpu_sched -> Z
}.

Definition sched_create_rr : scheduler :=
  Scheduler rr_insert rr_schedule (fun w => nr_active (rr w)).

Definition idle_insert (w : cpu_sched) (i : Z) : option (Z * cpu_sched) :=
  match idle_info w with
  | Some _ => Some (- ENOTSUP, w)
  | None =>
      t ← threads w !! i;
      Some (0, set_idle (set_thread w i (thread_flags_set t SCHED_INTERNAL_FLAG)) i)
  end.
Definition idle_schedule (w : cpu_sched) : option (option Z * cpu_sched) := Some (idle_info w, w).
Definition sched_create_idle : scheduler := Scheduler idle_insert idle_schedule (fun _ => 0).

(** ** sched_handler *)

Definition task := cpu_sched -> cpu_sched.

(** Threads of the ready queue go to the scheduler of their policy. *)
Fixpoint exhaust_readyq (fuel : nat) (arr : list scheduler) (w : cpu_sched) : option cpu_sched :=
  match fuel with
  | O => None
  | S fuel =>
      match thread_remove_ready w with
      | (None, w) => Some w
      | (Some i, w) =>
          t ← threads w !! i;
          sched ← arr.[sched_policy t];
          let '(t, _) := thread_state_set t EXEC in
          '(_, w) ← s_insert sched (set_thread w i t) i;
          exhaust_readyq fuel arr w
      end
  end.

Fixpoint run_schedulers (arr : list scheduler) (w : cpu_sched) : option cpu_sched :=
  match arr with
  | [] => Some w
  | sched :: arr =>
      '(next, w) ← s_run sched w;
      match next with
      | Some i => Some (set_current w i)
      | None => run_schedulers arr w
      end
  end.

Definition sched_handler (arr : list scheduler) (pre post : list task) (w : cpu_sched) :
    option cpu_sched :=
  let prev_thread := current_thread w in
  w ← match current_thread w with
      | Some _ => Some w
      | None => i ← thread_lookup w 0; Some (set_current w i)
      end;
  let w := foldl (fun w t => t w) w pre in
  i ← current_thread w;
  t ← threads w !! i;
  let w := if ts_counter t =? -1 then w else set_thread w i (with_ts t (ts_counter t - 1)) in
  w ← exhaust_readyq (S (length (readyq w))) arr w;
  w ← run_schedulers arr w;
  let w := if decide (current_thread w = prev_thread) then w
           else match current_thread w with
                | Some i => emit_event w (MapKstack i) | None => w end in
  Some (foldl (fun w t => t w) w post).

(** ** Load averages *)

Definition FSHIFT : Z := 11.
Definition FIXED_1 : Z := Z.shiftl 1 FSHIFT.
Definition CALC_LOAD (load exp n : Z) : Z :=
  Z.shiftr (u32 (u32 (load * exp) + n * (FIXED_1 - exp))) FSHIFT.
Definition SCALE_LOAD (x : Z) : Z := Z.shiftr (u32 ((x + FIXED_1 / 200) * 100)) FSHIFT.

(** The averages over 1, 5 and 15 minutes; [exps] and [load_freq] depend on the
    configured period, [locked] says whether the lock could be taken. *)
Record load_state := LoadState { la_count : Z; loadavg : list Z }.
Definition active_threads (arr : list scheduler) (w : cpu_sched) : Z :=
  foldl (fun a s => u32 (a + u32 (s_nr_active s w * FIXED_1))) 0 arr.
Definition sched_calc_loads (load_freq : Z) (exps : list Z) (locked : bool)
    (arr : list scheduler) (w : cpu_sched) (st : load_state) : load_state :=
  let count := la_count st - 1 in
  if 0 <=? count then LoadState count (loadavg st)
  else if locked then
    LoadState load_freq
      (zip_with (fun load exp => CALC_LOAD load exp (active_threads arr w)) (loadavg st) exps)
  else LoadState count (loadavg st).
Definition sched_get_loads (st : load_state) : list Z := SCALE_LOAD <$> loadavg st.

(** ** The round robin queue *)

Abbreviation in_rrq t := (thread_test_polflag t SCHED_POLFLAG_INRRRQ).

Record rr_inv (w : cpu_sched) : Prop := {
  rr_nodup : NoDup (runq (rr w));
  rr_count : nr_active (rr w) = u32 (Z.of_nat (length (runq (rr w))));
  rr_queued : forall i, i ∈ runq (rr w) -> exists t, threads w !! i = Some t /\
    in_rrq t = true /\ state t <> INIT /\
    (thread_flags_is_set t SCHED_DETACH_FLAG = true -> i ∈ threadmap w);
  rr_marked : forall i t, threads w !! i = Some t -> in_rrq t = true -> i ∈ runq (rr w)
}.

(** A thread the round robin class may select. *)
Definition runnable (m : gmap Z thread_info) (i : Z) : bool :=
  match m !! i with
  | Some t => negb (thread_flags_not_set t SCHED_IN_USE_FLAG) &&
              negb (thread_flags_is_set t SCHED_YIELD_FLAG) &&
              bool_decide (state t = EXEC) && (0 <? ts_counter t)
  | None => false
  end.

(** A visited thread that keeps its place in the queue. *)
Definition stays (m : gmap Z thread_info) (i : Z) : bool :=
  match m !! i with
  | Some t => bool_decide (state t = EXEC) ||
              (negb (thread_flags_not_set t SCHED_IN_USE_FLAG) &&
               thread_flags_is_set t SCHED_YIELD_FLAG)
  | None => false
  end.

Lemma polflag_set t : in_rrq (with_polflags t (Z.lor (policy_flags t) SCHED_POLFLAG_INRRRQ)) = true.
Proof.
  unfold thread_test_polflag, SCHED_POLFLAG_INRRRQ. simpl.
  rewrite Z.land_lor_distr_l, Z.land_diag. apply Z.eqb_eq, Z.bits_inj'. intros k Hk.
  rewrite Z.lor_spec, Z.land_spec. destruct (Z.testbit 1 k); [apply orb_true_r|].
  by rewrite andb_false_r.
Qed.

Lemma polflag_clear t :
  in_rrq (with_polflags t (Z.land (policy_flags t) (u32 (Z.lnot SCHED_POLFLAG_INRRRQ)))) = false.
Proof.
  unfold thread_test_polflag, SCHED_POLFLAG_INRRRQ. simpl. rewrite <-Z.land_assoc.
  change (Z.land (u32 (Z.lnot 1)) 1) with 0. by rewrite Z.land_0_r.
Qed.

Lemma clear_yield_detach t :
  thread_flags_is_set (thread_flags_clear t SCHED_YIELD_FLAG) SCHED_DETACH_FLAG =
  thread_flags_is_set t SCHED_DETACH_FLAG.
Proof.
  unfold thread_flags_is_set, thread_flags_get, thread_flags_clear. simpl.
  by rewrite <-Z.land_assoc.
Qed.

(** A change to a thread that is not a matter of the queue. *)
Lemma set_thread_rr_inv w i t t' : rr_inv w -> threads w !! i = Some t ->
  in_rrq t' = in_rrq t -> (in_rrq t = true -> state t' <> INIT) ->
  (thread_flags_is_set t' SCHED_DETACH_FLAG = true -> thread_flags_is_set t SCHED_DETACH_FLAG = true) ->
  rr_inv (set_thread w i t').
Proof.
  intros [Hnd Hc Hq Hm] Ht Hp Hs Hd. split; try done; simpl.
  - intros j Hj. destruct (Hq j Hj) as (u & Hu & Hf & Hst & Hdt). destruct (decide (i = j)) as [->|].
    + simplify_eq. rewrite lookup_insert_eq. exists t'. split_and!; try done; [congruence|auto|auto].
    + rewrite lookup_insert_ne by done. eauto.
  - intros j u Hu Hf. destruct (decide (i = j)) as [->|].
    + rewrite lookup_insert_eq in Hu. simplify_eq. apply (Hm j t); [done|congruence].
    + rewrite lookup_insert_ne in Hu by done. eauto.
Qed.

Lemma filter_ne_notin (i : Z) (l : list Z) : i ∉ l -> filter (.≠ i) l = l.
Proof.
  induction l as [|x l IH]; [done|]. intros [Hx Hl]%not_elem_of_cons.
  by rewrite filter_cons_True, IH.
Qed.

Lemma filter_ne_mid (i : Z) (l1 l2 : list Z) : NoDup (l1 ++ i :: l2) ->
  filter (.≠ i) (l1 ++ i :: l2) = l1 ++ l2.
Proof.
  intros (_ & Hd & [Hn _]%NoDup_cons)%NoDup_app.
  rewrite filter_app, filter_cons_False by (intros E; by apply E).
  rewrite !filter_ne_notin; [done|done|]. intros Hi. apply (Hd i Hi). by left.
Qed.

(** Same threads but [i], same queues but the run queue. *)
Definition frame (w w' : cpu_sched) (P : Z -> Prop) : Prop :=
  (forall j, ~ P j -> threads w' !! j = threads w !! j) /\ readyq w' = readyq w /\
  idle_info w' = idle_info w /\ current_thread w' = current_thread w.

Lemma rr_remove_spec w i : rr_inv w -> i ∈ runq (rr w) ->
  exists w', rr_remove w i = Some w' /\ rr_inv w' /\ runq (rr w') = filter (.≠ i) (runq (rr w)) /\
    frame w w' (.= i) /\ threadmap w' = threadmap w /\
    exists t, threads w !! i = Some t /\
      threads w' !! i = Some (with_polflags t (Z.land (policy_flags t)
        (u32 (Z.lnot SCHED_POLFLAG_INRRRQ)))).
Proof.
  intros [Hnd Hc Hq Hm] Hi. destruct (Hq i Hi) as (t & Ht & Hf & Hst & Hdt).
  unfold rr_remove. rewrite Ht. mstep. rewrite Hf, decide_True by done.
  eexists. split; [done|]. split; [split; simpl|].
  - by apply NoDup_filter.
  - rewrite Hc. clear - Hnd Hi. apply list_elem_of_split in Hi as (l1 & l2 & E).
    rewrite E in *. rewrite filter_ne_mid by done. unfold u32.
    rewrite Zminus_mod_idemp_l. f_equal. rewrite !length_app. simpl. lia.
  - intros j [Hj Hjq]%list_elem_of_filter. rewrite lookup_insert_ne by done. eauto.
  - intros j u Hu Hfu. destruct (decide (i = j)) as [->|].
    + rewrite lookup_insert_eq in Hu. simplify_eq. by rewrite polflag_clear in Hfu.
    + rewrite lookup_insert_ne in Hu by done. apply list_elem_of_filter. eauto.
  - simpl. split; [done|]. split; [|split; [done|]].
    + split; [|done]. intros j Hj. simpl. by rewrite lookup_insert_ne.
    + exists t. by rewrite lookup_insert_eq.
Qed.

(** Removing a thread that is not in the run queue. *)
Lemma thread_remove_spec w i : rr_inv w -> i ∉ runq (rr w) -> i ∈ threadmap w ->
  is_Some (threads w !! i) ->
  exists w', thread_remove w i = Some w' /\ rr_inv w' /\ rr w' = rr w /\ frame w w' (.= i).
Proof.
  intros Hinv Hi Hmap [t Ht]. unfold thread_remove, thread_lookup.
  rewrite decide_True by done. mstep. rewrite Ht. mstep.
  destruct (thread_flags_not_set t SCHED_IN_USE_FLAG); [by exists w|].
  destruct (thread_flags_is_set t SCHED_INTERNAL_FLAG); [by exists w|].
  destruct Hinv as [Hnd Hc Hq Hm].
  assert (in_rrq t <> true) as Hf by (intros Hf; by apply Hi, (Hm i t)).
  eexists. split; [done|].
  destruct (0 <=? wait_tim t), (pid_owner t =? 0); (split; [split; simpl; try done|split; [done|]]).
  all: try (split; [|done]; intros j Hj; simpl; by rewrite lookup_insert_ne).
  all: try (intros j u Hu Hfu; destruct (decide (i = j)) as [->|];
    [rewrite lookup_insert_eq in Hu; simplify_eq; done|
     rewrite lookup_insert_ne in Hu by done; eauto]).
  all: intros j Hj; destruct (Hq j Hj) as (u & Hu & ? & ? & Hd); assert (j <> i) by congruence;
    rewrite lookup_insert_ne by done; exists u; split_and!; try done;
    intros ?%Hd; set_solver.
Qed.

Lemma rr_thread_act_spec w i t : rr_inv w -> i ∈ runq (rr w) -> threads w !! i = Some t ->
  exists w', rr_thread_act w i (state t) = Some w' /\ rr_inv w' /\ frame w w' (.= i) /\
    runq (rr w') = if decide (state t = EXEC) then runq (rr w) else filter (.≠ i) (runq (rr w)).
Proof.
  intros Hinv Hi Ht. destruct (rr_remove_spec w i Hinv Hi) as (w' & Hr & Hinv' & Hq & Hfr & Hmap & u & Hu & Hu').
  assert (u = t) as -> by congruence.
  destruct (rr_queued w Hinv i Hi) as (u & Hu2 & Hp & Hst & Hd). assert (u = t) as -> by congruence.
  destruct (state t) eqn:Es; try done; cbn [rr_thread_act].
  - by exists w'.
  - rewrite Ht. mstep. eexists. split; [done|]. zcase; [|done]. split_and!; try done.
    + apply (set_thread_rr_inv w i t); try done. simpl. intros _. by rewrite Es.
    + split; [|done]. intros j Hj. simpl. by rewrite lookup_insert_ne.
  - by exists w'.
  - rewrite Hr. mstep. rewrite Hu'. mstep.
    change (thread_flags_is_set (with_polflags t _) SCHED_DETACH_FLAG)
      with (thread_flags_is_set t SCHED_DETACH_FLAG).
    destruct (thread_flags_is_set t SCHED_DETACH_FLAG) eqn:Ed; [|by exists w'].
    destruct (thread_remove_spec w' i Hinv') as (w2 & -> & Hinv2 & Er & Hfr2).
    + rewrite Hq. intros [E _]%list_elem_of_filter. done.
    + rewrite Hmap. by apply Hd.
    + by rewrite Hu'.
    + exists w2. split; [done|]. split; [done|]. split; [|by rewrite Er].
      destruct Hfr as (Hj1 & ? & ? & ?), Hfr2 as (Hj2 & ? & ? & ?). split_and!; try congruence.
      intros j Hj. by rewrite Hj2, Hj1.
Qed.

Lemma filter_stays_agree m m' (l : list Z) : (forall j, j ∈ l -> m' !! j = m !! j) ->
  filter (fun j => stays m' j = true) l = filter (fun j => stays m j = true) l /\
  forall j, j ∈ l -> runnable m' j = runnable m j.
Proof.
  intros Hl. split.
  - induction l as [|j l IH]; [done|]. rewrite !filter_cons.
    assert (stays m' j = stays m j) as ->.
    { unfold stays. by rewrite Hl by by left. }
    rewrite IH; [done|]. intros k Hk. apply Hl. by right.
  - intros j Hj. unfold runnable. by rewrite Hl.
Qed.

Lemma frame_trans w w1 w2 P Q : frame w w1 P -> frame w1 w2 Q -> frame w w2 (fun j => P j \/ Q j).
Proof.
  intros (Hj1 & ? & ? & ?) (Hj2 & ? & ? & ?). split_and!; try congruence.
  intros j Hj. rewrite Hj2, Hj1; tauto.
Qed.

Definition rr_result (m : gmap Z thread_info) (l0 l : list Z) (r : option Z) (w' : cpu_sched) : Prop :=
  (r = None /\ (forall j, j ∈ l -> runnable m j = false) /\
   runq (rr w') = l0 ++ filter (fun j => stays m j = true) l) \/
  exists l1 i l2, l = l1 ++ i :: l2 /\ r = Some i /\ runnable m i = true /\
    (forall j, j ∈ l1 -> runnable m j = false) /\
    runq (rr w') = l0 ++ filter (fun j => stays m j = true) l1 ++ i :: l2 /\
    (forall j, j ∈ i :: l2 -> threads w' !! j = m !! j).

(** One visited thread: it is not runnable, and the loop goes on. *)
Lemma rr_result_step m m' l0 i l r w' : NoDup (i :: l) ->
  (forall j, j <> i -> m' !! j = m !! j) -> runnable m i = false ->
  rr_result m' (l0 ++ if stays m i then [i] else []) l r w' -> rr_result m l0 (i :: l) r w'.
Proof.
  intros [Hi Hnd]%NoDup_cons Hm Hr Hres.
  assert (forall k : list Z, k ⊆ l -> filter (fun j => stays m' j = true) k = filter (fun j => stays m j = true) k /\
    forall j, j ∈ k -> runnable m' j = runnable m j) as Hag.
  { intros k Hk. apply filter_stays_agree. intros j Hj. apply Hm. intros ->. auto. }
  assert (forall k : list Z, (l0 ++ if stays m i then [i] else []) ++ filter (fun j => stays m j = true) k =
    l0 ++ filter (fun j => stays m j = true) (i :: k)) as Hq.
  { intros k. rewrite filter_cons, <-app_assoc. by destruct (stays m i). }
  destruct Hres as [(-> & Hn & E)|(l1 & k & l2 & -> & -> & Hk & Hn & E & Hs)].
  - destruct (Hag l) as [Hf Hru]; [done|]. left. split; [done|]. split.
    + intros j [->|Hj]%elem_of_cons; [done|]. rewrite <-Hru by done. auto.
    + by rewrite E, Hf, Hq.
  - destruct (Hag l1) as [Hf Hru]; [set_solver|].
    assert (forall j, j ∈ k :: l2 -> m' !! j = m !! j) as Hsame.
    { intros j Hj. apply Hm. intros ->. apply Hi, elem_of_app. by right. }
    right. exists (i :: l1), k, l2. split_and!; try done.
    + unfold runnable in *. by rewrite <-Hsame by by left.
    + intros j [->|Hj]%elem_of_cons; [done|]. rewrite <-Hru by done. auto.
    + by rewrite E, Hf, !app_assoc, Hq.
    + intros j Hj. rewrite Hs by done. by apply Hsame.
Qed.

Lemma rr_loop_spec l : forall l0 w, rr_inv w -> runq (rr w) = l0 ++ l ->
  exists r w', rr_loop l w = Some (r, w') /\ rr_inv w' /\ frame w w' (.∈ l) /\
    rr_result (threads w) l0 l r w'.
Proof.
  induction l as [|i l IH]; intros l0 w Hinv Hq.
  { exists None, w. split; [done|]. split; [done|]. split; [done|]. left. split_and!; try done.
    by intros j ?%elem_of_nil. }
  assert (i ∈ runq (rr w)) as Hi by (rewrite Hq; set_solver).
  assert (NoDup (i :: l)) as Hnd.
  { pose proof (rr_nodup w Hinv) as Hn. rewrite Hq in Hn. by apply NoDup_app in Hn as (_ & _ & ?). }
  destruct (rr_queued w Hinv i Hi) as (t & Ht & Hp & Hst & Hd).
  assert (forall w1, rr_inv w1 -> frame w w1 (.= i) -> runnable (threads w) i = false ->
    runq (rr w1) = (l0 ++ if stays (threads w) i then [i] else []) ++ l ->
    exists r w', rr_loop l w1 = Some (r, w') /\ rr_inv w' /\ frame w w' (.∈ i :: l) /\
      rr_result (threads w) l0 (i :: l) r w') as Hgo.
  { intros w1 Hinv1 Hfr1 Hnr Hq1. destruct (IH _ w1 Hinv1 Hq1) as (r & w' & Hl & Hinv' & Hfr & Hres).
    exists r, w'. split_and!; try done.
    - destruct (frame_trans _ _ _ _ _ Hfr1 Hfr) as (Hf & ?). split; [|done]. intros j Hj.
      apply Hf. rewrite elem_of_cons in Hj. tauto.
    - eapply rr_result_step; [done| |done|done]. intros j Hj. by apply Hfr1. }
  assert (forall w1, runq (rr w1) = (if decide (state t = EXEC) then runq (rr w)
      else filter (.≠ i) (runq (rr w))) ->
    runq (rr w1) = (l0 ++ if bool_decide (state t = EXEC) then [i] else []) ++ l) as Hact.
  { intros w1 ->. rewrite Hq, <-app_assoc. case_bool_decide; [by rewrite decide_True|].
    rewrite decide_False by done. rewrite filter_ne_mid; [done|].
    pose proof (rr_nodup w Hinv) as Hn. by rewrite Hq in Hn. }
  destruct (rr_thread_act_spec w i t Hinv Hi Ht) as (w1 & Ha & Hinv1 & Hfr1 & Hq1%Hact).
  cbn [rr_loop]. rewrite Ht. mstep. unfold thread_state_get.
  unfold runnable, stays in Hgo. rewrite Ht in Hgo.
  destruct (thread_flags_not_set t SCHED_IN_USE_FLAG) eqn:Eu.
  { rewrite Ha. mstep. apply Hgo; try done. by rewrite orb_false_r. }
  destruct (thread_flags_is_set t SCHED_YIELD_FLAG) eqn:Ey; cbn [negb].
  - apply Hgo; [|split; [|done]|done|].
    + apply (set_thread_rr_inv w i t); try done. by rewrite clear_yield_detach.
    + intros j Hj. simpl. by rewrite lookup_insert_ne.
    + simpl. rewrite orb_true_r, Hq. by rewrite <-app_assoc.
  - destruct (bool_decide (state t = EXEC) && (0 <? ts_counter t)) eqn:Er.
    + exists (Some i), w. split; [done|]. split; [done|]. split; [done|]. right.
      exists [], i, l. split_and!; try done.
      * unfold runnable. by rewrite Ht, Eu, Ey, <-andb_assoc.
      * by intros j ?%elem_of_nil.
    + rewrite Ha. mstep. apply Hgo; try done; first [by rewrite orb_false_r|by rewrite <-andb_assoc].
Qed.

(** ** The interface of a scheduling class *)

(** A thread the idle class could be given: it is not dead, nor in the round
    robin queue. *)
Definition in_use (t : thread_info) : Prop := thread_flags_not_set t SCHED_IN_USE_FLAG = false.
Definition accepted (t : thread_info) : Prop :=
  sched_policy t = SCHED_OTHER + 1 -> state t <> DEAD /\ in_use t /\ in_rrq t = false.
Definition detach_ok (w : cpu_sched) (i : Z) (t : thread_info) : Prop :=
  thread_flags_is_set t SCHED_DETACH_FLAG = true -> i ∈ threadmap w.

Definition selectable (w : cpu_sched) (i : Z) : Prop :=
  exists t, threads w !! i = Some t /\ state t = EXEC /\ in_use t.

(** The invariant of the CPU with [n] scheduling classes. *)
Record sched_inv (n : Z) (w : cpu_sched) : Prop := {
  si_rr : rr_inv w;
  si_nodup : NoDup (readyq w);
  si_ready : forall i, i ∈ readyq w -> exists t, threads w !! i = Some t /\
    0 <= sched_policy t < n /\ detach_ok w i t /\ accepted t;
  si_idle : forall i, idle_info w = Some i ->
    i ∉ runq (rr w) /\ i ∉ readyq w /\ selectable w i
}.

Definition same_current (w w' : cpu_sched) : Prop :=
  current_thread w' = current_thread w /\ (is_Some (idle_info w) -> is_Some (idle_info w')).

(** What [sched_handler] asks of the class at index [p]. *)
Class SchedulerOk (n p : Z) (s : scheduler) : Prop := {
  ok_insert : forall w i t, sched_inv n w -> threads w !! i = Some t ->
    sched_policy t = p -> state t = EXEC \/ state t = DEAD -> detach_ok w i t -> accepted t ->
    i ∉ readyq w -> idle_info w <> Some i ->
    exists r w', s_insert s w i = Some (r, w') /\ sched_inv n w' /\
      readyq w' = readyq w /\ same_current w w';
  ok_run : forall w, sched_inv n w -> readyq w = [] ->
    exists r w', s_run s w = Some (r, w') /\ sched_inv n w' /\ readyq w' = [] /\
      same_current w w' /\ forall i, r = Some i -> selectable w' i
}.

(** Storing a thread back, with no change that matters to the queues. *)
Lemma set_thread_sched_inv n w i t t' : sched_inv n w -> threads w !! i = Some t ->
  flags t' = flags t -> policy_flags t' = policy_flags t -> sched_policy t' = sched_policy t ->
  (state t' = state t \/ state t <> DEAD /\ state t' = EXEC) ->
  sched_inv n (set_thread w i t').
Proof.
  intros [Hrr Hnd Hr Hi] Ht Hf Hp Hpol Hst.
  assert (forall m, thread_flags_is_set t' m = thread_flags_is_set t m) as Hset
    by (intros m; unfold thread_flags_is_set, thread_flags_get; by rewrite Hf).
  assert (in_use t' <-> in_use t) as Huse
    by (unfold in_use, thread_flags_not_set, thread_flags_get; by rewrite Hf).
  assert (in_rrq t' = in_rrq t) as Hq by (unfold thread_test_polflag; by rewrite Hp).
  split; simpl; try done.
  - apply (set_thread_rr_inv w i t); try done; [|by rewrite Hset].
    intros Hin. destruct Hst as [->|[_ ->]]; [|done].
    destruct (rr_queued w Hrr i (rr_marked w Hrr i t Ht Hin)) as (u & ? & _ & ? & _). congruence.
  - intros j Hj. destruct (Hr j Hj) as (u & Hu & Hpu & Hd & Ha). destruct (decide (i = j)) as [->|].
    + rewrite lookup_insert_eq. assert (u = t) as -> by congruence. exists t'.
      split; [done|]. split; [lia|]. unfold detach_ok, accepted in *. rewrite Hset, Hpol, Hq, Huse.
      split; [done|]. intros E. destruct (Ha E) as (? & ? & ?). split; [|done].
      destruct Hst as [->|[_ ->]]; done.
    + rewrite lookup_insert_ne by done. eauto.
  - intros j Hj. destruct (Hi j Hj) as (? & ? & u & Hu & Hus & Huu). split_and!; try done.
    unfold selectable. simpl. destruct (decide (i = j)) as [->|].
    + rewrite lookup_insert_eq. assert (u = t) as -> by congruence. exists t'.
      split_and!; try done; [destruct Hst as [->|[_ ->]]; done|by apply Huse].
    + rewrite lookup_insert_ne by done. by exists u.
Qed.

Lemma popped_inv n w i q : sched_inv n w -> readyq w = i :: q ->
  sched_inv n (set_readyq w q) /\ i ∉ q.
Proof.
  intros [Hrr Hnd Hr Hi] Eq. rewrite Eq in *. apply NoDup_cons in Hnd as [Hn Hnd].
  split; [|done]. split; simpl; try done.
  - by destruct Hrr; split.
  - intros j Hj. apply Hr. by right.
  - intros j Hj. destruct (Hi j Hj) as (? & Hjq & ?). split_and!; try done.
    intros Hx. apply Hjq. by right.
Qed.

#[export] Instance rr_ok n : SchedulerOk n SCHED_RR sched_create_rr.
Proof.
  split.
  - intros w i t Hinv Ht Hp Hst Hd Ha Hi Hidle. simpl. unfold rr_insert. rewrite Ht. mstep.
    destruct (in_rrq t) eqn:Eq; [by exists 0, w|]. do 2 eexists. split; [done|].
    destruct Hinv as [[Hnd Hc Hqd Hm] Hrn Hr Hid].
    assert (i ∉ runq (rr w)) as Hni.
    { intros Hx. destruct (Hqd i Hx) as (u & Hu & ? & _). congruence. }
    set (t' := with_polflags _ _).
    split; [|done]. split; [split|..]; simpl.
    + apply NoDup_app. split_and!; try done; [set_solver|apply NoDup_singleton].
    + rewrite Hc. unfold u32. rewrite Zplus_mod_idemp_l, length_app. f_equal. simpl. lia.
    + intros j [Hj|Hj]%elem_of_app.
      * rewrite lookup_insert_ne by congruence. auto.
      * apply list_elem_of_singleton in Hj as ->. rewrite lookup_insert_eq. exists t'.
        split_and!; try done; [apply (polflag_set (with_ts t _))|]. simpl. by destruct Hst as [->| ->].
    + intros j u Hu Hf. apply elem_of_app. destruct (decide (i = j)) as [->|].
      * right. by left.
      * rewrite lookup_insert_ne in Hu by done. left. eauto.
    + done.
    + intros j Hj. rewrite lookup_insert_ne by congruence. auto.
    + intros j Hj. destruct (Hid j Hj) as (? & ? & u & Hu & ?). split_and!; try done.
      * intros [?|Hx]%elem_of_app; [done|]. apply list_elem_of_singleton in Hx as ->. done.
      * exists u. simpl. by rewrite lookup_insert_ne by congruence.
  - intros w Hinv Hrq. destruct Hinv as [Hrr Hrn Hr Hid].
    destruct (rr_loop_spec (runq (rr w)) [] w Hrr eq_refl) as (r & w' & Hl & Hrr' & Hfr & Hres).
    destruct Hfr as (Hth & Erq & Eid & Ecur).
    exists r, w'. split; [done|]. assert (forall j, j ∈ runq (rr w') -> j ∈ runq (rr w)) as Hsub.
    { intros j. destruct Hres as [(_ & _ & ->)|(l1 & k & l2 & -> & _ & _ & _ & -> & _)]; simpl.
      - by intros [_ ?]%list_elem_of_filter.
      - intros [[_ ?]%list_elem_of_filter|?]%elem_of_app; apply elem_of_app; auto. }
    split; [|split; [congruence|split; [split; [done|by rewrite Eid]|]]].
    + split; [done|by rewrite Erq|by rewrite Erq, Hrq; intros i ?%elem_of_nil|].
      intros j Hj. rewrite Eid in Hj. destruct (Hid j Hj) as (Hq & ? & u & Hu & ?).
      split_and!; [by auto|by rewrite Erq|]. exists u. by rewrite Hth.
    + intros i ->. destruct Hres as [[? _]|(l1 & k & l2 & _ & [= <-] & Hrun & _ & _ & Hs)]; [done|].
      unfold selectable. rewrite Hs by by left. unfold runnable in Hrun.
      destruct (threads w !! i) as [t|] eqn:Et; [|done]. exists t.
      repeat apply andb_prop in Hrun as [Hrun ?]. apply negb_true_iff in Hrun.
      by apply bool_decide_eq_true in H0.
Qed.

(** The internal flag does not matter to the other ones. *)
Lemma set_internal_flags t :
  let t' := thread_flags_set t SCHED_INTERNAL_FLAG in
  thread_flags_is_set t' SCHED_DETACH_FLAG = thread_flags_is_set t SCHED_DETACH_FLAG /\
  (in_use t' <-> in_use t).
Proof.
  unfold in_use, thread_flags_is_set, thread_flags_not_set, thread_flags_get, thread_flags_set. simpl.
  rewrite !Z.land_lor_distr_l. change (Z.land SCHED_INTERNAL_FLAG _) with 0 at 1.
  change (Z.land SCHED_INTERNAL_FLAG SCHED_IN_USE_FLAG) with 0. by rewrite !Z.lor_0_r.
Qed.

#[export] Instance idle_ok n : SchedulerOk n (SCHED_OTHER + 1) sched_create_idle.
Proof.
  split.
  - intros w i t Hinv Ht Hp Hst Hd Ha Hi Hidle. simpl. unfold idle_insert.
    destruct (idle_info w) as [j|] eqn:Ei; [by exists (- ENOTSUP), w|]. rewrite Ht. mstep.
    destruct Hinv as [Hrr Hnd Hr Hid].
    destruct (Ha Hp) as (Hnd' & Hu & Hq). destruct Hst as [Hst|]; [|done].
    destruct (set_internal_flags t) as [Hdet Huse].
    do 2 eexists. split; [done|]. split; [|split; [done|split; [done|by eexists]]].
    assert (rr_inv (set_thread w i (thread_flags_set t SCHED_INTERNAL_FLAG))) as Hrr'.
    { apply (set_thread_rr_inv w i t); try done; [simpl; by rewrite Hst|by rewrite Hdet]. }
    split; simpl; try done; [by destruct Hrr'; split|..].
    + intros j Hj. rewrite lookup_insert_ne by congruence. auto.
    + intros j [= <-]. split_and!; try done.
      * intros (u & Hx & ? & _)%(rr_queued w Hrr). congruence.
      * eexists. simpl. rewrite lookup_insert_eq. split; [done|]. split; [done|]. by apply Huse.
  - intros w Hinv Hrq. exists (idle_info w), w. split_and!; try done.
    intros i Hi. by apply (si_idle n w Hinv i Hi).
Qed.

(** ** The handler *)

Section handler.
Context (arr0 : list scheduler).
Let arr := arr0 ++ [sched_create_idle].
Let n := Z.of_nat (length arr).
Context (arr_ok : forall p s, arr.[p] = Some s -> SchedulerOk n p s).

Lemma exhaust_readyq_spec fuel : forall w, sched_inv n w -> (length (readyq w) < fuel)%nat ->
  exists w', exhaust_readyq fuel arr w = Some w' /\ sched_inv n w' /\ readyq w' = [] /\
    same_current w w'.
Proof.
  induction fuel as [|fuel IH]; intros w Hinv Hlen; [lia|]. cbn [exhaust_readyq].
  unfold thread_remove_ready. destruct (readyq w) as [|i q] eqn:Eq; [by exists w|].
  destruct (popped_inv n w i q Hinv Eq) as [Hinv' Hiq].
  destruct (si_ready n w Hinv i) as (t & Ht & Hpol & Hd & Ha); [rewrite Eq; by left|].
  cbn [threads set_readyq]. rewrite Ht. mstep.
  destruct (rd_is_Some arr (sched_policy t)) as [s Hs]; [done|]. rewrite Hs. mstep.
  unfold thread_state_set. set (t' := if decide (state t = DEAD) then t else with_state t EXEC).
  assert (flags t' = flags t /\ policy_flags t' = policy_flags t /\
    sched_policy t' = sched_policy t /\ (state t' = EXEC \/ state t' = DEAD) /\
    (state t' = state t \/ state t <> DEAD /\ state t' = EXEC)) as (Ef & Ep & Epol & Est & Est').
  { subst t'. case_decide; split_and!; auto. }
  destruct (ok_insert (SchedulerOk := arr_ok _ _ Hs) (set_thread (set_readyq w q) i t') i t')
    as (r & w' & -> & Hinv2 & Erq & Ecur & Eidle).
  - by apply (set_thread_sched_inv n _ i t).
  - apply lookup_insert_eq.
  - done.
  - done.
  - unfold detach_ok, thread_flags_is_set, thread_flags_get in *. by rewrite Ef.
  - unfold accepted, in_use, thread_flags_not_set, thread_flags_get, thread_test_polflag in *.
    rewrite Ef, Ep, Epol. intros E. destruct (Ha E) as (? & ? & ?). split; [|done].
    destruct Est' as [->|[_ ->]]; done.
  - done.
  - intros E. destruct (si_idle n w Hinv i E) as (_ & Hx & _). apply Hx. rewrite Eq. by left.
  - mstep. simpl in Erq, Ecur, Eidle, Hlen.
    destruct (IH w' Hinv2) as (w2 & -> & ? & ? & ? & Hidle2); [rewrite Erq; lia|].
    exists w2. split_and!; try done. split; [congruence|auto].
Qed.

Lemma run_schedulers_spec k1 k2 w : arr = k1 ++ k2 -> k2 <> [] -> sched_inv n w ->
  readyq w = [] -> is_Some (idle_info w) ->
  exists w' i, run_schedulers k2 w = Some w' /\ sched_inv n w' /\ readyq w' = [] /\
    current_thread w' = Some i /\ selectable w' i.
Proof.
  revert k1 w. induction k2 as [|s k2 IH]; intros k1 w Ha Hne Hinv Hrq Hidle; [done|].
  assert (arr.[Z.of_nat (length k1)] = Some s) as Hs.
  { rewrite Ha. unfold rd. zcase; [lia|]. rewrite Nat2Z.id, lookup_app_r, Nat.sub_diag by lia. done. }
  destruct (ok_run (SchedulerOk := arr_ok _ _ Hs) w Hinv Hrq) as (r & w' & Hr & Hinv' & Hrq' & [Hc Hi] & Hsel).
  cbn [run_schedulers]. rewrite Hr. mstep. destruct r as [i|].
  - exists (set_current w' i), i. split_and!; try done; [|by apply Hsel].
    destruct Hinv' as [Hrr ? ? ?]. split; try done. by destruct Hrr; split.
  - destruct k2 as [|s2 k2].
    + exfalso. apply app_inj_tail in Ha as [_ <-]. simpl in Hr. injection Hr as E <-.
      rewrite E in Hidle. by destruct Hidle.
    + apply (IH (k1 ++ [s]) w'); try done; [by rewrite <-app_assoc|auto].
Qed.
End handler.

(** ** Claims *)

(** C33. The round robin class: on a well-formed queue [rr_schedule] returns,
    never panics, and selects the first thread of the queue that is in use, does
    not yield, executes and has time left, or nothing when there is none.  It
    drops the blocked, ready and dead threads before that one from the queue,
    keeps the order of all others and leaves the threads from the selected one
    on as they are; the queue stays well-formed. *)
Theorem rr_schedule_first_runnable (w : cpu_sched) :
  rr_inv w ->
  exists r w', rr_schedule w = Some (r, w') /\ rr_inv w' /\
    ((r = None /\ (forall j, j ∈ runq (rr w) -> runnable (threads w) j = false) /\
      runq (rr w') = filter (fun j => stays (threads w) j = true) (runq (rr w))) \/
     exists l1 i l2, runq (rr w) = l1 ++ i :: l2 /\ r = Some i /\ runnable (threads w) i = true /\
       (forall j, j ∈ l1 -> runnable (threads w) j = false) /\
       runq (rr w') = filter (fun j => stays (threads w) j = true) l1 ++ i :: l2 /\
       (forall j, j ∈ i :: l2 -> threads w' !! j = threads w !! j)).
Proof.
  intros Hinv. destruct (rr_loop_spec (runq (rr w)) [] w Hinv eq_refl) as (r & w' & ? & ? & _ & ?).
  by exists r, w'.
Qed.

(** A process with three threads in round robin order, and the idle thread. *)
Definition thread1 (pol : Z) : thread_info := ThreadInfo 1 READY 0 0 pol 0 pol (-1).
Definition no_threads : scheduler :=
  Scheduler (fun w _ => Some (0, w)) (fun w => Some (None, w)) (fun _ => 0).
Definition arr3 : list scheduler := [no_threads; sched_create_rr; sched_create_idle].
Definition world : cpu_sched :=
  CpuSched (<[1 := thread1 1]> (<[2 := thread1 1]> (<[3 := thread1 1]>
    (<[0 := with_state (thread1 2) EXEC]> ∅))))
    {[0; 1; 2; 3]} [1; 2; 3] (SchedRr [] 0) (Some 0) [] 4 (Some 0) (<[1 := 0]> ∅) [].

Definition queued : cpu_sched :=
  default world (exhaust_readyq 4 arr3 world).

Lemma queued_inv : rr_inv queued.
Proof.
  split; [vm_compute; repeat constructor; set_solver|done|..].
  - intros i Hi. change (runq (rr queued)) with [1; 2; 3] in Hi.
    repeat (apply elem_of_cons in Hi as [->|Hi]; [eexists; split; [vm_compute; reflexivity|];
      split_and!; [done|done|intros _; set_solver]|]). by apply elem_of_nil in Hi.
  - intros i t Ht Hf. change (runq (rr queued)) with [1; 2; 3].
    destruct (decide (i = 0)) as [->|]; [vm_compute in Ht; by injection Ht as <-|].
    destruct (decide (i ∈ [1; 2; 3])) as [|Hn]; [done|]. exfalso.
    assert (i ∈ dom (threads queued)) as Hd by by apply elem_of_dom.
    assert (dom (threads queued) = {[0; 1; 2; 3]}) as E by by vm_compute.
    rewrite E in Hd. set_solver.
Qed.

Lemma rr_schedule_first_runnable_witness :
  exists r w', rr_schedule queued = Some (r, w') /\ rr_inv w' /\
    ((r = None /\ (forall j, j ∈ runq (rr queued) -> runnable (threads queued) j = false) /\
      runq (rr w') = filter (fun j => stays (threads queued) j = true) (runq (rr queued))) \/
     exists l1 i l2, runq (rr queued) = l1 ++ i :: l2 /\ r = Some i /\
       runnable (threads queued) i = true /\
       (forall j, j ∈ l1 -> runnable (threads queued) j = false) /\
       runq (rr w') = filter (fun j => stays (threads queued) j = true) l1 ++ i :: l2 /\
       (forall j, j ∈ i :: l2 -> threads w' !! j = threads queued !! j)).
Proof. apply (rr_schedule_first_runnable queued queued_inv). Defined.

(** Pre- and post-scheduling tasks that act outside of the scheduler's state. *)
Definition quiet (f : task) : Prop := forall w, exists p e,
  f w = CpuSched (threads w) (threadmap w) (readyq w) (rr w) (idle_info w) (thread_free_queue w)
          (anr_threads w) (current_thread w) p e.

Lemma quiet_tasks l : Forall quiet l -> quiet (fun w => foldl (fun w t => t w) w l).
Proof.
  induction 1 as [|f l Hf _ IH]; intros w; simpl.
  - exists (procs w), (events w). by destruct w.
  - destruct (Hf w) as (p & e & ->). destruct (IH (CpuSched (threads w) (threadmap w) (readyq w)
      (rr w) (idle_info w) (thread_free_queue w) (anr_threads w) (current_thread w) p e))
      as (p' & e' & ->). simpl. eauto.
Qed.

Lemma quiet_inv n w p e : sched_inv n w ->
  sched_inv n (CpuSched (threads w) (threadmap w) (readyq w) (rr w) (idle_info w)
    (thread_free_queue w) (anr_threads w) (current_thread w) p e).
Proof. intros [Hrr ? ? ?]. split; try done. by destruct Hrr; split. Qed.


#[local] Instance no_threads_ok n p : SchedulerOk n p no_threads.
Proof.
  split.
  - intros w i t Hinv. intros. by exists 0, w.
  - intros w Hinv Hrq. by exists None, w.
Qed.

Lemma world_inv : sched_inv 3 world.
Proof.
  split.
  - split; try done; [constructor|by intros i ?%elem_of_nil|].
    intros i t Ht Hf. exfalso. assert (policy_flags t = 0) as E; [|].
    { assert (i ∈ dom (threads world)) as Hd by by apply elem_of_dom.
      assert (dom (threads world) = {[0; 1; 2; 3]}) as Ed by by vm_compute.
      rewrite Ed in Hd. assert (i = 0 \/ i = 1 \/ i = 2 \/ i = 3) as Hi by set_solver.
      destruct Hi as [->|[->|[->| ->]]]; vm_compute in Ht; by injection Ht as <-. }
    unfold thread_test_polflag in Hf. by rewrite E in Hf.
  - vm_compute. repeat constructor; set_solver.
  - intros i Hi. change (readyq world) with [1; 2; 3] in Hi.
    repeat (apply elem_of_cons in Hi as [->|Hi]; [eexists; split; [vm_compute; reflexivity|];
      split_and!; done|]). by apply elem_of_nil in Hi.
  - intros i [= <-]. split_and!; [by intros ?%elem_of_nil|vm_compute; set_solver|].
    eexists. split; [vm_compute; reflexivity|]. done.
Qed.


(** The limited nice value: [NICE_RANGE] compares unsigned values, so a sum
    inside of the range of nice values becomes one of its ends and a sum outside
    of it is not limited at all.  A thread of a live process never has a
    scheduling priority strictly between [NICE_MIN] and [NICE_MAX]. *)
Theorem scheduling_priority_not_limited (w : cpu_sched) (t : thread_info) (nice : Z) :
  in_use t -> sched_priority t <> NICE_ERR -> procs w !! pid_owner t = Some nice ->
  - 2 ^ 30 < sched_priority t + nice < 2 ^ 30 ->
  let x := sched_priority t + nice in
  thread_p_get_scheduling_priority w t =
    (if decide (0 <= x <= NICE_MAX) then NICE_MAX
     else if decide (NICE_MIN <= x < 0) then NICE_MIN else x).
Proof.
  intros Hu Hp Hn Hx x. unfold thread_p_get_scheduling_priority.
  rewrite Hu. destruct (Z.eqb_spec (sched_priority t) NICE_ERR); [done|]. rewrite Hn.
  fold x in Hx |- *. clearbody x. unfold NICE_RANGE, s32, u32, NICE_MAX, NICE_MIN.
  repeat case_decide; zcase; dlia.
Qed.

Lemma scheduling_priority_not_limited_witness :
  thread_p_get_scheduling_priority world (thread1 1) = NICE_MAX.
Proof.
  apply (scheduling_priority_not_limited world (thread1 1) 0).
  - reflexivity.
  - discriminate.
  - reflexivity.
  - simpl. lia.
Defined.

(** Round robin without turns: the queue is not rotated and an expired thread is
    given a new time slice at once, so the first of three equal threads runs for
    41 ticks for each single tick of the second one, and the third does not run. *)
Fixpoint ticks (k : nat) (w : cpu_sched) : list (option Z) :=
  match k with
  | O => []
  | S k => match sched_handler arr3 [] [] w with
           | Some w => current_thread w :: ticks k w
           | None => []
           end
  end.

Theorem rr_first_thread_dominates :
  let run := ticks 420 world in
  length (filter (.= Some 1) run) = 410%nat /\ length (filter (.= Some 2) run) = 10%nat /\
  length (filter (.= Some 3) run) = 0%nat.
Proof. by vm_compute. Qed.

(** The fixed-point average does not overflow and lies between the old load and
    the number of active threads. *)
Lemma calc_load_between load exp n M : 0 <= load <= M -> 0 <= n <= M -> 0 <= exp <= FIXED_1 ->
  M * FIXED_1 < 2 ^ 32 -> Z.min load n <= CALC_LOAD load exp n <= Z.max load n.
Proof.
  intros Hl Hn He HM. unfold CALC_LOAD, FSHIFT. change FIXED_1 with 2048 in *.
  assert (load * exp <= M * 2048) by nia. assert (n * (2048 - exp) <= M * (2048 - exp)) by nia.
  assert (load * exp <= M * exp) by nia.
  rewrite (u32_small (load * exp)), u32_small by nia.
  rewrite Z.shiftr_div_pow2 by lia. change (2 ^ 11) with 2048.
  assert (Z.min load n * 2048 <= load * exp + n * (2048 - exp) <= Z.max load n * 2048) by nia.
  split; [apply Z.div_le_lower_bound; lia|apply Z.div_le_upper_bound; lia].
Qed.

(** With at most 1023 active threads every average stays below their number. *)
Lemma sched_calc_loads_bounded load_freq exps locked arr w st M :
  active_threads arr w <= M -> Forall (fun l => 0 <= l <= M) (loadavg st) ->
  Forall (fun e => 0 <= e <= FIXED_1) exps -> M * FIXED_1 < 2 ^ 32 ->
  Forall (fun l => 0 <= l <= M) (loadavg (sched_calc_loads load_freq exps locked arr w st)).
Proof.
  intros Ha Hl He HM. unfold sched_calc_loads. zcase; [done|]. destruct locked; [|done]. simpl.
  assert (0 <= active_threads arr w) as H0.
  { unfold active_threads. destruct arr as [|s arr _] using rev_ind; [done|].
    rewrite foldl_snoc. apply u32_range. }
  clear - Ha Hl He HM H0. revert exps He.
  induction Hl as [|l ls Hl _ IH]; intros exps He; [done|]. destruct He as [|e es He Hes]; [done|].
  constructor; [|by apply IH].
  pose proof (calc_load_between l e (active_threads arr w) M Hl ltac:(lia) He HM). lia.
Qed.
