(* ===== verification/DirHash.v ===== *)
(** * Directory entry hash tables: kern/fs/libfs/dehtable.c

    A chain is one memory block that holds variable-sized directory entries one
    after the other.  It is the list of its entries here, and [get_dirent] finds
    the entry at a byte offset as the sum of the sizes before it.  Names are C
    strings, lists of non-zero bytes.  The hash function of the library is a
    parameter, since the table is correct for every one.  Whether an allocation
    succeeds is an argument.  [None] is an access outside of a chain or through a
    null pointer. *)
From S2P Require Import Prelude Mem.

Definition NAME_MAX : Z := 255.
Definition DEHTABLE_SIZE : Z := 16.
(** [sizeof(dh_dirent_t)] is 24: [ino_t] has 64 bits. *)
Definition DIRENT_SIZE : Z := 24 - 1.
Definition CH_NOLINK : Z := 0.
Definition CH_LINK : Z := 1.
Definition SIZE_MAX : Z := 2 ^ 32 - 1.

Record dh_dirent := DhDirent {
  dh_ino : Z; dh_type : Z; dh_size : Z; dh_link : Z; dh_name : list Z
}.
Definition with_link (d : dh_dirent) (l : Z) : dh_dirent :=
  DhDirent (dh_ino d) (dh_type d) (dh_size d) l (dh_name d).

Record dh_table := DhTable { k0 : Z; k1 : Z; htable : list (option (list dh_dirent)) }.
Record chain_info := ChainInfo { i_last : Z; i_size : Z }.
Record dh_dir_iter := DhDirIter { dea_ind : Z; ch_ind : Z }.

(** ** Strings *)

(** [strlenn(s, max)] and [strncmp(a, b, n) == 0]. *)
Definition name_strlenn (s : list Z) (max : Z) : Z := Z.min (Z.of_nat (length s)) max.
Definition strn_eq (a b : list Z) (n : Z) : bool :=
  bool_decide (take (Z.to_nat n) (a ++ [0]) = take (Z.to_nat n) (b ++ [0])).
(** The text [strlcpy(dst, s, size)] stores. *)
Definition strlcpy_text (s : list Z) (size : Z) : list Z := take (Z.to_nat (size - 1)) s.

(** ** Chains *)

Definition is_invalid_offset (d : dh_dirent) : bool := DIRENT_SIZE + NAME_MAX + 1 <? dh_size d.

Fixpoint get_dirent (c : list dh_dirent) (offset : Z) : option dh_dirent :=
  match c with
  | [] => None
  | d :: c => if offset =? 0 then Some d
              else if offset <? dh_size d then None else get_dirent c (offset - dh_size d)
  end.
Fixpoint set_link (c : list dh_dirent) (offset l : Z) : option (list dh_dirent) :=
  match c with
  | [] => None
  | d :: c => if offset =? 0 then Some (with_link d l :: c)
              else if offset <? dh_size d then None
              else c' ← set_link c (offset - dh_size d) l; Some (d :: c')
  end.

(** [Some None] is the result NULL. *)
Fixpoint find_node_loop (fuel : nat) (c : list dh_dirent) (name : list Z) (name_len offset : Z)
    : option (option dh_dirent) :=
  match fuel with
  | O => None
  | S fuel =>
      node ← get_dirent c offset;
      if is_invalid_offset node then Some None
      else if strn_eq (dh_name node) name name_len then Some (Some node)
      else if dh_link node =? CH_LINK
           then find_node_loop fuel c name name_len (u32 (offset + dh_size node))
           else Some None
  end.
Definition find_node (c : list dh_dirent) (name : list Z) : option (option dh_dirent) :=
  find_node_loop (S (length c)) c name (name_strlenn name (NAME_MAX + 1) + 1) 0.

Fixpoint find_last_loop (fuel : nat) (c : list dh_dirent) (size : Z) : option chain_info :=
  match fuel with
  | O => None
  | S fuel =>
      node ← get_dirent c size;
      if is_invalid_offset node then Some (ChainInfo (u32 (size - dh_size node)) size)
      else
        let size := u32 (size + dh_size node) in
        if dh_link node =? CH_LINK then find_last_loop fuel c size
        else Some (ChainInfo (u32 (size - dh_size node)) size)
  end.
Definition find_last_node (c : list dh_dirent) : option chain_info :=
  find_last_loop (S (length c)) c 0.

(** The loop of [rm_node]: [new] is the new chain so far and [prev] the offset of
    its last node.  [Some None] is the error exit. *)
Fixpoint rm_loop (fuel : nat) (c : list dh_dirent) (name : list Z) (old_offset : Z)
    (new : list dh_dirent) (new_offset prev_noffset : Z) (matched : bool)
    : option (option (list dh_dirent * Z)) :=
  match fuel with
  | O => None
  | S fuel =>
      node ← get_dirent c old_offset;
      if is_invalid_offset node then Some None
      else
        let copy := matched || negb (strn_eq (dh_name node) name (NAME_MAX + 1)) in
        let new' := if copy then new ++ [node] else new in
        let prev' := if copy then new_offset else prev_noffset in
        let off' := if copy then u32 (new_offset + dh_size node) else new_offset in
        if dh_link node =? CH_NOLINK then Some (Some (new', prev'))
        else rm_loop fuel c name (u32 (old_offset + dh_size node)) new' off' prev'
               (matched || negb copy)
  end.

Definition empty_dirent : dh_dirent := DhDirent 0 0 0 0 [].

(** The error and the chain that replaces the old one; [ok] says whether the
    allocation succeeds.  The block is zeroed, so it starts with an empty entry
    when nothing has been copied. *)
Definition rm_node (chain : option (list dh_dirent)) (name : list Z) (ok : bool)
    : option (Z * option (list dh_dirent)) :=
  c ← chain;
  chinfo ← find_last_node c;
  if i_size chinfo <? 4 then Some (- ENOENT, chain)
  else if negb ok then Some (- ENOMEM, chain)
  else
    r ← rm_loop (S (length c)) c name 0 [] 0 0 false;
    match r with
    | None => Some (- ENOTRECOVERABLE, chain)
    | Some (new, prev_noffset) =>
        let new := if decide (new = []) then [empty_dirent] else new in
        new ← set_link new prev_noffset CH_NOLINK;
        first ← get_dirent new 0;
        Some (0, if dh_size first =? 0 then None else Some new)
    end.

(** ** Tables *)

Section code.
Context (halfsiphash32 : list Z -> Z -> Z -> Z).

Fixpoint fold_hash (chunks : nat) (hash mask retval : Z) : Z :=
  match chunks with
  | O => retval
  | S chunks => fold_hash chunks hash (u32 (Z.shiftl mask (DEHTABLE_SIZE - 1)))
                  (u32 (retval + Z.land hash mask))
  end.
(** [NBITS(DEHTABLE_SIZE)] is 5. *)
Definition hash_fname (str : list Z) (t : dh_table) : Z :=
  let len := name_strlenn str (NAME_MAX + 1) in
  let hash := halfsiphash32 (take (Z.to_nat len) str) (k0 t) (k1 t) in
  Z.land (fold_hash 5 hash (DEHTABLE_SIZE - 1) 0) (DEHTABLE_SIZE - 1).

(** The [sizeof(dir->htable)] bytes that are cleared start at the keys: they
    cover the two keys and all but the last two chains. *)
Definition dh_init (t : dh_table) (r0 r1 : Z) : dh_table :=
  DhTable 0 0 (replicate 14 None ++ drop 14 (htable t)).

Definition set_chain (t : dh_table) (h : Z) (c : option (list dh_dirent)) : option dh_table :=
  tbl ← (htable t).[h <- c]; Some (DhTable (k0 t) (k1 t) tbl).

(** The error and the inode number. *)
Definition dh_lookup (t : dh_table) (name : list Z) : option (Z * Z) :=
  dea ← (htable t).[hash_fname name t];
  match dea with
  | None => Some (- ENOENT, 0)
  | Some c =>
      dent ← find_node c name;
      Some (match dent with None => (- ENOENT, 0) | Some d => (0, dh_ino d) end)
  end.

Definition dh_entry_size (name : list Z) : Z :=
  memalign (u32 (DIRENT_SIZE + (name_strlenn name (NAME_MAX + 1) + 1))).

Definition dh_link_op (t : dh_table) (vnode_num d_type : Z) (name : list Z) (ok : bool)
    : option (Z * dh_table) :=
  let name_len := name_strlenn name (NAME_MAX + 1) + 1 in
  let h := hash_fname name t in
  let entry_size := dh_entry_size name in
  '(err, _) ← dh_lookup t name;
  if err =? 0 then Some (- EEXIST, t)
  else
    dea ← (htable t).[h];
    chinfo ← match dea with None => Some (ChainInfo 0 0) | Some c => find_last_node c end;
    if negb ok then Some (- ENOMEM, t)
    else
      c ← match dea with
          | None => Some []
          | Some c => set_link c (i_last chinfo) CH_LINK
          end;
      (* the new node is written at i_size, the end of the chain *)
      let node := DhDirent vnode_num d_type entry_size CH_NOLINK
                    (strlcpy_text name (name_len + 1)) in
      t ← (if i_size chinfo =? foldr (fun d a => dh_size d + a) 0 c
           then set_chain t h (Some (c ++ [node])) else None);
      Some (0, t).

Definition dh_unlink (t : dh_table) (name : list Z) (ok : bool) : option (Z * dh_table) :=
  let h := hash_fname name t in
  dea ← (htable t).[h];
  '(err, c) ← rm_node dea name ok;
  t ← set_chain t h c;
  Some (err, t).

(** ** Iteration *)

Definition dh_get_iter : dh_dir_iter := DhDirIter 0 SIZE_MAX.

(** [do { dea = htable[i]; i++; } while (!dea && i < DEHTABLE_SIZE)]. *)
Fixpoint next_chain (fuel : nat) (t : dh_table) (i : Z) : option (option (list dh_dirent) * Z) :=
  match fuel with
  | O => None
  | S fuel =>
      dea ← (htable t).[i];
      if decide (dea = None /\ i + 1 < DEHTABLE_SIZE) then next_chain fuel t (i + 1)
      else Some (dea, i + 1)
  end.

Definition dh_iter_next (t : dh_table) (it : dh_dir_iter) : option (option dh_dirent * dh_dir_iter) :=
  if DEHTABLE_SIZE <=? dea_ind it then Some (None, it)
  else
    '(dea, it) ←
      (if ch_ind it =? SIZE_MAX then
         '(dea, i) ← next_chain 16 t (dea_ind it); Some (dea, DhDirIter (i - 1) 0)
       else dea ← (htable t).[dea_ind it]; Some (dea, it));
    match dea with
    | None => Some (None, it)
    | Some c =>
        node ← get_dirent c (ch_ind it);
        if is_invalid_offset node then Some (None, it)
        else Some (Some node,
               if dh_link node =? CH_LINK
               then DhDirIter (dea_ind it) (u32 (ch_ind it + dh_size node))
               else DhDirIter (dea_ind it + 1) SIZE_MAX)
    end.

(** The nodes [dh_iter_next] returns until NULL. *)
Fixpoint iter_nodes (fuel : nat) (t : dh_table) (it : dh_dir_iter) : option (list dh_dirent) :=
  match fuel with
  | O => None
  | S fuel =>
      '(node, it) ← dh_iter_next t it;
      match node with
      | None => Some []
      | Some d => l ← iter_nodes fuel t it; Some (d :: l)
      end
  end.
Definition table_fuel (t : dh_table) : nat :=
  S (foldr (fun c a => (length (default [] c) + a)%nat) O (htable t)).

Definition dh_nr_entries (t : dh_table) : option Z :=
  l ← iter_nodes (table_fuel t) t dh_get_iter; Some (Z.of_nat (length l)).

(** The error and the text stored in the buffer of [name_len] bytes. *)
Definition dh_revlookup (t : dh_table) (ino name_len : Z) : option (Z * list Z) :=
  l ← iter_nodes (table_fuel t) t dh_get_iter;
  match list_find (fun d => dh_ino d = ino) l with
  | None => Some (- ENOENT, [])
  | Some (_, d) =>
      Some (if name_len <=? Z.of_nat (length (dh_name d)) then - ENAMETOOLONG else 0,
            strlcpy_text (dh_name d) name_len)
  end.
End code.

(** ** Names and entry sizes *)

(** Names whose entries pass [is_invalid_offset]. *)
Definition name_ok (n : list Z) : Prop :=
  Forall (fun b => 0 < b < 256) n /\ (length n <= 252)%nat.
#[export] Instance name_ok_dec n : Decision (name_ok n).
Proof. unfold name_ok. apply _. Defined.

Lemma strlenn_ok n : name_ok n -> name_strlenn n (NAME_MAX + 1) = Z.of_nat (length n).
Proof. intros [_ ?]. unfold name_strlenn, NAME_MAX. lia. Qed.

Lemma entry_size_ok n : name_ok n ->
  24 <= dh_entry_size n <= 276 /\ 24 + Z.of_nat (length n) <= dh_entry_size n.
Proof.
  intros Hn. unfold dh_entry_size. rewrite (strlenn_ok n Hn). destruct Hn as [_ Hn].
  unfold DIRENT_SIZE. rewrite u32_small, memalign_4 by lia. change 4 with (2 ^ 2).
  destruct (memalign_size_spec (24 - 1 + (Z.of_nat (length n) + 1)) 2) as [Hm Hr]; try lia.
  change (2 ^ 2) with 4 in *. dlia.
Qed.

(** Equality of strings up to their terminator. *)
Lemma strn_eq_spec a b n : name_ok a -> name_ok b -> Z.of_nat (length b) < n ->
  strn_eq a b n = bool_decide (a = b).
Proof.
  intros [Ha _] Hb Hn. unfold strn_eq.
  rewrite (take_ge (b ++ [0])) by (rewrite length_app; simpl; lia).
  apply bool_decide_ext. split; [|intros ->; rewrite take_ge; [done|rewrite length_app; simpl; lia]].
  intros E. pose proof (take_drop (Z.to_nat n) (a ++ [0])) as Hsplit. rewrite E in Hsplit.
  destruct (drop _ _) as [|x r] using rev_ind.
  - rewrite app_nil_r in Hsplit. by apply app_inj_tail in Hsplit as [-> _].
  - exfalso. rewrite !app_assoc in Hsplit. apply app_inj_tail in Hsplit as [<- _].
    rewrite !Forall_app in Ha. destruct Ha as [[_ H0] _]. inversion H0. lia.
Qed.

(** ** Chains *)

Definition total (c : list dh_dirent) : Z := foldr (fun d a => dh_size d + a) 0 c.

Definition dent_ok (d : dh_dirent) : Prop :=
  name_ok (dh_name d) /\ dh_size d = dh_entry_size (dh_name d).

(** All entries but the last one carry the link tag. *)
Definition linked (c : list dh_dirent) : Prop :=
  exists r d, c = r ++ [d] /\ Forall (fun d => dh_link d = CH_LINK) r /\ dh_link d = CH_NOLINK.

Lemma dent_size d : dent_ok d -> 24 <= dh_size d <= 276 /\ is_invalid_offset d = false.
Proof.
  intros [Hn E]. destruct (entry_size_ok _ Hn) as [? _]. rewrite E. split; [done|].
  unfold is_invalid_offset, DIRENT_SIZE, NAME_MAX. rewrite E. apply Z.ltb_ge. lia.
Qed.

Lemma total_app c1 c2 : total (c1 ++ c2) = total c1 + total c2.
Proof. induction c1 as [|d c IH]; simpl; [done|]. rewrite IH. lia. Qed.

Lemma chain_total_range c : Forall dent_ok c -> 0 <= total c /\ (c <> [] -> 24 <= total c).
Proof.
  induction 1 as [|d c Hd _ [IH _]]; simpl; [done|]. pose proof (dent_size d Hd) as [? _]. lia.
Qed.

Lemma get_dirent_at pre d c : Forall dent_ok pre -> get_dirent (pre ++ d :: c) (total pre) = Some d.
Proof.
  induction 1 as [|e pre He Hpre IH]; simpl; [done|].
  destruct (dent_size e He) as [? _]. destruct (chain_total_range pre Hpre) as [? _].
  zcase; [lia|]. zcase; [lia|]. by rewrite Z.add_simpl_l.
Qed.

Lemma set_link_at pre d c l : Forall dent_ok pre ->
  set_link (pre ++ d :: c) (total pre) l = Some (pre ++ with_link d l :: c).
Proof.
  induction 1 as [|e pre He Hpre IH]; simpl; [done|].
  destruct (dent_size e He) as [? _]. destruct (chain_total_range pre Hpre) as [? _].
  zcase; [lia|]. zcase; [lia|]. by rewrite Z.add_simpl_l, IH.
Qed.

Lemma linked_cons d c : linked (d :: c) ->
  (c = [] /\ dh_link d = CH_NOLINK) \/ (dh_link d = CH_LINK /\ linked c).
Proof.
  intros (r & e & E & Hr & He). destruct r as [|x r]; simplify_eq/=; [by left|].
  apply Forall_cons in Hr as [? ?]. right. split; [done|]. by exists r, e.
Qed.

(** The induction every walk over a chain follows: [pre] has been visited. *)
Section walk.
Context (c : list dh_dirent) (Hok : Forall dent_ok c) (Htot : total c < 2 ^ 32).

Lemma walk_step pre d suf : c = pre ++ d :: suf ->
  get_dirent c (total pre) = Some d /\ is_invalid_offset d = false /\ dent_ok d /\
  c = (pre ++ [d]) ++ suf /\ u32 (total pre + dh_size d) = total (pre ++ [d]).
Proof.
  intros E. rewrite E in Hok, Htot. apply Forall_app in Hok as [Hpre [Hd Hsuf]%Forall_cons].
  destruct (dent_size d Hd) as [? ?]. destruct (chain_total_range _ Hpre), (chain_total_range _ Hsuf).
  rewrite total_app in Htot. simpl in Htot. split_and!; try done.
  - rewrite E. by apply get_dirent_at.
  - by rewrite E, <-app_assoc.
  - rewrite u32_small, total_app by lia. simpl. lia.
Qed.

Lemma find_node_loop_spec name fuel : forall pre suf, name_ok name -> c = pre ++ suf -> linked suf ->
  (length suf <= fuel)%nat ->
  find_node_loop fuel c name (name_strlenn name (NAME_MAX + 1) + 1) (total pre) =
    Some (head (filter (fun d => dh_name d = name) suf)).
Proof.
  induction fuel as [|fuel IH]; intros pre [|d suf] Hn E Hl Hlen;
    try (destruct Hl as (r & e & Hx & _); by destruct r); simpl in Hlen; [lia|].
  destruct (walk_step pre d suf E) as (Hg & Hi & Hd & E2 & Hoff).
  cbn [find_node_loop]. rewrite Hg. mstep. rewrite Hi, (strlenn_ok name Hn).
  rewrite strn_eq_spec by (done || apply Hd || lia). case_bool_decide as Eq.
  - by rewrite filter_cons_True.
  - rewrite filter_cons_False by done. destruct (linked_cons _ _ Hl) as [[-> ->]|[-> Hl']]; [done|].
    simpl. rewrite Hoff, <-(strlenn_ok name Hn). apply IH; try done. lia.
Qed.

Lemma find_last_loop_spec fuel : forall pre suf, c = pre ++ suf -> linked suf ->
  (length suf <= fuel)%nat ->
  exists r d, c = r ++ [d] /\ find_last_loop fuel c (total pre) = Some (ChainInfo (total r) (total c)).
Proof.
  induction fuel as [|fuel IH]; intros pre [|d suf] E Hl Hlen;
    try (destruct Hl as (r & e & Hx & _); by destruct r); simpl in Hlen; [lia|].
  destruct (walk_step pre d suf E) as (Hg & Hi & Hd & E2 & Hoff).
  cbn [find_last_loop]. rewrite Hg. mstep. rewrite Hi, Hoff.
  destruct (linked_cons _ _ Hl) as [[-> ->]|[-> Hl']]; simpl.
  - rewrite app_nil_r in E2. exists pre, d. split; [done|]. rewrite <-E2.
    destruct (chain_total_range c Hok) as [? _]. rewrite E2 in *. rewrite total_app in *. simpl in *.
    assert (0 <= total pre) by (apply chain_total_range; by apply Forall_app in Hok as [? _]).
    rewrite u32_small by (pose proof (dent_size d Hd); lia). do 2 f_equal. lia.
  - apply (IH (pre ++ [d]) suf); try done. lia.
Qed.

(** The offset of the last entry of a chain under construction. *)
Definition last_at (new : list dh_dirent) (prev : Z) : Prop :=
  (new = [] /\ prev = 0) \/ exists r d, new = r ++ [d] /\ prev = total r.

Lemma rm_loop_spec name fuel : forall pre suf new prev matched, name_ok name ->
  c = pre ++ suf -> linked suf -> (length suf <= fuel)%nat -> NoDup (dh_name <$> suf) ->
  (matched = true -> name ∉ dh_name <$> suf) -> last_at new prev -> Forall dent_ok new ->
  total new <= total pre ->
  exists prev', rm_loop fuel c name (total pre) new (total new) prev matched =
      Some (Some (new ++ filter (fun d => dh_name d <> name) suf, prev')) /\
    last_at (new ++ filter (fun d => dh_name d <> name) suf) prev'.
Proof.
  induction fuel as [|fuel IH]; intros pre [|d suf] new prev matched Hn E Hl Hlen Hnd Hm Hlast Hnew Hle;
    try (destruct Hl as (r & e & Hx & _); by destruct r); simpl in Hlen; [lia|].
  destruct (walk_step pre d suf E) as (Hg & Hi & Hd & E2 & Hoff).
  cbn [rm_loop]. rewrite Hg. mstep. rewrite Hi, Hoff.
  rewrite strn_eq_spec; [|by apply Hd|done|destruct Hn as [_ ?]; unfold NAME_MAX; lia].
  rewrite fmap_cons, NoDup_cons in Hnd. destruct Hnd as [Hdn Hnd]. rewrite filter_cons.
  assert (total (pre ++ [d]) = total pre + dh_size d) as Et by (rewrite total_app; simpl; lia).
  destruct (decide (dh_name d = name)) as [En|En].
  - rewrite decide_False by (by intros []). rewrite bool_decide_eq_true_2 by done.
    assert (matched = false) as ->.
    { destruct matched; [|done]. exfalso. apply Hm; [done|]. rewrite fmap_cons, En. by left. }
    simpl. destruct (linked_cons _ _ Hl) as [[-> ->]|[-> Hl']]; simpl.
    + rewrite app_nil_r. by exists prev.
    + apply IH; try done; [lia|by rewrite <-En|rewrite Et; pose proof (dent_size d Hd); lia].
  - rewrite decide_True, bool_decide_eq_false_2 by done. simpl. rewrite orb_true_r. simpl.
    rewrite orb_false_r.
    assert (u32 (total new + dh_size d) = total (new ++ [d])) as ->.
    { rewrite total_app. simpl. pose proof (dent_size d Hd). destruct (chain_total_range new Hnew).
      assert (total (pre ++ [d]) < 2 ^ 32).
      { rewrite <-Hoff. apply u32_range. }
      rewrite u32_small; lia. }
    assert (last_at (new ++ [d]) (total new)) as Hlast' by (right; by eexists _, _).
    assert (forall k, new ++ d :: k = (new ++ [d]) ++ k) as Hcm by (intros; by rewrite <-app_assoc).
    destruct (linked_cons _ _ Hl) as [[-> ->]|[-> Hl']]; simpl.
    + by exists (total new).
    + rewrite (Hcm (filter (fun d => dh_name d <> name) suf)). apply IH; try done; [lia| |apply Forall_app; split; [done|by constructor]|rewrite total_app; simpl; lia].
      intros Hmt. specialize (Hm Hmt). rewrite fmap_cons, not_elem_of_cons in Hm. tauto.
Qed.
End walk.

(** A chain without the entry of a name, the last entry unlinked. *)
Lemma linked_filter P `{forall d : dh_dirent, Decision (P d)} c r d :
  linked c -> filter P c = r ++ [d] -> linked (r ++ [with_link d CH_NOLINK]).
Proof.
  intros (r0 & d0 & -> & Hr0 & Hd0) E. rewrite filter_app in E. eexists r, _.
  split; [done|]. split; [|done].
  assert (Forall (fun d => dh_link d = CH_LINK) (filter P r0)) as HF.
  { rewrite Forall_forall in *. intros x [_ Hx]%list_elem_of_filter. auto. }
  rewrite filter_cons, filter_nil in E. case_decide.
  - by apply app_inj_tail in E as [<- _].
  - rewrite app_nil_r in E. rewrite E in HF. by apply Forall_app in HF as [? _].
Qed.

Lemma NoDup_fmap_filter P `{forall d : dh_dirent, Decision (P d)} c :
  NoDup (dh_name <$> c) -> NoDup (dh_name <$> filter P c).
Proof. intros Hn. eapply sublist_NoDup; [done|]. apply fmap_sublist, sublist_filter. Qed.

Lemma total_filter P `{forall d : dh_dirent, Decision (P d)} c : Forall dent_ok c ->
  total (filter P c) <= total c.
Proof.
  induction 1 as [|d c Hd _ IH]; [done|]. rewrite filter_cons. pose proof (dent_size d Hd).
  case_decide; simpl; lia.
Qed.

Definition chain_ok (c : list dh_dirent) : Prop :=
  Forall dent_ok c /\ linked c /\ NoDup (dh_name <$> c).

Lemma with_link_ok d l : dent_ok d -> dent_ok (with_link d l).
Proof. done. Qed.

Lemma rm_node_spec c name ok : chain_ok c -> total c < 2 ^ 32 -> name_ok name ->
  rm_node (Some c) name ok =
    (if ok then rm_node (Some c) name true else Some (- ENOMEM, Some c)) /\
  exists c', rm_node (Some c) name true = Some (0, c') /\
    match c' with
    | None => filter (fun d => dh_name d <> name) c = []
    | Some c' => exists r d, filter (fun d => dh_name d <> name) c = r ++ [d] /\
                   c' = r ++ [with_link d CH_NOLINK]
    end.
Proof.
  intros (Hok & Hl & Hnd) Htot Hn.
  destruct (find_last_loop_spec c Hok Htot (S (length c)) [] c eq_refl Hl) as (r & d & Ec & Hlast); [lia|].
  assert (24 <= total c) by (apply chain_total_range; [done|]; rewrite Ec; by destruct r).
  destruct (rm_loop_spec c Hok Htot name (S (length c)) [] c [] 0 false)
    as (prev & Hrm & Hat); try done; [lia|by left|].
  unfold rm_node. mstep. unfold find_last_node. change (total []) with 0 in Hlast. rewrite Hlast. mstep.
  cbn [i_size]. destruct (Z.ltb_spec (total c) 4); [lia|].
  split; [by destruct ok|]. cbn [negb]. change (total []) with 0 in Hrm.
  rewrite Hrm. mstep. rewrite app_nil_l in *. destruct Hat as [[E ->]|(r' & d' & E & ->)].
  - rewrite E. rewrite decide_True by done. simpl. by exists None.
  - assert (Forall dent_ok (r' ++ [d'])) as Hok'.
    { rewrite <-E, Forall_forall in *. intros x [_ Hx]%list_elem_of_filter. auto. }
    apply Forall_app in Hok' as [Hr' [Hd' _]%Forall_cons].
    rewrite E, decide_False by (by destruct r'). rewrite set_link_at by done. mstep.
    exists (Some (r' ++ [with_link d' CH_NOLINK])). split; [|by exists r', d'].
    assert (exists x y, r' ++ [with_link d' CH_NOLINK] = x :: y /\ dent_ok x) as (x & y & -> & Hx).
    { destruct r' as [|x r']; [by eexists _, _|]. apply Forall_cons in Hr' as [? _]. by eexists _, _. }
    simpl. pose proof (dent_size x Hx). destruct (Z.eqb_spec (dh_size x) 0); [lia|done].
Qed.

(** ** The table refines a finite map from names to inode number and type *)

Section refinement.
Context (hash32 : list Z -> Z -> Z -> Z).
Abbreviation hash := (hash_fname hash32).

Lemma hash_range name t : 0 <= hash name t < 16.
Proof.
  unfold hash_fname. set (x := fold_hash _ _ _ _). clearbody x.
  change (DEHTABLE_SIZE - 1) with (Z.ones 4). rewrite Z.land_ones by lia.
  apply Z.mod_pos_bound. lia.
Qed.

Definition stores (c : list dh_dirent) (name : list Z) (v : Z * Z) : Prop :=
  exists d, d ∈ c /\ dh_name d = name /\ (dh_ino d, dh_type d) = v.

(** The link tag of the last entry does not matter to what a chain stores. *)
Lemma stores_relink r d l x : x ∈ r ++ [with_link d l] ->
  exists y, y ∈ r ++ [d] /\ dh_name y = dh_name x /\ dh_ino y = dh_ino x /\ dh_type y = dh_type x.
Proof.
  intros [Hx|Hx]%elem_of_app; [exists x; split; [apply elem_of_app; by left|done]|].
  apply list_elem_of_singleton in Hx as ->. exists d. split; [|done]. apply elem_of_app. right. by left.
Qed.

Lemma stores_with_link r d l n v : stores (r ++ [d]) n v <-> stores (r ++ [with_link d l]) n v.
Proof.
  split; intros (x & Hx & Hn & Hv).
  - apply elem_of_app in Hx as [Hx|Hx].
    + exists x. split; [apply elem_of_app; by left|done].
    + apply list_elem_of_singleton in Hx as ->. exists (with_link d l).
      split; [apply elem_of_app; right; by left|done].
  - apply stores_relink in Hx as (y & ? & ? & ? & ?). exists y. split_and!; congruence.
Qed.

(** [k] bounds the size of the chains. *)
Record rep (m : gmap (list Z) (Z * Z)) (t : dh_table) (k : Z) : Prop := {
  rep_len : length (htable t) = 16%nat;
  rep_chain : forall h c, (htable t).[h] = Some (Some c) ->
    chain_ok c /\ total c <= 276 * k /\ forall d, d ∈ c -> hash (dh_name d) t = h;
  rep_map : forall name v, m !! name = Some v <->
    exists c, (htable t).[hash name t] = Some (Some c) /\ stores c name v
}.

Lemma rep_set_chain m m' t k k' h c' : rep m t k -> 0 <= h < 16 -> k <= k' ->
  (forall c, c' = Some c -> chain_ok c /\ total c <= 276 * k' /\
     forall d, d ∈ c -> hash (dh_name d) t = h) ->
  (forall name, hash name t <> h -> m' !! name = m !! name) ->
  (forall name v, hash name t = h ->
     m' !! name = Some v <-> exists c, c' = Some c /\ stores c name v) ->
  exists t', set_chain t h c' = Some t' /\ rep m' t' k'.
Proof.
  intros [Hlen Hch Hmap] Hh Hk Hc Hm1 Hm2. unfold set_chain.
  rewrite wr_Some by lia. mstep. eexists. split; [done|].
  assert (forall n, hash n (DhTable (k0 t) (k1 t) (<[Z.to_nat h:=c']> (htable t))) = hash n t) as Hhash
    by done.
  split; cbn [htable].
  - by rewrite length_insert.
  - intros j c Hj. destruct (decide (h = j)) as [->|].
    + rewrite rd_insert_eq in Hj by lia. injection Hj as ->. by apply Hc.
    + rewrite rd_insert_ne in Hj by (done || lia). destruct (Hch j c Hj) as (? & ? & ?).
      split_and!; try done. lia.
  - intros name v. rewrite Hhash. destruct (decide (hash name t = h)) as [E|E].
    + rewrite E, rd_insert_eq, Hm2 by (done || lia).
      split; intros (c & Hx & ?); exists c; [by subst|]. by injection Hx as ->.
    + rewrite rd_insert_ne by (done || lia). by rewrite Hm1.
Qed.

Lemma chain_at m t k name : rep m t k -> exists dea, (htable t).[hash name t] = Some dea.
Proof.
  intros Hrep. apply rd_is_Some. rewrite (rep_len _ _ _ Hrep). pose proof (hash_range name t). lia.
Qed.

Lemma find_node_spec c name : chain_ok c -> total c < 2 ^ 32 -> name_ok name ->
  find_node c name = Some (head (filter (fun d => dh_name d = name) c)).
Proof.
  intros (Hok & Hl & _) Ht Hn.
  apply (find_node_loop_spec c Hok Ht name (S (length c)) [] c Hn eq_refl Hl). lia.
Qed.

Lemma lookup_spec m t k name : rep m t k -> 276 * k < 2 ^ 32 -> name_ok name ->
  dh_lookup hash32 t name =
    Some (match m !! name with Some v => (0, v.1) | None => (- ENOENT, 0) end).
Proof.
  intros Hrep Hk Hn. unfold dh_lookup. destruct (chain_at m t k name Hrep) as [dea Hdea].
  rewrite Hdea. mstep.
  assert (forall v, m !! name = Some v <-> exists c, dea = Some c /\ stores c name v) as Hmap.
  { intros v. rewrite (rep_map _ _ _ Hrep), Hdea. split; intros (c & Hx & ?); exists c;
      [by injection Hx|by subst]. }
  destruct dea as [c|].
  - destruct (rep_chain _ _ _ Hrep _ c Hdea) as (Hc & Ht & _).
    rewrite find_node_spec by (done || lia). mstep.
    destruct (filter _ c) as [|d l] eqn:Ef; simpl.
    + destruct (m !! name) as [v|] eqn:Em; [exfalso|done].
      destruct (proj1 (Hmap v) eq_refl) as (c' & [= <-] & d & Hd & Hnm & _).
      assert (d ∈ filter (fun d => dh_name d = name) c) as Hx by by apply list_elem_of_filter.
      rewrite Ef in Hx. by apply elem_of_nil in Hx.
    + assert (d ∈ filter (fun d => dh_name d = name) c) as [Hnm Hd]%list_elem_of_filter
        by (rewrite Ef; by left).
      assert (m !! name = Some (dh_ino d, dh_type d)) as -> by (apply Hmap; exists c; split; [done|by exists d]).
      done.
  - destruct (m !! name) as [v|] eqn:Em; [exfalso|done].
    by destruct (proj1 (Hmap v) eq_refl) as (? & ? & _).
Qed.

Lemma absent m t k name c : rep m t k -> m !! name = None -> (htable t).[hash name t] = Some (Some c) ->
  name ∉ dh_name <$> c.
Proof.
  intros Hrep Hm Hc (d & -> & Hd)%list_elem_of_fmap.
  assert (m !! dh_name d = Some (dh_ino d, dh_type d)); [|congruence].
  apply (rep_map _ _ _ Hrep). exists c. split; [done|]. by exists d.
Qed.

(** A chain extended by an entry of a new name. *)
Lemma append_node m t k c node :
  let name := dh_name node in
  rep m t k -> dent_ok node -> dh_link node = CH_NOLINK -> Forall dent_ok c ->
  Forall (fun d => dh_link d = CH_LINK) c -> NoDup (dh_name <$> c) -> name ∉ dh_name <$> c ->
  total c <= 276 * k -> (forall d, d ∈ c -> hash (dh_name d) t = hash name t) ->
  (forall n v, hash n t = hash name t -> m !! n = Some v <-> stores c n v) ->
  exists t', set_chain t (hash name t) (Some (c ++ [node])) = Some t' /\
    rep (<[name := (dh_ino node, dh_type node)]> m) t' (k + 1).
Proof.
  intros name Hrep Hnode Hlk Hok Hl Hnd Hni Htot Hh Hst.
  apply (rep_set_chain m _ t k); try done; [apply hash_range|lia|..].
  - intros c' [= <-]. split_and!.
    + split_and!; [apply Forall_app; split; [done|by constructor]|by exists c, node|].
      rewrite fmap_app. apply NoDup_app. split_and!; [done| |apply NoDup_singleton].
      intros x Hx Hx2. by apply list_elem_of_singleton in Hx2 as ->.
    + rewrite total_app. simpl. pose proof (dent_size node Hnode). lia.
    + intros d [Hd|Hd]%elem_of_app; [auto|]. by apply list_elem_of_singleton in Hd as ->.
  - intros n Hx. apply lookup_insert_ne. congruence.
  - intros n v Hx. destruct (decide (name = n)) as [<-|Hne].
    + rewrite lookup_insert_eq. split.
      * intros [= <-]. eexists. split; [done|]. exists node. split; [|done].
        apply elem_of_app. right. by left.
      * intros (c' & [= <-] & d & [Hd|Hd]%elem_of_app & Hdn & <-).
        -- exfalso. apply Hni. rewrite <-Hdn. by apply list_elem_of_fmap_2.
        -- by apply list_elem_of_singleton in Hd as ->.
    + rewrite lookup_insert_ne, Hst by done. split.
      * intros (d & Hd & ?). eexists. split; [done|]. exists d. split; [|done]. apply elem_of_app. by left.
      * intros (c' & [= <-] & d & [Hd|Hd]%elem_of_app & Hdn & Hv); [by exists d|].
        apply list_elem_of_singleton in Hd as ->. exfalso. by apply Hne.
Qed.

(** The chain of a name is what the map says about the names of this hash. *)
Lemma chain_stores m t k name c n v : rep m t k -> (htable t).[hash name t] = Some c ->
  hash n t = hash name t -> m !! n = Some v <-> stores (default [] c) n v.
Proof.
  intros Hrep Hc Hn. rewrite (rep_map _ _ _ Hrep), Hn, Hc. split.
  - by intros (c' & [= ->] & ?).
  - intros Hs. destruct c as [c|]; [by exists c|]. by destruct Hs as (d & ?%elem_of_nil & _).
Qed.

Lemma rep_weaken m t k k' : rep m t k -> k <= k' -> rep m t k'.
Proof.
  intros [? Hc ?] Hk. split; try done. intros h c Hx. destruct (Hc h c Hx) as (? & ? & ?).
  split_and!; try done. lia.
Qed.

(** [dh_link] in the three cases. *)
Lemma link_spec m t k ino ty name ok : rep m t k -> 0 <= k -> 276 * (k + 1) < 2 ^ 32 -> name_ok name ->
  exists t', dh_link_op hash32 t ino ty name ok =
      Some (match m !! name with
            | Some _ => - EEXIST
            | None => if ok then 0 else - ENOMEM
            end, t') /\
    rep (match m !! name with
         | Some _ => m
         | None => if ok then <[name := (ino, ty)]> m else m
         end) t' (k + 1).
Proof.
  intros Hrep Hk0 Hk Hn. pose proof (rep_weaken m t k (k + 1) Hrep ltac:(lia)) as Hrep1.
  unfold dh_link_op. rewrite (lookup_spec m t k) by (done || lia). mstep.
  destruct (m !! name) as [v|] eqn:Em; [by exists t|]. simpl.
  destruct (chain_at m t k name Hrep) as [dea Hdea]. rewrite Hdea. mstep.
  rewrite (strlenn_ok name Hn). unfold strlcpy_text. rewrite take_ge by lia.
  set (node := DhDirent ino ty (dh_entry_size name) CH_NOLINK name).
  destruct dea as [c|].
  - destruct (rep_chain _ _ _ Hrep _ c Hdea) as ((Hok & Hl & Hnd) & Ht & Hh).
    destruct (find_last_loop_spec c Hok ltac:(lia) (S (length c)) [] c eq_refl Hl)
      as (r & d & Ec & Hlast); [lia|].
    change (find_last_loop _ _ _) with (find_last_node c) in Hlast. rewrite Hlast. mstep.
    destruct ok; [|by exists t]. cbn [negb i_last i_size].
    pose proof Hok as Hok2. rewrite Ec in Hok2. apply Forall_app in Hok2 as [Hr [Hd _]%Forall_cons].
    assert (set_link c (total r) CH_LINK = Some (r ++ [with_link d CH_LINK])) as Hsl
      by (rewrite Ec; by apply set_link_at).
    rewrite Hsl. mstep.
    assert (dh_name <$> r ++ [with_link d CH_LINK] = dh_name <$> c) as Enames
      by (rewrite Ec, !fmap_app; done).
    assert (total (r ++ [with_link d CH_LINK]) = total c) as Etot by (rewrite Ec, !total_app; done).
    change (foldr _ 0 (r ++ [with_link d CH_LINK])) with (total (r ++ [with_link d CH_LINK])).
    rewrite Etot, Z.eqb_refl.
    destruct (append_node m t k (r ++ [with_link d CH_LINK]) node) as (t' & Hset & Hrep');
      rewrite ?Etot, ?Enames; try done.
    { apply Forall_app. by split; [|constructor]. }
    { destruct Hl as (r0 & d0 & E0 & Hr0 & _). rewrite E0 in Ec. apply app_inj_tail in Ec as [<- _].
      apply Forall_app. by split; [|constructor]. }
    { by eapply absent. }
    { intros x Hx. apply (stores_relink r d) in Hx as (y & Hy & <- & _). apply Hh. by rewrite Ec. }
    { intros n v Hx. rewrite (chain_stores m t k name (Some c) n v Hrep Hdea Hx). simpl.
      rewrite Ec. apply stores_with_link. }
    change (dh_name node) with name in Hset. rewrite Hset. mstep. by exists t'.
  - destruct ok; [|by exists t].
    destruct (append_node m t k [] node) as (t' & Hset & Hrep'); try done; try (by constructor).
    { by intros ?%elem_of_nil. } { simpl. lia. } { by intros d ?%elem_of_nil. }
    { intros n v. by apply (chain_stores m t k name None). }
    simpl. simpl in Hset. rewrite Hset. mstep. by exists t'.
Qed.

(** [dh_unlink] of a name that is in the table. *)
Lemma unlink_spec m t k name ok : rep m t k -> 0 <= k -> 276 * k < 2 ^ 32 -> name_ok name ->
  is_Some (m !! name) ->
  exists t', dh_unlink hash32 t name ok = Some (if ok then 0 else - ENOMEM, t') /\
    rep (if ok then delete name m else m) t' k.
Proof.
  intros Hrep Hk0 Hk Hn [v Hv]. unfold dh_unlink.
  destruct (proj1 (rep_map _ _ _ Hrep name v) Hv) as (c & Hdea & Hst). rewrite Hdea. mstep.
  destruct (rep_chain _ _ _ Hrep _ c Hdea) as (Hc & Ht & Hh). pose proof Hc as (Hok & Hl & Hnd).
  pose proof (fun n v E => chain_stores m t k name (Some c) n v Hrep Hdea E) as Hcs. simpl in Hcs.
  destruct (rm_node_spec c name ok Hc ltac:(lia) Hn) as [-> (c' & Hrm & Hc')].
  destruct ok.
  - rewrite Hrm. mstep.
    assert (forall n w, stores (default [] c') n w <-> stores c n w /\ n <> name) as Hs'.
    { intros n w. trans (stores (filter (fun d => dh_name d <> name) c) n w).
      - destruct c' as [c'|]; [|by rewrite Hc']. destruct Hc' as (r & d & -> & ->).
        symmetry. apply stores_with_link.
      - unfold stores. setoid_rewrite list_elem_of_filter. naive_solver. }
    destruct (rep_set_chain m (delete name m) t k k (hash name t) c') as (t' & -> & Hrep');
      try done; [apply hash_range|..].
    + intros c2 ->. destruct Hc' as (r & d & Ef & ->).
      assert (forall x, x ∈ r ++ [d] -> x ∈ c) as Hsub
        by (intros x; rewrite <-Ef; by intros [_ ?]%list_elem_of_filter).
      assert (Forall dent_ok (r ++ [d])) as Hok' by (rewrite Forall_forall in *; auto).
      split_and!; [split_and!|..].
      * rewrite Forall_app in Hok' |- *. destruct Hok' as [? [? _]%Forall_cons]. by split; [|constructor].
      * by eapply linked_filter.
      * assert (dh_name <$> r ++ [with_link d CH_NOLINK] = dh_name <$> r ++ [d]) as ->
          by by rewrite !fmap_app. rewrite <-Ef. by apply NoDup_fmap_filter.
      * trans (total c); [|done].
        assert (total (r ++ [with_link d CH_NOLINK]) = total (r ++ [d])) as -> by by rewrite !total_app.
        rewrite <-Ef. by apply total_filter.
      * intros x (y & Hy & <- & _)%stores_relink. auto.
    + intros n Hne. apply lookup_delete_ne. congruence.
    + intros n w Hhn. destruct (decide (name = n)) as [<-|Hne].
      * rewrite lookup_delete_eq. split; [done|]. intros (c2 & -> & Hx). by apply (Hs' name w) in Hx as [_ ?].
      * rewrite lookup_delete_ne, Hcs by done. split.
        -- intros Hx. destruct c' as [c2|]; [exists c2; split; [done|]; by apply Hs'|].
           exfalso. assert (stores [] n w) as (? & ?%elem_of_nil & _) by (by apply Hs'). done.
        -- intros (c2 & -> & Hx). by apply Hs' in Hx as [? _].
    + by exists t'.
  - mstep. destruct (rep_set_chain m m t k k (hash name t) (Some c)) as (t' & -> & Hrep'); try done.
    + apply hash_range.
    + intros c2 [= <-]. done.
    + intros n w Hhn. rewrite Hcs by done. split; [by exists c|by intros (? & [= <-] & ?)].
    + by exists t'.
Qed.

(** ** Iteration visits every entry *)

Section iteration.
Context (m : gmap (list Z) (Z * Z)) (t : dh_table) (k : Z).
Context (Hrep : rep m t k) (Hk : 276 * k < SIZE_MAX).

(** The entries from chain [i] on. *)
Definition from (i : Z) : list dh_dirent :=
  concat ((fun c => default [] c) <$> drop (Z.to_nat i) (htable t)).

Lemma from_chain i c : (htable t).[i] = Some c -> from i = default [] c ++ from (i + 1).
Proof.
  intros Hi. pose proof (rd_Some_lt _ _ _ Hi) as Hr. unfold from, rd in *.
  destruct (Z.ltb_spec i 0); [lia|]. rewrite (drop_S _ _ _ Hi).
  replace (Z.to_nat (i + 1)) with (S (Z.to_nat i)) by lia. done.
Qed.

Lemma from_end : from 16 = [].
Proof. unfold from. rewrite drop_ge; [done|]. rewrite (rep_len _ _ _ Hrep). lia. Qed.

Lemma next_chain_spec fuel : forall i, 0 <= i < 16 -> 16 - i <= Z.of_nat fuel ->
  exists dea j, next_chain fuel t i = Some (dea, j + 1) /\ i <= j < 16 /\
    (htable t).[j] = Some dea /\ from i = from j /\ (dea = None -> from i = []).
Proof.
  induction fuel as [|fuel IH]; intros i Hi Hf; [lia|]. cbn [next_chain].
  destruct (rd_is_Some (htable t) i) as [dea Hd]; [rewrite (rep_len _ _ _ Hrep); lia|].
  rewrite Hd. mstep. unfold DEHTABLE_SIZE. case_decide as Hc.
  - destruct Hc as [-> Hc]. destruct (IH (i + 1)) as (dea & j & Hn & ? & ? & E & ?); try lia.
    exists dea, j. rewrite (from_chain i None Hd). split_and!; (done || lia).
  - exists dea, i. split_and!; try (done || lia). intros ->. rewrite (from_chain i None Hd). simpl.
    assert (i = 15) as -> by (destruct (decide (i + 1 < 16)); [by destruct Hc|lia]). apply from_end.
Qed.

(** One node at a valid position, and the position after it. *)
Lemma visit i c pre d suf it : (htable t).[i] = Some (Some c) -> c = pre ++ d :: suf ->
  linked (d :: suf) ->
  (it = if dh_link d =? CH_LINK then DhDirIter i (u32 (total pre + dh_size d))
        else DhDirIter (i + 1) SIZE_MAX) ->
  get_dirent c (total pre) = Some d /\ is_invalid_offset d = false /\ total pre <> SIZE_MAX /\
  (suf = [] /\ it = DhDirIter (i + 1) SIZE_MAX \/
   linked suf /\ c = (pre ++ [d]) ++ suf /\ it = DhDirIter i (total (pre ++ [d]))).
Proof.
  intros Hc E Hl ->. destruct (rep_chain _ _ _ Hrep _ c Hc) as ((Hok & _) & Ht & _).
  unfold SIZE_MAX in *. destruct (walk_step c Hok ltac:(lia) pre d suf E) as (Hg & Hv & Hd & E2 & Hoff).
  split_and!; try done.
  - rewrite E in Ht, Hok. rewrite total_app in Ht. simpl in Ht. pose proof (dent_size d Hd).
    apply Forall_app in Hok as [_ [_ Hs]%Forall_cons]. pose proof (chain_total_range suf Hs). lia.
  - destruct (linked_cons _ _ Hl) as [[-> ->]|[-> Hl']]; [by left|]. right. simpl. by rewrite Hoff.
Qed.

Lemma iter_nodes_spec fuel :
  (forall i, 0 <= i <= 16 -> (length (from i) < fuel)%nat ->
     iter_nodes fuel t (DhDirIter i SIZE_MAX) = Some (from i)) /\
  (forall i c pre suf, (htable t).[i] = Some (Some c) -> c = pre ++ suf -> linked suf ->
     (length (suf ++ from (i + 1)) < fuel)%nat ->
     iter_nodes fuel t (DhDirIter i (total pre)) = Some (suf ++ from (i + 1))).
Proof.
  induction fuel as [|fuel [IHA IHB]]; [split; intros; lia|].
  assert (forall i c pre d suf it, (htable t).[i] = Some (Some c) -> c = pre ++ d :: suf ->
    linked (d :: suf) -> (length (d :: suf ++ from (i + 1)) < S fuel)%nat ->
    (it = if dh_link d =? CH_LINK then DhDirIter i (u32 (total pre + dh_size d))
          else DhDirIter (i + 1) SIZE_MAX) ->
    iter_nodes fuel t it = Some (suf ++ from (i + 1))) as Hgo.
  { intros i c pre d suf it Hc E Hl Hlen Hit. simpl in Hlen. pose proof (rd_Some_lt _ _ _ Hc) as Hr.
    rewrite (rep_len _ _ _ Hrep) in Hr.
    destruct (visit i c pre d suf it Hc E Hl Hit) as (_ & _ & _ & [[-> ->]|(Hl' & E2 & ->)]).
    - apply IHA; [lia|]. simpl in *. lia.
    - apply (IHB i c); try done. lia. }
  split.
  - intros i Hi Hlen. cbn [iter_nodes]. unfold dh_iter_next. cbn [dea_ind ch_ind].
    unfold DEHTABLE_SIZE. destruct (Z.leb_spec 16 i).
    { assert (i = 16) as -> by lia. mstep. by rewrite from_end. }
    rewrite Z.eqb_refl. destruct (next_chain_spec 16 i) as (dea & j & -> & Hj & Hd & E & Hnone); try lia.
    mstep. replace (j + 1 - 1) with j by lia. destruct dea as [c|]; [|by rewrite Hnone].
    destruct (rep_chain _ _ _ Hrep _ c Hd) as ((_ & Hl & _) & _ & _).
    rewrite E, (from_chain j _ Hd) in Hlen |- *. simpl in Hlen |- *.
    destruct c as [|d suf]; [by destruct Hl as ([|??] & ? & ? & _)|].
    destruct (visit j (d :: suf) [] d suf _ Hd eq_refl Hl eq_refl) as (Hg & Hv & _ & _).
    simpl total in Hg. simpl in Hg. simpl. rewrite Hv. mstep.
    erewrite (Hgo j (d :: suf) [] d suf); try done.
  - intros i c pre [|d suf] Hc E Hl Hlen; [by destruct Hl as ([|??] & ? & ? & _)|].
    pose proof (rd_Some_lt _ _ _ Hc) as Hr. rewrite (rep_len _ _ _ Hrep) in Hr.
    destruct (visit i c pre d suf _ Hc E Hl eq_refl) as (Hg & Hv & Hne & _).
    cbn [iter_nodes]. unfold dh_iter_next, DEHTABLE_SIZE. cbn [dea_ind ch_ind].
    destruct (Z.leb_spec 16 i); [lia|]. destruct (Z.eqb_spec (total pre) SIZE_MAX); [done|].
    rewrite Hc. mstep. cbn [dea_ind ch_ind]. rewrite Hg. mstep. rewrite Hv. mstep.
    erewrite (Hgo i c pre d suf); try done.
Qed.

Lemma table_fuel_from : table_fuel t = S (length (from 0)).
Proof.
  unfold table_fuel, from. simpl. rewrite drop_0. f_equal. clear Hrep.
  induction (htable t) as [|c l IH]; [done|]. rewrite fmap_cons. cbn [foldr concat].
  by rewrite length_app, <-IH.
Qed.

Lemma iter_all : iter_nodes (table_fuel t) t dh_get_iter = Some (from 0).
Proof. apply iter_nodes_spec; [lia|]. rewrite table_fuel_from. lia. Qed.

(** Induction from the last chain to the first one. *)
Lemma chains_ind (P : Z -> Prop) : P 16 ->
  (forall i c, 0 <= i < 16 -> (htable t).[i] = Some c -> P (i + 1) -> P i) ->
  forall i, 0 <= i <= 16 -> P i.
Proof.
  intros H16 Hstep i Hi. remember (Z.to_nat (16 - i)) as n eqn:En. revert i Hi En.
  induction n as [|n IH]; intros i Hi En; [by replace i with 16 by lia|].
  destruct (rd_is_Some (htable t) i) as [c Hc]; [rewrite (rep_len _ _ _ Hrep); lia|].
  apply (Hstep i c); [lia|done|]. apply IH; lia.
Qed.

Lemma elem_of_from d i : 0 <= i <= 16 ->
  d ∈ from i <-> exists j c, i <= j /\ (htable t).[j] = Some (Some c) /\ d ∈ c.
Proof.
  revert i. apply chains_ind.
  - rewrite from_end. split; [by intros ?%elem_of_nil|]. intros (j & c & Hj & Hc & _).
    apply rd_Some_lt in Hc. rewrite (rep_len _ _ _ Hrep) in Hc. lia.
  - intros i c Hi Hc IH. rewrite (from_chain i c Hc), elem_of_app, IH. split.
    + intros [Hd|(j & c' & ? & ? & ?)]; [|exists j, c'; split_and!; (done || lia)].
      destruct c as [c|]; [|by apply elem_of_nil in Hd]. by exists i, c.
    + intros (j & c' & Hj & Hc' & Hd). destruct (decide (i = j)) as [<-|].
      * left. by simplify_eq.
      * right. exists j, c'. split_and!; (done || lia).
Qed.

(** Names of different chains have different hash values. *)
Lemma from_names_NoDup i : 0 <= i <= 16 -> NoDup (dh_name <$> from i).
Proof.
  revert i. apply chains_ind; [rewrite from_end; constructor|]. intros i c Hi Hc IH.
  rewrite (from_chain i c Hc), fmap_app. destruct c as [c|]; [|done].
  destruct (rep_chain _ _ _ Hrep i c Hc) as ((_ & _ & Hnd) & _ & Hh).
  apply NoDup_app. split_and!; [done| |done]. simpl.
  intros n (d & -> & Hd)%list_elem_of_fmap (e & E & He)%list_elem_of_fmap.
  apply elem_of_from in He as (j & c' & Hj & Hc' & He); [|lia].
  destruct (rep_chain _ _ _ Hrep j c' Hc') as (_ & _ & Hh').
  specialize (Hh d Hd). specialize (Hh' e He). rewrite <-E in Hh'. lia.
Qed.

Lemma nr_entries_spec : dh_nr_entries t = Some (Z.of_nat (size m)).
Proof.
  unfold dh_nr_entries. rewrite iter_all. mstep. do 2 f_equal.
  rewrite <-(length_fmap dh_name), <-size_dom.
  rewrite <-(size_list_to_set (C := gset (list Z)) (dh_name <$> from 0)) by (apply from_names_NoDup; lia).
  f_equal. apply set_eq. intros n. rewrite elem_of_list_to_set, elem_of_dom, list_elem_of_fmap.
  split.
  - intros (d & -> & Hd). apply elem_of_from in Hd as (j & c & _ & Hj & Hd); [|lia]. exists (dh_ino d, dh_type d).
    apply (rep_map _ _ _ Hrep). destruct (rep_chain _ _ _ Hrep j c Hj) as (_ & _ & Hh).
    exists c. rewrite (Hh d Hd). split; [done|]. by exists d.
  - intros [v (c & Hc & d & Hd & <- & _)%(rep_map _ _ _ Hrep)]. exists d. split; [done|].
    apply elem_of_from; [lia|]. exists (hash (dh_name d) t), c. pose proof (hash_range (dh_name d) t).
    split_and!; (done || lia).
Qed.
End iteration.
End refinement.

(** ** Claims *)

Inductive dh_op :=
  | Link (name : list Z) (ino ty : Z) (ok : bool)
  | Unlink (name : list Z) (ok : bool)
  | Lookup (name : list Z)
  | Count.

(** The result of a call: its return value and the inode number it reports. *)
Definition dh_step (hash32 : list Z -> Z -> Z -> Z) (t : dh_table) (op : dh_op) :
    option (Z * Z * dh_table) :=
  match op with
  | Link name ino ty ok => '(e, t) ← dh_link_op hash32 t ino ty name ok; Some (e, 0, t)
  | Unlink name ok => '(e, t) ← dh_unlink hash32 t name ok; Some (e, 0, t)
  | Lookup name => '(e, i) ← dh_lookup hash32 t name; Some (e, i, t)
  | Count => n ← dh_nr_entries t; Some (n, 0, t)
  end.
Fixpoint dh_run hash32 (t : dh_table) (ops : list dh_op) : option (list (Z * Z) * dh_table) :=
  match ops with
  | [] => Some ([], t)
  | op :: ops => '(r, t) ← dh_step hash32 t op; '(rs, t) ← dh_run hash32 t ops; Some (r :: rs, t)
  end.

(** The same calls on a finite map; only names in the map may be removed. *)
Definition map_step (m : gmap (list Z) (Z * Z)) (op : dh_op) :
    option (Z * Z * gmap (list Z) (Z * Z)) :=
  match op with
  | Link name ino ty ok =>
      Some (match m !! name with
            | Some _ => (- EEXIST, 0, m)
            | None => if ok then (0, 0, <[name := (ino, ty)]> m) else (- ENOMEM, 0, m)
            end)
  | Unlink name ok =>
      _ ← m !! name; Some (if ok then (0, 0, delete name m) else (- ENOMEM, 0, m))
  | Lookup name => Some (match m !! name with Some v => (0, v.1, m) | None => (- ENOENT, 0, m) end)
  | Count => Some (Z.of_nat (size m), 0, m)
  end.
Fixpoint map_run (m : gmap (list Z) (Z * Z)) (ops : list dh_op) :
    option (list (Z * Z) * gmap (list Z) (Z * Z)) :=
  match ops with
  | [] => Some ([], m)
  | op :: ops => '(r, m) ← map_step m op; '(rs, m) ← map_run m ops; Some (r :: rs, m)
  end.

Definition op_ok (op : dh_op) : Prop :=
  match op with
  | Link name _ _ _ | Unlink name _ | Lookup name => name_ok name
  | Count => True
  end.
#[export] Instance op_ok_dec op : Decision (op_ok op).
Proof. destruct op; apply _. Defined.

Definition dh_empty (key0 key1 : Z) : dh_table := DhTable key0 key1 (replicate 16 None).

Lemma empty_rep hash32 key0 key1 : rep hash32 ∅ (dh_empty key0 key1) 0.
Proof.
  assert (forall h c, (htable (dh_empty key0 key1)).[h] = Some (Some c) -> False) as Hno.
  { intros h c Hc. unfold rd in Hc. zcase_in Hc; [done|].
    by apply lookup_replicate in Hc as [? _]. }
  split; [done|by intros h c ?%Hno|]. intros name v. rewrite lookup_empty. split; [done|].
  by intros (c & ?%Hno & _).
Qed.

Lemma step_refines hash32 m t k op r m' : rep hash32 m t k -> 0 <= k -> 276 * (k + 1) < SIZE_MAX ->
  op_ok op -> map_step m op = Some (r, m') ->
  exists t', dh_step hash32 t op = Some (r, t') /\ rep hash32 m' t' (k + 1).
Proof.
  unfold SIZE_MAX. intros Hrep Hk0 Hk Hop Hs.
  pose proof (rep_weaken hash32 m t k (k + 1) Hrep ltac:(lia)) as Hrep1.
  destruct op as [name ino ty ok|name ok|name|]; simpl in Hop, Hs |- *.
  - destruct (link_spec hash32 m t k ino ty name ok Hrep) as (t' & -> & Hr); try (done || lia). mstep.
    injection Hs as Hs. exists t'. destruct (m !! name); [|destruct ok]; by injection Hs as <- <-.
  - destruct (m !! name) eqn:Em; [|done]. simpl in Hs.
    destruct (unlink_spec hash32 m t (k + 1) name ok) as (t' & -> & Hr); try (done || lia).
    mstep. exists t'. destruct ok; by injection Hs as <- <-.
  - rewrite (lookup_spec hash32 m t k) by (done || lia). mstep. exists t.
    destruct (m !! name); by injection Hs as <- <-.
  - rewrite (nr_entries_spec hash32 m t k) by (done || (unfold SIZE_MAX; lia)). mstep.
    injection Hs as <- <-. by exists t.
Qed.


Definition ops_example : list dh_op :=
  [Link [97] 7 1 true; Link [113; 97] 8 1 true; Link [97] 9 1 true; Lookup [113; 97]; Count;
   Unlink [97] false; Unlink [97] true; Lookup [97]; Link [97; 97] 3 1 false; Count].


(** A name of 253 to 255 characters, which is within [NAME_MAX], gets an
    entry that fails the test of [is_invalid_offset]: [dh_link] reports success
    and [dh_lookup] does not find the name. *)
Theorem long_name_lost (hash32 : list Z -> Z -> Z -> Z) (key0 key1 ino ty : Z) (name : list Z) :
  (253 <= length name <= 255)%nat ->
  exists t, dh_link_op hash32 (dh_empty key0 key1) ino ty name true = Some (0, t) /\
    dh_lookup hash32 t name = Some (- ENOENT, 0).
Proof.
  intros Hlen. set (t0 := dh_empty key0 key1).
  pose proof (hash_range hash32 name t0) as Hh. set (h := hash_fname hash32 name t0) in *.
  assert ((htable t0).[h] = Some None) as Hc.
  { unfold rd. zcase; [lia|]. apply lookup_replicate_2. lia. }
  assert (dh_entry_size name = 280) as Hes.
  { unfold dh_entry_size, name_strlenn, NAME_MAX, DIRENT_SIZE.
    assert (length name = 253 \/ length name = 254 \/ length name = 255)%nat as Hn by lia.
    by destruct Hn as [->|[->| ->]]. }
  unfold dh_link_op. fold h. unfold dh_lookup at 1. fold h. rewrite Hc. mstep.
  rewrite Hes. simpl. unfold set_chain. rewrite wr_Some by (simpl; lia). mstep. eexists. split; [done|].
  unfold dh_lookup. cbn [htable].
  change (hash_fname hash32 name (DhTable _ _ _)) with h. rewrite rd_insert_eq by (simpl; lia). done.
Qed.

Lemma long_name_lost_witness :
  exists t, dh_link_op (fun _ _ _ => 0) (dh_empty 1 2) 7 1 (replicate 255 97) true = Some (0, t) /\
    dh_lookup (fun _ _ _ => 0) t (replicate 255 97) = Some (- ENOENT, 0).
Proof.
  apply (long_name_lost (fun _ _ _ => 0) 1 2 7 1 (replicate 255 97)).
  rewrite length_replicate. lia.
Defined.

(** [dh_init] clears the keys it has just drawn and leaves the last two chains
    as they were. *)
Lemma dh_init_incomplete t r0 r1 : length (htable t) = 16%nat ->
  k0 (dh_init t r0 r1) = 0 /\ (htable (dh_init t r0 r1)).[15] = (htable t).[15].
Proof.
  intros Hl. split; [done|]. unfold rd. simpl.
  destruct (htable t) as [|c l]; [done|]. do 14 (destruct l as [|? l]; [done|]). done.
Qed.
