(* ===== verification/Rcu.v ===== *)
(** * Read-copy-update: kern/rcu.c, kern/include/rcu.h

    Readers count themselves in one of the two counters that [rcu_ctrl] packs
    with a one-bit clock; [rcu_call] pushes a control block on the reclaim list
    of the clock it runs under; [rcu_synchronize] flips the clock, waits for the
    readers of the old one and calls the callbacks of its list.

    The model is a transition system.  A step of a thread is one access to a
    shared variable ([rcu_ctrl], a list head, the [next] field of a control
    block) or one call of a callback, in the order of the source.  A
    compare-and-exchange that fails goes back to the read before it.  The
    ticket mutex of [rcu_synchronize] is the field [rcu_sync_lock], its owner,
    by the mutual exclusion proved in [Klocks]; [rcu_yield] has no effect on
    the state.  A callback releases the block that holds its control block, so
    after the call the control block is gone from [cbs].

    Ghost data: read sections have a number, and [regs] remembers for every
    control block the function it was registered with and the sections that
    were open when [rcu_call] was entered. *)
From stdpp Require Import relations gmap sets.
From S2P Require Import Prelude.

Definition RCU_CTR_A_OFFSET : Z := 0.
Definition RCU_CTR_B_OFFSET : Z := 15.
Definition RCU_CLOCK_OFFSET : Z := 30.
Definition RCU_CTR_MASK : Z := 0x7fff.
Definition RCU_CLOCK_MASK : Z := 0x1.
Definition RCU_CTRL_TO_CTR_A (x : Z) : Z := Z.land (Z.shiftr x RCU_CTR_A_OFFSET) RCU_CTR_MASK.
Definition RCU_CTRL_TO_CTR_B (x : Z) : Z := Z.land (Z.shiftr x RCU_CTR_B_OFFSET) RCU_CTR_MASK.
Definition RCU_CTRL_TO_CLOCK (x : Z) : Z := Z.land (Z.shiftr x RCU_CLOCK_OFFSET) RCU_CLOCK_MASK.
Definition RCU_CTR_ONE (clock : Z) : Z :=
  if clock =? 0 then Z.shiftl 1 RCU_CTR_A_OFFSET else Z.shiftl 1 RCU_CTR_B_OFFSET.
Definition RCU_GET_CTR (ctrl clock : Z) : Z :=
  if clock =? 0 then RCU_CTRL_TO_CTR_A ctrl else RCU_CTRL_TO_CTR_B ctrl.

(** [struct rcu_cb]; functions are named by numbers, NULL is 0. *)
Record rcu_cb := RcuCb { callback : Z; callback_arg : Z; next : Z }.

(** [struct rcu_lock_ctx] with the ghost number of its section. *)
Record rcu_lock_ctx := RcuCtx { selector : Z; sec : nat }.

(** Why [rcu_read_lock] runs: for the caller, or inside of [rcu_call]. *)
Inductive why := ForUser | ForCall (cbd fn : Z).

Inductive pc :=
| Run                                          (* outside of this file *)
| LockRead (k : why) | LockCas (k : why) (old : Z)
| UnlockRead (c : rcu_lock_ctx) | UnlockCas (c : rcu_lock_ctx) (old : Z)
| CallHead (cbd fn : Z) (c : rcu_lock_ctx) | CallCas (cbd fn : Z) (c : rcu_lock_ctx) (old : Z)
| SyncLock | SyncRead | SyncCas (old : Z)
| SyncWait (old_clock : Z) | SyncHead (old_clock : Z)
| SyncCb (old_clock cbd : Z) | SyncClear (old_clock : Z) | SyncUnlock.

(** [held]: the contexts the thread's own code holds; [snap]: ghost, the
    sections that were open when its [rcu_synchronize] was called. *)
Record thread := Thread { tpc : pc; held : list rcu_lock_ctx; snap : gset nat }.
Definition set_pc (th : thread) (p : pc) : thread := Thread p (held th) (snap th).

Record rstate := RState {
  rcu_ctrl : Z;
  list0 : Z; list1 : Z;                        (* rcu_reclaim_list[2] *)
  cbs : gmap Z rcu_cb;                         (* control blocks in memory *)
  rcu_sync_lock : option nat;
  threads : list thread;
  called : list (Z * Z);                       (* callbacks run: function, argument *)
  nsec : nat;
  regs : gmap Z (Z * gset nat)
}.
Definition list_head (s : rstate) (c : Z) : Z := if c =? 0 then list0 s else list1 s.
Definition set_ctrl (s : rstate) (v : Z) : rstate :=
  RState v (list0 s) (list1 s) (cbs s) (rcu_sync_lock s) (threads s) (called s) (nsec s) (regs s).
Definition set_head (s : rstate) (c v : Z) : rstate :=
  RState (rcu_ctrl s) (if c =? 0 then v else list0 s) (if c =? 0 then list1 s else v) (cbs s)
    (rcu_sync_lock s) (threads s) (called s) (nsec s) (regs s).
Definition set_cbs (s : rstate) (m : gmap Z rcu_cb) : rstate :=
  RState (rcu_ctrl s) (list0 s) (list1 s) m (rcu_sync_lock s) (threads s) (called s) (nsec s) (regs s).
Definition set_owner (s : rstate) (o : option nat) : rstate :=
  RState (rcu_ctrl s) (list0 s) (list1 s) (cbs s) o (threads s) (called s) (nsec s) (regs s).
Definition set_thread (s : rstate) (t : nat) (th : thread) : rstate :=
  RState (rcu_ctrl s) (list0 s) (list1 s) (cbs s) (rcu_sync_lock s) (<[t := th]> (threads s))
    (called s) (nsec s) (regs s).
Definition log_call (s : rstate) (e : Z * Z) : rstate :=
  RState (rcu_ctrl s) (list0 s) (list1 s) (cbs s) (rcu_sync_lock s) (threads s)
    (called s ++ [e]) (nsec s) (regs s).
Definition fresh_sec (s : rstate) : rstate :=
  RState (rcu_ctrl s) (list0 s) (list1 s) (cbs s) (rcu_sync_lock s) (threads s)
    (called s) (S (nsec s)) (regs s).
Definition register (s : rstate) (x : Z) (r : Z * gset nat) : rstate :=
  RState (rcu_ctrl s) (list0 s) (list1 s) (cbs s) (rcu_sync_lock s) (threads s)
    (called s) (nsec s) (<[x := r]> (regs s)).

Definition rcu_init_state (n : nat) : rstate :=
  RState 0 0 0 ∅ None (replicate n (Thread Run [] ∅)) [] 0 ∅.

(** The sections a thread is in, the one of a running [rcu_call] or
    [rcu_read_unlock] included. *)
Definition pc_ctx (p : pc) : list rcu_lock_ctx :=
  match p with
  | UnlockRead c | UnlockCas c _ | CallHead _ _ c | CallCas _ _ c _ => [c]
  | _ => []
  end.
Definition open_th (th : thread) : list rcu_lock_ctx := pc_ctx (tpc th) ++ held th.
Definition open (s : rstate) : list rcu_lock_ctx := concat (open_th <$> threads s).
Definition open_secs (s : rstate) : gset nat := list_to_set (sec <$> open s).

(** The next access of [rcu_read_lock] and [rcu_read_unlock]. *)
Definition read_lock_step (t : nat) (th : thread) (s : rstate) : option rstate :=
  match tpc th with
  | LockRead k => Some (set_thread s t (set_pc th (LockCas k (rcu_ctrl s))))
  | LockCas k old =>
      let selector := RCU_CTRL_TO_CLOCK old in
      let new := old + RCU_CTR_ONE selector in
      if rcu_ctrl s =? old then
        let ctx := RcuCtx selector (nsec s) in
        let th := match k with
                  | ForUser => Thread Run (ctx :: held th) (snap th)
                  | ForCall cbd fn => set_pc th (CallHead cbd fn ctx)
                  end in
        Some (set_thread (fresh_sec (set_ctrl s new)) t th)
      else Some (set_thread s t (set_pc th (LockRead k)))
  | _ => None
  end.
Definition read_unlock_step (t : nat) (th : thread) (s : rstate) : option rstate :=
  match tpc th with
  | UnlockRead c => Some (set_thread s t (set_pc th (UnlockCas c (rcu_ctrl s))))
  | UnlockCas c old =>
      let new := old - RCU_CTR_ONE (selector c) in
      if rcu_ctrl s =? old then Some (set_thread (set_ctrl s new) t (set_pc th Run))
      else Some (set_thread s t (set_pc th (UnlockRead c)))
  | _ => None
  end.

(** The loop of [rcu_call], between its read lock and unlock. *)
Definition rcu_call_step (t : nat) (th : thread) (s : rstate) : option rstate :=
  match tpc th with
  | CallHead cbd fn c =>
      let old := list_head s (selector c) in
      Some (set_thread (set_cbs s (<[cbd := RcuCb fn cbd old]> (cbs s))) t
              (set_pc th (CallCas cbd fn c old)))
  | CallCas cbd fn c old =>
      if list_head s (selector c) =? old then
        Some (set_thread (set_head s (selector c) cbd) t (set_pc th (UnlockRead c)))
      else Some (set_thread s t (set_pc th (CallHead cbd fn c)))
  | _ => None
  end.

(** One round of the loop of [rcu_wait_for_readers]: whether it returns. *)
Definition rcu_wait_for_readers (s : rstate) (old_clock : Z) : bool :=
  let ctrl := rcu_ctrl s in RCU_GET_CTR ctrl old_clock =? 0.

(** [rcu_synchronize]. *)
Definition rcu_synchronize_step (t : nat) (th : thread) (s : rstate) : option rstate :=
  match tpc th with
  | SyncLock =>
      match rcu_sync_lock s with
      | None => Some (set_thread (set_owner s (Some t)) t (set_pc th SyncRead))
      | Some _ => None
      end
  | SyncRead =>
      let old := rcu_ctrl s in
      let old_clock := RCU_CTRL_TO_CLOCK old in
      let tick := RCU_GET_CTR old (Z.lxor old_clock 1) =? 0 in
      if negb tick then Some s
      else Some (set_thread s t (set_pc th (SyncCas old)))
  | SyncCas old =>
      let new := Z.lxor old (Z.shiftl 1 RCU_CLOCK_OFFSET) in
      if rcu_ctrl s =? old then
        Some (set_thread (set_ctrl s new) t (set_pc th (SyncWait (RCU_CTRL_TO_CLOCK old))))
      else Some (set_thread s t (set_pc th SyncRead))
  | SyncWait old_clock =>
      if rcu_wait_for_readers s old_clock
      then Some (set_thread s t (set_pc th (SyncHead old_clock))) else Some s
  | SyncHead old_clock =>
      let cbd := list_head s old_clock in
      Some (set_thread s t (set_pc th
        (if cbd =? 0 then SyncClear old_clock else SyncCb old_clock cbd)))
  | SyncCb old_clock cbd =>
      cb ← cbs s !! cbd;
      Some (set_thread (set_cbs (log_call s (callback cb, callback_arg cb)) (delete cbd (cbs s))) t
        (set_pc th (if next cb =? 0 then SyncClear old_clock else SyncCb old_clock (next cb))))
  | SyncClear old_clock =>
      Some (set_thread (set_head s old_clock 0) t (set_pc th SyncUnlock))
  | SyncUnlock =>
      Some (set_thread (set_owner s None) t (set_pc th Run))
  | _ => None
  end.

(** The next step of thread [t] inside of this file. *)
Definition tstep (t : nat) (s : rstate) : option rstate :=
  th ← threads s !! t;
  match tpc th with
  | Run => None
  | LockRead _ | LockCas _ _ => read_lock_step t th s
  | UnlockRead _ | UnlockCas _ _ => read_unlock_step t th s
  | CallHead _ _ _ | CallCas _ _ _ _ => rcu_call_step t th s
  | _ => rcu_synchronize_step t th s
  end.

(** Calls of the functions of this file; [rcu_call] may be used once for a
    control block. *)
Inductive op := OpLock | OpUnlock (i : nat) | OpCall (cbd fn : Z) | OpSync.
Definition begin (t : nat) (o : op) (s : rstate) : option rstate :=
  th ← threads s !! t;
  match tpc th with
  | Run =>
      match o with
      | OpLock => Some (set_thread s t (set_pc th (LockRead ForUser)))
      | OpUnlock i =>
          c ← held th !! i;
          Some (set_thread s t (Thread (UnlockRead c) (delete i (held th)) (snap th)))
      | OpCall cbd fn =>
          if (cbd =? 0) || bool_decide (is_Some (regs s !! cbd)) then None
          else Some (set_thread (register s cbd (fn, open_secs s)) t
                       (set_pc th (LockRead (ForCall cbd fn))))
      | OpSync => Some (set_thread s t (Thread SyncLock (held th) (open_secs s)))
      end
  | _ => None
  end.

(** A step of the system; the counters have room for [RCU_CTR_MASK] sections. *)
Definition rcu_step (s s' : rstate) : Prop :=
  ((exists t, tstep t s = Some s') \/ (exists t o, begin t o s = Some s')) /\
  Z.of_nat (length (open s')) <= RCU_CTR_MASK.

(** A schedule: which thread moves, and the function it calls when it is not
    inside of one. *)
Fixpoint exec (sched : list (nat * option op)) (s : rstate) : option rstate :=
  match sched with
  | [] => Some s
  | (t, o) :: sched =>
      s ← match o with None => tstep t s | Some o => begin t o s end;
      if Z.of_nat (length (open s)) <=? RCU_CTR_MASK then exec sched s else None
  end.

Lemma exec_rtc sched s s' : exec sched s = Some s' -> rtc rcu_step s s'.
Proof.
  revert s. induction sched as [|[t o] sched IH]; intros s; cbn [exec].
  { intros [= ->]. apply rtc_refl. }
  intros H. destruct (match o with None => _ | Some o => _ end) as [s1|] eqn:E; [|done].
  mstep in H. destruct (Z.leb_spec (Z.of_nat (length (open s1))) RCU_CTR_MASK); [|done].
  eapply rtc_l; [|by apply IH]. split; [|done]. destruct o; [right|left]; eauto.
Qed.

Lemma exec_app l1 l2 s : exec (l1 ++ l2) s = s ← exec l1 s; exec l2 s.
Proof.
  revert s. induction l1 as [|[t o] l1 IH]; intros s; [done|]. cbn [exec app].
  destruct (match o with None => _ | Some o => _ end) as [s1|]; [|done]. mstep.
  by destruct (_ <=? _).
Qed.

(** ** Steps as a relation

    The cases of [tstep] and [begin], one constructor each. *)

Definition next_pc (c x : Z) : pc := if x =? 0 then SyncClear c else SyncCb c x.
Definition locked (k : why) (ctx : rcu_lock_ctx) (th : thread) : thread :=
  match k with
  | ForUser => Thread Run (ctx :: held th) (snap th)
  | ForCall cbd fn => set_pc th (CallHead cbd fn ctx)
  end.

Inductive astep (s : rstate) (t : nat) (th : thread) : rstate -> Prop :=
| a_lock_read k : tpc th = LockRead k ->
    astep s t th (set_thread s t (set_pc th (LockCas k (rcu_ctrl s))))
| a_lock_ok k : tpc th = LockCas k (rcu_ctrl s) ->
    astep s t th (set_thread (fresh_sec
      (set_ctrl s (rcu_ctrl s + RCU_CTR_ONE (RCU_CTRL_TO_CLOCK (rcu_ctrl s))))) t
      (locked k (RcuCtx (RCU_CTRL_TO_CLOCK (rcu_ctrl s)) (nsec s)) th))
| a_lock_retry k old : tpc th = LockCas k old ->
    astep s t th (set_thread s t (set_pc th (LockRead k)))
| a_unlock_read c : tpc th = UnlockRead c ->
    astep s t th (set_thread s t (set_pc th (UnlockCas c (rcu_ctrl s))))
| a_unlock_ok c : tpc th = UnlockCas c (rcu_ctrl s) ->
    astep s t th (set_thread (set_ctrl s (rcu_ctrl s - RCU_CTR_ONE (selector c))) t (set_pc th Run))
| a_unlock_retry c old : tpc th = UnlockCas c old ->
    astep s t th (set_thread s t (set_pc th (UnlockRead c)))
| a_call_head x fn c : tpc th = CallHead x fn c ->
    astep s t th (set_thread (set_cbs s (<[x := RcuCb fn x (list_head s (selector c))]> (cbs s))) t
      (set_pc th (CallCas x fn c (list_head s (selector c)))))
| a_call_ok x fn c : tpc th = CallCas x fn c (list_head s (selector c)) ->
    astep s t th (set_thread (set_head s (selector c) x) t (set_pc th (UnlockRead c)))
| a_call_retry x fn c old : tpc th = CallCas x fn c old ->
    astep s t th (set_thread s t (set_pc th (CallHead x fn c)))
| a_sync_lock : tpc th = SyncLock -> rcu_sync_lock s = None ->
    astep s t th (set_thread (set_owner s (Some t)) t (set_pc th SyncRead))
| a_sync_spin : astep s t th s
| a_sync_read : tpc th = SyncRead ->
    astep s t th (set_thread s t (set_pc th (SyncCas (rcu_ctrl s))))
| a_sync_ok : tpc th = SyncCas (rcu_ctrl s) ->
    astep s t th (set_thread (set_ctrl s (Z.lxor (rcu_ctrl s) (Z.shiftl 1 RCU_CLOCK_OFFSET))) t
      (set_pc th (SyncWait (RCU_CTRL_TO_CLOCK (rcu_ctrl s)))))
| a_sync_retry old : tpc th = SyncCas old ->
    astep s t th (set_thread s t (set_pc th SyncRead))
| a_sync_ready c : tpc th = SyncWait c -> RCU_GET_CTR (rcu_ctrl s) c = 0 ->
    astep s t th (set_thread s t (set_pc th (SyncHead c)))
| a_sync_head c : tpc th = SyncHead c ->
    astep s t th (set_thread s t (set_pc th (next_pc c (list_head s c))))
| a_sync_cb c x cb : tpc th = SyncCb c x -> cbs s !! x = Some cb ->
    astep s t th (set_thread (set_cbs (log_call s (callback cb, callback_arg cb)) (delete x (cbs s))) t
      (set_pc th (next_pc c (next cb))))
| a_sync_clear c : tpc th = SyncClear c ->
    astep s t th (set_thread (set_head s c 0) t (set_pc th SyncUnlock))
| a_sync_unlock : tpc th = SyncUnlock ->
    astep s t th (set_thread (set_owner s None) t (set_pc th Run))
| a_begin_lock : tpc th = Run ->
    astep s t th (set_thread s t (set_pc th (LockRead ForUser)))
| a_begin_unlock i c : tpc th = Run -> held th !! i = Some c ->
    astep s t th (set_thread s t (Thread (UnlockRead c) (delete i (held th)) (snap th)))
| a_begin_call x fn : tpc th = Run -> x <> 0 -> regs s !! x = None ->
    astep s t th (set_thread (register s x (fn, open_secs s)) t
      (set_pc th (LockRead (ForCall x fn))))
| a_begin_sync : tpc th = Run ->
    astep s t th (set_thread s t (Thread SyncLock (held th) (open_secs s))).

Lemma tstep_astep t s s' :
  tstep t s = Some s' -> exists th, threads s !! t = Some th /\ astep s t th s'.
Proof.
  unfold tstep. destruct (threads s !! t) as [th|]; mstep; [|done]. intros H. exists th.
  split; [done|].
  destruct (tpc th) eqn:Hpc; try done;
    unfold read_lock_step, read_unlock_step, rcu_call_step, rcu_synchronize_step in H;
    rewrite Hpc in H; cbv zeta in H; unfold rcu_wait_for_readers in H.
  all: try (repeat case_match; simplify_eq; repeat match goal with
    | H : (_ =? _) = true |- _ => apply Z.eqb_eq in H; subst end;
    econstructor; solve [eauto]).
  - destruct (Z.eqb_spec (rcu_ctrl s) old) as [<-|]; simplify_eq; [|by eapply a_lock_retry].
    destruct k; by apply (a_lock_ok _ _ _ _ Hpc).
  - simplify_eq. by apply a_sync_head.
  - destruct (cbs s !! cbd) as [cb|] eqn:Hcb; [|done]. mstep in H. simplify_eq.
    by eapply (a_sync_cb s t th).
Qed.

Lemma begin_astep t o s s' :
  begin t o s = Some s' -> exists th, threads s !! t = Some th /\ astep s t th s'.
Proof.
  unfold begin. destruct (threads s !! t) as [th|]; mstep; [|done]. intros H. exists th.
  split; [done|]. destruct (tpc th) eqn:Hpc; try done. destruct o.
  - simplify_eq. by apply a_begin_lock.
  - destruct (held th !! i) as [c|] eqn:Hc; [|done]. mstep in H. simplify_eq.
    by apply (a_begin_unlock s t th i).
  - destruct (Z.eqb_spec cbd 0); [done|]. simpl in H. case_bool_decide as Hr; [done|].
    simplify_eq. apply a_begin_call; [done|done|]. by apply eq_None_not_Some.
  - simplify_eq. by apply a_begin_sync.
Qed.

Lemma rcu_step_astep s s' : rcu_step s s' ->
  (exists t th, threads s !! t = Some th /\ astep s t th s') /\ Z.of_nat (length (open s')) <= RCU_CTR_MASK.
Proof.
  intros [[[t H]|(t & o & H)] ?]; (split; [|done]);
    [apply tstep_astep in H as (? & ? & ?)|apply begin_astep in H as (? & ? & ?)]; eauto.
Qed.

(** ** Read sections are counted *)

Lemma concat_upd {X} (f : thread -> list X) (l : list thread) t th y :
  l !! t = Some th -> exists A B,
    concat (f <$> l) = A ++ f th ++ B /\ concat (f <$> <[t := y]> l) = A ++ f y ++ B.
Proof.
  intros Ht. exists (concat (f <$> take t l)), (concat (f <$> drop (S t) l)).
  rewrite insert_take_drop by by eapply lookup_lt_Some.
  rewrite <-(take_drop_middle l t th Ht) at 1.
  rewrite !fmap_app, !concat_app. cbn. done.
Qed.

Lemma open_elem s c : c ∈ open s <-> exists t th, threads s !! t = Some th /\ c ∈ open_th th.
Proof.
  unfold open. rewrite list_elem_of_In, in_concat. split.
  - intros (l & Hl & Hc). rewrite <-list_elem_of_In in Hl. rewrite <-list_elem_of_In in Hc.
    apply list_elem_of_fmap in Hl as (th & -> & [t Ht]%list_elem_of_lookup). eauto.
  - intros (t & th & Ht & Hc). exists (open_th th). rewrite <-!list_elem_of_In. split; [|done].
    apply list_elem_of_fmap_2. by eapply list_elem_of_lookup_2.
Qed.

Lemma next_pc_ctx c x : pc_ctx (next_pc c x) = [].
Proof. unfold next_pc. by case_match. Qed.

(** How a step other than the tick changes the open sections. *)
Inductive open_change (s s' : rstate) : Prop :=
| oc_same : open s' ≡ₚ open s -> nsec s' = nsec s -> rcu_ctrl s' = rcu_ctrl s ->
    open_change s s'
| oc_lock : let k := RCU_CTRL_TO_CLOCK (rcu_ctrl s) in
    open s' ≡ₚ RcuCtx k (nsec s) :: open s -> nsec s' = S (nsec s) ->
    rcu_ctrl s' = rcu_ctrl s + RCU_CTR_ONE k -> open_change s s'
| oc_unlock c : open s ≡ₚ c :: open s' -> nsec s' = nsec s ->
    rcu_ctrl s' = rcu_ctrl s - RCU_CTR_ONE (selector c) -> open_change s s'.

Lemma astep_open s t th s' :
  threads s !! t = Some th -> astep s t th s' -> tpc th <> SyncCas (rcu_ctrl s) ->
  open_change s s'.
Proof.
  intros Ht Hstep Htick. destruct Hstep; try done;
  lazymatch goal with
  | |- open_change ?s ?s => by apply oc_same
  | |- open_change _ (set_thread _ _ ?y) =>
      destruct (concat_upd open_th (threads s) t th y Ht) as (A & B & E1 & E2);
      unfold open_th in E1 at 2; unfold open_th in E2 at 2;
      rewrite ?H in E1; rewrite ?H in E2; cbn [tpc held set_pc pc_ctx app] in E1, E2
  end.
  2: { apply oc_lock; [|done|done]. unfold open. cbn. rewrite E1, E2.
       destruct k; cbn; solve_Permutation. }
  4: { apply (oc_unlock _ _ c); [|done|done]. unfold open. cbn. rewrite E1, E2. solve_Permutation. }
  all: apply oc_same; [unfold open; cbn; rewrite E1, E2|done|done];
    rewrite ?next_pc_ctx; try done.
  rewrite (delete_Permutation (held th) i c) at 2 by done. solve_Permutation.
Qed.

Definition secs (c : Z) (l : list rcu_lock_ctx) : Z :=
  Z.of_nat (length (filter (fun x => selector x = c) l)).

Lemma secs_cons c x l : secs c (x :: l) = secs c l + if decide (selector x = c) then 1 else 0.
Proof. unfold secs. rewrite filter_cons. case_decide; cbn [length]; lia. Qed.

#[global] Instance secs_perm c : Proper ((≡ₚ) ==> eq) (secs c).
Proof. intros l l' Hl. unfold secs. by rewrite Hl. Qed.

Lemma secs_0 c l x : secs c l = 0 -> x ∈ l -> selector x <> c.
Proof.
  unfold secs. intros H Hx Hc. enough (x ∈ filter (fun x => selector x = c) l) as Hf.
  { by destruct (filter (fun x => selector x = c) l); [apply not_elem_of_nil in Hf|]. }
  by apply list_elem_of_filter.
Qed.

(** The control word packs the counters of both clocks and the clock. *)
Definition ctrl_word (a b k : Z) : Z := a + b * 2 ^ 15 + k * 2 ^ 30.

Section ctrl.
Context (a b k : Z) (Ha : 0 <= a <= RCU_CTR_MASK) (Hb : 0 <= b <= RCU_CTR_MASK)
  (Hk : k = 0 \/ k = 1).

Lemma ctrl_ctr_a : RCU_CTRL_TO_CTR_A (ctrl_word a b k) = a.
Proof.
  unfold RCU_CTRL_TO_CTR_A, RCU_CTR_A_OFFSET, RCU_CTR_MASK, ctrl_word in *.
  rewrite Z.shiftr_0_r. change 0x7fff with (Z.ones 15). rewrite Z.land_ones by lia. dlia.
Qed.

Lemma ctrl_ctr_b : RCU_CTRL_TO_CTR_B (ctrl_word a b k) = b.
Proof.
  unfold RCU_CTRL_TO_CTR_B, RCU_CTR_B_OFFSET, RCU_CTR_MASK, ctrl_word in *.
  rewrite Z.shiftr_div_pow2 by lia. change 0x7fff with (Z.ones 15).
  rewrite Z.land_ones by lia. dlia.
Qed.

Lemma ctrl_clock : RCU_CTRL_TO_CLOCK (ctrl_word a b k) = k.
Proof.
  unfold RCU_CTRL_TO_CLOCK, RCU_CLOCK_OFFSET, RCU_CTR_MASK, RCU_CLOCK_MASK, ctrl_word in *.
  rewrite Z.shiftr_div_pow2 by lia. change 0x1 with (Z.ones 1).
  rewrite Z.land_ones by lia. dlia.
Qed.

Lemma ctrl_tick :
  Z.lxor (ctrl_word a b k) (Z.shiftl 1 RCU_CLOCK_OFFSET) = ctrl_word a b (1 - k).
Proof.
  assert (ctrl_word a b 1 = Z.lxor (ctrl_word a b 0) (2 ^ 30)) as E.
  { replace (ctrl_word a b 1) with (ctrl_word a b 0 + 2 ^ 30) by (unfold ctrl_word; lia).
    apply Z.add_nocarry_lxor, Z.bits_inj'. intros n Hn. rewrite Z.land_spec, Z.bits_0.
    unfold ctrl_word, RCU_CTR_MASK in *.
    destruct (decide (n < 30)) as [|].
    - rewrite Z.pow2_bits_false by lia. apply andb_false_r.
    - rewrite <-(Z.mod_small (a + b * 2 ^ 15 + 0 * 2 ^ 30) (2 ^ 30)) by lia.
      by rewrite Z.mod_pow2_bits_high by lia. }
  change (Z.shiftl 1 RCU_CLOCK_OFFSET) with (2 ^ 30).
  destruct Hk as [-> | ->]; [by rewrite <-E|].
  rewrite E, Z.lxor_assoc, Z.lxor_nilpotent. apply Z.lxor_0_r.
Qed.
End ctrl.

(** The clock, and the counters behind [rcu_ctrl]. *)
Definition clock (s : rstate) : Z := RCU_CTRL_TO_CLOCK (rcu_ctrl s).
Record ctr_inv (s : rstate) : Prop := {
  ctr_sel : Forall (fun c => selector c = 0 \/ selector c = 1) (open s);
  ctr_sec : Forall (fun c => (sec c < nsec s)%nat) (open s);
  ctr_len : Z.of_nat (length (open s)) <= RCU_CTR_MASK;
  ctr_word : exists k, (k = 0 \/ k = 1) /\
    rcu_ctrl s = ctrl_word (secs 0 (open s)) (secs 1 (open s)) k
}.

Lemma RCU_CTR_ONE_eq c : RCU_CTR_ONE c = if decide (c = 0) then 1 else 2 ^ 15.
Proof. unfold RCU_CTR_ONE. zcase; by case_decide. Qed.

Lemma secs_range c l : 0 <= secs c l <= Z.of_nat (length l).
Proof. unfold secs. pose proof (length_filter (fun x => selector x = c) l). lia. Qed.

Lemma ctr_inv_clock s : ctr_inv s ->
  (clock s = 0 \/ clock s = 1) /\
  rcu_ctrl s = ctrl_word (secs 0 (open s)) (secs 1 (open s)) (clock s).
Proof.
  intros [_ _ Hl (k & Hk & E)]. pose proof (secs_range 0 (open s)). pose proof (secs_range 1 (open s)).
  assert (clock s = k) as -> by (unfold clock; rewrite E; apply ctrl_clock; lia). by split.
Qed.

Lemma ctr_inv_ctr s c : ctr_inv s -> c = 0 \/ c = 1 ->
  RCU_GET_CTR (rcu_ctrl s) c = secs c (open s).
Proof.
  intros [_ _ Hl (k & Hk & E)] Hc. pose proof (secs_range 0 (open s)).
  pose proof (secs_range 1 (open s)).
  unfold RCU_GET_CTR. rewrite E.
  destruct Hc as [-> | ->]; cbn [Z.eqb]; [apply ctrl_ctr_a|apply ctrl_ctr_b]; (done || lia).
Qed.

Lemma ctr_inv_intro s k :
  k = 0 \/ k = 1 ->
  rcu_ctrl s = ctrl_word (secs 0 (open s)) (secs 1 (open s)) k ->
  Forall (fun c => selector c = 0 \/ selector c = 1) (open s) ->
  Forall (fun c => (sec c < nsec s)%nat) (open s) ->
  Z.of_nat (length (open s)) <= RCU_CTR_MASK ->
  ctr_inv s /\ clock s = k.
Proof.
  intros Hk Ek ???. pose proof (secs_range 0 (open s)). pose proof (secs_range 1 (open s)).
  split; [constructor; eauto|]. unfold clock. rewrite Ek. by apply ctrl_clock; try lia.
Qed.

Lemma ctr_inv_change s s' : ctr_inv s -> open_change s s' ->
  Z.of_nat (length (open s')) <= RCU_CTR_MASK ->
  ctr_inv s' /\ clock s' = clock s.
Proof.
  intros Hi Hch Hl. destruct (ctr_inv_clock s Hi) as [Hk E]. destruct Hi as [Hsel Hsec Hlen _].
  apply ctr_inv_intro; [done|..|done]; destruct Hch as [Hp Hn Hc|k Hp Hn Hc|c Hp Hn Hc].
  - by rewrite Hc, Hp.
  - fold (clock s) in k. rewrite Hc, Hp, !secs_cons, E. subst k. cbn [selector].
    unfold ctrl_word. rewrite RCU_CTR_ONE_eq. destruct Hk as [-> | ->]; repeat case_decide; lia.
  - rewrite Hp in Hsel. apply Forall_cons in Hsel as [Hs ?]. rewrite Hc, E, Hp, !secs_cons.
    unfold ctrl_word. rewrite RCU_CTR_ONE_eq. destruct Hs as [-> | ->]; repeat case_decide; lia.
  - by rewrite Hp.
  - rewrite Hp. by constructor.
  - rewrite Hp in Hsel. by apply Forall_cons in Hsel as [_ ?].
  - by rewrite Hp, Hn.
  - rewrite Hp, Hn. constructor; [cbn; lia|]. eapply Forall_impl; [done|]. cbn; lia.
  - rewrite Hp in Hsec. rewrite Hn. by apply Forall_cons in Hsec as [_ ?].
Qed.

Lemma ctr_inv_tick s s' : ctr_inv s -> open s' = open s -> nsec s' = nsec s ->
  rcu_ctrl s' = Z.lxor (rcu_ctrl s) (Z.shiftl 1 RCU_CLOCK_OFFSET) ->
  ctr_inv s' /\ clock s' = 1 - clock s.
Proof.
  intros Hi Ho Hn Hc. destruct (ctr_inv_clock s Hi) as [Hk E]. destruct Hi as [Hsel Hsec Hlen _].
  pose proof (secs_range 0 (open s)). pose proof (secs_range 1 (open s)).
  apply ctr_inv_intro; rewrite ?Ho, ?Hn; try done; [lia|].
  rewrite Hc, E. apply ctrl_tick; (done || lia).
Qed.

(** ** The owner of [rcu_sync_lock] *)

Definition in_sync (p : pc) : bool :=
  match p with
  | SyncRead | SyncCas _ | SyncWait _ | SyncHead _ | SyncCb _ _ | SyncClear _ | SyncUnlock => true
  | _ => false
  end.
Definition own_inv (s : rstate) : Prop :=
  forall t th, threads s !! t = Some th -> in_sync (tpc th) = true <-> rcu_sync_lock s = Some t.

(** Where the owner is. *)
Definition opc (s : rstate) : pc :=
  match rcu_sync_lock s with
  | None => Run
  | Some t => match threads s !! t with Some th => tpc th | None => Run end
  end.

Lemma opc_owner s t th :
  own_inv s -> threads s !! t = Some th -> in_sync (tpc th) = true -> opc s = tpc th.
Proof. intros Ho Ht Hs. unfold opc. apply (Ho t th Ht) in Hs as ->. by rewrite Ht. Qed.

Lemma opc_set s t th th' :
  threads s !! t = Some th ->
  opc (set_thread s t th') = if decide (rcu_sync_lock s = Some t) then tpc th' else opc s.
Proof.
  intros Ht. unfold opc. cbn. case_decide as Hd.
  - rewrite Hd, list_lookup_insert_eq; [done|]. by eapply lookup_lt_Some.
  - destruct (rcu_sync_lock s) as [u|]; [|done]. rewrite list_lookup_insert_ne by congruence. done.
Qed.

Lemma next_pc_sync c x : in_sync (next_pc c x) = true.
Proof. unfold next_pc. by case_match. Qed.

Lemma own_inv_step s t th s' :
  own_inv s -> threads s !! t = Some th -> astep s t th s' -> own_inv s'.
Proof.
  intros Ho Ht Hstep. pose proof (Ho t th Ht) as Hot.
  destruct Hstep; try done; intros u thu; cbn;
    (destruct (decide (u = t)) as [->|];
     [rewrite list_lookup_insert_eq by (by eapply lookup_lt_Some); intros [= <-]
     |rewrite list_lookup_insert_ne by done; intros Hu; specialize (Ho u thu Hu)]);
    try rewrite H in Hot; cbn in *; rewrite ?next_pc_sync; try done.
  - by destruct k.
  - rewrite H0 in Ho. split; [intros ?; by apply Ho in H1|congruence].
  - rewrite (proj1 Hot eq_refl) in Ho. rewrite Ho. split; congruence.
Qed.

(** ** The phases of a grace period

    Outside of the wait of [rcu_synchronize] the counter of the other clock is
    zero: the test for a tick never has to wait. *)
Definition phase_inv (s : rstate) : Prop :=
  match opc s with
  | SyncWait c => c = 1 - clock s
  | SyncHead c | SyncCb c _ | SyncClear c => c = 1 - clock s /\ secs c (open s) = 0
  | _ => secs (1 - clock s) (open s) = 0
  end.

Lemma quiet_step s s' :
  open_change s s' -> clock s' = clock s ->
  secs (1 - clock s) (open s) = 0 -> secs (1 - clock s) (open s') = 0.
Proof.
  intros [Hp _ _|k Hp _ _|c Hp _ _] Hc H0.
  - by rewrite Hp.
  - rewrite Hp, secs_cons. subst k. cbn [selector]. fold (clock s). case_decide; lia.
  - rewrite Hp, secs_cons in H0. pose proof (secs_range (1 - clock s) (open s')).
    case_decide; lia.
Qed.

Lemma phase_inv_keep s s' :
  phase_inv s -> open_change s s' -> clock s' = clock s -> opc s' = opc s -> phase_inv s'.
Proof.
  intros Hi Hch Hc Ho. unfold phase_inv in *. rewrite Ho, Hc.
  destruct (opc s); try (by eapply quiet_step); try done;
    destruct Hi as [-> ?]; (split; [done|by eapply quiet_step]).
Qed.

Lemma opc_upd s s' t th y :
  own_inv s -> threads s !! t = Some th -> rcu_sync_lock s' = rcu_sync_lock s ->
  threads s' = <[t := y]> (threads s) ->
  opc s' = if in_sync (tpc th) then tpc y else opc s.
Proof.
  intros Ho Ht Hl Hts. pose proof (Ho t th Ht) as Hot. unfold opc. rewrite Hl, Hts.
  destruct (in_sync (tpc th)).
  - rewrite (proj1 Hot eq_refl). rewrite list_lookup_insert_eq; [done|]. by eapply lookup_lt_Some.
  - destruct (rcu_sync_lock s) as [u|]; [|done]. rewrite list_lookup_insert_ne; [done|].
    intros ->. by discriminate (proj2 Hot eq_refl).
Qed.

Lemma open_upd s s' t th y :
  threads s !! t = Some th -> threads s' = <[t := y]> (threads s) -> open_th y = open_th th ->
  open s' = open s.
Proof.
  intros Ht Hts Hy. destruct (concat_upd open_th _ t th y Ht) as (A & B & E1 & E2).
  unfold open. by rewrite Hts, E1, E2, Hy.
Qed.

(** How a step moves the owner. *)
Definition quiet (p : pc) : Prop :=
  match p with SyncWait _ | SyncHead _ | SyncCb _ _ | SyncClear _ => False | _ => True end.
Definition same_ctr (s s' : rstate) : Prop :=
  rcu_ctrl s' = rcu_ctrl s /\ nsec s' = nsec s /\ open s' = open s.
Inductive sync_change (s s' : rstate) : Prop :=
| sc_same : opc s' = opc s -> open_change s s' -> sync_change s s'
| sc_quiet : quiet (opc s) -> quiet (opc s') -> same_ctr s s' ->
    sync_change s s'
| sc_tick : quiet (opc s) -> opc s' = SyncWait (clock s) -> open s' = open s ->
    nsec s' = nsec s -> rcu_ctrl s' = Z.lxor (rcu_ctrl s) (Z.shiftl 1 RCU_CLOCK_OFFSET) ->
    sync_change s s'
| sc_ready c : opc s = SyncWait c -> opc s' = SyncHead c -> same_ctr s s' ->
    RCU_GET_CTR (rcu_ctrl s) c = 0 -> sync_change s s'
| sc_drain c x : opc s = SyncHead c \/ (exists y, opc s = SyncCb c y) -> opc s' = next_pc c x ->
    same_ctr s s' -> sync_change s s'
| sc_clear c : opc s = SyncClear c -> opc s' = SyncUnlock -> same_ctr s s' -> sync_change s s'.

Lemma astep_sync s t th s' :
  own_inv s -> threads s !! t = Some th -> astep s t th s' ->
  sync_change s s'.
Proof.
  intros Ho Ht Hstep.
  pose proof (fun s' y Hl Hts => opc_upd s s' t th y Ho Ht Hl Hts) as Hopc.
  pose proof (fun s' y => open_upd s s' t th y Ht) as Hopen.
  pose proof (opc_owner s t th Ho Ht) as Hown.
  pose proof (astep_open s t th s' Ht Hstep) as Hch.
  destruct Hstep.
  all: try match goal with
    | |- sync_change _ (set_thread _ _ ?y) =>
        match goal with |- sync_change _ ?s1 =>
        specialize (Hopc s1 y); specialize (Hopen s1 y) end;
        specialize (Hopc eq_refl eq_refl) || clear Hopc;
        specialize (Hopen eq_refl); unfold open_th in Hopen;
        rewrite ?H in *; cbn [in_sync tpc set_pc held pc_ctx] in *
    end.
  all: try (by apply sc_same; [|apply Hch]).
  all: lazymatch goal with
    | |- sync_change ?s ?s => idtac
    | |- sync_change ?s ?s' => assert (open s' = open s) as Ho' by
        (apply Hopen; by rewrite ?next_pc_ctx)
    end.
  - apply sc_quiet; [unfold opc; by rewrite H0| |by split_and!].
    unfold opc. cbn. rewrite list_lookup_insert_eq by (by eapply lookup_lt_Some). done.
  - by apply sc_same, oc_same.
  - apply sc_quiet; [by rewrite Hown|by rewrite Hopc|by split_and!].
  - apply sc_tick; [by rewrite Hown|by rewrite Hopc|done..].
  - apply sc_quiet; [by rewrite Hown|by rewrite Hopc|by split_and!].
  - eapply sc_ready; [by apply Hown|apply Hopc|by split_and!|done].
  - eapply sc_drain; [left; by apply Hown|apply Hopc|by split_and!].
  - eapply sc_drain; [right; eexists; by apply Hown|apply Hopc|by split_and!].
  - eapply sc_clear; [by apply Hown|apply Hopc|by split_and!].
  - apply sc_quiet; [by rewrite Hown|done|by split_and!].
Qed.

Lemma ctr_inv_step s s' : ctr_inv s -> sync_change s s' ->
  Z.of_nat (length (open s')) <= RCU_CTR_MASK -> ctr_inv s'.
Proof.
  intros Hi Hch Hl.
  assert (same_ctr s s' -> ctr_inv s') as Hsame.
  { intros (Hc & Hn & Ho). apply (ctr_inv_change s s'); [done|by apply oc_same; rewrite ?Ho|done]. }
  destruct Hch; try (by apply Hsame).
  - by apply (ctr_inv_change s s').
  - by apply (ctr_inv_tick s s').
Qed.

Lemma same_ctr_clock s s' : same_ctr s s' -> clock s' = clock s /\ open s' = open s.
Proof. intros (Hc & _ & Ho). unfold clock. by rewrite Hc. Qed.

Lemma quiet_phase s : quiet (opc s) -> phase_inv s <-> secs (1 - clock s) (open s) = 0.
Proof. unfold phase_inv. by destruct (opc s). Qed.

Lemma phase_inv_step s s' : ctr_inv s -> sync_change s s' ->
  Z.of_nat (length (open s')) <= RCU_CTR_MASK -> phase_inv s -> phase_inv s'.
Proof.
  intros Hi Hch Hl Hp. destruct (ctr_inv_clock s Hi) as [Hk _].
  destruct Hch as [Ho Hch|Hq Hq' Hs|Hq Hq' Ho Hn Hc|c Ho Ho' Hs Hc|c x Ho Ho' Hs|c Ho Ho' Hs];
    try apply same_ctr_clock in Hs as [Hclk Hop].
  - destruct (ctr_inv_change s s' Hi Hch Hl) as [_ Hc]. by apply (phase_inv_keep s s').
  - rewrite quiet_phase in * by done. by rewrite Hclk, Hop.
  - destruct (ctr_inv_tick s s') as [_ Hclk]; [done..|]. unfold phase_inv. rewrite Hq'. lia.
  - unfold phase_inv in *. rewrite Ho', Hclk, Hop. rewrite Ho in Hp. split; [done|].
    rewrite <-ctr_inv_ctr; [done|done|lia].
  - assert (c = 1 - clock s /\ secs c (open s) = 0) as [-> H0].
    { unfold phase_inv in Hp. by destruct Ho as [Ho|[? Ho]]; rewrite Ho in Hp. }
    unfold phase_inv. rewrite Ho', Hclk, Hop. unfold next_pc. by destruct (x =? 0).
  - unfold phase_inv in *. rewrite Ho', Hclk, Hop. rewrite Ho in Hp. by destruct Hp as [-> ?].
Qed.

(** ** The reclaim lists

    A control block is pending in a running [rcu_call], on one of the two
    lists, or called; [p_sel] is the list it goes to, once that is fixed. *)
Record pent := Pent { p_cbd : Z; p_fn : Z; p_sel : option Z; p_old : option Z }.
Definition pend_th (th : thread) : list pent :=
  match tpc th with
  | LockRead (ForCall x fn) | LockCas (ForCall x fn) _ => [Pent x fn None None]
  | CallHead x fn c => [Pent x fn (Some (selector c)) None]
  | CallCas x fn c old => [Pent x fn (Some (selector c)) (Some old)]
  | _ => []
  end.
Definition pend (s : rstate) : list pent := concat (pend_th <$> threads s).

Fixpoint chain (m : gmap Z rcu_cb) (r : gmap Z (Z * gset nat)) (h : Z) (l : list Z) : Prop :=
  match l with
  | [] => h = 0
  | x :: l => h = x /\ x <> 0 /\ exists fn n G,
      m !! x = Some (RcuCb fn x n) /\ r !! x = Some (fn, G) /\ chain m r n l
  end.

(** The list as [rcu_synchronize] still has to walk it. *)
Definition eff_head (s : rstate) (c : Z) : Z :=
  match opc s with
  | SyncCb c' x => if decide ((c' =? 0) = (c =? 0)) then x else list_head s c
  | SyncClear c' => if decide ((c' =? 0) = (c =? 0)) then 0 else list_head s c
  | _ => list_head s c
  end.

Record list_inv (s : rstate) (L : Z -> list Z) : Prop := {
  l_chain : forall c, c = 0 \/ c = 1 -> chain (cbs s) (regs s) (eff_head s c) (L c);
  l_nodup : NoDup ((p_cbd <$> pend s) ++ L 0 ++ L 1 ++ (called s).*2);
  l_pend : forall e, e ∈ pend s -> p_cbd e <> 0 /\
    (exists G, regs s !! p_cbd e = Some (p_fn e, G)) /\
    forall o, p_old e = Some o -> cbs s !! p_cbd e = Some (RcuCb (p_fn e) (p_cbd e) o);
  l_called : forall fn x, (fn, x) ∈ called s -> exists G, regs s !! x = Some (fn, G);
  l_null : cbs s !! 0 = None
}.

(** How a step changes the lists. *)
Inductive list_change (s s' : rstate) : Prop :=
| lc_same : pend s' = pend s -> (forall c, eff_head s' c = eff_head s c) -> cbs s' = cbs s ->
    called s' = called s -> regs s' = regs s -> list_change s s'
| lc_assign P e e' : pend s ≡ₚ e :: P -> pend s' ≡ₚ e' :: P ->
    p_cbd e' = p_cbd e -> p_fn e' = p_fn e ->
    p_sel e' = p_sel e \/ p_sel e' = Some (clock s) ->
    cbs s' = cbs s \/ cbs s' = <[p_cbd e := RcuCb (p_fn e) (p_cbd e) (default 0 (p_old e'))]> (cbs s) ->
    (forall o, p_old e' = Some o -> cbs s' !! p_cbd e = Some (RcuCb (p_fn e) (p_cbd e) o)) ->
    (forall c, eff_head s' c = eff_head s c) -> called s' = called s -> regs s' = regs s ->
    list_change s s'
| lc_push x fn c : pend s ≡ₚ Pent x fn (Some c) (Some (list_head s c)) :: pend s' ->
    opc s' = opc s -> list_head s' c = x ->
    (forall d, (c =? 0) <> (d =? 0) -> list_head s' d = list_head s d) -> cbs s' = cbs s ->
    called s' = called s -> regs s' = regs s -> list_change s s'
| lc_pop c x cb : pend s' = pend s -> opc s = SyncCb c x -> cbs s !! x = Some cb ->
    eff_head s' c = next cb -> (forall d, (c =? 0) <> (d =? 0) -> eff_head s' d = eff_head s d) ->
    cbs s' = delete x (cbs s) -> called s' = called s ++ [(callback cb, callback_arg cb)] ->
    regs s' = regs s -> list_change s s'
| lc_new x fn : x <> 0 -> regs s !! x = None -> pend s' ≡ₚ Pent x fn None None :: pend s ->
    (forall c, eff_head s' c = eff_head s c) -> cbs s' = cbs s -> called s' = called s ->
    regs s' = <[x := (fn, open_secs s)]> (regs s) -> list_change s s'.

Lemma chain_frame m r m' r' h l :
  (forall x, x ∈ l -> m' !! x = m !! x) -> (forall x, x ∈ l -> r' !! x = r !! x) ->
  chain m r h l -> chain m' r' h l.
Proof.
  revert h. induction l as [|x l IH]; intros h Hm Hr; [done|].
  intros (-> & Hx & fn & n & G & E1 & E2 & Hc). split_and!; [done..|]. exists fn, n, G.
  rewrite Hm, Hr by by left. split_and!; [done..|].
  apply IH; [| |done]; intros; [apply Hm|apply Hr]; by right.
Qed.

Lemma chain_regs m r h l x : chain m r h l -> x ∈ l -> is_Some (r !! x).
Proof.
  revert h. induction l as [|y l IH]; intros h; [by intros ? ?%not_elem_of_nil|].
  intros (-> & _ & fn & n & G & _ & E & Hc) [->|]%elem_of_cons; [eauto|by eapply IH].
Qed.

Lemma eff_head_same s s' c :
  opc s' = opc s -> list_head s' c = list_head s c -> eff_head s' c = eff_head s c.
Proof. intros Ho Hl. unfold eff_head. by rewrite Ho, Hl. Qed.

Lemma astep_list s t th s' :
  own_inv s -> threads s !! t = Some th -> astep s t th s' -> list_change s s'.
Proof.
  intros Ho Ht Hstep.
  pose proof (fun s' y Hl Hts => opc_upd s s' t th y Ho Ht Hl Hts) as Hopc.
  pose proof (fun y => concat_upd pend_th _ t th y Ht) as Hpend.
  pose proof (opc_owner s t th Ho Ht) as Hown.
  destruct Hstep.
  all: try match goal with
    | |- list_change _ (set_thread _ _ ?y) =>
        destruct (Hpend y) as (A & B & E1 & E2); clear Hpend;
        match goal with |- list_change _ ?s1 => specialize (Hopc s1 y) end;
        specialize (Hopc eq_refl eq_refl) || clear Hopc;
        unfold pend_th in E1 at 2; unfold pend_th in E2 at 2;
        rewrite ?H in *; cbn [in_sync tpc set_pc held] in *
    end.
  all: try (apply lc_same;
    [unfold pend; cbn; by rewrite E1, E2|by intros; apply eff_head_same|done..]).
  all: try (apply lc_same; [unfold pend; cbn; by rewrite E1, E2| |done..];
    intros d; unfold eff_head; rewrite Hopc, Hown by done; done).
  - destruct k as [|x fn]; cbn [locked set_pc tpc] in *.
    + apply lc_same; [unfold pend; cbn; by rewrite E1, E2|by intros; apply eff_head_same|done..].
    + apply (lc_assign _ _ (A ++ B) (Pent x fn None None) (Pent x fn (Some (clock s)) None));
        try done; [unfold pend; cbn; rewrite ?E1, ?E2; solve_Permutation..|by right|by left|].
      intros d. by apply eff_head_same.
  - apply (lc_assign _ _ (A ++ B) (Pent x fn (Some (selector c)) None)
      (Pent x fn (Some (selector c)) (Some (list_head s (selector c))))); try done;
      [unfold pend; cbn; rewrite ?E1, ?E2; solve_Permutation..|by left|by right| |].
    + intros o [= <-]. apply lookup_insert_eq.
    + intros d. by apply eff_head_same.
  - apply (lc_push _ _ x fn (selector c)); try done.
    + unfold pend. cbn. rewrite E1, E2. solve_Permutation.
    + unfold list_head. cbn. by zcase.
    + intros d Hd. unfold list_head. cbn. by destruct (_ =? 0), (d =? 0).
  - apply (lc_assign _ _ (A ++ B) (Pent x fn (Some (selector c)) (Some old))
      (Pent x fn (Some (selector c)) None)); try done;
      [unfold pend; cbn; rewrite ?E1, ?E2; solve_Permutation..|by left|by left|].
    intros d. by apply eff_head_same.
  - apply lc_same; [unfold pend; cbn; by rewrite E1, E2| |done..].
    intros d. unfold eff_head, opc. cbn. rewrite H0.
    by rewrite list_lookup_insert_eq by by eapply lookup_lt_Some.
  - by apply lc_same.
  - apply lc_same; [unfold pend; cbn; rewrite E1, E2; unfold next_pc; by destruct (_ =? 0)| |done..].
    intros d. unfold eff_head. rewrite Hopc, Hown by done. unfold next_pc.
    destruct (Z.eqb_spec (list_head s c) 0) as [E|]; case_decide as Hd; try done;
      unfold list_head in *; by rewrite <-Hd.
  - apply (lc_pop _ _ c x cb); try done; [|by apply Hown| |].
    + unfold pend. cbn. rewrite E1, E2. unfold next_pc. by destruct (_ =? 0).
    + unfold eff_head. rewrite Hopc. unfold next_pc.
      destruct (Z.eqb_spec (next cb) 0) as [E|]; by rewrite decide_True.
    + intros d Hd. unfold eff_head. rewrite Hopc, Hown by done. unfold next_pc.
      destruct (Z.eqb_spec (next cb) 0); by rewrite !decide_False.
  - apply lc_same; [unfold pend; cbn; by rewrite E1, E2| |done..].
    intros d. unfold eff_head. rewrite Hopc, Hown by done. unfold list_head. cbn.
    destruct (c =? 0), (d =? 0); by case_decide.
  - apply lc_same; [unfold pend; cbn; by rewrite E1, E2| |done..].
    intros d. unfold eff_head at 2. by rewrite Hown.
  - apply (lc_new _ _ x fn); try done.
    + unfold pend. cbn. rewrite E1, E2. solve_Permutation.
    + intros d. by apply eff_head_same.
Qed.

Lemma pend_open s e c : e ∈ pend s -> p_sel e = Some c ->
  exists ctx, ctx ∈ open s /\ selector ctx = c.
Proof.
  unfold pend. rewrite list_elem_of_In, in_concat. intros (l & Hl & He) Hc.
  rewrite <-list_elem_of_In in Hl. rewrite <-list_elem_of_In in He.
  apply list_elem_of_fmap in Hl as (th & -> & [t Ht]%list_elem_of_lookup).
  assert (exists ctx, ctx ∈ open_th th /\ selector ctx = c) as (ctx & ? & ?).
  { unfold pend_th, open_th in *.
    destruct (tpc th) as [|[]|[] ?| | | | | | | | | | | |];
      try (by apply not_elem_of_nil in He); apply list_elem_of_singleton in He as ->;
      simplify_eq/=; eexists; (split; [by left|done]). }
  exists ctx. split; [|done]. apply open_elem. eauto.
Qed.

(** While a thread is about to push on a list, nobody walks that list. *)
Lemma eff_head_live s e c :
  ctr_inv s -> phase_inv s -> e ∈ pend s -> p_sel e = Some c ->
  (c = 0 \/ c = 1) /\ forall s', opc s' = opc s -> eff_head s' c = list_head s' c.
Proof.
  intros Hi Hp He Hc. destruct (pend_open s e c He Hc) as (ctx & Hctx & Hsel).
  assert (c = 0 \/ c = 1) as Hc01.
  { subst c. pose proof (ctr_sel s Hi) as Hs. rewrite Forall_forall in Hs. by apply Hs. }
  split; [done|]. intros s' Ho. destruct (ctr_inv_clock s Hi) as [Hk _].
  unfold eff_head, phase_inv in *. rewrite Ho.
  destruct (opc s); try done; case_decide as Hd; try done; destruct Hp as [-> H0];
    (replace (1 - clock s) with c in H0;
     [by destruct (secs_0 _ _ _ H0 Hctx)|
      destruct Hk as [Hk|Hk], Hc01 as [-> | ->]; rewrite Hk in *; done]).
Qed.

Definition assigned (s : rstate) (L : Z -> list Z) (c x : Z) : Prop :=
  x ∈ L c \/ exists e, e ∈ pend s /\ p_cbd e = x /\ p_sel e = Some c.

Section list_steps.
Context (s s' : rstate) (L : Z -> list Z) (HL : list_inv s L).

Lemma list_inv_same : pend s' = pend s ->
  (forall c, eff_head s' c = eff_head s c) -> cbs s' = cbs s -> called s' = called s ->
  regs s' = regs s -> list_inv s' L.
Proof.
  intros Hp He Hm Hc Hr. destruct HL as [H1 H2 H3 H4 H5].
  split; rewrite ?Hp, ?Hm, ?Hc, ?Hr; try done. intros c Hc'. rewrite He. by apply H1.
Qed.

Lemma list_inv_assign P e e' : pend s ≡ₚ e :: P -> pend s' ≡ₚ e' :: P ->
  p_cbd e' = p_cbd e -> p_fn e' = p_fn e ->
  cbs s' = cbs s \/ cbs s' = <[p_cbd e := RcuCb (p_fn e) (p_cbd e) (default 0 (p_old e'))]> (cbs s) ->
  (forall o, p_old e' = Some o -> cbs s' !! p_cbd e = Some (RcuCb (p_fn e) (p_cbd e) o)) ->
  (forall c, eff_head s' c = eff_head s c) -> called s' = called s -> regs s' = regs s ->
  list_inv s' L.
Proof.
  intros Hp Hp' Hcbd Hfn Hm Ho He Hc Hr. destruct HL as [H1 H2 H3 H4 H5].
  assert (forall y, y <> p_cbd e -> cbs s' !! y = cbs s !! y) as Hframe.
  { intros y Hy. destruct Hm as [-> | ->]; [done|]. by apply lookup_insert_ne. }
  rewrite Hp in H2. cbn in H2. apply NoDup_cons in H2 as [Hni Hnd].
  split; rewrite ?Hc, ?Hr; [| | |done|].
  - intros c Hc'. rewrite He. eapply chain_frame; [| |by apply H1]; [|done].
    intros y Hy. apply Hframe. intros ->. apply Hni.
    destruct Hc' as [-> | ->]; set_solver.
  - rewrite Hp'. cbn. rewrite Hcbd. by constructor.
  - intros y. rewrite Hp'. intros [->|Hy]%elem_of_cons.
    + rewrite Hcbd, Hfn. destruct (H3 e) as (? & ? & _); [rewrite Hp; by left|]. eauto.
    + destruct (H3 y) as (? & ? & Hold); [rewrite Hp; by right|]. split_and!; [done..|].
      intros o Hyo. rewrite Hframe; [by apply Hold|]. intros E. apply Hni. rewrite <-E.
      apply elem_of_app. left. by apply list_elem_of_fmap_2.
  - rewrite Hframe; [done|]. destruct (H3 e) as [? _]; [rewrite Hp; by left|done].
Qed.

Lemma list_inv_push x fn c :
  pend s ≡ₚ Pent x fn (Some c) (Some (list_head s c)) :: pend s' ->
  (c = 0 \/ c = 1) -> (forall u, opc u = opc s -> eff_head u c = list_head u c) ->
  opc s' = opc s -> list_head s' c = x ->
  (forall d, (c =? 0) <> (d =? 0) -> list_head s' d = list_head s d) -> cbs s' = cbs s ->
  called s' = called s -> regs s' = regs s ->
  list_inv s' (fun d => if d =? c then x :: L c else L d).
Proof.
  intros Hp Hc01 Hlive Ho Hx Hd Hm Hc Hr. destruct HL as [H1 H2 H3 H4 H5].
  destruct (H3 (Pent x fn (Some c) (Some (list_head s c)))) as (Hnz & [G HG] & Hold);
    [rewrite Hp; by left|]. cbn in Hnz, HG. specialize (Hold _ eq_refl). cbn in Hold.
  split; rewrite ?Hm, ?Hc, ?Hr; [| | |done|done].
  - intros d Hd01. zcase.
    + subst d. cbn. rewrite Hlive by done.
      split_and!; [done..|]. exists fn, (list_head s c), G. split_and!; [done..|].
      rewrite <-(Hlive s) by done. by apply H1.
    + rewrite (eff_head_same s s'); [by apply H1|done|]. apply Hd.
      destruct Hc01 as [-> | ->], Hd01 as [-> | ->]; done.
  - rewrite Hp in H2. cbn in H2. destruct Hc01 as [-> | ->]; cbn;
      (eapply NoDup_Permutation_proper; [|exact H2]; solve_Permutation).
  - intros e He. apply H3. rewrite Hp. by right.
Qed.

Lemma list_inv_pop c x cb :
  pend s' = pend s -> (c = 0 \/ c = 1) -> eff_head s c = x -> cbs s !! x = Some cb ->
  eff_head s' c = next cb -> (forall d, (c =? 0) <> (d =? 0) -> eff_head s' d = eff_head s d) ->
  cbs s' = delete x (cbs s) -> called s' = called s ++ [(callback cb, callback_arg cb)] ->
  regs s' = regs s -> x <> 0 ->
  exists l (G : gset nat), L c = x :: l /\ callback_arg cb = x /\ regs s !! x = Some (callback cb, G) /\
    x ∉ (called s).*2 /\ list_inv s' (fun d => if d =? c then l else L d).
Proof.
  intros Hp Hc01 Hx Hcb He Hd Hm Hc Hr Hnz. destruct HL as [H1 H2 H3 H4 H5].
  pose proof (H1 c Hc01) as Hch. rewrite Hx in Hch. clear Hx.
  destruct (L c) as [|y l] eqn:EL; [done|]. destruct Hch as (<- & _ & fn & n & G & E1 & E2 & Hch).
  simplify_eq. cbn in *.
  assert (NoDup ((p_cbd <$> pend s) ++ (if 0 =? c then l else L 0) ++ (if 1 =? c then l else L 1) ++
    x :: (called s).*2)) as H2'.
  { destruct Hc01 as [-> | ->]; cbn; rewrite EL in H2;
      (eapply NoDup_Permutation_proper; [|exact H2]; solve_Permutation). }
  rewrite <-!Permutation_middle in H2'. apply NoDup_cons in H2' as [Hni H2'].
  assert (forall y, y ∈ (p_cbd <$> pend s) ++ (if 0 =? c then l else L 0) ++
    (if 1 =? c then l else L 1) ++ (called s).*2 -> delete x (cbs s) !! y = cbs s !! y) as Hframe.
  { intros y Hy. apply lookup_delete_ne. by intros <-. }
  exists l, G. split_and!; try done.
  { intros Hin. apply Hni. rewrite !elem_of_app. auto. }
  split.
  - intros d Hd01. rewrite Hm, Hr. zcase.
    + subst d. rewrite He. cbn [next]. eapply chain_frame; [|done|done].
      intros y Hy. apply Hframe. destruct Hc01 as [-> | ->]; cbn; set_solver.
    + rewrite Hd by (destruct Hc01 as [-> | ->], Hd01 as [-> | ->]; done).
      eapply chain_frame; [|done|by apply H1].
      intros y Hy. apply Hframe. destruct Hc01 as [-> | ->], Hd01 as [-> | ->]; cbn; set_solver.
  - rewrite Hp, Hc, fmap_app. cbn. eapply NoDup_Permutation_proper;
      [|by apply NoDup_cons_2; [exact Hni|exact H2']]. solve_Permutation.
  - intros e Hin. rewrite Hp in Hin. destruct (H3 e Hin) as (? & ? & Hold). rewrite Hr, Hm.
    split_and!; [done..|]. intros o Ho. rewrite Hframe; [by apply Hold|].
    apply elem_of_app. left. by apply list_elem_of_fmap_2.
  - intros f y. rewrite Hc, Hr, elem_of_app, list_elem_of_singleton. intros [?|[= -> ->]]; eauto.
  - rewrite Hm. by rewrite lookup_delete_ne.
Qed.

Lemma list_inv_new x fn G :
  x <> 0 -> regs s !! x = None -> pend s' ≡ₚ Pent x fn None None :: pend s ->
  (forall c, eff_head s' c = eff_head s c) -> cbs s' = cbs s -> called s' = called s ->
  regs s' = <[x := (fn, G)]> (regs s) -> list_inv s' L.
Proof.
  intros Hnz Hx Hp He Hm Hc Hr. destruct HL as [H1 H2 H3 H4 H5].
  assert (forall y, is_Some (regs s !! y) -> y <> x /\ regs s' !! y = regs s !! y) as Hold.
  { intros y [r Hy]. assert (y <> x) as Hne by congruence. split; [done|]. rewrite Hr.
    by apply lookup_insert_ne. }
  assert (forall c y, c = 0 \/ c = 1 -> y ∈ L c -> is_Some (regs s !! y)) as HLr.
  { intros c y Hc01 Hy. eapply chain_regs; [by apply (H1 c)|done]. }
  split.
  - intros c Hc01. rewrite He, Hm. eapply chain_frame; [done| |by apply H1].
    intros y Hy. by apply Hold, (HLr c).
  - rewrite Hp, Hc. cbn. apply NoDup_cons. split; [|done].
    rewrite !elem_of_app. intros [(e & -> & He')%list_elem_of_fmap|[Hy|[Hy|Hy]]].
    + destruct (H3 e He') as (_ & [G' HG] & _). congruence.
    + destruct (HLr 0 x) as [? ?]; auto. congruence.
    + destruct (HLr 1 x) as [? ?]; auto. congruence.
    + apply list_elem_of_fmap in Hy as ([f y] & -> & Hy). destruct (H4 f y Hy) as [? ?]. simpl in *. congruence.
  - intros e. rewrite Hp. intros [->|Hin]%elem_of_cons.
    + cbn. split_and!; [done| |done]. exists G. by rewrite Hr, lookup_insert_eq.
    + destruct (H3 e Hin) as (? & [G' HG] & ?). rewrite Hm. split_and!; [done| |done].
      exists G'. by rewrite (proj2 (Hold (p_cbd e) (mk_is_Some _ _ HG))).
  - intros f y. rewrite Hc. intros Hin. destruct (H4 f y Hin) as [G' HG]. exists G'.
    by rewrite (proj2 (Hold y (mk_is_Some _ _ HG))).
  - by rewrite Hm.
Qed.
End list_steps.

Lemma list_inv_step s s' L :
  ctr_inv s -> phase_inv s -> list_inv s L -> list_change s s' ->
  exists L', list_inv s' L' /\ forall c x,
    assigned s' L' c x -> assigned s L c x \/ c = clock s.
Proof.
  intros Hi Hph HL Hch. pose proof (ctr_inv_clock s Hi) as [Hk _].
  destruct Hch as [Hp He Hm Hc Hr|P e e' Hp Hp' Hcbd Hfn Hsel Hm Ho He Hc Hr|x fn c Hp Ho Hx Hd Hm Hc Hr
    |c x cb Hp Ho Hcb He Hd Hm Hc Hr|x fn Hnz Hx Hp He Hm Hc Hr].
  - exists L. split; [by apply (list_inv_same s s')|]. intros c x Ha. left. unfold assigned in *.
    by rewrite Hp in Ha.
  - exists L. split; [by apply (list_inv_assign s s' L HL P e e')|].
    intros c x [?|(y & Hy & Hyx & Hyc)]; [by left; left|]. rewrite Hp' in Hy.
    apply elem_of_cons in Hy as [->|Hy].
    + destruct Hsel as [Hs|Hs]; [|right; congruence]. left. right. exists e.
      split_and!; [rewrite Hp; by left|congruence..].
    + left. right. exists y. split_and!; [rewrite Hp; by right|done..].
  - destruct (eff_head_live s (Pent x fn (Some c) (Some (list_head s c))) c) as [Hc01 Hlive];
      [done..|rewrite Hp; by left|done|].
    eexists. split; [by apply (list_inv_push s s' L HL x fn c)|]. intros d y Ha. left.
    assert (assigned s L c x) as Hax.
    { right. eexists. split; [rewrite Hp; by left|done]. }
    destruct Ha as [Hy|(e & ? & ? & ?)]; [|right; exists e; rewrite Hp; split_and!; [by right|done..]].
    zcase_in Hy; [subst d|by left]. apply elem_of_cons in Hy as [->|?]; [done|by left].
  - assert (c = 0 \/ c = 1) as Hc01.
    { unfold phase_inv in Hph. rewrite Ho in Hph. destruct Hph as [-> _]. lia. }
    assert (eff_head s c = x) as Hx by (unfold eff_head; rewrite Ho; by rewrite decide_True).
    assert (x <> 0) as Hnz by (intros ->; by rewrite (l_null s L HL) in Hcb).
    destruct (list_inv_pop s s' L HL c x cb) as (l & G & El & _ & _ & _ & HL'); [done..|].
    eexists. split; [exact HL'|]. intros d y [Hy|(e & ? & ? & ?)]; left.
    + left. zcase_in Hy; [subst d|done]. rewrite El. by right.
    + right. exists e. by rewrite <-Hp.
  - exists L. split; [by apply (list_inv_new s s' L HL x fn (open_secs s))|].
    intros c y [?|(e & He' & ? & ?)]; [by left; left|]. rewrite Hp in He'.
    apply elem_of_cons in He' as [->|?]; [done|]. left. right. by exists e.
Qed.

(** ** Grace periods *)

Definition post (p : pc) : option Z :=
  match p with SyncWait c | SyncHead c | SyncCb c _ | SyncClear c => Some c | _ => None end.

(** After the tick, the sections that a control block of the old list waits
    for are all counted by the old clock. *)
Definition guard_inv (s : rstate) (L : Z -> list Z) : Prop :=
  forall c x fn G, post (opc s) = Some c -> assigned s L c x -> regs s !! x = Some (fn, G) ->
    forall ctx, ctx ∈ open s -> sec ctx ∈ G -> selector ctx = c.

Definition regs_inv (s : rstate) : Prop :=
  forall x fn G i, regs s !! x = Some (fn, G) -> i ∈ G -> (i < nsec s)%nat.

(** The sections that were open when a thread called [rcu_synchronize]. *)
Definition snap_ok (s : rstate) (th : thread) : Prop :=
  (forall i, i ∈ snap th -> (i < nsec s)%nat) /\
  match tpc th with
  | SyncWait c => forall ctx, ctx ∈ open s -> sec ctx ∈ snap th -> selector ctx = c
  | SyncHead _ | SyncCb _ _ | SyncClear _ | SyncUnlock =>
      forall ctx, ctx ∈ open s -> sec ctx ∉ snap th
  | _ => True
  end.
Definition snap_inv (s : rstate) : Prop :=
  forall t th, threads s !! t = Some th -> snap_ok s th.

Definition nz_inv (s : rstate) : Prop :=
  forall t th c, threads s !! t = Some th -> tpc th <> SyncCb c 0.

Record rcu_inv (s : rstate) : Prop := {
  r_own : own_inv s;
  r_ctr : ctr_inv s;
  r_phase : phase_inv s;
  r_list : exists L, list_inv s L /\ guard_inv s L;
  r_regs : regs_inv s;
  r_snap : snap_inv s;
  r_nz : nz_inv s
}.

(** Every step leaves the open sections, but for a new one with a new number. *)
Definition opens_mono (s s' : rstate) : Prop :=
  (nsec s <= nsec s')%nat /\ forall ctx, ctx ∈ open s' -> ctx ∈ open s \/ sec ctx = nsec s.

Lemma open_change_mono s s' : open_change s s' -> opens_mono s s'.
Proof.
  intros [Hp Hn _|k Hp Hn _|c Hp Hn _]; (split; [lia|]); intros ctx; rewrite Hp.
  - by left.
  - intros [->|?]%elem_of_cons; [by right|by left].
  - left. by right.
Qed.

Lemma sync_change_mono s s' : sync_change s s' -> opens_mono s s'.
Proof.
  assert (same_ctr s s' -> opens_mono s s') as Hsame.
  { intros (_ & Hn & Ho). split; [lia|]. rewrite Ho. by left. }
  intros [_ Hch|_ _ Hs|_ _ Ho Hn _|c _ _ Hs _|c x _ _ Hs|c _ _ Hs]; try by apply Hsame.
  - by apply open_change_mono.
  - split; [lia|]. rewrite Ho. by left.
Qed.

Lemma list_change_regs s s' x r :
  list_change s s' -> regs s !! x = Some r -> regs s' !! x = Some r.
Proof.
  intros [Hp He Hm Hc Hr|P e e' Hp Hp' Hcbd Hfn Hsel Hm Ho He Hc Hr|y fn c Hp Ho Hx Hd Hm Hc Hr
    |c y cb Hp Ho Hcb He Hd Hm Hc Hr|y fn Hnz Hx Hp He Hm Hc Hr]; rewrite Hr; try done.
  intros Hs. rewrite lookup_insert_ne; [done|]. congruence.
Qed.

Lemma open_secs_lt s i : ctr_inv s -> i ∈ open_secs s -> (i < nsec s)%nat.
Proof.
  intros Hi. unfold open_secs. rewrite elem_of_list_to_set. intros (c & -> & Hc)%list_elem_of_fmap.
  pose proof (ctr_sec s Hi) as H. rewrite Forall_forall in H. by apply H.
Qed.

Lemma regs_inv_step s s' :
  ctr_inv s -> opens_mono s s' -> list_change s s' -> regs_inv s -> regs_inv s'.
Proof.
  intros Hi [Hn _] Hch Hr x fn G i Hx Hin.
  destruct Hch as [_ _ _ _ E|P e e' _ _ _ _ _ _ _ _ _ E|y fn' c _ _ _ _ _ _ E
    |c y cb _ _ _ _ _ _ _ E|y fn' _ _ _ _ _ _ E]; rewrite E in Hx.
  5: { apply lookup_insert_Some in Hx as [[-> [= -> <-]]|[_ Hx]];
       [apply open_secs_lt in Hin; [lia|done]|]. specialize (Hr x fn G i Hx Hin). lia. }
  all: specialize (Hr x fn G i Hx Hin); lia.
Qed.

Lemma assigned_regs s L c x :
  list_inv s L -> c = 0 \/ c = 1 -> assigned s L c x -> is_Some (regs s !! x).
Proof.
  intros HL Hc [Hx|(e & He & <- & _)].
  - eapply chain_regs; [by apply (l_chain s L HL c)|done].
  - destruct (l_pend s L HL e He) as (_ & [G HG] & _). eauto.
Qed.

Lemma phase_post s c : phase_inv s -> post (opc s) = Some c -> c = 1 - clock s.
Proof. unfold phase_inv. destruct (opc s); intros H [= ->]; tauto. Qed.

Lemma guard_inv_step s s' L L' :
  ctr_inv s -> phase_inv s -> regs_inv s -> list_inv s L -> guard_inv s L ->
  sync_change s s' -> list_change s s' ->
  (forall c x, assigned s' L' c x -> assigned s L c x \/ c = clock s) -> guard_inv s' L'.
Proof.
  intros Hi Hph Hri HL HG Hsc Hlc Has c x fn G Hpost Ha Hx ctx Hctx Hsec.
  destruct (ctr_inv_clock s Hi) as [Hk _].
  destruct (sync_change_mono s s' Hsc) as [_ Hmono].
  assert (post (opc s) = Some c -> selector ctx = c) as Hkeep.
  { intros Hp. pose proof (phase_post s c Hph Hp) as Hc.
    destruct (Has c x Ha) as [Ha'|]; [|lia].
    destruct (assigned_regs s L c x HL) as [[fn' G'] HG']; [lia|done|].
    assert (Some (fn, G) = Some (fn', G')) as [= -> ->]
      by (rewrite <-Hx; by apply (list_change_regs s s')).
    destruct (Hmono ctx Hctx) as [Hin|Hs]; [by apply (HG c x fn' G')|].
    specialize (Hri x fn' G' (sec ctx) HG' Hsec). lia. }
  destruct Hsc as [Ho _|_ Hq _|Hq Hq' Ho Hn Hc|d Ho Ho' Hs Hc|d y Ho Ho' Hs|d Ho Ho' Hs].
  - apply Hkeep. by rewrite <-Ho.
  - by destruct (opc s').
  - rewrite Hq' in Hpost. injection Hpost as <-. rewrite quiet_phase in Hph by done.
    rewrite Ho in Hctx. pose proof (secs_0 _ _ _ Hph Hctx) as Hne.
    pose proof (ctr_sel s Hi) as Hsel. rewrite Forall_forall in Hsel.
    destruct (Hsel ctx Hctx); lia.
  - apply Hkeep. rewrite Ho. by rewrite Ho' in Hpost.
  - apply Hkeep. rewrite Ho' in Hpost. assert (d = c) as ->.
    { unfold next_pc in Hpost. destruct (y =? 0); by injection Hpost. }
    by destruct Ho as [->|[? ->]].
  - by rewrite Ho' in Hpost.
Qed.

Lemma snap_ok_mono s s' th : opens_mono s s' -> snap_ok s th -> snap_ok s' th.
Proof.
  intros [Hn Hm] [Hlt Hs]. split; [intros i Hi; specialize (Hlt i Hi); lia|].
  destruct (tpc th); try done; intros ctx Hctx.
  1: intros Hin; destruct (Hm ctx Hctx) as [?|Heq]; [by apply Hs|]; specialize (Hlt _ Hin); lia.
  all: intros Hin; destruct (Hm ctx Hctx) as [Ho|Heq]; [by destruct (Hs ctx Ho)|];
    specialize (Hlt _ Hin); lia.
Qed.

Lemma snap_plain s' y n :
  (forall i, i ∈ snap y -> (i < n)%nat) -> (n <= nsec s')%nat ->
  post (tpc y) = None -> tpc y <> SyncUnlock -> snap_ok s' y.
Proof.
  intros Hlt Hn Hp Hu. split; [intros i Hi; specialize (Hlt i Hi); lia|]. by destruct (tpc y).
Qed.

Lemma snap_step_self s t th s' :
  own_inv s -> ctr_inv s -> phase_inv s -> opens_mono s s' ->
  threads s !! t = Some th -> snap_ok s th -> astep s t th s' ->
  forall y, threads s' !! t = Some y -> snap_ok s' y.
Proof.
  intros Ho Hi Hph Hm Ht Hs Hstep y Hy. pose proof (snap_ok_mono s s' th Hm Hs) as Hs'.
  pose proof (opc_owner s t th Ho Ht) as Hopc. destruct Hm as [Hn Hm].
  assert (forall z, (<[t:=z]> (threads s)) !! t = Some z) as Hins.
  { intros z. apply list_lookup_insert_eq. by eapply lookup_lt_Some. }
  destruct Hstep; cbn in Hy, Hn; try rewrite Hins in Hy; simplify_eq;
    try (eapply snap_plain; [apply Hs|exact Hn|done|done]); try done.
  - destruct k; (eapply snap_plain; [apply Hs|exact Hn|done|done]).
  - split; [apply Hs|]. cbn [tpc set_pc snap]. intros ctx Hctx _.
    rewrite (open_upd s _ t th (set_pc th (SyncWait (clock s))) Ht) in Hctx;
      [|done|unfold open_th; by rewrite H].
    unfold phase_inv in Hph. rewrite Hopc, H in Hph by by rewrite H.
    pose proof (secs_0 _ _ _ Hph Hctx) as Hne. destruct (ctr_inv_clock s Hi) as [Hk _].
    pose proof (ctr_sel s Hi) as Hsel. rewrite Forall_forall in Hsel. fold (clock s).
    destruct (Hsel ctx Hctx); lia.
  - destruct Hs as [Hlt Hs]. split; [done|]. cbn [tpc set_pc snap]. intros ctx Hctx Hin. rewrite H in Hs.
    rewrite (open_upd s _ t th (set_pc th (SyncHead c)) Ht) in Hctx;
      [|done|unfold open_th; by rewrite H].
    unfold phase_inv in Hph. rewrite Hopc, H in Hph by by rewrite H.
    destruct (ctr_inv_clock s Hi) as [Hk _].
    rewrite ctr_inv_ctr in H0 by (done || lia).
    by apply (secs_0 _ _ _ H0 Hctx), Hs.
  - unfold next_pc in *. destruct (list_head s c =? 0);
      (destruct Hs' as [Hlt Hs']; split; [done|]; by rewrite H in Hs').
  - unfold next_pc in *. destruct (next cb =? 0);
      (destruct Hs' as [Hlt Hs']; split; [done|]; by rewrite H in Hs').
  - destruct Hs' as [Hlt Hs']. split; [done|]. by rewrite H in Hs'.
  - split; [|done]. cbn. intros i Hin. by apply open_secs_lt.
Qed.

Lemma astep_threads s t th s' u :
  astep s t th s' -> u <> t -> threads s' !! u = threads s !! u.
Proof. intros Hstep Hu. destruct Hstep; cbn; rewrite ?list_lookup_insert_ne by congruence; done. Qed.

Lemma next_pc_nz c x d : next_pc c x <> SyncCb d 0.
Proof. unfold next_pc. by zcase; [|intros [=]]. Qed.

Lemma nz_inv_step s t th s' :
  nz_inv s -> threads s !! t = Some th -> astep s t th s' -> nz_inv s'.
Proof.
  intros Hnz Ht Hstep u y c Hu. destruct (decide (u = t)) as [->|Hne].
  - destruct Hstep; cbn in Hu;
      rewrite ?list_lookup_insert_eq in Hu by (by eapply lookup_lt_Some);
      simplify_eq; try done.
    all: try apply next_pc_nz; try (by apply (Hnz t)). by destruct k.
  - rewrite (astep_threads s t th s') in Hu by done. by apply (Hnz u).
Qed.

Lemma rcu_inv_step s s' : rcu_inv s -> rcu_step s s' -> rcu_inv s'.
Proof.
  intros [Ho Hi Hph (L & HL & HG) Hr Hsn Hnz] Hstep.
  apply rcu_step_astep in Hstep as [(t & th & Ht & Hstep) Hlen].
  pose proof (astep_sync s t th s' Ho Ht Hstep) as Hsc.
  pose proof (astep_list s t th s' Ho Ht Hstep) as Hlc.
  pose proof (sync_change_mono s s' Hsc) as Hm.
  destruct (list_inv_step s s' L Hi Hph HL Hlc) as (L' & HL' & Has).
  split.
  - by eapply own_inv_step.
  - by apply (ctr_inv_step s).
  - by apply (phase_inv_step s).
  - exists L'. split; [done|]. by apply (guard_inv_step s s' L).
  - by apply (regs_inv_step s).
  - intros u thu Hu. destruct (decide (u = t)) as [->|Hne].
    + apply (snap_step_self s t th s'); try done. by apply Hsn in Ht.
    + rewrite (astep_threads s t th s') in Hu by done. apply (snap_ok_mono s); [done|by apply (Hsn u)].
  - by eapply nz_inv_step.
Qed.

Lemma rcu_inv_init n : rcu_inv (rcu_init_state n).
Proof.
  assert (forall t th, threads (rcu_init_state n) !! t = Some th -> th = Thread Run [] ∅) as Hth.
  { intros t th Ht. cbn in Ht. by apply lookup_replicate in Ht as [-> _]. }
  assert (open (rcu_init_state n) = []) as Hop.
  { unfold open. cbn. clear. induction n as [|n IH]; [done|]. cbn. done. }
  assert (pend (rcu_init_state n) = []) as Hpe.
  { unfold pend. cbn. clear. induction n as [|n IH]; [done|]. cbn. done. }
  split.
  - intros t th Ht%Hth. subst th. by split.
  - split; rewrite ?Hop; [constructor|constructor|done|]. exists 0. split; [by left|done].
  - apply quiet_phase; [done|]. by rewrite Hop.
  - exists (fun _ => []). split.
    + split; rewrite ?Hpe; cbn.
      * intros c [-> | ->]; done.
      * constructor.
      * intros e He. by apply not_elem_of_nil in He.
      * intros fn x Hx. by apply not_elem_of_nil in Hx.
      * done.
    + intros c x fn G Hp. done.
  - intros x fn G i Hx. done.
  - intros t th Ht%Hth. subst th. split; [|done]. intros i Hx. by apply not_elem_of_empty in Hx.
  - intros t th c Ht%Hth. by subst th.
Qed.

Lemma rcu_reachable_inv n s : rtc rcu_step (rcu_init_state n) s -> rcu_inv s.
Proof.
  intros Hr. remember (rcu_init_state n) as s0 eqn:E. assert (rcu_inv s0) as Hi.
  { subst. apply rcu_inv_init. }
  clear E. induction Hr; [done|]. apply IHHr. by eapply rcu_inv_step.
Qed.

(** ** Claims *)

(** C1. Grace periods: whenever [rcu_synchronize] is about to call the callback
    of a control block, in any interleaving of any number of threads that read,
    register control blocks and synchronize, the block is still in memory and
    holds the function it was registered with, it was not called before, and no
    read section that was open when [rcu_call] was entered is still open. *)
Theorem rcu_grace_period (n : nat) (s : rstate) (t : nat) (th : thread) (c x : Z)
    (Hrun : rtc rcu_step (rcu_init_state n) s)
    (Hth : threads s !! t = Some th) (Hpc : tpc th = SyncCb c x) :
  exists (fn nx : Z) (guards : gset nat),
    cbs s !! x = Some (RcuCb fn x nx) /\ regs s !! x = Some (fn, guards) /\
    x ∉ (called s).*2 /\ forall ctx, ctx ∈ open s -> sec ctx ∉ guards.
Proof.
  apply rcu_reachable_inv in Hrun as [Ho Hi Hph (L & HL & HG) Hr _ Hnz].
  assert (opc s = SyncCb c x) as Hopc.
  { rewrite <-Hpc. apply (opc_owner s t); [done..|]. by rewrite Hpc. }
  pose proof Hph as Hph'. unfold phase_inv in Hph'. rewrite Hopc in Hph'. destruct Hph' as [Hc H0].
  destruct (ctr_inv_clock s Hi) as [Hk _].
  assert (c = 0 \/ c = 1) as Hc01 by lia.
  pose proof (l_chain s L HL c Hc01) as Hch. unfold eff_head in Hch.
  rewrite Hopc, decide_True in Hch by done.
  destruct (L c) as [|y l] eqn:El; [cbn in Hch; rewrite Hch in Hpc; by destruct (Hnz t th c Hth)|].
  destruct Hch as (<- & _ & fn & nx & G & Hcb & Hreg & _). exists fn, nx, G.
  split_and!; [done..| |].
  - pose proof (l_nodup s L HL) as Hnd. apply NoDup_app in Hnd as (_ & _ & Hnd).
    intros Hcalled. destruct Hc01 as [-> | ->].
    + rewrite El in Hnd. apply NoDup_app in Hnd as (_ & Hnd & _). destruct (Hnd x); [by left|].
      apply elem_of_app. by right.
    + apply NoDup_app in Hnd as (_ & _ & Hnd). rewrite El in Hnd.
      apply NoDup_app in Hnd as (_ & Hnd & _). by destruct (Hnd x); [left|].
  - intros ctx Hctx Hin. apply (secs_0 _ _ _ H0 Hctx). apply (HG c x fn G); [by rewrite Hopc| |done..].
    left. rewrite El. by left.
Qed.

(** [rcu_synchronize] waits for all readers: when it is about to return, no
    read section that was open when it was called is still open. *)
Theorem rcu_synchronize_waits (n : nat) (s : rstate) (t : nat) (th : thread)
    (Hrun : rtc rcu_step (rcu_init_state n) s)
    (Hth : threads s !! t = Some th) (Hpc : tpc th = SyncUnlock) :
  forall ctx, ctx ∈ open s -> sec ctx ∉ snap th.
Proof.
  apply rcu_reachable_inv in Hrun as [_ _ _ _ _ Hsn _].
  destruct (Hsn t th Hth) as [_ H]. by rewrite Hpc in H.
Qed.

(** Two threads: a reader enters, a control block is registered and
    [rcu_synchronize] waits until the reader leaves. *)
Definition steps (k : nat) (t : nat) : list (nat * option op) := replicate k (t, None).
Definition demo_sched : list (nat * option op) :=
  (0%nat, Some OpLock) :: steps 2 0 ++ (1%nat, Some (OpCall 100 7)) :: steps 6 1 ++
  (1%nat, Some OpSync) :: steps 5 1 ++ (0%nat, Some (OpUnlock 0)) :: steps 2 0.
Definition demo (k : nat) : rstate :=
  default (rcu_init_state 2) (exec (demo_sched ++ steps k 1) (rcu_init_state 2)).

Lemma demo_reachable k :
  is_Some (exec (demo_sched ++ steps k 1) (rcu_init_state 2)) ->
  rtc rcu_step (rcu_init_state 2) (demo k).
Proof. intros [s Hs]. unfold demo. rewrite Hs. by apply exec_rtc in Hs. Qed.

Lemma rcu_grace_period_witness :
  exists (fn nx : Z) (guards : gset nat),
    cbs (demo 2) !! 100 = Some (RcuCb fn 100 nx) /\ regs (demo 2) !! 100 = Some (fn, guards) /\
    100 ∉ (called (demo 2)).*2 /\ forall ctx, ctx ∈ open (demo 2) -> sec ctx ∉ guards.
Proof.
  apply (rcu_grace_period 2 (demo 2) 1 (Thread (SyncCb 0 100) [] {[ 0%nat ]}) 0 100).
  - apply demo_reachable. vm_compute. eexists. reflexivity.
  - vm_compute. reflexivity.
  - reflexivity.
Defined.

Lemma rcu_synchronize_waits_witness :
  threads (demo 4) !! 1%nat = Some (Thread SyncUnlock [] {[ 0%nat ]}) /\
  forall ctx, ctx ∈ open (demo 4) -> sec ctx ∉ snap (Thread SyncUnlock [] {[ 0%nat ]}).
Proof.
  split; [vm_compute; reflexivity|].
  apply (rcu_synchronize_waits 2 (demo 4) 1 (Thread SyncUnlock [] {[ 0%nat ]})).
  - apply demo_reachable. vm_compute. eexists. reflexivity.
  - vm_compute. reflexivity.
  - reflexivity.
Defined.

(** ** Termination of [rcu_synchronize] *)

Lemma solo_step t s s1 k :
  tstep t s = Some s1 -> open s1 = [] -> exec (steps (S k) t) s = exec (steps k t) s1.
Proof. intros H Ho. cbn [steps replicate exec]. rewrite H. mstep. by rewrite Ho. Qed.

Lemma tstep_sync t s th :
  threads s !! t = Some th -> tpc th = SyncLock \/ in_sync (tpc th) = true ->
  tstep t s = rcu_synchronize_step t th s.
Proof. intros Ht Hp. unfold tstep. rewrite Ht. mstep. destruct (tpc th); naive_solver. Qed.

Lemma sync_move t s th s0 p :
  threads s !! t = Some th -> tpc th = SyncLock \/ in_sync (tpc th) = true ->
  rcu_synchronize_step t th s = Some (set_thread s0 t (set_pc th p)) ->
  threads s0 = threads s -> pc_ctx p = [] -> open s = [] ->
  let s1 := set_thread s0 t (set_pc th p) in
  threads s1 !! t = Some (set_pc th p) /\ open s1 = [] /\
  forall k, exec (steps (S k) t) s = exec (steps k t) s1.
Proof.
  intros Ht Hp Hs Hts Hpc Ho s1.
  assert (open s1 = []) as Ho1.
  { rewrite (open_upd s _ t th (set_pc th p) Ht); [done|by rewrite <-Hts|].
    unfold open_th. cbn. rewrite Hpc. by destruct (tpc th); destruct Hp. }
  split_and!; [|done|].
  - cbn. apply list_lookup_insert_eq. rewrite Hts. by eapply lookup_lt_Some.
  - intros k. apply solo_step; [|done]. by rewrite (tstep_sync t s th).
Qed.

Definition called_of (s : rstate) (x : Z) : Z * Z := (from_option fst 0 (regs s !! x), x).

(** The loop over the list calls every callback once, in the order of the list. *)
Lemma rcu_drain t c l : forall s th x,
  threads s !! t = Some th -> tpc th = next_pc c x -> chain (cbs s) (regs s) x l -> NoDup l ->
  open s = [] ->
  exists s' th', exec (steps (length l) t) s = Some s' /\ threads s' !! t = Some th' /\
    tpc th' = SyncClear c /\ open s' = [] /\ called s' = called s ++ (called_of s <$> l) /\
    list_head s' c = list_head s c.
Proof.
  induction l as [|y l IH]; intros s th x Ht Hpc Hch Hnd Ho.
  - cbn in Hch. subst x. exists s, th. cbn. by rewrite app_nil_r.
  - destruct Hch as (-> & Hy & fn & nx & G & Hcb & Hr & Hch). apply NoDup_cons in Hnd as [Hni Hnd].
    set (th1 := set_pc th (next_pc c nx)).
    set (s1 := set_thread (set_cbs (log_call s (fn, y)) (delete y (cbs s))) t th1).
    assert (next_pc c y = SyncCb c y) as Hn by (unfold next_pc; by zcase).
    assert (tstep t s = Some s1) as Hs1.
    { rewrite (tstep_sync t s th) by (try right; by rewrite ?Hpc, ?Hn).
      unfold rcu_synchronize_step. rewrite Hpc, Hn, Hcb. done. }
    assert (open s1 = []) as Ho1.
    { rewrite (open_upd s _ t th th1 Ht); [done|done|].
      unfold open_th, th1. cbn. by rewrite Hpc, !next_pc_ctx. }
    destruct (IH s1 th1 nx) as (s' & th' & He & Ht' & Hpc' & Ho' & Hc' & Hl'); try done.
    + cbn. apply list_lookup_insert_eq. by eapply lookup_lt_Some.
    + cbn. eapply chain_frame; [|done|done]. intros z Hz. apply lookup_delete_ne. by intros <-.
    + exists s', th'. cbn [length]. rewrite (solo_step t s s1) by done. split_and!; try done.
      rewrite Hc'. cbn. rewrite <-app_assoc. unfold called_of at 2. by rewrite Hr.
Qed.

(** From the call to the loop over the list, and from its end to the return. *)
Lemma rcu_enter t s th :
  ctr_inv s -> phase_inv s -> threads s !! t = Some th -> tpc th = SyncLock ->
  rcu_sync_lock s = None -> open s = [] ->
  exists s' th', exec (steps 5 t) s = Some s' /\ threads s' !! t = Some th' /\
    tpc th' = next_pc (clock s) (list_head s (clock s)) /\ open s' = [] /\
    (forall c, list_head s' c = list_head s c) /\ cbs s' = cbs s /\ regs s' = regs s /\
    called s' = called s.
Proof.
  intros Hi Hph Ht Hpc Hf Ho. destruct (ctr_inv_clock s Hi) as [Hk _].
  assert (forall c, c = 0 \/ c = 1 -> RCU_GET_CTR (rcu_ctrl s) c = 0) as Hctr.
  { intros c Hc. rewrite ctr_inv_ctr by done. by rewrite Ho. }
  destruct (sync_move t s th (set_owner s (Some t)) SyncRead) as (Ht1 & Ho1 & E1); try done.
  { by left. } { unfold rcu_synchronize_step. by rewrite Hpc, Hf. }
  set (s1 := set_thread (set_owner s (Some t)) t _) in *.
  destruct (sync_move t s1 _ s1 (SyncCas (rcu_ctrl s)) Ht1) as (Ht2 & Ho2 & E2); try done.
  { by right. }
  { unfold rcu_synchronize_step. cbn [tpc set_pc]. change (rcu_ctrl s1) with (rcu_ctrl s).
    rewrite Hctr; [done|]. fold (clock s). destruct Hk as [-> | ->]; [by right|by left]. }
  set (s2 := set_thread s1 t _) in *.
  set (w := Z.lxor (rcu_ctrl s) (Z.shiftl 1 RCU_CLOCK_OFFSET)).
  destruct (sync_move t s2 _ (set_ctrl s2 w) (SyncWait (clock s)) Ht2) as (Ht3 & Ho3 & E3); try done.
  { by right. }
  { unfold rcu_synchronize_step. cbn [tpc set_pc]. change (rcu_ctrl s2) with (rcu_ctrl s).
    by rewrite Z.eqb_refl. }
  set (s3 := set_thread (set_ctrl s2 w) t _) in *.
  destruct (sync_move t s3 _ s3 (SyncHead (clock s)) Ht3) as (Ht4 & Ho4 & E4); try done.
  { by right. }
  { unfold rcu_synchronize_step. cbn [tpc set_pc]. unfold rcu_wait_for_readers.
    cbv zeta. change (rcu_ctrl s3) with w.
    destruct (ctr_inv_tick s s3) as [Hi3 _]; [done|congruence|done|done|].
    rewrite (ctr_inv_ctr s3 (clock s) Hi3 Hk : RCU_GET_CTR w (clock s) = _). by rewrite Ho3. }
  set (s4 := set_thread s3 t _) in *.
  destruct (sync_move t s4 _ s4 (next_pc (clock s) (list_head s (clock s))) Ht4)
    as (Ht5 & Ho5 & E5); try done.
  { by right. } { apply next_pc_ctx. }
  eexists _, _. split_and!; [by rewrite E1, E2, E3, E4, E5|exact Ht5|done..].
Qed.

Lemma rcu_leave t s th c :
  threads s !! t = Some th -> tpc th = SyncClear c -> open s = [] ->
  exists s', exec (steps 2 t) s = Some s' /\ tpc <$> threads s' !! t = Some Run /\
    list_head s' c = 0 /\ called s' = called s /\ rcu_sync_lock s' = None.
Proof.
  intros Ht Hpc Ho.
  destruct (sync_move t s th (set_head s c 0) SyncUnlock) as (Ht1 & Ho1 & E1); try done.
  { right. by rewrite Hpc. } { unfold rcu_synchronize_step. by rewrite Hpc. }
  set (s1 := set_thread (set_head s c 0) t _) in *.
  destruct (sync_move t s1 _ (set_owner s1 None) Run Ht1) as (Ht2 & Ho2 & E2); try done.
  { by right. }
  eexists. split_and!; [by rewrite E1, E2|by rewrite Ht2| |done..].
  unfold list_head. cbn. by zcase.
Qed.

(** C19. [rcu_synchronize] terminates: from every reachable state in which no
    read section is open and nobody synchronizes, a thread that calls it returns
    after finitely many steps of its own; it has then called every callback of
    the list of the old clock once, in the order of the list, emptied that list
    and given the lock back. *)
Theorem rcu_synchronize_completes (n : nat) (s : rstate) (t : nat) (th : thread)
    (Hrun : rtc rcu_step (rcu_init_state n) s)
    (Hth : threads s !! t = Some th) (Hpc : tpc th = SyncLock)
    (Hfree : rcu_sync_lock s = None) (Hopen : open s = []) :
  exists (k : nat) (s' : rstate) (l : list Z),
    exec (steps k t) s = Some s' /\ tpc <$> threads s' !! t = Some Run /\
    chain (cbs s) (regs s) (list_head s (clock s)) l /\
    called s' = called s ++ (called_of s <$> l) /\
    list_head s' (clock s) = 0 /\ rcu_sync_lock s' = None.
Proof.
  apply rcu_reachable_inv in Hrun as [Ho Hi Hph (L & HL & _) _ _ _].
  destruct (ctr_inv_clock s Hi) as [Hk E]. set (c := clock s) in *.
  assert (opc s = Run) as Hopc by (unfold opc; by rewrite Hfree).
  pose proof (l_chain s L HL c Hk) as Hch. unfold eff_head in Hch. rewrite Hopc in Hch.
  assert (NoDup (L c)) as Hnd.
  { pose proof (l_nodup s L HL) as Hnd. rewrite !NoDup_app in Hnd. destruct Hk as [-> | ->]; tauto. }
  destruct (rcu_enter t s th Hi Hph Hth Hpc Hfree Hopen) as (s5 & th5 & H5 & Ht5 & Hpc5 & Ho5 & Hf5).
  fold c in Hpc5. destruct Hf5 as (Hl5 & Hm5 & Hr5 & Hc5).
  destruct (rcu_drain t c (L c) s5 th5 (list_head s c)) as (s6 & th6 & H6 & Ht6 & Hpc6 & Ho6 & Hc6 & _);
    [done|done|by rewrite Hm5, Hr5|done|done|].
  destruct (rcu_leave t s6 th6 c Ht6 Hpc6 Ho6) as (s7 & H7 & Ht7 & Hl7 & Hc7 & Hf7).
  exists (5 + (length (L c) + 2))%nat, s7, (L c). split_and!; try done.
  - assert (forall a b, steps (a + b) t = steps a t ++ steps b t) as Hadd.
    { intros. apply replicate_add. }
    rewrite !Hadd, exec_app, H5. mstep. by rewrite exec_app, H6.
  - rewrite Hc7, Hc6, Hc5. unfold called_of. by rewrite Hr5.
Qed.

Lemma rcu_synchronize_completes_witness :
  let s := default (rcu_init_state 2)
    (exec ((1%nat, Some (OpCall 100 7)) :: steps 6 1 ++ [(1%nat, Some OpSync)]) (rcu_init_state 2)) in
  exists (k : nat) (s' : rstate) (l : list Z),
    exec (steps k 1) s = Some s' /\ tpc <$> threads s' !! 1%nat = Some Run /\
    chain (cbs s) (regs s) (list_head s (clock s)) l /\
    called s' = called s ++ (called_of s <$> l) /\
    list_head s' (clock s) = 0 /\ rcu_sync_lock s' = None.
Proof.
  intros s. apply (rcu_synchronize_completes 2 s 1 (Thread SyncLock [] ∅)).
  - eapply exec_rtc with (sched := (1%nat, Some (OpCall 100 7)) :: steps 6 1 ++ [(1%nat, Some OpSync)]).
    vm_compute. reflexivity.
  - vm_compute. reflexivity.
  - reflexivity.
  - vm_compute. reflexivity.
  - vm_compute. reflexivity.
Defined.
