(* ===== verification/RcuSlist.v ===== *)
(** * RCU singly linked lists: kern/rcu_slist.c, kern/include/rcu.h

    A list is the address of its first element and the [next] fields of the
    control blocks in memory, a map from addresses; NULL is 0.  A read through
    an address that is not in the map is an access outside of the list and the
    operation is [None].  [slist m h l] says that the elements of [l] are linked
    from [h] on.  The writers of a list are serialised by its user; the memory
    barriers of [rcu_assign_pointer] order its stores for readers, which see the
    list before or after the store that links or unlinks an element. *)
From S2P Require Import Prelude.

Abbreviation links := (gmap Z Z).

Definition rcu_slist_is_empty (head : Z) : Z := if head =? 0 then 0 else 1.

Definition rcu_slist_insert_head (m : links) (head elem : Z) : links * Z :=
  (<[elem := head]> m, elem).

Definition rcu_slist_insert_after (m : links) (elem1 elem2 : Z) : option links :=
  n ← m !! elem1;
  Some (<[elem1 := elem2]> (<[elem2 := n]> m)).

(** [do last = next; while ((next = last->next))]: the last element. *)
Fixpoint last_loop (fuel : nat) (m : links) (next : Z) : option Z :=
  match fuel with
  | O => None
  | S fuel =>
      let last := next in
      next ← m !! last;
      if next =? 0 then Some last else last_loop fuel m next
  end.

Definition rcu_slist_insert_tail (m : links) (head elem : Z) : option (links * Z) :=
  let m := <[elem := 0]> m in
  if head =? 0 then Some (m, elem)
  else
    last ← last_loop (size m) m head;
    Some (<[last := elem]> m, head).

Definition rcu_slist_remove_head (m : links) (head : Z) : option (Z * links * Z) :=
  if head =? 0 then Some (0, m, head)
  else
    n ← m !! head;
    Some (head, <[head := 0]> m, n).

(** The loop of [rcu_slist_remove]: the element before [elem], if any. *)
Fixpoint prev_loop (fuel : nat) (m : links) (next elem : Z) : option (option Z) :=
  match fuel with
  | O => None
  | S fuel =>
      let prev := next in
      next ← m !! prev;
      if next =? 0 then Some None
      else if next =? elem then Some (Some prev) else prev_loop fuel m next elem
  end.
Definition rcu_slist_remove (m : links) (head elem : Z) : option (Z * links) :=
  if head =? 0 then Some (0, m)
  else
    r ← prev_loop (size m) m head elem;
    match r with
    | None => Some (0, m)
    | Some prev =>
        n ← m !! elem;
        let m := <[prev := n]> m in
        Some (elem, <[elem := 0]> m)
    end.

(** The loop of [rcu_slist_remove_tail]: the last element and the one before. *)
Fixpoint tail_loop (fuel : nat) (m : links) (last next : Z) : option (Z * Z) :=
  match fuel with
  | O => None
  | S fuel =>
      let prev := last in
      let last := next in
      next ← m !! last;
      if next =? 0 then Some (prev, last) else tail_loop fuel m last next
  end.
Definition rcu_slist_remove_tail (m : links) (head : Z) : option (Z * links) :=
  if head =? 0 then Some (0, m)
  else
    '(prev, last) ← tail_loop (size m) m 0 head;
    Some (last, if prev =? 0 then m else <[prev := 0]> m).

(** ** Linked elements *)

Fixpoint slist (m : links) (h : Z) (l : list Z) : Prop :=
  match l with
  | [] => h = 0
  | x :: l => h = x /\ x <> 0 /\ exists n, m !! x = Some n /\ slist m n l
  end.

Lemma slist_frame m m' h l :
  (forall x, x ∈ l -> m' !! x = m !! x) -> slist m h l -> slist m' h l.
Proof.
  revert h. induction l as [|x l IH]; intros h Hm; [done|].
  intros (-> & Hx & n & E & Hl). split_and!; [done..|]. exists n. rewrite Hm by by left.
  split; [done|]. apply IH; [|done]. intros y Hy. apply Hm. by right.
Qed.

Lemma slist_insert_ne m h l x n : x ∉ l -> slist m h l -> slist (<[x := n]> m) h l.
Proof. intros Hx. apply slist_frame. intros y Hy. apply lookup_insert_ne. by intros ->. Qed.

Lemma slist_head_0 m h l : slist m h l -> h = 0 <-> l = [].
Proof. destruct l; cbn; [done|]. intros (-> & ? & _). done. Qed.

Lemma slist_NoDup m h l : slist m h l -> NoDup l.
Proof.
  assert (forall h l1 l2, slist m h l1 -> slist m h l2 -> l1 = l2) as Hdet.
  { intros h0 l1. revert h0. induction l1 as [|x l1 IH]; intros h0 [|y l2]; cbn; try done.
    - by intros -> (<- & ? & _).
    - intros (-> & ? & _) E. done.
    - intros (-> & Hx & n & E & H1) (<- & _ & n' & E' & H2). simplify_eq. f_equal. by eapply IH. }
  assert (forall l1 h0 x l2, slist m h0 (l1 ++ x :: l2) -> slist m x (x :: l2)) as Hsuf.
  { induction l1 as [|y l1 IH]; intros h0 x l2; cbn; [by intros (-> & H)|].
    intros (_ & _ & n & _ & H). by eapply IH. }
  revert h. induction l as [|x l IH]; intros h H; [constructor|]. cbn in H.
  destruct H as (-> & Hx & n & E & Hl). constructor; [|by eapply IH].
  intros (l1 & l2 & ->)%list_elem_of_split.
  pose proof (Hsuf l1 n x l2 Hl) as H2.
  assert (x :: l1 ++ x :: l2 = x :: l2) as Heq.
  { eapply (Hdet x); [cbn; eauto|done]. }
  apply (f_equal length) in Heq. cbn in Heq. rewrite length_app in Heq. cbn in Heq. lia.
Qed.

Lemma slist_size m h l : slist m h l -> (length l <= size m)%nat.
Proof.
  intros Hl. pose proof (slist_NoDup m h l Hl) as Hnd.
  rewrite <-size_dom, <-(size_list_to_set (C := gset Z) l Hnd). apply subseteq_size.
  intros x. rewrite elem_of_list_to_set, elem_of_dom. revert h Hl. clear Hnd.
  induction l as [|y l IH]; intros h; [by intros ? ?%not_elem_of_nil|].
  intros (-> & _ & n & E & Hl) [->|?]%elem_of_cons; [eauto|by eapply IH].
Qed.

Lemma last_loop_spec m z : forall l fuel h,
  slist m h (l ++ [z]) -> (length l < fuel)%nat -> last_loop fuel m h = Some z.
Proof.
  induction l as [|x l IH]; intros [|fuel] h Hl Hf; cbn in Hf; try lia; cbn [last_loop].
  - destruct Hl as (-> & Hz & n & E & ->). rewrite E. mstep. done.
  - destruct Hl as (-> & Hx & n & E & Hl). rewrite E. mstep. zcase.
    + subst n. apply slist_head_0 in Hl as [Hl _]. by destruct l; specialize (Hl eq_refl).
    + apply IH; [done|lia].
Qed.

Lemma tail_loop_spec m z : forall l fuel prev h,
  slist m h (l ++ [z]) -> (length l < fuel)%nat ->
  tail_loop fuel m prev h = Some (default prev (last l), z).
Proof.
  induction l as [|x l IH]; intros [|fuel] prev h Hl Hf; cbn in Hf; try lia; cbn [tail_loop].
  - destruct Hl as (-> & Hz & n & E & ->). rewrite E. mstep. done.
  - destruct Hl as (-> & Hx & n & E & Hl). rewrite E. mstep. zcase.
    + subst n. apply slist_head_0 in Hl as [Hl _]. by destruct l; specialize (Hl eq_refl).
    + rewrite (IH fuel x n Hl) by lia. f_equal. f_equal.
      destruct l as [|y l]; [done|]. rewrite last_cons_cons.
      by destruct (last (y :: l)) eqn:El; [|apply last_None in El].
Qed.

Lemma prev_loop_found m p e l2 : forall l fuel h,
  slist m h (l ++ p :: e :: l2) -> (length l < fuel)%nat ->
  prev_loop fuel m h e = Some (Some p).
Proof.
  induction l as [|x l IH]; intros [|fuel] h Hl Hf; cbn in Hf; try lia; cbn [prev_loop];
    pose proof (slist_NoDup _ _ _ Hl) as Hnd.
  - destruct Hl as (-> & Hp & n & E & (-> & He & _)). rewrite E. mstep.
    zcase; [done|]. by rewrite Z.eqb_refl.
  - destruct Hl as (-> & Hx & n & E & Hl). rewrite E. mstep. zcase.
    + subst n. apply slist_head_0 in Hl as [Hl _]. by destruct l; specialize (Hl eq_refl).
    + zcase; [|by apply IH; [|lia]]. subst n. exfalso.
      assert (exists r, l ++ p :: e :: l2 = e :: r) as [r Er].
      { destruct l; cbn in Hl; destruct Hl as (-> & _); eauto. }
      apply NoDup_cons in Hnd as [_ Hnd]. destruct l as [|y l]; cbn in Er; simplify_eq.
      * apply NoDup_cons in Hnd as [Hn _]. apply Hn. by left.
      * apply NoDup_cons in Hnd as [Hn _]. apply Hn. apply elem_of_app. right. right. by left.
Qed.

Lemma prev_loop_none m e : forall l fuel h,
  slist m h (h :: l) -> e ∉ l -> (length l < fuel)%nat -> prev_loop fuel m h e = Some None.
Proof.
  induction l as [|x l IH]; intros [|fuel] h Hl He Hf; cbn in Hf; try lia; cbn [prev_loop].
  - destruct Hl as (_ & Hh & n & E & ->). by rewrite E.
  - destruct Hl as (_ & Hh & n & E & Hl). rewrite E. mstep. apply not_elem_of_cons in He as [Hne He].
    assert (n = x) as -> by apply Hl. zcase; [destruct Hl; congruence|]. zcase; [congruence|].
    apply IH; [done..|lia].
Qed.

Lemma slist_app m h l1 x l2 :
  slist m h (l1 ++ x :: l2) -> slist m x (x :: l2).
Proof.
  revert h. induction l1 as [|y l1 IH]; intros h; cbn; [by intros (-> & H)|].
  intros (_ & _ & n & _ & H). by eapply IH.
Qed.

(** Replacing what follows [p]. *)
Lemma slist_relink m h l p n l2 l2' :
  slist m h (l ++ p :: l2) -> p ∉ l2' -> slist m n l2' ->
  slist (<[p := n]> m) h (l ++ p :: l2').
Proof.
  intros Hl Hp Hn. pose proof (slist_NoDup _ _ _ Hl) as Hnd. revert h Hl.
  induction l as [|x l IH]; intros h; cbn.
  - intros (-> & Hp0 & _). split_and!; [done..|]. exists n. split; [apply lookup_insert_eq|].
    by apply slist_insert_ne.
  - intros (-> & Hx & k & E & Hl). cbn in Hnd. apply NoDup_cons in Hnd as [Hxn Hnd].
    split_and!; [done..|]. exists k. rewrite lookup_insert_ne by set_solver.
    split; [done|]. by apply IH.
Qed.

(** ** What the operations do *)

Section ops.
Context (m : links) (h : Z) (l : list Z) (Hl : slist m h l).

Lemma insert_head_spec x : x <> 0 -> x ∉ l ->
  let '(m', h') := rcu_slist_insert_head m h x in slist m' h' (x :: l).
Proof.
  intros Hx Hn. cbn. split_and!; [done..|]. exists h. split; [apply lookup_insert_eq|].
  by apply slist_insert_ne.
Qed.

Lemma insert_after_spec l1 p l2 x : l = l1 ++ p :: l2 -> x <> 0 -> x ∉ l ->
  exists m', rcu_slist_insert_after m p x = Some m' /\ slist m' h (l1 ++ p :: x :: l2).
Proof.
  intros -> Hx Hn. pose proof (slist_app _ _ _ _ _ Hl) as (_ & Hp & n & E & Hl2).
  unfold rcu_slist_insert_after. rewrite E. mstep. eexists. split; [done|].
  assert (x ∉ l2 /\ x <> p) as [Hx2 Hxp] by set_solver.
  pose proof (slist_NoDup _ _ _ Hl) as Hnd. apply NoDup_app in Hnd as (_ & _ & [Hp2 _]%NoDup_cons).
  eapply slist_relink; [by apply slist_insert_ne; [|exact Hl]|set_solver|].
  cbn. split_and!; [done..|]. exists n. split; [apply lookup_insert_eq|]. by apply slist_insert_ne.
Qed.

Lemma insert_tail_spec x : x <> 0 -> x ∉ l ->
  exists m' h', rcu_slist_insert_tail m h x = Some (m', h') /\ slist m' h' (l ++ [x]).
Proof.
  intros Hx Hn. unfold rcu_slist_insert_tail. cbv zeta.
  destruct l as [|z l' _] using rev_ind.
  - cbn in Hl. subst h. eexists _, _. split; [done|]. cbn. split_and!; [done..|].
    exists 0. split; [apply lookup_insert_eq|done].
  - destruct (Z.eqb_spec h 0) as [->|Hh].
    { apply slist_head_0 in Hl as [Hl0 _]. by destruct l'; specialize (Hl0 eq_refl). }
    pose proof (slist_insert_ne _ _ _ x 0 Hn Hl) as Hl'.
    pose proof (slist_size _ _ _ Hl') as Hsz. rewrite length_app in Hsz. cbn in Hsz.
    rewrite (last_loop_spec _ z l') by (done || lia). mstep. eexists _, _. split; [done|].
    rewrite <-app_assoc. cbn. eapply (slist_relink _ _ _ _ _ []); [done|set_solver|].
    cbn. split_and!; [done..|]. exists 0. split; [apply lookup_insert_eq|done].
Qed.

Lemma remove_head_spec :
  exists m', rcu_slist_remove_head m h =
    Some (h, m', match l with [] => 0 | _ :: l' => default 0 (head l') end) /\
  slist m' (default 0 (head (tail l))) (tail l).
Proof.
  unfold rcu_slist_remove_head. destruct l as [|x l']; cbn in Hl; [subst h; by exists m|].
  destruct Hl as (-> & Hx & n & E & Hl'). zcase; [done|]. rewrite E. mstep.
  assert (n = default 0 (head l')) as -> by (destruct l'; cbn in Hl'; [done|apply Hl']).
  eexists. split; [done|]. cbn. apply slist_insert_ne; [|done].
  pose proof (slist_NoDup m x (x :: l')) as Hnd.
  assert (NoDup (x :: l')) as [? _]%NoDup_cons by (apply Hnd; cbn; eauto). done.
Qed.

(** An element that is not the first one is unlinked and returned. *)
Lemma remove_spec l1 p x l2 : l = l1 ++ p :: x :: l2 ->
  exists m', rcu_slist_remove m h x = Some (x, m') /\ slist m' h (l1 ++ p :: l2).
Proof.
  intros ->. unfold rcu_slist_remove. pose proof (slist_NoDup _ _ _ Hl) as Hnd.
  destruct (Z.eqb_spec h 0) as [->|Hh].
  { apply slist_head_0 in Hl as [Hl0 _]. by destruct l1; specialize (Hl0 eq_refl). }
  pose proof (slist_size _ _ _ Hl) as Hsz. rewrite length_app in Hsz. cbn in Hsz.
  rewrite (prev_loop_found m p x l2 l1) by (done || lia). mstep.
  pose proof (slist_app _ _ _ _ _ Hl) as (_ & Hp & ? & E & (-> & Hx & n & E' & Hl2)).
  rewrite E'. mstep. eexists. split; [done|].
  apply NoDup_app in Hnd as (_ & Hd & [Hp2 [Hx2 _]%NoDup_cons]%NoDup_cons).
  apply slist_insert_ne.
  { intros [Hin|[->|Hin]%elem_of_cons]%elem_of_app; [|set_solver|done].
    destruct (Hd x Hin). right. by left. }
  eapply slist_relink; [done|set_solver|done].
Qed.

(** The first element is never found: it stays in the list and the result is
    NULL. *)
Lemma remove_first_fails l' x : l = x :: l' -> rcu_slist_remove m h x = Some (0, m).
Proof.
  intros ->. pose proof (slist_NoDup _ _ _ Hl) as [Hx _]%NoDup_cons.
  pose proof (slist_size _ _ _ Hl) as Hsz. cbn in Hsz.
  assert (h = x) as -> by apply Hl. unfold rcu_slist_remove. zcase; [done|].
  rewrite (prev_loop_none m x l'); done.
Qed.

(** The last of two or more elements is unlinked. *)
Lemma remove_tail_spec l1 p x : l = l1 ++ [p; x] ->
  exists m', rcu_slist_remove_tail m h = Some (x, m') /\ slist m' h (l1 ++ [p]).
Proof.
  intros ->. unfold rcu_slist_remove_tail. destruct (Z.eqb_spec h 0) as [->|Hh].
  { apply slist_head_0 in Hl as [Hl0 _]. by destruct l1; specialize (Hl0 eq_refl). }
  pose proof (slist_size _ _ _ Hl) as Hsz. rewrite length_app in Hsz. cbn in Hsz.
  change [p; x] with ([p] ++ [x]) in Hl. rewrite app_assoc in Hl.
  rewrite (tail_loop_spec m x (l1 ++ [p])) by (done || (rewrite length_app; cbn; lia)). mstep.
  rewrite last_snoc. cbn. rewrite <-app_assoc in Hl. cbn in Hl.
  pose proof (slist_app _ _ _ _ _ Hl) as (_ & Hp & _). zcase; [done|].
  eexists. split; [done|]. eapply (slist_relink _ _ _ _ _ [x]); [done|set_solver|done].
Qed.
End ops.

(** The last element of a list of one is returned, and stays in the list. *)
Lemma remove_tail_single_fails m x :
  slist m x [x] -> rcu_slist_remove_tail m x = Some (x, m).
Proof.
  intros Hl. pose proof (slist_size _ _ _ Hl) as Hsz. cbn in Hsz.
  unfold rcu_slist_remove_tail. destruct Hl as (_ & Hx & n & E & ->). zcase; [done|].
  destruct (size m); [lia|]. cbn [tail_loop]. rewrite E. mstep. done.
Qed.

(** [rcu_slist_is_empty] says that a list is empty when it is not. *)
Lemma is_empty_inverted m h l :
  slist m h l -> rcu_slist_is_empty h = 1 <-> l <> [].
Proof.
  intros Hl. unfold rcu_slist_is_empty. rewrite <-(slist_head_0 m h l Hl). zcase; naive_solver.
Qed.
