(* ===== verification/Vralloc.v ===== *)
(** * Page allocator and memory regions: kern/vralloc.c, kern/include/buf.h,
    kern/include/vm/vm.h

    [geteblk] hands out buffers of 4 kB pages.  The pages come from vregions,
    blocks of dynmem memory with a bit map of their pages; dynmem is used
    through the interface [RegionAllocator].  Buffers and vregions are records
    in the kernel heap: an operation that allocates one takes the address that
    [kzalloc] returned, 0 when it failed.  Physical memory is a function from
    addresses to bytes.  Every entry point takes [vr_big_lock], so operations are
    sequential; [allocbuf] takes it twice in some cases, which is a result of its
    own. *)
From stdpp Require Import relations.
From S2P Require Import Prelude Mem Bitmap Dynmem Kobj Regions.

Definition MMU_PGSIZE_COARSE : Z := 4096.
Definition DMEM_BLOCK_SIZE : Z := DYNMEM_PAGE_SIZE / MMU_PGSIZE_COARSE.
Definition VREG_PCOUNT (byte_size : Z) : Z := byte_size / MMU_PGSIZE_COARSE.
Definition VREG_BYTESIZE (pcount : Z) : Z := u32 (pcount * MMU_PGSIZE_COARSE).
Definition ROUND_UP (n s : Z) : Z := u32 (u32 (n + s - 1) / s * s).

Definition VM_PROT_READ : Z := 0x1.
Definition VM_PROT_WRITE : Z := 0x2.
Definition VM_PROT_EXECUTE : Z := 0x4.
Definition VM_PROT_COW : Z := 0x8.
Definition VM_PROT_COR : Z := 0x10.

Definition MMU_AP_NANA : Z := 0x00.
Definition MMU_AP_RONA : Z := 0x05.
Definition MMU_AP_RWRO : Z := 0x02.
Definition MMU_AP_RWRW : Z := 0x03.
Definition MMU_AP_RORO : Z := 0x06.

Definition B_BUSY : Z := 0x8.

Record vregion := Vregion { kaddr : Z; count : Z; vr_size : Z; map : list Z }.

(** [struct buf] as far as memory regions use it; [b_vra] says that [vm_ops]
    is [vra_ops]. *)
Record buf := Buf {
  b_data : Z; b_bufsize : Z; b_bcount : Z;
  b_mmu : mmu_region; b_pt : Z; b_uflags : Z; b_flags : Z;
  b_vra : bool; allocator_data : Z; b_obj : kobj
}.
Definition set_b_mmu (b : buf) (m : mmu_region) : buf :=
  Buf (b_data b) (b_bufsize b) (b_bcount b) m (b_pt b) (b_uflags b) (b_flags b)
    (b_vra b) (allocator_data b) (b_obj b).
Definition set_b_uflags (b : buf) (v : Z) : buf :=
  Buf (b_data b) (b_bufsize b) (b_bcount b) (b_mmu b) (b_pt b) v (b_flags b)
    (b_vra b) (allocator_data b) (b_obj b).
Definition set_b_pt (b : buf) (v : Z) : buf :=
  Buf (b_data b) (b_bufsize b) (b_bcount b) (b_mmu b) v (b_uflags b) (b_flags b)
    (b_vra b) (allocator_data b) (b_obj b).
Definition set_b_obj (b : buf) (k : kobj) : buf :=
  Buf (b_data b) (b_bufsize b) (b_bcount b) (b_mmu b) (b_pt b) (b_uflags b) (b_flags b)
    (b_vra b) (allocator_data b) k.
Definition set_ap (m : mmu_region) (ap : Z) : mmu_region :=
  MmuRegion (r_vaddr m) (r_num_pages m) ap (r_control m) (r_paddr m).

(** [VM_PROT_COR] and [VM_PROT_COW] override the user's flags. *)
Definition updated_ap (usr_rw ap : Z) : Z :=
  let cowrd := Z.lor VM_PROT_COW VM_PROT_READ in
  if Z.land usr_rw VM_PROT_COR =? VM_PROT_COR then MMU_AP_NANA
  else if Z.land usr_rw cowrd =? cowrd then MMU_AP_RORO
  else if negb (Z.land usr_rw VM_PROT_WRITE =? 0) then MMU_AP_RWRW
  else if negb (Z.land usr_rw VM_PROT_READ =? 0) then
    if (ap =? MMU_AP_NANA) || (ap =? MMU_AP_RONA) then MMU_AP_RORO
    else if ap =? MMU_AP_RWNA then MMU_AP_RWRO
    else if ap =? MMU_AP_RWRO then ap
    else if ap =? MMU_AP_RWRW then MMU_AP_RWRO
    else ap
  else
    if (ap =? MMU_AP_NANA) || (ap =? MMU_AP_RONA) || (ap =? MMU_AP_RWNA) then ap
    else if (ap =? MMU_AP_RWRO) || (ap =? MMU_AP_RWRW) then MMU_AP_RWNA
    else if ap =? MMU_AP_RORO then MMU_AP_RONA
    else ap.
Definition vm_updateusr_ap (b : buf) : buf :=
  set_b_mmu b (set_ap (b_mmu b) (updated_ap (b_uflags b) (r_ap (b_mmu b)))).

(** Filling and copying physical memory. *)
Definition pmem : Type := Z -> Z.
Definition pset (m : pmem) (a v n : Z) : pmem :=
  fun x => if (a <=? x) && (x <? a + n) then v else m x.
Definition pcopy (m : pmem) (d s n : Z) : pmem :=
  fun x => if (d <=? x) && (x <? d + n) then m (s + (x - d)) else m x.

Record vr (D : Type) := Vr {
  vrlist : list (Z * vregion);   (* vrlist_head, with the address of each node *)
  vralloc_all : Z; vralloc_used : Z;
  bufs : gmap Z buf; phys : pmem; vdyn : D
}.
Arguments Vr {D}. Arguments vrlist {D}. Arguments vralloc_all {D}. Arguments vralloc_used {D}.
Arguments bufs {D}. Arguments phys {D}. Arguments vdyn {D}.

Section code.
Context {D : Type} `{RegionAllocator D}.
Implicit Types st : vr D.

Definition set_vrlist st (l : list (Z * vregion)) : vr D :=
  Vr l (vralloc_all st) (vralloc_used st) (bufs st) (phys st) (vdyn st).
Definition set_all st (v : Z) : vr D :=
  Vr (vrlist st) v (vralloc_used st) (bufs st) (phys st) (vdyn st).
Definition set_used st (v : Z) : vr D :=
  Vr (vrlist st) (vralloc_all st) v (bufs st) (phys st) (vdyn st).
Definition set_bufs st (m : gmap Z buf) : vr D :=
  Vr (vrlist st) (vralloc_all st) (vralloc_used st) m (phys st) (vdyn st).
Definition set_phys st (m : pmem) : vr D :=
  Vr (vrlist st) (vralloc_all st) (vralloc_used st) (bufs st) m (vdyn st).
Definition set_vdyn st (d : D) : vr D :=
  Vr (vrlist st) (vralloc_all st) (vralloc_used st) (bufs st) (phys st) d.

(** The new vregion, or NULL; [node] is the result of [kzalloc]. *)
Definition vreg_alloc_node st (node cnt : Z) : option (Z * vr D) :=
  let cnt := ROUND_UP cnt DMEM_BLOCK_SIZE in
  if node =? 0 then Some (0, st)
  else
    '(a, d) ← ra_alloc (vdyn st) (cnt / DMEM_BLOCK_SIZE);
    let st := set_vdyn st d in
    if a =? 0 then Some (0, st)
    else
      let vreg := Vregion a 0 (E2BITMAP_SIZE cnt * 4)
                    (replicate (Z.to_nat (E2BITMAP_SIZE cnt)) 0) in
      let st := set_vrlist st ((node, vreg) :: vrlist st) in
      Some (node, set_all st (u32 (vralloc_all st + VREG_BYTESIZE cnt))).

(** [None] is the panic; the buffer cache is initialised after this. *)
Definition vralloc_init st (node : Z) : option (vr D) :=
  '(vreg, st) ← vreg_alloc_node st node DMEM_BLOCK_SIZE;
  if vreg =? 0 then None else Some st.

(** [LIST_FOREACH]: the first vregion with enough pages in a row. *)
Fixpoint find_vreg (l : list (Z * vregion)) (pcount : Z) : option (option (Z * vregion * Z)) :=
  match l with
  | [] => Some None
  | (node, v) :: l =>
      r ← bitmap_block_search pcount (map v) (vr_size v);
      match r with
      | Some iblock => Some (Some (node, v, iblock))
      | None => find_vreg l pcount
      end
  end.

(** The vregion at an address, and its replacement. *)
Definition vreg_at (l : list (Z * vregion)) (node : Z) : option vregion :=
  snd <$> List.find (fun p => p.1 =? node) l.
Definition vreg_set (l : list (Z * vregion)) (node : Z) (v : vregion) : list (Z * vregion) :=
  (fun p => if p.1 =? node then (node, v) else p) <$> l.

(** The result is the vregion, 0 for NULL, and the block index; [nodes] are the
    results of [kzalloc] in [vreg_alloc_node], one for every retry. *)
Fixpoint get_iblocks (nodes : list Z) st (pcount : Z) : option (Z * Z * vr D) :=
  r ← find_vreg (vrlist st) pcount;
  match r with
  | Some (node, v, iblock) =>
      '(err, m) ← bitmap_block_update (map v) 1 iblock pcount (vr_size v);
      if negb (err =? 0) then None (* KASSERT *)
      else
        let v := Vregion (kaddr v) (u32 (count v + pcount)) (vr_size v) m in
        let st := set_vrlist st (vreg_set (vrlist st) node v) in
        Some (node, iblock, set_used st (u32 (vralloc_used st + VREG_BYTESIZE pcount)))
  | None =>
      match nodes with
      | [] => None
      | node :: nodes =>
          '(vreg, st) ← vreg_alloc_node st node pcount;
          if vreg =? 0 then Some (0, 0, st) else get_iblocks nodes st pcount
      end
  end.

Definition VREG_I2ADDR (v : vregion) (iblock : Z) : Z := u32 (kaddr v + VREG_BYTESIZE iblock).
Definition VREG_ADDR2I (v : vregion) (addr : Z) : Z := VREG_PCOUNT (u32 (addr - kaddr v)).

(** A new buffer at [bp], the result of [kzalloc]; 0 for NULL. *)
Definition geteblk (bp : Z) (nodes : list Z) st (size : Z) : option (Z * vr D) :=
  let orig_size := size in
  let size := memalign_size size MMU_PGSIZE_COARSE in
  let pcount := VREG_PCOUNT size in
  if bp =? 0 then Some (0, st)
  else
    '(node, iblock, st) ← get_iblocks nodes st pcount;
    if node =? 0 then Some (0, st)
    else
      v ← vreg_at (vrlist st) node;
      let a := VREG_I2ADDR v iblock in
      let b := Buf a (VREG_BYTESIZE pcount) orig_size (MmuRegion 0 pcount 0 0 a) 0
                 (Z.lor VM_PROT_READ VM_PROT_WRITE) B_BUSY true node kobj_init in
      let b := vm_updateusr_ap b in
      let st := set_bufs st (<[bp := b]> (bufs st)) in
      Some (bp, set_phys st (pset (phys st) (b_data b) 0 (b_bufsize b))).

(** The callback of [kobj_unref] for a buffer without references. *)
Definition vreg_free_callback st (bp : Z) : option (vr D) :=
  b ← bufs st !! bp;
  let node := allocator_data b in
  v ← vreg_at (vrlist st) node;
  let bcount := VREG_PCOUNT (b_bufsize b) in
  let iblock := VREG_ADDR2I v (b_data b) in
  '(err, m) ← bitmap_block_update (map v) 0 iblock bcount (vr_size v);
  if negb (err =? 0) then None (* KASSERT *)
  else
    let v := Vregion (kaddr v) (u32 (count v - bcount)) (vr_size v) m in
    let st := set_used st (u32 (vralloc_used st - b_bufsize b)) in
    st ← (if count v =? 0 then
            let st := set_vrlist st (filter (fun p => p.1 <> node) (vrlist st)) in
            let st := set_all st (u32 (vralloc_all st - vr_size v * (4 * 8) * MMU_PGSIZE_COARSE)) in
            d ← ra_free (vdyn st) (kaddr v);
            Some (set_vdyn st d)
          else Some (set_vrlist st (vreg_set (vrlist st) node v)));
    Some (set_bufs st (delete bp (bufs st))).

(** [None] is the panic. *)
Definition vrref st (bp : Z) : option (vr D) :=
  b ← bufs st !! bp;
  let '(err, k) := kobj_ref (b_obj b) in
  if negb (err =? 0) then None
  else Some (set_bufs st (<[bp := set_b_obj b k]> (bufs st))).

Definition vrfree st (bp : Z) : option (vr D) :=
  b ← bufs st !! bp;
  let '(freed, k) := kobj_unref (b_obj b) in
  let st := set_bufs st (<[bp := set_b_obj b k]> (bufs st)) in
  if freed then vreg_free_callback st bp else Some st.

Definition vr_rclone (nbp : Z) (nodes : list Z) st (old_region : Z) : option (Z * vr D) :=
  old ← bufs st !! old_region;
  let rsize := b_bufsize old in
  '(new_region, st) ← geteblk nbp nodes st rsize;
  if new_region =? 0 then Some (0, st)
  else
    new ← bufs st !! new_region;
    old ← bufs st !! old_region;
    let st := set_phys st (pcopy (phys st) (b_data new) (b_data old) rsize) in
    let new := set_b_uflags new
                 (Z.land (Z.lnot (Z.lor VM_PROT_COW VM_PROT_COR)) (b_uflags old)) in
    let new := set_b_mmu new (MmuRegion (r_vaddr (b_mmu old)) (r_num_pages (b_mmu new))
                 (r_ap (b_mmu old)) (r_control (b_mmu old)) (r_paddr (b_mmu new))) in
    let new := vm_updateusr_ap (set_b_pt new (b_pt old)) in
    Some (new_region, set_bufs st (<[new_region := new]> (bufs st))).

(** The error code and the buffer for [*out]. *)
Definition clone2vr (nbp : Z) (nodes : list Z) st (src : Z) : option (Z * Z * vr D) :=
  s ← bufs st !! src;
  if b_vra s then
    '(new, st) ← vr_rclone nbp nodes st src;
    if new =? 0 then Some (- ENOMEM, 0, st) else Some (0, new, st)
  else if negb (b_data s =? 0) then
    let rsize := b_bufsize s in
    '(new, st) ← geteblk nbp nodes st rsize;
    if new =? 0 then Some (- ENOMEM, 0, st)
    else
      n ← bufs st !! new;
      let st := set_phys st (pcopy (phys st) (r_paddr (b_mmu n)) (b_data s) rsize) in
      let n := set_b_uflags n (Z.lor VM_PROT_READ VM_PROT_WRITE) in
      let n := set_b_mmu n (MmuRegion (r_vaddr (b_mmu s)) (r_num_pages (b_mmu n))
                 (r_ap (b_mmu s)) (r_control (b_mmu s)) (r_paddr (b_mmu n))) in
      let n := vm_updateusr_ap (set_b_pt n (b_pt s)) in
      Some (0, new, set_bufs st (<[new := n]> (bufs st)))
  else Some (- ENOTSUP, 0, st).

(** [allocbuf]: [Deadlock] is the second [mtx_lock] of [vr_big_lock], inside of
    [get_iblocks]. *)
Inductive alloc_res := Done (st : vr D) | Deadlock.
Definition allocbuf st (bp size : Z) : option alloc_res :=
  b ← bufs st !! bp;
  let orig_size := size in
  let new_size := memalign_size size MMU_PGSIZE_COARSE in
  let pcount := VREG_PCOUNT new_size in
  let bcount := VREG_PCOUNT (b_bufsize b) in
  let blockdiff := u32 (pcount - bcount) in
  let node := allocator_data b in
  if b_bufsize b =? new_size then Some (Done st)
  else
    let finish st :=
      let m := b_mmu b in
      let m := MmuRegion (r_vaddr m) pcount (r_ap m) (r_control m) (r_paddr m) in
      Some (Done (set_bufs st (<[bp := Buf (b_data b) new_size orig_size m (b_pt b) (b_uflags b)
                                   (b_flags b) (b_vra b) node (b_obj b)]> (bufs st)))) in
    if 0 <? blockdiff then
      v ← vreg_at (vrlist st) node;
      let sblock := u32 (VREG_ADDR2I v (b_data b) + bcount) in
      r ← bitmap_block_search_s sblock blockdiff (map v) (vr_size v);
      match r with
      | None => finish st
      | Some iblock =>
          if iblock =? sblock + 1 then
            '(err, m) ← bitmap_block_update (map v) 1 sblock blockdiff (vr_size v);
            if negb (err =? 0) then None
            else finish (set_vrlist st (vreg_set (vrlist st) node
                           (Vregion (kaddr v) (count v) (vr_size v) m)))
          else Some Deadlock
      end
    else finish st.
End code.

(** ** Used pages of a bit map *)

Definition used_bit (bm : list Z) (q : Z) : Z :=
  if decide (bit bm q = Some true) then 1 else 0.
Definition bits_set (bm : list Z) : Z :=
  zsum (used_bit bm) (seqZ 0 (32 * Z.of_nat (length bm))).

Lemma bits_set_split bm a n : 0 <= a -> 0 <= n -> a + n <= 32 * Z.of_nat (length bm) ->
  bits_set bm = zsum (used_bit bm) (seqZ 0 a) + zsum (used_bit bm) (seqZ a n) +
    zsum (used_bit bm) (seqZ (a + n) (32 * Z.of_nat (length bm) - (a + n))).
Proof.
  intros Ha Hn Hl. unfold bits_set.
  replace (32 * Z.of_nat (length bm)) with (a + (n + (32 * Z.of_nat (length bm) - (a + n)))) at 1 by lia.
  rewrite !seqZ_app, !zsum_app by lia. rewrite !Z.add_0_l. lia.
Qed.

Lemma used_bit_const bm a n c : (forall q, a <= q < a + n -> used_bit bm q = c) -> 0 <= n ->
  zsum (used_bit bm) (seqZ a n) = c * n.
Proof.
  intros H Hn. rewrite (zsum_const _ _ c); [rewrite length_seqZ, Z2Nat.id; done|].
  intros q [? ?]%elem_of_seqZ. apply H. lia.
Qed.

(** Marking a clear block, and clearing a marked one. *)
Lemma bits_set_range bm bm' a n (v : bool) :
  range_set bm bm' a (a + n) v -> 0 <= a -> 0 <= n -> a + n <= 32 * Z.of_nat (length bm) ->
  (forall q, a <= q < a + n -> bit bm q = Some (negb v)) ->
  bits_set bm' = bits_set bm + if v then n else - n.
Proof.
  intros (_ & Hlen & Hb) Ha Hn Hl Hold.
  rewrite (bits_set_split bm a n), (bits_set_split bm' a n) by (rewrite ?Hlen; lia). rewrite Hlen.
  assert (forall b k, 0 <= b -> (forall q, b <= q < b + k -> q < a \/ a + n <= q) ->
    zsum (used_bit bm') (seqZ b k) = zsum (used_bit bm) (seqZ b k)) as Hout.
  { intros b k Hb0 Hq. apply zsum_ext. intros q [? ?]%elem_of_seqZ. unfold used_bit. rewrite Hb by lia.
    destruct (Z.leb_spec a q), (Z.ltb_spec q (a + n)); try done.
    exfalso. destruct (Hq q); lia. }
  rewrite (Hout 0 a), (Hout (a + n) _) by (intros; lia).
  rewrite (used_bit_const bm a n (if v then 0 else 1)), (used_bit_const bm' a n (if v then 1 else 0));
    [destruct v; lia| |done| |done].
  - intros q Hq. unfold used_bit. rewrite Hb by lia.
    destruct (Z.leb_spec a q), (Z.ltb_spec q (a + n)); try lia. simpl.
    destruct v; case_decide; congruence.
  - intros q Hq. unfold used_bit. rewrite (Hold q Hq). destruct v; by case_decide.
Qed.

Lemma bits_set_pos bm q : bit bm q = Some true -> 0 < bits_set bm.
Proof.
  intros Hq. pose proof (bit_Some_range _ _ _ Hq). unfold bits_set.
  assert (used_bit bm q = 1) by (unfold used_bit; by rewrite decide_True).
  enough (used_bit bm q <= zsum (used_bit bm) (seqZ 0 (32 * Z.of_nat (length bm)))) by lia.
  apply zsum_elem; [|apply elem_of_seqZ; lia].
  intros y _. unfold used_bit. case_decide; lia.
Qed.

Lemma bits_set_zero n : bits_set (replicate n 0) = 0.
Proof.
  unfold bits_set. rewrite (zsum_const _ _ 0); [lia|]. intros q _. unfold used_bit.
  rewrite decide_False; [done|]. unfold bit. destruct ((replicate n 0).[q / 32]) as [w|] eqn:E; [|done].
  unfold rd in E. case_match; [done|]. apply lookup_replicate in E as [-> _]. simpl.
  by rewrite Z.bits_0.
Qed.

(** ** Invariant *)

(** A vregion of [n] megabytes, inside of the live region at its address. *)
Definition vreg_ok (L : gmap Z Z) (v : vregion) : Prop :=
  exists n, 0 < n /\ L !! kaddr v = Some n /\ 0 < kaddr v /\ kaddr v + n * 2 ^ 20 < 2 ^ 32 /\
    Z.of_nat (length (map v)) = 8 * n /\ vr_size v = 32 * n /\ bitmap_wf (map v) /\
    count v = bits_set (map v).

Definition disjoint_regions (L : gmap Z Z) : Prop :=
  forall a n b k, L !! a = Some n -> L !! b = Some k -> a <> b ->
    a + n * 2 ^ 20 <= b \/ b + k * 2 ^ 20 <= a.

(** The buffer is block [[i, i + n)] of the vregion. *)
Definition in_block (b : buf) (v : vregion) (i n : Z) : Prop :=
  b_data b = kaddr v + 4096 * i /\ b_bufsize b = 4096 * n /\ 0 <= i /\ 0 < n /\
  i + n <= 32 * Z.of_nat (length (map v)).

(** The update of a bit map does not continue after its first word; blocks
    that cross it are not recorded. *)
Definition no_straddle (i n : Z) : Prop := 32 <= i \/ i + n <= 32.

Definition alive (k : kobj) : Prop :=
  0 < ko_refcount k < 2 ^ 31 - 1 /\ Z.land (ko_flags k) KO_FLAG_DYING = 0.

Definition covers (b : buf) (a : Z) : Prop := b_data b <= a < b_data b + b_bufsize b.

Definition buf_ok (l : list (Z * vregion)) (b : buf) : Prop :=
  exists v i n, (allocator_data b, v) ∈ l /\ in_block b v i n /\ no_straddle i n /\
    (forall q, i <= q < i + n -> bit (map v) q = Some true) /\ alive (b_obj b).

Record vr_inv {D} `{RegionAllocator D} (st : vr D) (L : gmap Z Z) : Prop := {
  vi_rep : ra_rep (vdyn st) L;
  vi_regions : disjoint_regions L;
  vi_pos : forall a n, L !! a = Some n -> 0 < n;
  vi_nodup : NoDup (vrlist st).*1;
  vi_node : forall node v, (node, v) ∈ vrlist st -> node <> 0 /\ vreg_ok L v;
  vi_kaddr : forall n1 v1 n2 v2, (n1, v1) ∈ vrlist st -> (n2, v2) ∈ vrlist st ->
    kaddr v1 = kaddr v2 -> n1 = n2;
  vi_buf : forall bp b, bufs st !! bp = Some b -> b_vra b = true -> buf_ok (vrlist st) b;
  vi_disj : forall p1 b1 p2 b2 a, bufs st !! p1 = Some b1 -> bufs st !! p2 = Some b2 ->
    b_vra b1 = true -> b_vra b2 = true -> covers b1 a -> covers b2 a -> p1 = p2;
  vi_bits : forall node v q, (node, v) ∈ vrlist st -> bit (map v) q = Some true ->
    exists bp b, bufs st !! bp = Some b /\ b_vra b = true /\ allocator_data b = node /\
      covers b (kaddr v + 4096 * q)
}.

(** ** The list of vregions *)

Lemma vreg_at_elem l node v :
  NoDup l.*1 -> (node, v) ∈ l -> vreg_at l node = Some v.
Proof.
  induction l as [|[k w] l IH]; cbn; [by intros ? ?%not_elem_of_nil|].
  intros [Hk Hnd]%NoDup_cons Hin. unfold vreg_at. cbn [List.find fst].
  apply elem_of_cons in Hin as [[= -> ->]|Hin].
  - by rewrite Z.eqb_refl.
  - destruct (Z.eqb_spec k node) as [->|]; [|by apply IH].
    destruct Hk. by apply (list_elem_of_fmap_2 fst) in Hin.
Qed.

Lemma vreg_set_elem l node v' k w :
  (k, w) ∈ vreg_set l node v' <->
  k <> node /\ (k, w) ∈ l \/ k = node /\ w = v' /\ node ∈ l.*1.
Proof.
  unfold vreg_set. rewrite list_elem_of_fmap. split.
  - intros ([k' w'] & E & Hin). cbn in E. destruct (Z.eqb_spec k' node) as [->|]; simplify_eq.
    + right. split_and!; [done..|]. by apply (list_elem_of_fmap_2 fst) in Hin.
    + by left.
  - intros [[Hne Hin]|(-> & -> & Hin)].
    + exists (k, w). cbn. by destruct (Z.eqb_spec k node).
    + apply list_elem_of_fmap in Hin as ([k' w'] & -> & Hin). exists (k', w'). cbn.
      by rewrite Z.eqb_refl.
Qed.

Lemma vreg_set_fst l node v' : (vreg_set l node v').*1 = l.*1.
Proof.
  unfold vreg_set. rewrite <-list_fmap_compose. apply list_fmap_ext. intros i [k w] _. cbn.
  by destruct (Z.eqb_spec k node) as [->|].
Qed.

Lemma vreg_unique (l : list (Z * vregion)) node v v' :
  NoDup l.*1 -> (node, v) ∈ l -> (node, v') ∈ l -> v = v'.
Proof. intros Hnd H1%(vreg_at_elem _ _ _ Hnd) H2%(vreg_at_elem _ _ _ Hnd). congruence. Qed.

Lemma find_vreg_spec l p : 0 < p ->
  (forall node v, (node, v) ∈ l -> bitmap_wf (map v) /\ vr_size v = 4 * Z.of_nat (length (map v))) ->
  match find_vreg l p with
  | None => False
  | Some None => True
  | Some (Some (node, v, i)) => (node, v) ∈ l /\ block_free (map v) i p
  end.
Proof.
  intros Hp. induction l as [|[node v] l IH]; intros Hl; [done|]. cbn [find_vreg].
  destruct (Hl node v ltac:(by left)) as [Hwf Hsz].
  pose proof (search_s_spec (map v) 0 p (vr_size v) Hwf Hp ltac:(lia) ltac:(lia)) as Hs.
  unfold bitmap_block_search. rewrite Hsz in *. specialize (Hs ltac:(dlia)).
  destruct (bitmap_block_search_s _ _ _ _) as [[r|]|]; mstep; [| |done].
  - split; [by left|apply Hs].
  - specialize (IH (fun k w Hin => Hl k w (list_elem_of_further _ _ _ Hin))).
    destruct (find_vreg l p) as [[[[k w] i]|]|]; try done. destruct IH. split; [by right|done].
Qed.

Section proofs.
Context {D : Type} `{RegionAllocator D}.
Implicit Types st : vr D.

Lemma vreg_shape L v : vreg_ok L v ->
  bitmap_wf (map v) /\ vr_size v = 4 * Z.of_nat (length (map v)).
Proof. intros (n & _ & _ & _ & _ & Hl & Hs & Hwf & _). split; [done|lia]. Qed.

Lemma vreg_ok_mono L L' v : vreg_ok L v -> L' !! kaddr v = L !! kaddr v -> vreg_ok L' v.
Proof. intros (n & ? & ? & Hr) E. exists n. rewrite E. split_and!; (done || apply Hr). Qed.

Definition zero_vregion (a n : Z) : vregion :=
  Vregion a 0 (32 * n) (replicate (Z.to_nat (8 * n)) 0).

Lemma zero_vregion_ok L a n : L !! a = Some n -> 0 < n -> 0 < a -> a + n * 2 ^ 20 < 2 ^ 32 ->
  vreg_ok L (zero_vregion a n).
Proof.
  intros Hl Hn Ha Hb. exists n. cbn. split_and!; try done.
  - rewrite length_replicate. lia.
  - split; [apply Forall_replicate; lia|]. rewrite length_replicate. lia.
  - by rewrite bits_set_zero.
Qed.

(** A vregion that the provider has just allocated. *)
Lemma vr_inv_new st st' L a n node :
  vr_inv st L -> ra_rep (vdyn st') (<[a := n]> L) ->
  0 < n -> 0 < a -> a + n * 2 ^ 20 < 2 ^ 32 ->
  (forall b k, L !! b = Some k -> b + k * 2 ^ 20 <= a \/ a + n * 2 ^ 20 <= b) ->
  node <> 0 -> node ∉ (vrlist st).*1 ->
  vrlist st' = (node, zero_vregion a n) :: vrlist st -> bufs st' = bufs st ->
  vr_inv st' (<[a := n]> L).
Proof.
  intros [Hrep Hreg Hpos Hnd Hnode Hka Hbuf Hdis Hbits] Hrep' Hn Ha Hend Hsep Hn0 Hfresh El Eb.
  assert (L !! a = None) as HaL.
  { destruct (L !! a) as [k|] eqn:E; [|done]. pose proof (Hpos a k E). destruct (Hsep a k E); lia. }
  split; rewrite ?El, ?Eb; try done.
  - intros b k c j Hb Hc Hne. rewrite !lookup_insert_Some in *.
    destruct Hb as [[-> ->]|[? Hb]], Hc as [[-> ->]|[? Hc]]; [done| | |by apply (Hreg b k c j)].
    + destruct (Hsep c j Hc); auto.
    + destruct (Hsep b k Hb); auto.
  - intros b k. rewrite lookup_insert_Some. intros [[-> ->]|[_ Hb]]; [done|by apply (Hpos b)].
  - cbn. by constructor.
  - intros k w [[= -> ->]|Hin]%elem_of_cons.
    + split; [done|]. apply zero_vregion_ok; try done. apply lookup_insert_eq.
    + destruct (Hnode k w Hin) as [? Hok]. split; [done|]. apply (vreg_ok_mono L); [done|].
      apply lookup_insert_ne. intros ->. destruct Hok as (? & _ & ? & _). congruence.
  - intros n1 v1 n2 v2 [[= -> ->]|H1]%elem_of_cons [[= -> ->]|H2]%elem_of_cons E;
      [done| | |by apply (Hka n1 v1 n2 v2)].
    + destruct (Hnode n2 v2 H2) as [_ (? & _ & ? & _)]. cbn in E. congruence.
    + destruct (Hnode n1 v1 H1) as [_ (? & _ & ? & _)]. cbn in E. congruence.
  - intros bp b Hb Hv. destruct (Hbuf bp b Hb Hv) as (v & i & k & Hin & Hr).
    exists v, i, k. split; [by right|done].
  - intros k w q [[= -> ->]|Hin]%elem_of_cons Hq; [|by apply (Hbits k w q)].
    exfalso. apply bits_set_pos in Hq. cbn in Hq. rewrite bits_set_zero in Hq. lia.
Qed.

(** The new node has at least [p] pages, none of them used. *)
Lemma vreg_alloc_node_spec st L node p :
  vr_inv st L -> 0 < p <= 2 ^ 20 - 256 -> node = 0 \/ node ∉ (vrlist st).*1 ->
  exists r st' L', vreg_alloc_node st node p = Some (r, st') /\ vr_inv st' L' /\
    bufs st' = bufs st /\ phys st' = phys st /\ vralloc_used st' = vralloc_used st /\
    (r = 0 /\ vrlist st' = vrlist st \/
     r = node /\ exists a n, p <= 256 * n /\ n * 2 ^ 20 < 2 ^ 32 /\ node <> 0 /\
       vrlist st' = (node, zero_vregion a n) :: vrlist st).
Proof.
  intros Hi Hp Hnode. unfold vreg_alloc_node.
  assert (ROUND_UP p DMEM_BLOCK_SIZE = (p + 255) / 256 * 256) as ->.
  { unfold ROUND_UP. change DMEM_BLOCK_SIZE with 256. rewrite (u32_small (p + 256 - 1)), u32_small by dlia.
    f_equal. f_equal. lia. }
  set (n := (p + 255) / 256). change DMEM_BLOCK_SIZE with 256.
  assert (0 < n /\ p <= 256 * n /\ n <= 2 ^ 12) as (Hn & Hpn & Hn12) by (subst n; dlia).
  destruct (Z.eqb_spec node 0) as [->|Hn0].
  { exists 0, st, L. split_and!; auto. }
  rewrite Z.div_mul by lia.
  destruct (ra_alloc_spec (vdyn st) L n (vi_rep st L Hi) Hn) as (a & d & -> & Ha). mstep.
  destruct Ha as [[-> Hrep]|(Ha & Hend & Hrep & Hsep)].
  { cbn [Z.eqb]. exists 0, (set_vdyn st d), L. split_and!; auto.
    destruct Hi. by split. }
  zcase; [lia|].
  assert (E2BITMAP_SIZE (n * 256) = 8 * n) as -> by (unfold E2BITMAP_SIZE; dlia).
  replace (8 * n * 4) with (32 * n) by lia. eexists _, _, (<[a := n]> L). split; [done|].
  split_and!; [|done..|].
  - eapply (vr_inv_new st _ L a n node); try done. by destruct Hnode.
  - right. split; [done|]. exists a, n. split_and!; [done|lia|done|done].
Qed.

Lemma u32_count v L p : vreg_ok L v -> 0 <= p -> bits_set (map v) + p < 2 ^ 32 ->
  u32 (count v + p) = bits_set (map v) + p.
Proof.
  intros (n & _ & _ & _ & _ & _ & _ & _ & ->) Hp Hb. apply u32_small.
  assert (0 <= bits_set (map v)); [|lia]. apply zsum_nonneg. intros q _. unfold used_bit. case_decide; lia.
Qed.

Lemma bits_set_le bm : 0 <= bits_set bm <= 32 * Z.of_nat (length bm).
Proof.
  unfold bits_set. rewrite <-(Z2Nat.id (32 * Z.of_nat (length bm))) at 3 by lia.
  rewrite <-length_seqZ with (m := 0). generalize (seqZ 0 (32 * Z.of_nat (length bm))) as l.
  induction l as [|q l IH]; cbn [zsum length]; [lia|]. unfold used_bit at 1 3. case_decide; lia.
Qed.

(** Addresses of a vregion belong to no buffer of another vregion. *)
Lemma same_vregion st L node1 v1 node2 v2 a :
  vr_inv st L -> (node1, v1) ∈ vrlist st -> (node2, v2) ∈ vrlist st ->
  kaddr v1 <= a < kaddr v1 + 4096 * (32 * Z.of_nat (length (map v1))) ->
  kaddr v2 <= a < kaddr v2 + 4096 * (32 * Z.of_nat (length (map v2))) ->
  node1 = node2 /\ v1 = v2.
Proof.
  intros Hi H1 H2 Ha1 Ha2. assert (node1 = node2) as <-.
  { apply (vi_kaddr st L Hi node1 v1 node2 v2 H1 H2).
    destruct (vi_node st L Hi _ _ H1) as [_ (n1 & ? & E1 & _ & _ & Hl1 & _)].
    destruct (vi_node st L Hi _ _ H2) as [_ (n2 & ? & E2 & _ & _ & Hl2 & _)].
    destruct (decide (kaddr v1 = kaddr v2)) as [|Hne]; [done|].
    destruct (vi_regions st L Hi _ _ _ _ E1 E2 Hne); lia. }
  split; [done|]. by eapply vreg_unique; [apply (vi_nodup st L Hi)|..].
Qed.

Lemma free_not_covered st L node v i n bp b a :
  vr_inv st L -> (node, v) ∈ vrlist st -> 0 < n -> block_free (map v) i n ->
  bufs st !! bp = Some b -> b_vra b = true ->
  kaddr v + 4096 * i <= a < kaddr v + 4096 * (i + n) -> ~ covers b a.
Proof.
  intros Hi Hin Hn Hf Hb Hv Ha Hc. pose proof (block_free_range _ _ _ Hn Hf).
  destruct (vi_buf st L Hi bp b Hb Hv) as (w & j & k & Hin' & (Ed & Es & Hj & Hk & Hjk) & _ & Hbits & _).
  unfold covers in Hc. destruct (same_vregion st L node v (allocator_data b) w a) as [_ <-]; try done; try lia.
  set (q := (a - kaddr v) / 4096).
  assert (i <= q < i + n /\ j <= q < j + k) as [Hq1 Hq2] by (subst q; dlia).
  pose proof (Hf q Hq1). pose proof (Hbits q Hq2). congruence.
Qed.

Lemma vr_inv_mark st st' L node v i p m bp b :
  vr_inv st L -> (node, v) ∈ vrlist st -> 0 < p -> block_free (map v) i p -> no_straddle i p ->
  range_set (map v) m i (i + p) true -> bufs st !! bp = None ->
  allocator_data b = node -> in_block b v i p -> alive (b_obj b) -> b_vra b = true ->
  vrlist st' = vreg_set (vrlist st) node (Vregion (kaddr v) (u32 (count v + p)) (vr_size v) m) ->
  bufs st' = <[bp := b]> (bufs st) -> vdyn st' = vdyn st -> vr_inv st' L.
Proof.
  intros Hi Hin Hp Hf Hns Hset Hbp Hal Hblk Hko Hvra El Eb Ed.
  pose proof (block_free_range _ _ _ Hp Hf) as [Hi0 Hip].
  pose proof Hi as [Hrep Hreg Hpos Hnd Hnode Hka Hbuf Hdis Hbits].
  pose proof Hset as (Hwf' & Hlen & Hbit). destruct (Hnode node v Hin) as [Hn0 Hok].
  set (v' := Vregion _ _ _ m) in El.
  assert (forall k w, (k, w) ∈ vrlist st' -> k <> node /\ (k, w) ∈ vrlist st \/ k = node /\ w = v') as Hel.
  { intros k w. rewrite El. intros [?|(-> & -> & _)]%vreg_set_elem; auto. }
  assert ((node, v') ∈ vrlist st') as Hin'.
  { rewrite El. apply vreg_set_elem. right. split_and!; [done..|].
    by apply (list_elem_of_fmap_2 fst) in Hin. }
  assert (vreg_ok L v') as Hok'.
  { destruct Hok as (n & Hn & HL & Hk & He & Hl & Hs & Hwf & Hc). exists n. cbn. rewrite Hlen.
    split_and!; try done. pose proof (bits_set_range _ _ _ _ _ Hset Hi0 ltac:(lia) Hip Hf) as Hbs.
    cbn in Hbs. pose proof (bits_set_le m). rewrite Hlen in *. rewrite Hc, u32_small; lia. }
  split; rewrite ?Eb, ?Ed; try done.
  - by rewrite El, vreg_set_fst.
  - intros k w [[? Hw]|[-> ->]]%Hel; [by apply Hnode|done].
  - intros k1 w1 k2 w2 [[? Hw1]|[-> ->]]%Hel [[? Hw2]|[-> ->]]%Hel E; [by apply (Hka k1 w1 k2 w2)| | |done].
    + apply (Hka k1 w1 node v); done.
    + apply (Hka node v k2 w2); done.
  - intros bp' b'. rewrite lookup_insert_Some. intros [[<- <-]|[Hne Hb']] Hv'.
    + exists v', i, p. rewrite Hal. destruct Hblk as (? & ? & ? & ? & ?).
      split_and!; [done| |done| |done]; [by split_and!; cbn; rewrite ?Hlen|].
      intros q Hq. cbn. rewrite Hbit by lia. by destruct (Z.leb_spec i q), (Z.ltb_spec q (i + p)); (lia || simpl).
    + destruct (Hbuf bp' b' Hb' Hv') as (w & j & k & Hw & Hbl & Hns' & Hbs & Hko').
      destruct (decide (allocator_data b' = node)) as [E|Hne'].
      * rewrite E in *. assert (w = v) as -> by (by eapply vreg_unique).
        exists v', j, k. rewrite E. destruct Hbl as (? & ? & ? & ? & ?).
        split_and!; [done| |done| |done]; [by split_and!; cbn; rewrite ?Hlen|].
        intros q Hq. cbn. rewrite Hbit by lia. rewrite Hbs by done. by case_match.
      * exists w, j, k. split_and!; [|done..|]. rewrite El. apply vreg_set_elem. by left. done.
  - intros p1 b1 p2 b2 a. rewrite !lookup_insert_Some.
    destruct Hblk as (E1 & E2 & _).
    intros [[<- <-]|[Hne1 Hb1]] [[<- <-]|[Hne2 Hb2]] Hv1 Hv2 Hc1 Hc2; [done| | |by apply (Hdis p1 b1 p2 b2 a)].
    + exfalso. eapply (free_not_covered st L node v i p p2 b2 a); try done. unfold covers in Hc1. lia.
    + exfalso. eapply (free_not_covered st L node v i p p1 b1 a); try done. unfold covers in Hc2. lia.
  - intros k w q [[Hne Hw]|[-> ->]]%Hel Hq.
    + destruct (Hbits k w q Hw Hq) as (bp' & b' & Hb' & ? & ? & ?). exists bp', b'.
      rewrite lookup_insert_ne; [done|congruence].
    + cbn in Hq |- *. pose proof (bit_Some_range _ _ _ Hq). rewrite Hbit in Hq by lia.
      destruct (Z.leb_spec i q), (Z.ltb_spec q (i + p)); cbn in Hq;
        try (destruct (Hbits node v q Hin Hq) as (bp' & b' & Hb' & ? & ? & ?); exists bp', b';
             rewrite lookup_insert_ne; [done|congruence]).
      exists bp, b. rewrite lookup_insert_eq. destruct Hblk as (E1 & E2 & _).
      split_and!; try done; unfold covers; lia.
Qed.

(** ** Allocation *)

(** [get_iblocks] after the search: block [i] of vregion [node] is marked. *)
Definition marked st (node i p : Z) (st' : vr D) : Prop :=
  exists v m, (node, v) ∈ vrlist st /\ block_free (map v) i p /\
    range_set (map v) m i (update_end i p) true /\
    vrlist st' = vreg_set (vrlist st) node (Vregion (kaddr v) (u32 (count v + p)) (vr_size v) m) /\
    bufs st' = bufs st /\ phys st' = phys st /\ vdyn st' = vdyn st.

Lemma get_iblocks_found nodes st L p : vr_inv st L -> 0 < p ->
  match find_vreg (vrlist st) p with
  | None => False
  | Some None => True
  | Some (Some (node, v, i)) => node <> 0 /\ exists st', get_iblocks nodes st p = Some (node, i, st') /\
      marked st node i p st'
  end.
Proof.
  intros Hi Hp. pose proof (find_vreg_spec (vrlist st) p Hp) as Hf.
  assert (forall node v, (node, v) ∈ vrlist st ->
    bitmap_wf (map v) /\ vr_size v = 4 * Z.of_nat (length (map v))) as Hsh.
  { intros node v Hin. destruct (vi_node st L Hi node v Hin) as [_ Hok]. by apply (vreg_shape L). }
  specialize (Hf Hsh). destruct (find_vreg (vrlist st) p) as [[[[node v] i]|]|] eqn:E; try done.
  destruct Hf as [Hin Hf]. destruct (vi_node st L Hi node v Hin) as [Hn0 (n & Hn & _ & Hk & Hend & Hl & Hs & Hwf & _)].
  pose proof (block_free_range _ _ _ Hp Hf) as [Hi0 Hip]. split; [done|].
  destruct (block_update_spec (map v) 1 i p (vr_size v)) as (m & Hu & Hset); [done|lia..|].
  destruct nodes; cbn [get_iblocks]; rewrite E; mstep; rewrite Hu; mstep; cbn [Z.eqb negb];
    (eexists; split; [done|]); by exists v, m.
Qed.

(** One more vregion is enough: a search in it succeeds. *)
Lemma find_vreg_new a n p l node : 0 < p <= 256 * n -> n * 2 ^ 20 < 2 ^ 32 ->
  exists i, find_vreg ((node, zero_vregion a n) :: l) p = Some (Some (node, zero_vregion a n, i)).
Proof.
  intros Hp Hn. cbn [find_vreg zero_vregion map vr_size].
  set (bm := replicate (Z.to_nat (8 * n)) 0).
  assert (Z.of_nat (length bm) = 8 * n) as Hl by (subst bm; rewrite length_replicate; lia).
  assert (bitmap_wf bm) as Hwf.
  { split; [|lia]. apply Forall_replicate. lia. }
  assert (forall q, 0 <= q < 256 * n -> bit bm q = Some false) as Hz.
  { intros q Hq. unfold bit. destruct (rd_is_Some bm (q / 32)) as [w Hw]; [dlia|]. rewrite Hw. mstep.
    unfold rd in Hw. case_match; [done|]. apply lookup_replicate in Hw as [-> _]. by rewrite Z.bits_0. }
  pose proof (search_s_spec bm 0 p (32 * n) Hwf) as Hs. unfold bitmap_block_search.
  specialize (Hs ltac:(lia) ltac:(lia) ltac:(lia) ltac:(dlia)).
  destruct (bitmap_block_search_s 0 p bm (32 * n)) as [[i|]|]; mstep; [eauto| |done].
  exfalso. destruct (Hs 0) as [H1 H2]; [lia| |dlia|].
  - intros q Hq. apply Hz. lia.
  - destruct (decide (p = 256 * n)) as [->|]; [apply H2; dlia|apply H1, Hz; lia].
Qed.

Lemma get_iblocks_spec st L node p :
  vr_inv st L -> 0 < p <= 2 ^ 20 - 256 -> node = 0 \/ node ∉ (vrlist st).*1 ->
  exists nd i st' st1 L', get_iblocks [node] st p = Some (nd, i, st') /\ vr_inv st1 L' /\
    bufs st1 = bufs st /\ phys st1 = phys st /\ (nd = 0 /\ st' = st1 \/ nd <> 0 /\ marked st1 nd i p st').
Proof.
  intros Hi Hp Hnode. pose proof (get_iblocks_found [node] st L p Hi ltac:(lia)) as Hf.
  destruct (find_vreg (vrlist st) p) as [[[[nd v] i]|]|] eqn:E; [| |done].
  { destruct Hf as (? & st' & Hg & Hm). exists nd, i, st', st, L. split_and!; auto. }
  cbn [get_iblocks]. rewrite E. mstep.
  destruct (vreg_alloc_node_spec st L node p Hi Hp Hnode) as (r & st1 & L' & -> & Hi' & Hb & Hph & _ & Hr).
  mstep. destruct Hr as [[-> Hl]|(-> & a & n & Hpn & Hn & Hn0 & Hl)].
  { cbn [Z.eqb]. exists 0, 0, st1, st1, L'. split_and!; auto. }
  zcase; [done|]. pose proof (get_iblocks_found [] st1 L' p Hi' ltac:(lia)) as Hf'.
  destruct (find_vreg_new a n p (vrlist st) node) as [i Hi1]; [lia|done|].
  rewrite <-Hl in Hi1. rewrite Hi1 in Hf'. destruct Hf' as (_ & st' & Hg & Hm).
  exists node, i, st', st1, L'. split_and!; auto.
Qed.

(** What [geteblk] promises for a new buffer [b]. *)
Definition new_buffer st (b : buf) (size : Z) (st' : vr D) : Prop :=
  b_bcount b = size /\ size <= b_bufsize b < size + 4096 /\ b_vra b = true /\
  b_uflags b = Z.lor VM_PROT_READ VM_PROT_WRITE /\ alive (b_obj b) /\
  (forall a, phys st' a = if decide (covers b a) then 0 else phys st a) /\
  (forall bp' b' a, bufs st !! bp' = Some b' -> b_vra b' = true -> covers b a -> ~ covers b' a).

Lemma geteblk_spec st L bp node size :
  vr_inv st L -> bp <> 0 -> bufs st !! bp = None -> node = 0 \/ node ∉ (vrlist st).*1 ->
  0 < size -> size + 2 ^ 20 <= 2 ^ 32 ->
  exists r st', geteblk bp [node] st size = Some (r, st') /\
    (r = 0 /\ (exists L', vr_inv st' L') /\ bufs st' = bufs st /\ phys st' = phys st \/
     r = bp /\ exists b i n, bufs st' = <[bp := b]> (bufs st) /\ b_bufsize b = 4096 * n /\
       new_buffer st b size st' /\ (exists v, (allocator_data b, v) ∈ vrlist st' /\ in_block b v i n) /\
       (no_straddle i n -> exists L', vr_inv st' L')).
Proof.
  intros Hi Hbp Hfresh Hnode Hsz Hfit. unfold geteblk.
  destruct (memalign_size_spec size 12) as [Hm1 Hm2]; [lia..|]. change (2 ^ 12) with 4096 in *.
  change MMU_PGSIZE_COARSE with 4096. unfold VREG_PCOUNT. change MMU_PGSIZE_COARSE with 4096.
  set (p := memalign_size size 4096 / 4096). assert (memalign_size size 4096 = 4096 * p) as Hps by (subst p; dlia).
  zcase; [done|].
  destruct (get_iblocks_spec st L node p Hi ltac:(lia) Hnode) as
    (nd & i & st' & st1 & L' & Hg & Hi1 & Hb1 & Hph1 & Hr). rewrite Hg. mstep.
  destruct Hr as [[-> ->]|[Hn0 (v & m & Hin & Hf & Hset & El & Eb & Eph & Ed)]].
  { cbn [Z.eqb]. exists 0, st1. split; [done|]. left. eauto. }
  zcase; [done|]. pose proof (block_free_range (map v) i p ltac:(lia) Hf) as [Hi0 Hip].
  pose proof Hset as (_ & Hlen & _).
  set (v' := Vregion (kaddr v) (u32 (count v + p)) (vr_size v) m) in *.
  assert ((nd, v') ∈ vrlist st') as Hin'.
  { rewrite El. apply vreg_set_elem. right. split_and!; [done..|]. by apply (list_elem_of_fmap_2 fst) in Hin. }
  assert (NoDup (vrlist st').*1) as Hnd' by (rewrite El, vreg_set_fst; apply (vi_nodup _ _ Hi1)).
  rewrite (vreg_at_elem (vrlist st') nd v' Hnd' Hin'). mstep.
  destruct (vi_node _ _ Hi1 nd v Hin) as [_ (mb & Hmb & _ & Hk & Hend & Hl & _)].
  assert (VREG_I2ADDR v' i = kaddr v + 4096 * i) as ->.
  { unfold VREG_I2ADDR, VREG_BYTESIZE. cbn. change MMU_PGSIZE_COARSE with 4096. rewrite (u32_small (i * 4096)) by lia.
    rewrite u32_small by lia. lia. }
  assert (VREG_BYTESIZE p = 4096 * p) as ->.
  { unfold VREG_BYTESIZE. change MMU_PGSIZE_COARSE with 4096. rewrite u32_small by lia. lia. }
  set (b := vm_updateusr_ap _). eexists bp, _. split; [done|]. right. split; [done|].
  exists b, i, p. split; [cbn; by rewrite Eb, Hb1|]. split; [done|].
  assert (in_block b v i p) as Hblk by (split_and!; cbn; lia || done).
  assert (alive (b_obj b)) as Hko by (cbn; split; cbn; lia || done).
  split_and!.
  - split_and!; try done; try (cbn; lia).
    + intros a. cbn [phys set_phys set_bufs]. rewrite Eph, Hph1. unfold pset, covers.
      case_decide; destruct (Z.leb_spec (b_data b) a), (Z.ltb_spec a (b_data b + b_bufsize b));
        simpl; (done || lia).
    + intros bp' b' a Hb' Hv' Hc. rewrite <-Hb1 in Hb'.
      eapply (free_not_covered st1 L' nd v i p bp' b' a); try done; [lia|].
      destruct Hblk as (E1 & E2 & _). unfold covers in Hc. lia.
  - exists v'. split; [done|]. destruct Hblk as (? & ? & ? & ? & ?). split_and!; cbn; rewrite ?Hlen; done.
  - intros Hns. exists L'. assert (update_end i p = i + p) as Hue.
    { unfold update_end. unfold no_straddle in Hns. zcase; lia. }
    rewrite Hue in Hset.
    apply (vr_inv_mark st1 _ L' nd v i p m bp b); try done; [lia|by rewrite Hb1|].
    cbn. by rewrite Eb.
Qed.

(** ** Release *)

(** The invariant looks at the list, the buffers and the provider only. *)
Lemma vr_inv_ext st st' L : vr_inv st L -> vrlist st' = vrlist st -> bufs st' = bufs st ->
  vdyn st' = vdyn st -> vr_inv st' L.
Proof. intros [] El Eb Ed. by split; rewrite ?El, ?Eb, ?Ed. Qed.

(** A buffer whose fields other than its place change. *)
Definition same_place (b b' : buf) : Prop :=
  b_data b' = b_data b /\ b_bufsize b' = b_bufsize b /\ b_vra b' = b_vra b /\
  allocator_data b' = allocator_data b.

Lemma vr_inv_touch st st' L bp b b' :
  vr_inv st L -> bufs st !! bp = Some b -> same_place b b' -> alive (b_obj b') ->
  vrlist st' = vrlist st -> bufs st' = <[bp := b']> (bufs st) -> vdyn st' = vdyn st -> vr_inv st' L.
Proof.
  intros [Hrep Hreg Hpos Hnd Hnode Hka Hbuf Hdis Hbits] Hb (Ed & Es & Ev & Ea) Hko El Eb Ey.
  assert (forall p c, bufs st' !! p = Some c -> exists c0, bufs st !! p = Some c0 /\ same_place c0 c) as Hold.
  { intros p c. rewrite Eb, lookup_insert_Some. intros [[<- <-]|[_ Hc]].
    - exists b. by split_and!.
    - exists c. by split_and!. }
  split; rewrite ?El, ?Ey; try done.
  - intros p c Hc Hv. destruct (Hold p c Hc) as (c0 & Hc0 & E1 & E2 & E3 & E4).
    destruct (Hbuf p c0 Hc0 ltac:(congruence)) as (v & i & n & Hin & (? & ? & Hr) & ? & ? & Hko0).
    exists v, i, n. rewrite E4. split_and!; try done; [by split_and!; rewrite ?E1, ?E2; try done; apply Hr|].
    rewrite Eb, lookup_insert_Some in Hc. destruct Hc as [[_ <-]|[_ Hc]]; [done|].
    assert (c = c0) as -> by congruence. done.
  - intros p1 c1 p2 c2 a Hc1 Hc2 Hv1 Hv2 H1 H2.
    destruct (Hold p1 c1 Hc1) as (d1 & Hd1 & E1 & E2 & E3 & _).
    destruct (Hold p2 c2 Hc2) as (d2 & Hd2 & F1 & F2 & F3 & _).
    apply (Hdis p1 d1 p2 d2 a); unfold covers in *; congruence || (rewrite <-?E1, <-?E2, <-?F1, <-?F2; done).
  - intros node v q Hin Hq. destruct (Hbits node v q Hin Hq) as (p & c & Hc & Hv & Hal & Hcov).
    rewrite Eb. destruct (decide (p = bp)) as [->|Hne].
    + exists bp, b'. rewrite lookup_insert_eq. assert (c = b) as -> by congruence.
      unfold covers in *. rewrite Ed, Es, Ev, Ea. done.
    + exists p, c. by rewrite lookup_insert_ne.
Qed.

Lemma vr_inv_unmark st st' L node v i n m bp b :
  vr_inv st L -> bufs st !! bp = Some b -> b_vra b = true -> allocator_data b = node ->
  (node, v) ∈ vrlist st -> in_block b v i n -> (forall q, i <= q < i + n -> bit (map v) q = Some true) ->
  range_set (map v) m i (i + n) false ->
  vrlist st' = vreg_set (vrlist st) node (Vregion (kaddr v) (u32 (count v - n)) (vr_size v) m) ->
  bufs st' = delete bp (bufs st) -> vdyn st' = vdyn st -> vr_inv st' L.
Proof.
  intros Hi Hbp Hvra Hal Hin (E1 & E2 & Hi0 & Hn & Hin') Hbs Hset El Eb Ed.
  pose proof Hi as [Hrep Hreg Hpos Hnd Hnode Hka Hbuf Hdis Hbits].
  pose proof Hset as (Hwf' & Hlen & Hbit). destruct (Hnode node v Hin) as [Hn0 Hok].
  set (v' := Vregion _ _ _ m) in El.
  assert (forall k w, (k, w) ∈ vrlist st' -> k <> node /\ (k, w) ∈ vrlist st \/ k = node /\ w = v') as Hel.
  { intros k w. rewrite El. intros [?|(-> & -> & _)]%vreg_set_elem; auto. }
  assert ((node, v') ∈ vrlist st') as Hinv'.
  { rewrite El. apply vreg_set_elem. right. split_and!; [done..|].
    by apply (list_elem_of_fmap_2 fst) in Hin. }
  assert (vreg_ok L v') as Hok'.
  { destruct Hok as (mb & Hmb & HL & Hk & He & Hl & Hs & Hwf & Hc). exists mb. cbn. rewrite Hlen.
    split_and!; try done. pose proof (bits_set_range _ _ _ _ _ Hset Hi0 ltac:(lia) Hin' Hbs) as Hb.
    cbn in Hb. pose proof (bits_set_le m). rewrite Hlen in *. rewrite Hc, u32_small; lia. }
  split; rewrite ?Eb, ?Ed; try done.
  - by rewrite El, vreg_set_fst.
  - intros k w [[? Hw]|[-> ->]]%Hel; [by apply Hnode|done].
  - intros k1 w1 k2 w2 [[? Hw1]|[-> ->]]%Hel [[? Hw2]|[-> ->]]%Hel E; [by apply (Hka k1 w1 k2 w2)| | |done].
    + apply (Hka k1 w1 node v); done.
    + apply (Hka node v k2 w2); done.
  - intros p c [Hne Hc]%lookup_delete_Some Hv.
    destruct (Hbuf p c Hc Hv) as (w & j & k & Hw & Hbl & Hns' & Hbs' & Hko').
    destruct (decide (allocator_data c = node)) as [E|Hne'].
    + rewrite E in *. assert (w = v) as -> by (by eapply vreg_unique).
      exists v', j, k. rewrite E. destruct Hbl as (F1 & F2 & F3 & F4 & F5).
      split_and!; [done| |done| |done]; [by split_and!; cbn; rewrite ?Hlen|].
      intros q Hq. cbn. rewrite Hbit, Hbs' by lia.
      destruct (Z.leb_spec i q), (Z.ltb_spec q (i + n)); try done. exfalso. apply Hne.
      apply (Hdis bp b p c (kaddr v + 4096 * q)); try done; unfold covers; lia.
    + exists w, j, k. split_and!; [|done..|]. rewrite El. apply vreg_set_elem. by left. done.
  - intros p1 c1 p2 c2 a [_ H1]%lookup_delete_Some [_ H2]%lookup_delete_Some. by apply Hdis.
  - intros k w q [[Hne Hw]|[-> ->]]%Hel Hq.
    + destruct (Hbits k w q Hw Hq) as (p & c & Hc & ? & ? & ?). exists p, c.
      rewrite lookup_delete_ne; [done|congruence].
    + cbn in Hq |- *. pose proof (bit_Some_range _ _ _ Hq). rewrite Hbit in Hq by lia.
      destruct (Z.leb_spec i q), (Z.ltb_spec q (i + n)); cbn in Hq; try done;
        (destruct (Hbits node v q Hin Hq) as (p & c & Hc & ? & ? & Hcov); exists p, c;
         rewrite lookup_delete_ne; [done|]; intros <-; assert (c = b) as -> by congruence;
         unfold covers in Hcov; lia).
Qed.

(** An unused vregion goes back to the provider. *)
Lemma vr_inv_drop st st' L node v :
  vr_inv st L -> (node, v) ∈ vrlist st -> bits_set (map v) = 0 ->
  ra_rep (vdyn st') (delete (kaddr v) L) ->
  vrlist st' = filter (fun p => p.1 <> node) (vrlist st) -> bufs st' = bufs st ->
  vr_inv st' (delete (kaddr v) L).
Proof.
  intros Hi Hin Hz Hrep' El Eb. pose proof Hi as [Hrep Hreg Hpos Hnd Hnode Hka Hbuf Hdis Hbits].
  assert (forall k w, (k, w) ∈ vrlist st' <-> k <> node /\ (k, w) ∈ vrlist st) as Hel.
  { intros k w. by rewrite El, list_elem_of_filter. }
  split; rewrite ?Eb; try done.
  - intros a n b k [_ Ha]%lookup_delete_Some [_ Hb]%lookup_delete_Some. by apply Hreg.
  - intros a n [_ Ha]%lookup_delete_Some. by apply (Hpos a).
  - rewrite El. clear -Hnd. induction (vrlist st) as [|[k w] l IH]; [done|].
    cbn in Hnd. apply NoDup_cons in Hnd as [Hk Hnd]. rewrite filter_cons. case_decide; [|by apply IH].
    cbn. apply NoDup_cons. split; [|by apply IH]. intros ([k' w'] & -> & Hx)%list_elem_of_fmap.
    apply list_elem_of_filter in Hx as [_ Hx]. apply Hk. by apply (list_elem_of_fmap_2 fst) in Hx.
  - intros k w [Hne Hw]%Hel. destruct (Hnode k w Hw) as [? Hok]. split; [done|].
    apply (vreg_ok_mono L); [done|]. apply lookup_delete_ne. intros E. apply Hne.
    by apply (Hka k w node v).
  - intros k1 w1 k2 w2 [_ ?]%Hel [_ ?]%Hel. by apply Hka.
  - intros p c Hc Hv. destruct (Hbuf p c Hc Hv) as (w & j & k & Hw & Hbl & Hns & Hbs & Hko).
    exists w, j, k. split; [|done]. apply Hel. split; [|done]. intros E. rewrite E in *.
    assert (w = v) as -> by (by eapply vreg_unique). destruct Hbl as (_ & _ & _ & ? & _).
    pose proof (bits_set_pos (map v) j (Hbs j ltac:(lia))). lia.
  - intros k w q [_ Hw]%Hel. by apply Hbits.
Qed.

Lemma kobj_ref_alive k : alive k ->
  kobj_ref k = (0, Kobj (ko_flags k) (ko_fast_lock k) (ko_refcount k + 1) (refs k + 1) (freed k)).
Proof.
  intros [Hc Hf]. unfold kobj_ref, kobj_ref_body. zcase; [lia|]. rewrite Hf. cbn [Z.eqb negb].
  unfold s32. rewrite Z.mod_small by lia. zcase; [done|lia].
Qed.

Lemma kobj_unref_alive k : alive k ->
  kobj_unref k = if ko_refcount k =? 1
    then (true, Kobj (Z.lor (ko_flags k) KO_FLAG_DYING) (ko_fast_lock k) (-1) (refs k) (freed k + 1))
    else (false, Kobj (ko_flags k) (ko_fast_lock k) (ko_refcount k - 1) (refs k) (freed k)).
Proof.
  intros [Hc Hf]. unfold kobj_unref, kobj_unref_body. zcase; [lia|].
  destruct (Z.eqb_spec (ko_refcount k) 1); [done|]. unfold s32. rewrite Z.mod_small by lia.
  cbn. by destruct (Z.ltb_spec (ko_refcount k - 1) (2 ^ 31)); [|lia].
Qed.

Lemma vr_inv_recount st L bp b k :
  vr_inv st L -> bufs st !! bp = Some b -> alive k ->
  vr_inv (set_bufs st (<[bp := set_b_obj b k]> (bufs st))) L.
Proof. intros Hi Hb Hk. by apply (vr_inv_touch st _ L bp b (set_b_obj b k)). Qed.

(** Nothing but the reference count of the buffer changes. *)
Definition recounted st (bp : Z) (b : buf) (c : Z) (st' : vr D) : Prop :=
  exists k, ko_refcount k = c /\ bufs st' = <[bp := set_b_obj b k]> (bufs st) /\
    vrlist st' = vrlist st /\ phys st' = phys st /\ vdyn st' = vdyn st.

Lemma vrref_spec st L bp b :
  vr_inv st L -> bufs st !! bp = Some b -> b_vra b = true -> ko_refcount (b_obj b) < 2 ^ 31 - 2 ->
  exists st', vrref st bp = Some st' /\ vr_inv st' L /\
    recounted st bp b (ko_refcount (b_obj b) + 1) st'.
Proof.
  intros Hi Hb Hv Hc. destruct (vi_buf st L Hi bp b Hb Hv) as (v & i & n & _ & _ & _ & _ & Hko).
  unfold vrref. rewrite Hb. mstep. rewrite kobj_ref_alive by done. cbn [Z.eqb negb].
  eexists. split; [done|]. destruct Hko as [Hr Hf]. split.
  - apply (vr_inv_recount st L bp b); [done|done|]. split; cbn; [lia|done].
  - eexists. split; cycle 1; [by split_and!|done].
Qed.

Lemma vreg_free_callback_spec st st0 L bp b b' :
  vr_inv st L -> bufs st !! bp = Some b -> b_vra b = true -> same_place b b' ->
  vrlist st0 = vrlist st -> vdyn st0 = vdyn st -> bufs st0 = <[bp := b']> (bufs st) ->
  exists st' L', vreg_free_callback st0 bp = Some st' /\ vr_inv st' L' /\
    bufs st' = delete bp (bufs st) /\ phys st' = phys st0.
Proof.
  intros Hi Hb Hv (E1 & E2 & E3 & E4) El Ed Eb.
  destruct (vi_buf st L Hi bp b Hb Hv) as (v & i & n & Hin & Hblk & Hns & Hbs & Hko).
  unfold vreg_free_callback. rewrite Eb, lookup_insert_eq. mstep. rewrite El, E1, E2, E4.
  rewrite (vreg_at_elem _ _ v (vi_nodup _ _ Hi) Hin). mstep.
  destruct (vi_node st L Hi _ v Hin) as [_ (mb & Hmb & HL & Hk & Hend & Hl & Hs & Hwf & Hc)].
  pose proof Hblk as (Ea & En & Hi0 & Hn & Hin').
  assert (VREG_PCOUNT (b_bufsize b) = n) as ->.
  { unfold VREG_PCOUNT. change MMU_PGSIZE_COARSE with 4096. rewrite En. dlia. }
  assert (VREG_ADDR2I v (b_data b) = i) as ->.
  { unfold VREG_ADDR2I, VREG_PCOUNT. change MMU_PGSIZE_COARSE with 4096. rewrite Ea, u32_small by lia. dlia. }
  destruct (block_update_spec (map v) 0 i n (vr_size v)) as (m & -> & Hset); [done|lia..|]. mstep.
  cbn [Z.eqb negb]. assert (update_end i n = i + n) as Hue.
  { unfold update_end. unfold no_straddle in Hns. zcase; lia. }
  rewrite Hue in Hset. cbn [count kaddr vr_size].
  set (v' := Vregion (kaddr v) (u32 (count v - n)) (vr_size v) m).
  pose (st1 := set_bufs (set_vrlist st (vreg_set (vrlist st) (allocator_data b) v')) (delete bp (bufs st))).
  assert (vr_inv st1 L) as Hi1.
  { by apply (vr_inv_unmark st st1 L (allocator_data b) v i n m bp b). }
  assert ((allocator_data b, v') ∈ vrlist st1) as Hin1.
  { cbn. apply vreg_set_elem. right. split_and!; [done..|]. by apply (list_elem_of_fmap_2 fst) in Hin. }
  destruct (vi_node st1 L Hi1 _ v' Hin1) as [_ (mb' & _ & HL1 & _ & _ & _ & _ & _ & Hc')].
  cbn in Hc', HL1. destruct (Z.eqb_spec (u32 (count v - n)) 0) as [Hz|Hz].
  - destruct (ra_free_spec (vdyn st) L (kaddr v) mb (vi_rep st L Hi) HL) as (d & Hd & Hrep).
    cbn [vdyn set_all set_vrlist set_used]. rewrite Ed, Hd. mstep.
    eexists _, (delete (kaddr v) L). split; [done|]. split; [|by cbn; rewrite Eb, delete_insert_eq].
    eapply (vr_inv_drop st1 _ L (allocator_data b) v'); try done; [cbn; congruence| |].
    + cbn. rewrite El. clear. unfold vreg_set. induction (vrlist st) as [|[k w] l IH]; [done|].
      rewrite fmap_cons, !filter_cons. cbn [fst]. destruct (Z.eqb_spec k (allocator_data b)) as [->|];
        cbn [fst]; repeat case_decide; try done. by f_equal.
    + cbn. by rewrite Eb, delete_insert_eq.
  - mstep. eexists _, L. split; [done|]. split; [|by cbn; rewrite Eb, delete_insert_eq].
    apply (vr_inv_ext st1); cbn; [done|by rewrite El|by rewrite Eb, delete_insert_eq|done].
Qed.

Lemma vrfree_spec st L bp b :
  vr_inv st L -> bufs st !! bp = Some b -> b_vra b = true ->
  exists st' L', vrfree st bp = Some st' /\ vr_inv st' L' /\
    if ko_refcount (b_obj b) =? 1
    then bufs st' = delete bp (bufs st) /\ phys st' = phys st
    else L' = L /\ recounted st bp b (ko_refcount (b_obj b) - 1) st'.
Proof.
  intros Hi Hb Hv. destruct (vi_buf st L Hi bp b Hb Hv) as (v & i & n & _ & _ & _ & _ & Hko).
  unfold vrfree. rewrite Hb. mstep. rewrite kobj_unref_alive by done.
  destruct (Z.eqb_spec (ko_refcount (b_obj b)) 1) as [E|E].
  - set (b' := set_b_obj b _). set (st0 := set_bufs st _).
    destruct (vreg_free_callback_spec st st0 L bp b b') as (st' & L' & Hf & Hi' & Hb' & Hp'); try done.
    exists st', L'. by split_and!.
  - eexists _, L. split; [done|]. destruct Hko as [Hr Hf]. split; [|split; [done|]].
    + apply (vr_inv_recount st L bp b); [done|done|]. split; cbn; [lia|done].
    + eexists. split; cycle 1; [by split_and!|done].
Qed.

(** ** Cloning *)

Lemma covers_range b a : covers b a <-> b_data b <= a < b_data b + b_bufsize b.
Proof. done. Qed.

(** [new] is a private copy of [old]: same size, same contents, same mapping,
    and the flags without copy-on-write and copy-on-read. *)
Definition cloned (m : pmem) (old new : buf) (m' : pmem) : Prop :=
  b_bufsize new = b_bufsize old /\ r_vaddr (b_mmu new) = r_vaddr (b_mmu old) /\
  r_control (b_mmu new) = r_control (b_mmu old) /\ b_pt new = b_pt old /\
  b_uflags new = Z.land (Z.lnot (Z.lor VM_PROT_COW VM_PROT_COR)) (b_uflags old) /\
  (forall k, 0 <= k < b_bufsize old -> m' (b_data new + k) = m (b_data old + k)) /\
  (forall a, ~ covers new a -> m' a = m a).

Lemma vr_rclone_spec st L nbp node old o :
  vr_inv st L -> bufs st !! old = Some o -> b_vra o = true ->
  nbp <> 0 -> bufs st !! nbp = None -> node = 0 \/ node ∉ (vrlist st).*1 ->
  b_bufsize o + 2 ^ 20 <= 2 ^ 32 ->
  exists r st', vr_rclone nbp [node] st old = Some (r, st') /\
    (r = 0 /\ (exists L', vr_inv st' L') /\ bufs st' = bufs st /\ phys st' = phys st \/
     r = nbp /\ exists b i n, bufs st' = <[nbp := b]> (bufs st) /\ cloned (phys st) o b (phys st') /\
       b_bufsize b = 4096 * n /\ (exists v, (allocator_data b, v) ∈ vrlist st' /\ in_block b v i n) /\
       (no_straddle i n -> exists L', vr_inv st' L')).
Proof.
  intros Hi Ho Hv Hnbp Hfresh Hnode Hfit.
  destruct (vi_buf st L Hi old o Ho Hv) as (vo & io & no & _ & (_ & Eo & _ & Hno & _) & _).
  destruct (geteblk_spec st L nbp node (b_bufsize o) Hi Hnbp Hfresh Hnode ltac:(lia) Hfit)
    as (r & st1 & Hg & Hr).
  unfold vr_rclone. rewrite Ho. mstep. rewrite Hg. mstep.
  destruct Hr as [(-> & HL & Hb & Hp)|(-> & b & i & n & Hb & Ebn & Hnew & Hin & Hinv)].
  { cbn [Z.eqb]. exists 0, st1. split; [done|]. by left. }
  zcase; [done|]. rewrite Hb, lookup_insert_eq. mstep.
  assert (nbp <> old) as Hne by congruence. rewrite lookup_insert_ne, Ho by done. mstep.
  destruct Hnew as (Ec & Esz & Evra & Eflags & Hko & Hphys & Hdis).
  assert (b_bufsize b = b_bufsize o) as Esame by dlia.
  set (b' := vm_updateusr_ap _). eexists nbp, _. split; [done|]. right. split; [done|].
  exists b', i, n. cbn [bufs set_bufs set_phys]. rewrite Hb, insert_insert_eq. split; [done|]. split; [|split; [done|split]].
  - split_and!; try done.
    + intros k Hk. cbn [phys set_bufs set_phys]. unfold pcopy. change (b_data b') with (b_data b).
      destruct (Z.leb_spec (b_data b) (b_data b + k)), (Z.ltb_spec (b_data b + k) (b_data b + b_bufsize o));
        try lia. cbn [andb]. replace (b_data o + (b_data b + k - b_data b)) with (b_data o + k) by lia.
      rewrite Hphys, decide_False; [done|]. intros Hc. apply (Hdis old o _ Ho Hv Hc).
      unfold covers. lia.
    + intros a Ha. cbn [phys set_bufs set_phys]. unfold pcopy.
      assert (~ covers b a) as Hnc by done.
      destruct (Z.leb_spec (b_data b) a), (Z.ltb_spec a (b_data b + b_bufsize o));
        cbn [andb]; try (rewrite Hphys; by rewrite decide_False).
      exfalso. apply Hnc. unfold covers. lia.
  - done.
  - intros Hns. destruct (Hinv Hns) as [L' Hi']. exists L'.
    eapply (vr_inv_touch st1 _ L' nbp b b'); try done; [by rewrite Hb, lookup_insert_eq|].
    cbn. by rewrite Hb, insert_insert_eq.
Qed.

(** ** Sequences of calls *)

(** The new buffer crosses the first word of the bit map of its vregion. *)
Definition crosses st (bp : Z) : Prop :=
  exists b v, bufs st !! bp = Some b /\ (allocator_data b, v) ∈ vrlist st /\
    b_data b - kaddr v < 32 * 4096 < b_data b - kaddr v + b_bufsize b.

Inductive vr_step : vr D -> vr D -> Prop :=
| vs_get st st' bp node size r : bp <> 0 -> bufs st !! bp = None ->
    node = 0 \/ node ∉ (vrlist st).*1 -> 0 < size -> size + 2 ^ 20 <= 2 ^ 32 ->
    geteblk bp [node] st size = Some (r, st') -> ~ crosses st' bp -> vr_step st st'
| vs_clone st st' bp node old o r : bp <> 0 -> bufs st !! bp = None ->
    node = 0 \/ node ∉ (vrlist st).*1 -> bufs st !! old = Some o -> b_vra o = true ->
    b_bufsize o + 2 ^ 20 <= 2 ^ 32 ->
    vr_rclone bp [node] st old = Some (r, st') -> ~ crosses st' bp -> vr_step st st'
| vs_ref st st' bp b : bufs st !! bp = Some b -> b_vra b = true ->
    ko_refcount (b_obj b) < 2 ^ 31 - 2 -> vrref st bp = Some st' -> vr_step st st'
| vs_free st st' bp b : bufs st !! bp = Some b -> b_vra b = true ->
    vrfree st bp = Some st' -> vr_step st st'.

Lemma not_crosses st bp b v i n :
  bufs st !! bp = Some b -> (allocator_data b, v) ∈ vrlist st -> in_block b v i n ->
  ~ crosses st bp -> no_straddle i n.
Proof.
  intros Hb Hin (E1 & E2 & _) Hc. unfold no_straddle.
  destruct (decide (32 <= i)); [by left|]. destruct (decide (i + n <= 32)); [by right|].
  exfalso. apply Hc. exists b, v. split_and!; try done; lia.
Qed.

Lemma vr_step_inv st st' L : vr_inv st L -> vr_step st st' -> exists L', vr_inv st' L'.
Proof.
  intros Hi Hs. revert Hi. destruct Hs as [s s' bp node size r Hbp Hf Hnode Hsz Hfit Hg Hc
    |s s' bp node old o r Hbp Hf Hnode Ho Hv Hfit Hg Hc|s s' bp b Hb Hv Hr Hg|s s' bp b Hb Hv Hg]; intros Hi.
  - destruct (geteblk_spec s L bp node size Hi Hbp Hf Hnode Hsz Hfit) as (r' & s1 & Hg' & Hr).
    rewrite Hg in Hg'. injection Hg' as <- <-.
    destruct Hr as [(_ & ? & _)|(_ & b & i & n & Hb & _ & _ & (v & Hin & Hblk) & Hinv)]; [done|].
    apply Hinv. eapply (not_crosses s' bp b v); try done. by rewrite Hb, lookup_insert_eq.
  - destruct (vr_rclone_spec s L bp node old o Hi Ho Hv Hbp Hf Hnode Hfit) as (r' & s1 & Hg' & Hr).
    rewrite Hg in Hg'. injection Hg' as <- <-.
    destruct Hr as [(_ & ? & _)|(_ & b & i & n & Hb & _ & _ & (v & Hin & Hblk) & Hinv)]; [done|].
    apply Hinv. eapply (not_crosses s' bp b v); try done. by rewrite Hb, lookup_insert_eq.
  - destruct (vrref_spec s L bp b Hi Hb Hv Hr) as (s1 & Hg' & Hi' & _).
    rewrite Hg in Hg'. injection Hg' as <-. eauto.
  - destruct (vrfree_spec s L bp b Hi Hb Hv) as (s1 & L' & Hg' & Hi' & _).
    rewrite Hg in Hg'. injection Hg' as <-. eauto.
Qed.

Definition vr_boot (d : D) : vr D := Vr [] 0 0 ∅ (fun _ => 0) d.

Lemma vr_boot_inv d L : ra_rep d L -> disjoint_regions L ->
  (forall a n, L !! a = Some n -> 0 < n) -> vr_inv (vr_boot d) L.
Proof.
  intros Hr Hd Hp. split; try done; cbn.
  - constructor.
  - intros ? ? []%not_elem_of_nil.
  - intros ? ? ? ? []%not_elem_of_nil.
  - intros ? ? ? []%not_elem_of_nil.
Qed.

Lemma vr_steps_inv st st' L : vr_inv st L -> rtc vr_step st st' -> exists L', vr_inv st' L'.
Proof.
  intros Hi Hr. revert L Hi. induction Hr as [|s1 s2 s3 Hs _ IH]; intros L Hi; [eauto|].
  destruct (vr_step_inv s1 s2 L Hi Hs) as [L' Hi']. by apply (IH L').
Qed.
End proofs.

(** ** Claims *)


#[local] Existing Instances config32 config32_ok provider32.

Lemma dyn_boot_rep : ra_rep dynmem_boot ∅.
Proof. exists ∅. split; [apply boot_represents|]. intros a n. split; [done|]. by intros (p & R & ? & _). Qed.

Definition vr32 : vr dynmem := vr_boot dynmem_boot.
(** The state after a call, and its result; memory contents are not evaluated. *)
Definition after {A S} (r : option (A * S)) (s : S) : S := default s (snd <$> r).

Lemma after_eq {A S} (r : option (A * S)) (s : S) x : fst <$> r = Some x -> r = Some (x, after r s).
Proof. by destruct r as [[]|]; cbn; intros; simplify_eq. Qed.

(** Decidable version of [crosses] for concrete states. *)
Definition crosses_b {D} (st : vr D) (bp : Z) : bool :=
  match bufs st !! bp with
  | Some b => existsb (fun p => (p.1 =? allocator_data b) && (b_data b - kaddr p.2 <? 131072) &&
                (131072 <? b_data b - kaddr p.2 + b_bufsize b)) (vrlist st)
  | None => false
  end.

Lemma crosses_reflect {D} `{RegionAllocator D} (st : vr D) bp : crosses_b st bp = false -> ~ crosses st bp.
Proof.
  intros Hf (b & v & Hb & Hin & Hc). unfold crosses_b in Hf. rewrite Hb in Hf.
  enough (existsb (fun p => (p.1 =? allocator_data b) && (b_data b - kaddr p.2 <? 131072) &&
                (131072 <? b_data b - kaddr p.2 + b_bufsize b)) (vrlist st) = true) by congruence.
  apply existsb_exists. exists (allocator_data b, v). split; [by apply list_elem_of_In|].
  cbn. rewrite Z.eqb_refl, !andb_true_iff, !Z.ltb_lt. lia.
Qed.

Definition vr_a : vr dynmem := after (geteblk 1 [0x100] vr32 5000) vr32.
Definition vr_b : vr dynmem := after (geteblk 2 [0] vr_a 100) vr_a.

Lemma vr_a_eq : geteblk 1 [0x100] vr32 5000 = Some (1, vr_a).
Proof. apply after_eq. vm_compute. reflexivity. Qed.
Lemma vr_b_eq : geteblk 2 [0] vr_a 100 = Some (2, vr_b).
Proof. apply after_eq. vm_compute. reflexivity. Qed.

Lemma vr_a_step : vr_step vr32 vr_a.
Proof.
  refine (vs_get vr32 vr_a 1 0x100 5000 1 _ _ _ _ _ vr_a_eq _); [done|done| |done|done|].
  - right. apply not_elem_of_nil.
  - apply crosses_reflect. vm_compute. reflexivity.
Qed.
Lemma vr_b_step : vr_step vr_a vr_b.
Proof.
  refine (vs_get vr_a vr_b 2 0 100 2 _ _ _ _ _ vr_b_eq _); [done| |by left|done|done|].
  - vm_compute. reflexivity.
  - apply crosses_reflect. vm_compute. reflexivity.
Qed.



Lemma vr32_inv : vr_inv vr32 ∅.
Proof. by apply vr_boot_inv; [apply dyn_boot_rep|..]. Qed.


(** [vrfree] drops one reference; with the last one the buffer is gone, its
    pages are free again (a vregion without used pages goes back to dynmem) and
    every other buffer and the contents of memory are unchanged. *)
Theorem vrfree_correct {D : Type} `{RegionAllocator D} (st : vr D) (L : gmap Z Z) (bp : Z) (b : buf)
    (Hinv : vr_inv st L) (Hb : bufs st !! bp = Some b) (Hvra : b_vra b = true) :
  exists st' L', vrfree st bp = Some st' /\ vr_inv st' L' /\
    if ko_refcount (b_obj b) =? 1
    then bufs st' = delete bp (bufs st) /\ phys st' = phys st
    else L' = L /\ recounted st bp b (ko_refcount (b_obj b) - 1) st'.
Proof. by apply vrfree_spec. Qed.

Lemma vr_a_inv : exists L, vr_inv vr_a L.
Proof. apply (vr_step_inv vr32 vr_a ∅ vr32_inv vr_a_step). Qed.

Lemma vrfree_correct_witness :
  exists L b st' L', bufs vr_a !! 1 = Some b /\ vrfree vr_a 1 = Some st' /\ vr_inv st' L' /\
    (if ko_refcount (b_obj b) =? 1
     then bufs st' = delete 1 (bufs vr_a) /\ phys st' = phys vr_a
     else L' = L /\ recounted vr_a 1 b (ko_refcount (b_obj b) - 1) st').
Proof.
  destruct vr_a_inv as [L Hi]. exists L.
  destruct (bufs vr_a !! 1) as [b|] eqn:E; [|by vm_compute in E]. exists b.
  destruct (vrfree_correct vr_a L 1 b Hi E) as (st' & L' & ?); [|by exists st', L'].
  vm_compute in E. by injection E as <-.
Defined.

(** [vr_rclone] makes a private copy: the new buffer has the size, the
    contents, the virtual address and the attributes of the old one, its user
    flags without copy-on-write and copy-on-read, and no byte outside of the new
    buffer is written. *)
Theorem vr_rclone_correct {D : Type} `{RegionAllocator D} (st : vr D) (L : gmap Z Z)
    (nbp node old : Z) (o : buf)
    (Hinv : vr_inv st L) (Hold : bufs st !! old = Some o) (Hvra : b_vra o = true)
    (Hbp : nbp <> 0) (Hfresh : bufs st !! nbp = None)
    (Hnode : node = 0 \/ node ∉ (vrlist st).*1) (Hfit : b_bufsize o + 2 ^ 20 <= 2 ^ 32) :
  exists r st', vr_rclone nbp [node] st old = Some (r, st') /\
    (r = 0 /\ bufs st' = bufs st /\ phys st' = phys st \/
     r = nbp /\ exists b, bufs st' = <[nbp := b]> (bufs st) /\ cloned (phys st) o b (phys st')).
Proof.
  destruct (vr_rclone_spec st L nbp node old o Hinv Hold Hvra Hbp Hfresh Hnode Hfit) as (r & st' & Hg & Hr).
  exists r, st'. split; [done|]. destruct Hr as [(-> & _ & ? & ?)|(-> & b & i & n & ? & ? & _)];
    [by left|right]. eauto.
Qed.

Lemma vr_rclone_correct_witness :
  exists o r st', bufs vr_a !! 1 = Some o /\ vr_rclone 2 [0] vr_a 1 = Some (r, st') /\
    (r = 0 /\ bufs st' = bufs vr_a /\ phys st' = phys vr_a \/
     r = 2 /\ exists b, bufs st' = <[2 := b]> (bufs vr_a) /\ cloned (phys vr_a) o b (phys st')).
Proof.
  destruct vr_a_inv as [L Hi].
  destruct (bufs vr_a !! 1) as [o|] eqn:E; [|by vm_compute in E]. exists o.
  destruct (vr_rclone_correct vr_a L 2 0 1 o Hi E) as (r & st' & ?); [|done| |by left| |by exists r, st'].
  - vm_compute in E. by injection E as <-.
  - vm_compute. reflexivity.
  - vm_compute in E. by injection E as <-.
Defined.

(** States for the theorems below. *)
Definition ov1 : vr dynmem := after (geteblk 1 [0x100] vr32 (40 * 4096)) vr32.
Definition ov2 : vr dynmem := after (geteblk 2 [0x200] ov1 4096) ov1.
Definition full1 : vr dynmem := after (geteblk 1 [0x100] vr32 (16 * 4096)) vr32.
Definition full2 : vr dynmem := after (geteblk 2 [0] full1 (16 * 4096)) full1.
Definition full3 : vr dynmem := after (geteblk 3 [0] full2 (224 * 4096)) full2.
Definition full4 : vr dynmem :=
  match allocbuf full3 1 (17 * 4096) with Some (Done st) => st | _ => full3 end.
Definition one1 : vr dynmem := after (geteblk 1 [0x100] vr32 4096) vr32.
Definition one2 : vr dynmem := default one1 (vrfree one1 1).

(** Buffers of more than 32 pages can be handed out twice: after a request of
    40 pages on a fresh system, a request of one page returns a page of the first
    buffer and clears it. *)
Theorem geteblk_overlap :
  exists b1 b2,
    geteblk 1 [0x100] vr32 (40 * 4096) = Some (1, ov1) /\
    geteblk 2 [0x200] ov1 4096 = Some (2, ov2) /\
    bufs ov2 !! 1 = Some b1 /\ bufs ov2 !! 2 = Some b2 /\
    covers b1 (b_data b2) /\ phys ov2 (b_data b2) = 0.
Proof.
  eexists _, _. split; [apply after_eq; vm_compute; reflexivity|].
  split; [apply after_eq; vm_compute; reflexivity|].
  split; [vm_compute; reflexivity|]. split; [vm_compute; reflexivity|].
  split; [|vm_compute; reflexivity]. unfold covers. cbn. lia.
Qed.

(** [allocbuf] can grow a buffer over pages that are not its own: when no
    page after the buffer is free, it sets the new size and reports nothing. *)
Theorem allocbuf_overrun :
  exists b1 b2,
    geteblk 1 [0x100] vr32 (16 * 4096) = Some (1, full1) /\
    geteblk 2 [0] full1 (16 * 4096) = Some (2, full2) /\
    geteblk 3 [0] full2 (224 * 4096) = Some (3, full3) /\
    allocbuf full3 1 (17 * 4096) = Some (Done full4) /\
    bufs full4 !! 1 = Some b1 /\ bufs full4 !! 2 = Some b2 /\
    b_bufsize b1 = 17 * 4096 /\ covers b1 (b_data b2) /\ covers b2 (b_data b2).
Proof.
  eexists _, _. split; [apply after_eq; vm_compute; reflexivity|].
  split; [apply after_eq; vm_compute; reflexivity|].
  split; [apply after_eq; vm_compute; reflexivity|].
  split.
  { assert (match allocbuf full3 1 (17 * 4096) with Some (Done _) => True | _ => False end) as Hr by by vm_compute.
    unfold full4. by destruct (allocbuf full3 1 (17 * 4096)) as [[]|]. }
  split; [vm_compute; reflexivity|]. split; [vm_compute; reflexivity|].
  unfold covers. cbn. lia.
Qed.

(** When pages after the buffer are free, [allocbuf] waits for the lock that it
    holds. *)
Theorem allocbuf_deadlock :
  geteblk 1 [0x100] vr32 4096 = Some (1, one1) /\ allocbuf one1 1 8192 = Some Deadlock.
Proof. split; [apply after_eq; vm_compute; reflexivity|vm_compute; reflexivity]. Qed.

(** The statistics of reserved memory lose four times the size of a vregion that
    is given back. *)
Theorem vralloc_all_wraps :
  geteblk 1 [0x100] vr32 4096 = Some (1, one1) /\ vrfree one1 1 = Some one2 /\
    vralloc_all one1 = 2 ^ 20 /\ vralloc_all one2 = 2 ^ 32 - 3 * 2 ^ 20.
Proof.
  split; [apply after_eq; vm_compute; reflexivity|]. split; [|split; vm_compute; reflexivity].
  assert (match vrfree one1 1 with Some _ => True | None => False end) as Ht by by vm_compute.
  unfold one2. by destruct (vrfree one1 1).
Qed.
