(* ===== verification/Mmu.v ===== *)
(** * Page tables: kern/hal/mmu.c, kern/hal/arm11/arm11_mmu.c

    Page tables are words of physical memory that the kernel writes and the
    ARMv6 processor walks.  Memory is a function from addresses to words, the
    system control registers are fields of the state.  [walk] is what the
    processor does with an address: the specification of this file, from the
    ARMv6 descriptor formats (extended small pages and sections; the kernel
    makes neither large pages nor supersections).  The code masks interrupts
    around each update of a table, so operations are steps. *)
From S2P Require Import Prelude Mem Dynmem Regions Vralloc.

Definition MMU_PTE_FAULT : Z := 0.
Definition MMU_PTE_COARSE : Z := 1.
Definition MMU_PTE_SECTION : Z := 2.
Definition MMU_PTSZ_COARSE : Z := 0x400.
Definition MMU_PTSZ_MASTER : Z := 0x4000.
Definition MMU_PGSIZE_SECTION : Z := 1048576.
Definition MMU_NR_SECTION_ENTR : Z := MMU_PTSZ_MASTER / 4.

Definition MMU_DOM_KERNEL : Z := 0.
Definition MMU_DOMAC_CL : Z := 1.
Definition MMU_DOMAC_ALL : Z := 0xffffffff.
Definition MMU_DOMAC_DOM2MASK (dom : Z) : Z := Z.shiftl 0x3 dom.
Definition MMU_DOMAC_TO (dom val : Z) : Z := Z.shiftl (Z.land val 0x3) dom.
Definition MMU_DOMAC_FROM (dom val : Z) : Z := Z.land (Z.shiftr val dom) 0x3.

Definition MMU_C1_CR_ENMMU : Z := 0x00000001.
Definition MMU_C1_CR_DCACHE : Z := 0x00000004.
Definition MMU_C1_CR_ICACHE : Z := 0x00001000.
Definition MMU_C1_CR_XP : Z := 0x00800000.
Definition MMU_C1_CR_TR : Z := 0x10000000.
Definition MMU_ZEKE_C1_DEFAULTS : Z :=
  Z.lor (Z.lor (Z.lor (Z.lor MMU_C1_CR_ENMMU MMU_C1_CR_DCACHE) MMU_C1_CR_ICACHE)
    MMU_C1_CR_XP) MMU_C1_CR_TR.

Inductive mmu_ptt := MMU_PTT_FAULT | MMU_PTT_COARSE | MMU_PTT_MASTER.
#[global] Instance mmu_ptt_eq_dec : EqDecision mmu_ptt.
Proof. solve_decision. Defined.

Record mmu_pagetable := MmuPagetable {
  pt_vaddr : Z; pt_addr : Z; nr_tables : Z; master_pt_addr : Z;
  pt_type : mmu_ptt; pt_dom : Z
}.

(** ** State *)

Definition wmem : Type := Z -> Z.
Definition wset (m : wmem) (a v : Z) : wmem := fun x => if x =? a then v else m x.
(** [memcpy] of whole words between areas that do not overlap. *)
Definition wcopy (m : wmem) (d s n : Z) : wmem :=
  fun x => if (d <=? x) && (x <? d + n) then m (s + (x - d)) else m x.

(** [ttbr0], [dacr] and [c1] are the registers c2, c3 and c1 of cp15. *)
Record mmu := Mmu { tables : wmem; ttbr0 : Z; dacr : Z; c1 : Z }.
Definition set_tables (s : mmu) (m : wmem) : mmu := Mmu m (ttbr0 s) (dacr s) (c1 s).
Definition set_ttbr0 (s : mmu) (v : Z) : mmu := Mmu (tables s) v (dacr s) (c1 s).
Definition set_dacr (s : mmu) (v : Z) : mmu := Mmu (tables s) (ttbr0 s) v (c1 s).
Definition set_c1 (s : mmu) (v : Z) : mmu := Mmu (tables s) (ttbr0 s) (dacr s) v.

(** ** Operations *)

Definition mmu_domain_access_get (s : mmu) : Z := dacr s.
Definition mmu_domain_access_set (s : mmu) (value mask : Z) : mmu :=
  set_dacr s (Z.lor (Z.ldiff (dacr s) mask) value).
Definition mmu_control_set (s : mmu) (value mask : Z) : mmu :=
  set_c1 s (Z.lor (Z.ldiff (c1 s) mask) value).

(** [for (i = 0; i < n; i++) mpt[i] = ...] with the attributes of the loop. *)
Fixpoint preinit_loop (n : nat) (i : Z) (m : wmem) (mpt attr : Z) : wmem :=
  match n with
  | O => m
  | S n =>
      let e := Z.lor (Z.lor (Z.lor (Z.shiftl i 20) 0x400) attr) 2 in
      preinit_loop n (i + 1) (wset m (u32 (mpt + 4 * i)) e) mpt attr
  end.
(** [mpt] is the address of the static table. *)
Definition mmu_preinit (s : mmu) (mpt : Z) : mmu :=
  let num_elem := MMU_PTSZ_MASTER / 4 in
  let m := preinit_loop 16 0 (tables s) mpt 8 in
  let m := preinit_loop (Z.to_nat (num_elem - 16)) 0 m mpt 4 in
  let s := set_ttbr0 (set_tables s m) mpt in
  let s := mmu_domain_access_set s (MMU_DOMAC_TO MMU_DOM_KERNEL MMU_DOMAC_CL) MMU_DOMAC_ALL in
  mmu_control_set s MMU_ZEKE_C1_DEFAULTS MMU_ZEKE_C1_DEFAULTS.

(** [STMIA] of four registers with the same word. *)
Definition stm4 (m : wmem) (p v : Z) : wmem :=
  wset (wset (wset (wset m p v) (u32 (p + 4)) v) (u32 (p + 8)) v) (u32 (p + 12)) v.
Fixpoint stm_rep (k : nat) (m : wmem) (p v : Z) : wmem :=
  match k with
  | O => m
  | S k => stm_rep k (stm4 m p v) (u32 (p + 16)) v
  end.
Fixpoint init_loop (i : nat) (m : wmem) (p v : Z) : wmem :=
  match i with
  | O => m
  | S i => init_loop i (stm_rep 8 m p v) (u32 (p + 128)) v
  end.

(** [None] is the failed assertion, or the loop that counts down from 0. *)
Definition mmu_init_pagetable (s : mmu) (pt : mmu_pagetable) : option (Z * mmu) :=
  if negb (0 <? nr_tables pt) then None
  else if pt_addr pt =? 0 then Some (- EINVAL, s)
  else
    let fill i :=
      if i =? 0 then None
      else Some (0, set_tables s (init_loop (Z.to_nat i) (tables s) (pt_addr pt) MMU_PTE_FAULT)) in
    match pt_type pt with
    | MMU_PTT_COARSE => fill (u32 (nr_tables pt * MMU_PTSZ_COARSE) / 4 / 32)
    | MMU_PTT_MASTER => fill (u32 (nr_tables pt * MMU_PTSZ_MASTER) / 4 / 32)
    | MMU_PTT_FAULT => Some (- EINVAL, s)
    end.

(** The loops of the map and unmap functions: [i] counts down and [p_pte] with it;
    [p] is the address of the first entry of the region. *)
Fixpoint write_ptes (n : nat) (m : wmem) (p pte sh : Z) : wmem :=
  match n with
  | O => m
  | S i =>
      let v := u32 (pte + Z.shiftl (Z.of_nat i) sh) in
      write_ptes i (wset m (u32 (p + 4 * Z.of_nat i)) v) p pte sh
  end.
(** [int pages = num_pages - 1], and the iterations of the loop from [pages]. *)
Definition loop_count (num_pages : Z) : nat := Z.to_nat (s32 (num_pages - 1) + 1).

Definition first_section (pt : mmu_pagetable) (vaddr : Z) : Z :=
  u32 (pt_addr pt + 4 * Z.shiftr vaddr 20).
Definition first_coarse (pt : mmu_pagetable) (vaddr : Z) : Z :=
  u32 (pt_addr pt + 4 * Z.shiftr (Z.land vaddr 0xff000) 12).

Definition section_pte (pt : mmu_pagetable) (r : mmu_region) : Z :=
  let pte := Z.land (r_paddr r) 0xfff00000 in
  let pte := Z.lor pte (Z.shiftl (Z.land (r_ap r) 0x3) 10) in
  let pte := Z.lor pte (Z.shiftl (Z.land (r_ap r) 0x4) 13) in
  let pte := Z.lor pte (Z.shiftl (Z.land (pt_dom pt) 0x7) 5) in
  let pte := Z.lor pte (Z.shiftl (Z.land (r_control r) 0x3) 16) in
  let pte := Z.lor pte (Z.land (r_control r) 0x10) in
  let pte := Z.lor pte (Z.shiftr (Z.land (r_control r) 0x60) 3) in
  let pte := Z.lor pte (Z.shiftl (Z.land (r_control r) 0x380) 5) in
  Z.lor pte MMU_PTE_SECTION.
Definition mmu_map_section_region (s : mmu) (pt : mmu_pagetable) (r : mmu_region) : mmu :=
  set_tables s (write_ptes (loop_count (r_num_pages r)) (tables s)
    (first_section pt (r_vaddr r)) (section_pte pt r) 20).

Definition coarse_pte (r : mmu_region) : Z :=
  let pte := Z.land (r_paddr r) 0xfffff000 in
  let pte := Z.lor pte (Z.shiftl (Z.land (r_ap r) 0x3) 4) in
  let pte := Z.lor pte (Z.shiftl (Z.land (r_ap r) 0x4) 7) in
  let pte := Z.lor pte (Z.shiftl (Z.land (r_control r) 0x3) 10) in
  let pte := Z.lor pte (Z.shiftr (Z.land (r_control r) 0x10) 4) in
  let pte := Z.lor pte (Z.shiftr (Z.land (r_control r) 0x60) 3) in
  let pte := Z.lor pte (Z.shiftr (Z.land (r_control r) 0x380) 1) in
  Z.lor pte 0x2.
Definition mmu_map_coarse_region (s : mmu) (pt : mmu_pagetable) (r : mmu_region) : mmu :=
  set_tables s (write_ptes (loop_count (r_num_pages r)) (tables s)
    (first_coarse pt (r_vaddr r)) (coarse_pte r) 12).

(** The page table of a region is an argument of its own; [None] is the failed
    assertion. *)
Definition mmu_map_region (s : mmu) (pt : mmu_pagetable) (r : mmu_region) : option (Z * mmu) :=
  if negb (0 <? r_num_pages r) then None
  else Some match pt_type pt with
  | MMU_PTT_MASTER => (0, mmu_map_section_region s pt r)
  | MMU_PTT_COARSE => (0, mmu_map_coarse_region s pt r)
  | MMU_PTT_FAULT => (- EINVAL, s)
  end.

Definition mmu_unmap_section_region (s : mmu) (pt : mmu_pagetable) (r : mmu_region) : mmu :=
  set_tables s (write_ptes (loop_count (r_num_pages r)) (tables s)
    (first_section pt (r_vaddr r)) MMU_PTE_FAULT 20).
Definition mmu_unmap_coarse_region (s : mmu) (pt : mmu_pagetable) (r : mmu_region) : mmu :=
  set_tables s (write_ptes (loop_count (r_num_pages r)) (tables s)
    (first_coarse pt (r_vaddr r)) MMU_PTE_FAULT 12).
Definition mmu_unmap_region (s : mmu) (pt : mmu_pagetable) (r : mmu_region) : Z * mmu :=
  match pt_type pt with
  | MMU_PTT_MASTER => (0, mmu_unmap_section_region s pt r)
  | MMU_PTT_COARSE => (0, mmu_unmap_coarse_region s pt r)
  | MMU_PTT_FAULT => (- EINVAL, s)
  end.

(** [for (j = 0; j < nr_tables; j++) ttb[i] = ...] of attach and detach; [e j]
    is the entry. *)
Fixpoint set_l1 (n : nat) (j : Z) (m : wmem) (pt : mmu_pagetable) (e : Z -> Z) : wmem :=
  match n with
  | O => m
  | S n =>
      let i := Z.shiftr (u32 (pt_vaddr pt + u32 (j * MMU_PGSIZE_SECTION))) 20 in
      set_l1 n (j + 1) (wset m (u32 (master_pt_addr pt + 4 * i)) (e j)) pt e
  end.
Definition l1_pte (pt : mmu_pagetable) (j : Z) : Z :=
  let pte := Z.land (u32 (pt_addr pt + u32 (j * MMU_PTSZ_COARSE))) 0xfffffc00 in
  let pte := Z.lor pte (u32 (Z.shiftl (pt_dom pt) 5)) in
  Z.lor pte MMU_PTE_COARSE.
Definition attach_coarse_pagetable (s : mmu) (pt : mmu_pagetable) : option mmu :=
  if negb (0 <? nr_tables pt) then None
  else Some (set_tables s (set_l1 (Z.to_nat (nr_tables pt)) 0 (tables s) pt (l1_pte pt))).

Definition mmu_attach_pagetable (s : mmu) (pt : mmu_pagetable) : option (Z * mmu) :=
  match pt_type pt with
  | MMU_PTT_MASTER => Some (0, set_ttbr0 s (master_pt_addr pt))
  | MMU_PTT_COARSE => s ← attach_coarse_pagetable s pt; Some (0, s)
  | MMU_PTT_FAULT => Some (- EINVAL, s)
  end.

Definition mmu_detach_pagetable (s : mmu) (pt : mmu_pagetable) : option (Z * mmu) :=
  if negb (0 <? nr_tables pt) then None
  else if decide (pt_type pt = MMU_PTT_MASTER) then Some (- EPERM, s)
  else Some (0, set_tables s (set_l1 (Z.to_nat (nr_tables pt)) 0 (tables s) pt
                                (fun _ => MMU_PTE_FAULT))).

(** 0 is NULL. *)
Definition mmu_translate_vaddr (s : mmu) (pt : mmu_pagetable) (vaddr : Z) : Z :=
  let offset := u32 (vaddr - pt_vaddr pt) in
  let finish page_size mask offset pte :=
    if page_size <? offset then 0 else u32 (Z.land pte mask + offset) in
  match pt_type pt with
  | MMU_PTT_MASTER =>
      let pte := tables s (u32 (pt_addr pt + 4 * Z.shiftr vaddr 20)) in
      if negb (Z.land pte MMU_PTE_SECTION =? MMU_PTE_SECTION) then 0
      else finish MMU_PGSIZE_SECTION 0xfff00000 (Z.land offset 0x000fffff) pte
  | MMU_PTT_COARSE =>
      let pte := tables s (u32 (pt_addr pt + 4 * Z.shiftr (Z.land vaddr 0x000ff000) 12)) in
      if Z.land pte 2 =? 0 then 0
      else finish MMU_PGSIZE_COARSE 0xfffff000 (Z.land offset 0x00000fff) pte
  | MMU_PTT_FAULT => 0
  end.

(** ** The functions of mmu.c *)

Definition table_count (pt : mmu_pagetable) : Z :=
  if nr_tables pt =? 0 then 1 else nr_tables pt.
Definition mmu_sizeof_pt (pt : mmu_pagetable) : Z :=
  match pt_type pt with
  | MMU_PTT_MASTER => u32 (table_count pt * MMU_PTSZ_MASTER)
  | MMU_PTT_COARSE => u32 (table_count pt * MMU_PTSZ_COARSE)
  | MMU_PTT_FAULT => 0
  end.
Definition mmu_sizeof_pt_img (pt : mmu_pagetable) : Z :=
  match pt_type pt with
  | MMU_PTT_MASTER => u32 (MMU_NR_SECTION_ENTR * MMU_PGSIZE_SECTION)
  | MMU_PTT_COARSE => u32 (table_count pt * MMU_PGSIZE_SECTION)
  | MMU_PTT_FAULT => 0
  end.
Definition mmu_sizeof_region (pt : option mmu_pagetable) (r : mmu_region) : Z :=
  match pt with
  | None => 0
  | Some pt =>
      match pt_type pt with
      | MMU_PTT_COARSE => u32 (r_num_pages r * MMU_PGSIZE_COARSE)
      | MMU_PTT_MASTER => u32 (r_num_pages r * MMU_PGSIZE_SECTION)
      | MMU_PTT_FAULT => 0
      end
  end.
Definition mmu_ptcpy (s : mmu) (dest src : mmu_pagetable) : Z * mmu :=
  let len_src := mmu_sizeof_pt src in
  let len_dest := mmu_sizeof_pt dest in
  if len_src =? 0 then (-1, s)
  else if len_dest =? 0 then (-2, s)
  else if negb (len_src =? len_dest) then (-3, s)
  else (0, set_tables s (wcopy (tables s) (pt_addr dest) (pt_addr src) len_src)).

(** The page fault counter: [_pf_raw_count], [mmu_pfps] and the static [count] of
    [mmu_calc_pfcps]. *)
Record pf_counter := PfCounter { pf_raw_count : Z; mmu_pfps : Z; pf_count : Z }.
Definition PFC_FSHIFT : Z := 11.
Definition PFC_FEXP_1 : Z := 753.
Definition PFC_FIXED_1 : Z := Z.shiftl 1 PFC_FSHIFT.
Definition CALC_PFC (avg n : Z) : Z :=
  Z.shiftr (u32 (u32 (avg * PFC_FEXP_1) + u32 (n * (PFC_FIXED_1 - PFC_FEXP_1)))) PFC_FSHIFT.
Definition mmu_pf_event (c : pf_counter) : pf_counter :=
  PfCounter (u32 (pf_raw_count c + 1)) (mmu_pfps c) (pf_count c).
(** [freq] is [PFC_FREQ], the configured frequency of the scheduler. *)
Definition mmu_calc_pfcps (freq : Z) (c : pf_counter) : pf_counter :=
  if pf_count c - 1 <? 0 then
    PfCounter 0 (CALC_PFC (mmu_pfps c) (u32 (pf_raw_count c * PFC_FIXED_1))) freq
  else PfCounter (pf_raw_count c) (mmu_pfps c) (pf_count c - 1).

(** ** What the processor does

    The result of a walk is a physical address with the permissions and the
    attributes of the page, in the encoding of [mmu_region_t]. *)

Record mapping := Mapping { mp_paddr : Z; mp_ap : Z; mp_control : Z }.

Definition section_ap (w : Z) : Z :=
  Z.lor (Z.land (Z.shiftr w 10) 3) (Z.shiftl (Z.land (Z.shiftr w 15) 1) 2).
Definition section_control (w : Z) : Z :=
  Z.lor (Z.lor (Z.lor (Z.land (Z.shiftr w 16) 3) (Z.land w 0x10))
    (Z.shiftl (Z.land (Z.shiftr w 2) 3) 5)) (Z.shiftl (Z.land (Z.shiftr w 12) 7) 7).
Definition small_ap (w : Z) : Z :=
  Z.lor (Z.land (Z.shiftr w 4) 3) (Z.shiftl (Z.land (Z.shiftr w 9) 1) 2).
Definition small_control (w : Z) : Z :=
  Z.lor (Z.lor (Z.lor (Z.land (Z.shiftr w 10) 3) (Z.shiftl (Z.land w 1) 4))
    (Z.shiftl (Z.land (Z.shiftr w 2) 3) 5)) (Z.shiftl (Z.land (Z.shiftr w 6) 7) 7).

Definition l1_addr (ttb va : Z) : Z := ttb + 4 * (va / 2 ^ 20).
Definition l2_base (w : Z) : Z := w / 2 ^ 10 * 2 ^ 10.
Definition l2_addr (w va : Z) : Z := l2_base w + 4 * (va / 2 ^ 12 mod 2 ^ 8).

Definition walk_section (w va : Z) : mapping :=
  Mapping (w / 2 ^ 20 * 2 ^ 20 + va mod 2 ^ 20) (section_ap (w mod 2 ^ 20))
    (section_control (w mod 2 ^ 20)).
Definition walk_small (w va : Z) : option mapping :=
  if Z.testbit w 1 then
    Some (Mapping (w / 2 ^ 12 * 2 ^ 12 + va mod 2 ^ 12) (small_ap (w mod 2 ^ 12))
            (small_control (w mod 2 ^ 12)))
  else None.
(** Bits 1:0 of the first level entry say what it is. *)
Definition walk (s : mmu) (va : Z) : option mapping :=
  let w := tables s (l1_addr (ttbr0 s) va) in
  if w mod 4 =? MMU_PTE_SECTION then Some (walk_section w va)
  else if w mod 4 =? MMU_PTE_COARSE then walk_small (tables s (l2_addr w va)) va
  else None.

(** ** Words and fields *)

Lemma land_mask_high w k : 0 <= k <= 32 -> 0 <= w < 2 ^ 32 ->
  Z.land w (2 ^ 32 - 2 ^ k) = w / 2 ^ k * 2 ^ k.
Proof.
  intros Hk Hw. rewrite <-Z.shiftl_mul_pow2, <-Z.shiftr_div_pow2 by lia.
  replace (2 ^ 32 - 2 ^ k) with (Z.shiftl (Z.ones (32 - k)) k).
  2: { rewrite Z.shiftl_mul_pow2, Z.ones_equiv by lia.
       replace 32 with (32 - k + k) at 2 by lia. rewrite Z.pow_add_r by lia. lia. }
  apply Z.bits_inj'. intros n Hn. rewrite Z.land_spec, !Z.shiftl_spec by lia.
  destruct (decide (n < k)).
  - rewrite (Z.testbit_neg_r _ (n - k)), (Z.testbit_neg_r _ (n - k)) by lia. apply andb_false_r.
  - rewrite Z.testbit_ones, Z.shiftr_spec by lia. replace (n - k + k) with n by lia.
    destruct (decide (n < 32)).
    + rewrite (proj2 (Z.leb_le _ _)), (proj2 (Z.ltb_lt _ _)) by lia. apply andb_true_r.
    + rewrite (testbit_high w n) by lia. done.
Qed.

Lemma land_mask_low w k : 0 <= k -> Z.land w (2 ^ k - 1) = w mod 2 ^ k.
Proof. intros. rewrite <-Z.land_ones by done. f_equal. rewrite Z.ones_equiv. lia. Qed.

Lemma lor_fields h l k : 0 <= k -> 0 <= l < 2 ^ k -> Z.lor (h * 2 ^ k) l = h * 2 ^ k + l.
Proof.
  intros Hk Hl. rewrite <-Z.add_lor_land. enough (Z.land (h * 2 ^ k) l = 0) as -> by lia.
  rewrite <-Z.shiftl_mul_pow2 by done. apply Z.bits_inj'. intros n Hn.
  rewrite Z.land_spec, Z.bits_0, Z.shiftl_spec by done. destruct (decide (n < k)).
  - by rewrite (Z.testbit_neg_r _ (n - k)) by lia.
  - rewrite <-(Z.mod_small l (2 ^ k)) by done.
    rewrite Z.mod_pow2_bits_high by lia. apply andb_false_r.
Qed.

(** A descriptor whose address is a multiple of [2 ^ k] and whose other fields
    are below, moved by [i] pages. *)
Lemma descr_split h l k i : 0 <= k -> 0 <= l < 2 ^ k ->
  let w := h * 2 ^ k + l + i * 2 ^ k in w / 2 ^ k = h + i /\ w mod 2 ^ k = l.
Proof.
  intros Hk Hl w. subst w. replace (h * 2 ^ k + l + i * 2 ^ k) with (l + (h + i) * 2 ^ k) by lia.
  split; [rewrite Z.div_add, Z.div_small by lia; lia|by rewrite Z.mod_add, Z.mod_small by lia].
Qed.

(** ** The entries of a region *)

Definition section_low (dom ap c : Z) : Z :=
  Z.lor (Z.lor (Z.lor (Z.lor (Z.lor (Z.lor (Z.lor
    (Z.shiftl (Z.land ap 0x3) 10) (Z.shiftl (Z.land ap 0x4) 13))
    (Z.shiftl (Z.land dom 0x7) 5)) (Z.shiftl (Z.land c 0x3) 16)) (Z.land c 0x10))
    (Z.shiftr (Z.land c 0x60) 3)) (Z.shiftl (Z.land c 0x380) 5)) MMU_PTE_SECTION.
Definition coarse_low (ap c : Z) : Z :=
  Z.lor (Z.lor (Z.lor (Z.lor (Z.lor (Z.lor
    (Z.shiftl (Z.land ap 0x3) 4) (Z.shiftl (Z.land ap 0x4) 7))
    (Z.shiftl (Z.land c 0x3) 10)) (Z.shiftr (Z.land c 0x10) 4))
    (Z.shiftr (Z.land c 0x60) 3)) (Z.shiftr (Z.land c 0x380) 1)) 0x2.

(** The bits of [control] that have a place in a descriptor. *)
Definition CTRL_MASK : Z := 0x3f3.

Lemma range_check (P : Z -> bool) n :
  forallb P (seqZ 0 n) = true -> forall x, 0 <= x < n -> P x = true.
Proof. intros HP x Hx. rewrite forallb_forall in HP. apply HP, list_elem_of_In, elem_of_seqZ. lia. Qed.

Definition coarse_low_ok (ap c : Z) : bool :=
  let w := coarse_low ap c in
  (0 <=? w) && (w <? 2 ^ 12) && Z.testbit w 1 && (small_ap w =? ap) &&
  (small_control w =? Z.land c CTRL_MASK).
Definition section_low_ok (dom ap c : Z) : bool :=
  let w := section_low dom ap c in
  (0 <=? w) && (w <? 2 ^ 20) && (w mod 4 =? 2) && (section_ap w =? ap) &&
  (section_control w =? Z.land c CTRL_MASK).

Lemma coarse_low_spec ap c : 0 <= ap < 8 -> 0 <= c < 1024 ->
  0 <= coarse_low ap c < 2 ^ 12 /\ Z.testbit (coarse_low ap c) 1 = true /\
  small_ap (coarse_low ap c) = ap /\ small_control (coarse_low ap c) = Z.land c CTRL_MASK.
Proof.
  intros Ha Hc.
  assert (coarse_low_ok ap c = true) as Hok.
  { revert c Hc. apply range_check. revert ap Ha. apply range_check. vm_compute. reflexivity. }
  unfold coarse_low_ok in Hok. rewrite !andb_true_iff in Hok.
  destruct Hok as ((((? & ?) & ?) & ?) & ?). split_and!; lia || done.
Qed.

Lemma section_low_spec dom ap c : 0 <= dom < 8 -> 0 <= ap < 8 -> 0 <= c < 1024 ->
  0 <= section_low dom ap c < 2 ^ 20 /\ section_low dom ap c mod 4 = 2 /\
  section_ap (section_low dom ap c) = ap /\
  section_control (section_low dom ap c) = Z.land c CTRL_MASK.
Proof.
  intros Hd Ha Hc.
  assert (section_low_ok dom ap c = true) as Hok.
  { revert c Hc. apply range_check. revert ap Ha. apply range_check.
    revert dom Hd. apply range_check. vm_compute. reflexivity. }
  unfold section_low_ok in Hok. rewrite !andb_true_iff in Hok.
  destruct Hok as ((((? & ?) & ?) & ?) & ?). split_and!; lia.
Qed.

Lemma coarse_pte_split r : 0 <= r_paddr r < 2 ^ 32 -> 0 <= r_ap r < 8 -> 0 <= r_control r < 1024 ->
  coarse_pte r = r_paddr r / 2 ^ 12 * 2 ^ 12 + coarse_low (r_ap r) (r_control r).
Proof.
  intros Hp Ha Hc. rewrite <-lor_fields by (try apply coarse_low_spec; done).
  rewrite <-land_mask_high by lia. unfold coarse_pte, coarse_low. by rewrite !Z.lor_assoc.
Qed.

Lemma section_pte_split pt r : 0 <= r_paddr r < 2 ^ 32 -> 0 <= pt_dom pt < 8 ->
  0 <= r_ap r < 8 -> 0 <= r_control r < 1024 ->
  section_pte pt r =
    r_paddr r / 2 ^ 20 * 2 ^ 20 + section_low (pt_dom pt) (r_ap r) (r_control r).
Proof.
  intros Hp Hd Ha Hc. rewrite <-lor_fields by (try apply section_low_spec; done).
  rewrite <-land_mask_high by lia. unfold section_pte, section_low. by rewrite !Z.lor_assoc.
Qed.

(** ** Loops over tables *)

Lemma wset_eq m a v : wset m a v a = v.
Proof. unfold wset. by rewrite Z.eqb_refl. Qed.
Lemma wset_ne m a v x : x <> a -> wset m a v x = m x.
Proof. intros ?. unfold wset. by rewrite (proj2 (Z.eqb_neq _ _)). Qed.

Lemma write_ptes_out n m p pte sh x : 0 <= p -> p + 4 * Z.of_nat n <= 2 ^ 32 ->
  (forall i, 0 <= i < Z.of_nat n -> x <> p + 4 * i) -> write_ptes n m p pte sh x = m x.
Proof.
  revert m. induction n as [|n IH]; intros m Hp Hn Hx; [done|]. cbn [write_ptes].
  rewrite IH by (try lia; intros i Hi; apply Hx; lia).
  rewrite u32_small by lia. apply wset_ne, Hx. lia.
Qed.

Lemma write_ptes_in n m p pte sh i : 0 <= p -> p + 4 * Z.of_nat n <= 2 ^ 32 ->
  0 <= i < Z.of_nat n -> write_ptes n m p pte sh (p + 4 * i) = u32 (pte + Z.shiftl i sh).
Proof.
  revert m. induction n as [|n IH]; intros m Hp Hn Hi; [lia|]. cbn [write_ptes].
  destruct (decide (i = Z.of_nat n)) as [->|].
  - rewrite write_ptes_out by lia. rewrite (u32_small (p + _)) by lia. apply wset_eq.
  - apply IH; lia.
Qed.

Lemma loop_count_eq n : 0 <= n <= 2 ^ 31 -> Z.of_nat (loop_count n) = n.
Proof. intros Hn. unfold loop_count, s32. zcase; dlia. Qed.

(** The entries of the first level that a page table has. *)
Definition l1_slot (pt : mmu_pagetable) (j : Z) : Z :=
  l1_addr (master_pt_addr pt) (pt_vaddr pt + j * 2 ^ 20).
Definition fits (pt : mmu_pagetable) : Prop :=
  0 <= master_pt_addr pt /\ master_pt_addr pt + MMU_PTSZ_MASTER <= 2 ^ 32 /\
  0 <= pt_vaddr pt /\ pt_vaddr pt mod 2 ^ 20 = 0 /\ 0 < nr_tables pt /\
  pt_vaddr pt + nr_tables pt * 2 ^ 20 <= 2 ^ 32 /\
  0 < pt_addr pt /\ pt_addr pt mod 2 ^ 10 = 0 /\
  pt_addr pt + nr_tables pt * 2 ^ 10 < 2 ^ 32 /\ 0 <= pt_dom pt < 8.

Lemma l1_slot_eq pt j : fits pt -> 0 <= j < nr_tables pt ->
  u32 (master_pt_addr pt +
    4 * Z.shiftr (u32 (pt_vaddr pt + u32 (j * MMU_PGSIZE_SECTION))) 20) = l1_slot pt j /\
  l1_slot pt j = master_pt_addr pt + 4 * (pt_vaddr pt / 2 ^ 20 + j) /\
  0 <= l1_slot pt j - master_pt_addr pt < MMU_PTSZ_MASTER.
Proof.
  intros (? & ? & ? & ? & ? & ? & _) Hj. unfold l1_slot, l1_addr.
  unfold MMU_PGSIZE_SECTION, MMU_PTSZ_MASTER in *.
  rewrite (u32_small (j * _)), (u32_small (pt_vaddr pt + _)), Z.shiftr_div_pow2 by lia.
  rewrite Z.div_add by lia. replace 1048576 with (2 ^ 20) by done. rewrite Z.div_add by lia.
  rewrite u32_small; dlia.
Qed.

Lemma set_l1_out n j m pt e x : fits pt -> 0 <= j -> j + Z.of_nat n <= nr_tables pt ->
  (forall k, j <= k < j + Z.of_nat n -> x <> l1_slot pt k) -> set_l1 n j m pt e x = m x.
Proof.
  intros Hf. revert j m. induction n as [|n IH]; intros j m Hj Hn Hx; [done|]. cbn [set_l1].
  rewrite IH by (try lia; intros k Hk; apply Hx; lia).
  destruct (l1_slot_eq pt j Hf) as [-> _]; [lia|]. apply wset_ne, Hx. lia.
Qed.

Lemma set_l1_in n j m pt e k : fits pt -> 0 <= j -> j + Z.of_nat n <= nr_tables pt ->
  j <= k < j + Z.of_nat n -> set_l1 n j m pt e (l1_slot pt k) = e k.
Proof.
  intros Hf. revert j m. induction n as [|n IH]; intros j m Hj Hn Hk; [lia|]. cbn [set_l1].
  destruct (decide (k = j)) as [->|]; [|apply IH; lia].
  rewrite set_l1_out; [|done|lia|lia|].
  - destruct (l1_slot_eq pt j Hf) as [-> _]; [lia|]. apply wset_eq.
  - intros i Hi. destruct (l1_slot_eq pt j Hf) as (_ & -> & _); [lia|].
    destruct (l1_slot_eq pt i Hf) as (_ & -> & _); lia.
Qed.

Lemma set_l1_words n j m pt e : (forall x, 0 <= m x < 2 ^ 32) ->
  (forall k, j <= k < j + Z.of_nat n -> 0 <= e k < 2 ^ 32) ->
  forall x, 0 <= set_l1 n j m pt e x < 2 ^ 32.
Proof.
  revert j m. induction n as [|n IH]; intros j m Hm He; [done|]. cbn [set_l1].
  apply IH; [|intros; apply He; lia]. intros y. unfold wset. case_match; [apply He; lia|apply Hm].
Qed.

(** ** Filling a new table *)

Lemma stm4_eq m p v x : 0 <= p -> p + 16 <= 2 ^ 32 -> p mod 4 = 0 -> x mod 4 = 0 ->
  stm4 m p v x = if (p <=? x) && (x <? p + 16) then v else m x.
Proof.
  intros Hp Hn Ha Hx. unfold stm4, wset.
  destruct (decide (p + 16 = 2 ^ 32)) as [E|]; rewrite !u32_small by lia;
  repeat (destruct (Z.eqb_spec x _); [repeat (zcase; simpl; try done); dlia|]);
  repeat (zcase; simpl; try done); dlia.
Qed.

Lemma stm_rep_eq k m p v x : 0 <= p -> p + 16 * Z.of_nat k <= 2 ^ 32 - 16 ->
  p mod 4 = 0 -> x mod 4 = 0 ->
  stm_rep k m p v x = if (p <=? x) && (x <? p + 16 * Z.of_nat k) then v else m x.
Proof.
  revert m p. induction k as [|k IH]; intros m p Hp Hn Ha Hx; cbn [stm_rep].
  - repeat (zcase; simpl; try done); lia.
  - rewrite u32_small, IH, stm4_eq by first [lia|dlia].
    repeat (zcase; simpl; try done); lia.
Qed.

Lemma init_loop_eq n m p v x : 0 <= p -> p + 128 * Z.of_nat n < 2 ^ 32 ->
  p mod 128 = 0 -> x mod 4 = 0 ->
  init_loop n m p v x = if (p <=? x) && (x <? p + 128 * Z.of_nat n) then v else m x.
Proof.
  revert m p. induction n as [|n IH]; intros m p Hp Hn Ha Hx; cbn [init_loop].
  - repeat (zcase; simpl; try done); lia.
  - rewrite u32_small, IH by first [lia|dlia].
    destruct (decide (p + 128 = 2 ^ 32)); [lia|]. rewrite stm_rep_eq by first [lia|dlia].
    repeat (zcase; simpl; try done); lia.
Qed.

(** ** Page tables in use

    [pt_inv s pt]: the processor reaches the tables of the coarse page table [pt]
    through the first level entries of its range and through no other. *)

Definition in_image (pt : mmu_pagetable) (va : Z) : Prop :=
  pt_vaddr pt <= va < pt_vaddr pt + nr_tables pt * 2 ^ 20.
Definition attached (s : mmu) (pt : mmu_pagetable) : Prop :=
  forall j, 0 <= j < nr_tables pt ->
    tables s (l1_slot pt j) mod 4 = MMU_PTE_COARSE /\
    l2_base (tables s (l1_slot pt j)) = pt_addr pt + j * 2 ^ 10.

Record pt_ready (s : mmu) (pt : mmu_pagetable) : Prop := {
  pi_fits : fits pt;
  pi_type : pt_type pt = MMU_PTT_COARSE;
  pi_ttb : ttbr0 s = master_pt_addr pt;
  pi_words : forall x, 0 <= tables s x < 2 ^ 32;
  pi_apart : pt_addr pt + nr_tables pt * 2 ^ 10 <= master_pt_addr pt \/
    master_pt_addr pt + MMU_PTSZ_MASTER <= pt_addr pt;
  pi_private : forall va, 0 <= va < 2 ^ 32 -> ~ in_image pt va ->
    let w := tables s (l1_addr (ttbr0 s) va) in w mod 4 = MMU_PTE_COARSE ->
    l2_base w + 2 ^ 10 <= pt_addr pt \/ pt_addr pt + nr_tables pt * 2 ^ 10 <= l2_base w;
  pi_master : forall va, 0 <= va < 2 ^ 32 -> ~ in_image pt va ->
    let w := tables s (l1_addr (ttbr0 s) va) in w mod 4 = MMU_PTE_COARSE ->
    l2_base w + 2 ^ 10 <= master_pt_addr pt \/
    master_pt_addr pt + MMU_PTSZ_MASTER <= l2_base w
}.
Record pt_inv (s : mmu) (pt : mmu_pagetable) : Prop := {
  pi_ready :> pt_ready s pt;
  pi_attached : attached s pt
}.

(** A region of small pages that starts in the first megabyte of its page table
    and ends in it. *)
Record region_ok (pt : mmu_pagetable) (r : mmu_region) : Prop := {
  ro_pages : 0 < r_num_pages r;
  ro_vaddr : r_vaddr r mod 2 ^ 12 = 0;
  ro_first : pt_vaddr pt <= r_vaddr r < pt_vaddr pt + 2 ^ 20;
  ro_last : r_vaddr r + r_num_pages r * 2 ^ 12 <= pt_vaddr pt + nr_tables pt * 2 ^ 20;
  ro_paddr : 0 <= r_paddr r /\ r_paddr r mod 2 ^ 12 = 0 /\
    r_paddr r + r_num_pages r * 2 ^ 12 <= 2 ^ 32;
  ro_ap : 0 <= r_ap r < 8;
  ro_control : 0 <= r_control r < 1024
}.
Definition in_region (r : mmu_region) (va : Z) : Prop :=
  r_vaddr r <= va < r_vaddr r + r_num_pages r * 2 ^ 12.

Lemma walk_attached s pt va : fits pt -> ttbr0 s = master_pt_addr pt -> attached s pt ->
  in_image pt va ->
  walk s va = walk_small (tables s (pt_addr pt + 4 * ((va - pt_vaddr pt) / 2 ^ 12))) va.
Proof.
  intros Hf Htt Hat Hva. unfold in_image in Hva.
  pose proof Hf as (? & ? & ? & Hv & ? & ? & _).
  set (j := (va - pt_vaddr pt) / 2 ^ 20).
  assert (0 <= j < nr_tables pt) as Hj by (unfold j; dlia).
  assert (l1_addr (ttbr0 s) va = l1_slot pt j) as E.
  { rewrite Htt. destruct (l1_slot_eq pt j Hf Hj) as (_ & -> & _). unfold l1_addr, j. dlia. }
  destruct (Hat j Hj) as [Hm Hb]. unfold walk. rewrite E, Hm. cbn.
  unfold l2_addr. rewrite Hb. f_equal. f_equal. unfold j. dlia.
Qed.

Lemma walk_in_image s pt va : pt_inv s pt -> in_image pt va ->
  walk s va = walk_small (tables s (pt_addr pt + 4 * ((va - pt_vaddr pt) / 2 ^ 12))) va.
Proof. intros Hi. apply walk_attached; apply Hi. Qed.

Lemma attached_same s s' pt : fits pt -> attached s pt ->
  (forall x, master_pt_addr pt <= x < master_pt_addr pt + MMU_PTSZ_MASTER ->
    tables s' x = tables s x) -> attached s' pt.
Proof.
  intros Hf Hat Hs j Hj. destruct (l1_slot_eq pt j Hf Hj) as (_ & _ & ?).
  rewrite Hs by lia. by apply Hat.
Qed.

Lemma first_coarse_eq pt r : fits pt -> region_ok pt r ->
  first_coarse pt (r_vaddr r) = pt_addr pt + 4 * ((r_vaddr r - pt_vaddr pt) / 2 ^ 12) /\
  (r_vaddr r - pt_vaddr pt) / 2 ^ 12 + r_num_pages r <= nr_tables pt * 2 ^ 8 /\
  0 <= (r_vaddr r - pt_vaddr pt) / 2 ^ 12 < 2 ^ 8.
Proof.
  intros (? & ? & ? & Hv & ? & ? & ? & ? & ? & _) [].
  assert (Z.shiftr (Z.land (r_vaddr r) 0xff000) 12 = (r_vaddr r - pt_vaddr pt) / 2 ^ 12) as E.
  { rewrite Z.shiftr_land. change (Z.shiftr 0xff000 12) with (2 ^ 8 - 1).
    rewrite land_mask_low, Z.shiftr_div_pow2 by lia. dlia. }
  unfold first_coarse. rewrite E. split_and!; [rewrite u32_small; dlia|dlia..].
Qed.

Section update.
Context (s : mmu) (pt : mmu_pagetable) (r : mmu_region).
Context (Hi : pt_inv s pt) (Hr : region_ok pt r) (pte : Z).
Let k0 := (r_vaddr r - pt_vaddr pt) / 2 ^ 12.
Let s' := set_tables s (write_ptes (loop_count (r_num_pages r)) (tables s)
  (first_coarse pt (r_vaddr r)) pte 12).

Lemma update_bounds : Z.of_nat (loop_count (r_num_pages r)) = r_num_pages r /\
  first_coarse pt (r_vaddr r) = pt_addr pt + 4 * k0 /\ 0 <= k0 /\
  k0 + r_num_pages r <= nr_tables pt * 2 ^ 8.
Proof.
  pose proof (pi_fits _ _ Hi) as Hf. destruct (first_coarse_eq pt r Hf Hr) as (? & ? & ?).
  destruct Hf as (? & ? & ? & ? & ? & ? & ? & ? & ? & _). pose proof (ro_pages _ _ Hr).
  split_and!; try (unfold k0; lia). apply loop_count_eq. lia.
Qed.

Lemma update_out x :
  (x < pt_addr pt + 4 * k0 \/ pt_addr pt + 4 * (k0 + r_num_pages r) <= x) ->
  tables s' x = tables s x.
Proof.
  intros Hx. destruct update_bounds as (E1 & E2 & ? & ?).
  pose proof (pi_fits _ _ Hi) as (? & ? & ? & ? & ? & ? & ? & ? & ? & _).
  unfold s'. cbn [tables set_tables]. rewrite E2. apply write_ptes_out; [lia..|].
  intros i Hlt. rewrite E1 in Hlt. lia.
Qed.

Lemma update_slot k : tables s' (pt_addr pt + 4 * k) =
  if (k0 <=? k) && (k <? k0 + r_num_pages r) then u32 (pte + Z.shiftl (k - k0) 12)
  else tables s (pt_addr pt + 4 * k).
Proof.
  destruct update_bounds as (E1 & E2 & ? & ?).
  pose proof (pi_fits _ _ Hi) as (? & ? & ? & ? & ? & ? & ? & ? & ? & _).
  destruct (Z.leb_spec k0 k), (Z.ltb_spec k (k0 + r_num_pages r)); simpl; try (apply update_out; lia).
  unfold s'. cbn [tables set_tables]. rewrite E2.
  replace (pt_addr pt + 4 * k) with (pt_addr pt + 4 * k0 + 4 * (k - k0)) by lia.
  apply write_ptes_in; lia.
Qed.

Lemma update_words x : 0 <= tables s' x < 2 ^ 32.
Proof.
  pose proof (pi_words _ _ Hi) as Hw. unfold s'. cbn [tables set_tables].
  generalize (loop_count (r_num_pages r)) (first_coarse pt (r_vaddr r)). intros n p.
  revert Hw. generalize (tables s). induction n as [|n IH]; intros m Hw; [apply Hw|].
  cbn [write_ptes]. apply IH. intros y. unfold wset. case_match; [apply u32_range|apply Hw].
Qed.

(** The first level is not changed. *)
Lemma update_l1 x : master_pt_addr pt <= x < master_pt_addr pt + MMU_PTSZ_MASTER ->
  tables s' x = tables s x.
Proof.
  intros Hx. destruct update_bounds as (_ & _ & ? & ?). apply update_out.
  destruct (pi_apart _ _ Hi); lia.
Qed.

Lemma l1_addr_range va : 0 <= va < 2 ^ 32 ->
  master_pt_addr pt <= l1_addr (ttbr0 s) va < master_pt_addr pt + MMU_PTSZ_MASTER.
Proof. intros. rewrite (pi_ttb _ _ Hi). unfold l1_addr, MMU_PTSZ_MASTER. dlia. Qed.

Lemma update_inv : pt_inv s' pt.
Proof.
  pose proof Hi as [[Hf Ht Htt _ Hap Hpr Hma] Hat]. split; [split; try done; [apply update_words|..]|].
  1,2: intros va Hva Hni w; subst w; change (ttbr0 s') with (ttbr0 s);
    rewrite update_l1 by (by apply l1_addr_range); by (apply Hpr || apply Hma).
  intros j Hj. destruct (l1_slot_eq pt j Hf Hj) as (_ & _ & ?). rewrite update_l1 by lia. by apply Hat.
Qed.

Lemma update_walk_in va : in_region r va ->
  walk s' va = walk_small (u32 (pte + Z.shiftl ((va - r_vaddr r) / 2 ^ 12) 12)) va.
Proof.
  intros Hva. unfold in_region in Hva. pose proof (pi_fits _ _ Hi) as (_ & _ & _ & ? & _).
  pose proof Hr as []. rewrite (walk_in_image s' pt va update_inv); [|unfold in_image; lia].
  rewrite update_slot. unfold k0.
  repeat zcase; simpl; try (exfalso; dlia). do 4 f_equal. dlia.
Qed.

Lemma update_walk_out va : 0 <= va < 2 ^ 32 -> ~ in_region r va -> walk s' va = walk s va.
Proof.
  intros Hva Hni. unfold in_region in Hni. pose proof (pi_fits _ _ Hi) as (_ & _ & _ & ? & _).
  pose proof Hr as []. destruct (decide (in_image pt va)) as [Him|Him].
  - rewrite (walk_in_image s' pt va update_inv Him), (walk_in_image s pt va Hi Him), update_slot.
    unfold in_image in Him. unfold k0.
    repeat zcase; simpl; try done. exfalso. dlia.
  - unfold walk. change (ttbr0 s') with (ttbr0 s).
    rewrite update_l1 by by apply l1_addr_range.
    destruct (Z.eqb_spec (tables s (l1_addr (ttbr0 s) va) mod 4) MMU_PTE_SECTION); [done|].
    destruct (Z.eqb_spec (tables s (l1_addr (ttbr0 s) va) mod 4) MMU_PTE_COARSE) as [Hc|]; [|done].
    f_equal. apply update_out. destruct update_bounds as (_ & _ & ? & ?).
    pose proof (pi_private _ _ Hi va Hva Him Hc). unfold l2_addr. dlia.
Qed.
End update.

Lemma mmu_map_coarse_eq s pt r : pt_inv s pt -> region_ok pt r ->
  mmu_map_region s pt r = Some (0, mmu_map_coarse_region s pt r).
Proof.
  intros Hi Hr. unfold mmu_map_region. pose proof (ro_pages _ _ Hr). zcase; [|lia].
  cbn. by rewrite (pi_type _ _ Hi).
Qed.

(** What [mmu_translate_vaddr] reads is what the processor finds. *)
Lemma translate_spec s pt va : pt_inv s pt ->
  pt_vaddr pt <= va < pt_vaddr pt + 2 ^ 20 ->
  mmu_translate_vaddr s pt va =
    match walk s va with Some m => u32 (mp_paddr m) | None => 0 end.
Proof.
  intros Hi Hva. pose proof (pi_fits _ _ Hi) as (? & ? & ? & Hv & Hn & ? & ? & ? & ? & _).
  rewrite (walk_in_image s pt va Hi) by (unfold in_image; lia).
  unfold mmu_translate_vaddr. rewrite (pi_type _ _ Hi).
  assert (Z.shiftr (Z.land va 0x000ff000) 12 = (va - pt_vaddr pt) / 2 ^ 12) as ->.
  { rewrite Z.shiftr_land. change (Z.shiftr 0x000ff000 12) with (2 ^ 8 - 1).
    rewrite land_mask_low, Z.shiftr_div_pow2 by lia. dlia. }
  rewrite (u32_small (pt_addr pt + _)) by dlia.
  set (w := tables s _). pose proof (pi_words _ _ Hi : forall x, 0 <= tables s x < 2 ^ 32) as Hw.
  specialize (Hw (pt_addr pt + 4 * ((va - pt_vaddr pt) / 2 ^ 12))). fold w in Hw.
  change 2 with (shl1 1). rewrite land_shl1_eqb by lia. unfold walk_small.
  destruct (Z.testbit w 1); [|done]. cbn [negb mp_paddr].
  change 0x00000fff with (2 ^ 12 - 1). rewrite land_mask_low by lia.
  unfold MMU_PGSIZE_COARSE. zcase; [dlia|].
  change 0xfffff000 with (2 ^ 32 - 2 ^ 12). rewrite land_mask_high by lia.
  f_equal. f_equal. unfold u32. dlia.
Qed.

Lemma map_walk_in s pt r va : pt_inv s pt -> region_ok pt r -> in_region r va ->
  walk (mmu_map_coarse_region s pt r) va =
    Some (Mapping (r_paddr r + (va - r_vaddr r)) (r_ap r) (Z.land (r_control r) CTRL_MASK)).
Proof.
  intros Hinv Hr Hva. unfold mmu_map_coarse_region. rewrite update_walk_in by done.
  unfold in_region in Hva. pose proof Hr as [].
  destruct (coarse_low_spec (r_ap r) (r_control r)) as (Hl & Hb & Ha & Hc); [lia..|].
  rewrite coarse_pte_split, Z.shiftl_mul_pow2 by lia.
  destruct (descr_split (r_paddr r / 2 ^ 12) (coarse_low (r_ap r) (r_control r)) 12
              ((va - r_vaddr r) / 2 ^ 12)) as [E1 E2]; [lia..|].
  rewrite u32_small by dlia. unfold walk_small. rewrite E1, E2, Ha, Hc.
  rewrite <-(Z.mod_pow2_bits_low _ 12 1) by lia. rewrite E2, Hb. do 2 f_equal. dlia.
Qed.

Lemma unmap_walk_in s pt r va : pt_inv s pt -> region_ok pt r -> in_region r va ->
  walk (mmu_unmap_coarse_region s pt r) va = None.
Proof.
  intros Hinv Hr Hva. unfold mmu_unmap_coarse_region. rewrite update_walk_in by done.
  unfold walk_small. rewrite u32_testbit, Z.shiftl_mul_pow2 by lia. unfold MMU_PTE_FAULT.
  rewrite Z.add_0_l. by rewrite Z.mul_pow2_bits_low by lia.
Qed.

(** ** Mapping and unmapping *)



(** Sections of the master page table. *)
Record section_ok (pt : mmu_pagetable) (r : mmu_region) : Prop := {
  so_pages : 0 < r_num_pages r;
  so_vaddr : 0 <= r_vaddr r /\ r_vaddr r mod 2 ^ 20 = 0 /\
    r_vaddr r + r_num_pages r * 2 ^ 20 <= 2 ^ 32;
  so_paddr : 0 <= r_paddr r /\ r_paddr r mod 2 ^ 20 = 0 /\
    r_paddr r + r_num_pages r * 2 ^ 20 <= 2 ^ 32;
  so_ap : 0 <= r_ap r < 8;
  so_control : 0 <= r_control r < 1024
}.
Definition in_sections (r : mmu_region) (va : Z) : Prop :=
  r_vaddr r <= va < r_vaddr r + r_num_pages r * 2 ^ 20.
Record master_inv (s : mmu) (pt : mmu_pagetable) : Prop := {
  mi_type : pt_type pt = MMU_PTT_MASTER;
  mi_ttb : ttbr0 s = pt_addr pt;
  mi_fits : 0 <= pt_addr pt /\ pt_addr pt + MMU_PTSZ_MASTER <= 2 ^ 32;
  mi_dom : 0 <= pt_dom pt < 8;
  mi_private : forall va, 0 <= va < 2 ^ 32 ->
    let w := tables s (l1_addr (ttbr0 s) va) in w mod 4 = MMU_PTE_COARSE ->
    l2_base w + 2 ^ 10 <= pt_addr pt \/ pt_addr pt + MMU_PTSZ_MASTER <= l2_base w
}.

Section master_update.
Context (s : mmu) (pt : mmu_pagetable) (r : mmu_region).
Context (Hi : master_inv s pt) (Hr : section_ok pt r) (pte : Z).
Let s' := set_tables s (write_ptes (loop_count (r_num_pages r)) (tables s)
  (first_section pt (r_vaddr r)) pte 20).

Lemma master_bounds : first_section pt (r_vaddr r) = pt_addr pt + 4 * (r_vaddr r / 2 ^ 20) /\
  Z.of_nat (loop_count (r_num_pages r)) = r_num_pages r.
Proof.
  pose proof (mi_fits _ _ Hi) as [? ?]. pose proof Hr as [? (? & ? & ?) _ _ _].
  unfold MMU_PTSZ_MASTER in *. split; [|apply loop_count_eq; lia].
  unfold first_section. rewrite Z.shiftr_div_pow2, u32_small by (try lia; dlia). done.
Qed.

Lemma master_slot k : tables s' (pt_addr pt + 4 * k) =
  if (r_vaddr r / 2 ^ 20 <=? k) && (k <? r_vaddr r / 2 ^ 20 + r_num_pages r)
  then u32 (pte + Z.shiftl (k - r_vaddr r / 2 ^ 20) 20) else tables s (pt_addr pt + 4 * k).
Proof.
  pose proof (mi_fits _ _ Hi) as [? ?]. pose proof Hr as [? (? & ? & ?) _ _ _].
  destruct master_bounds as [E1 E]. unfold MMU_PTSZ_MASTER in *. unfold s'. cbn [tables set_tables].
  rewrite E1.
  destruct (Z.leb_spec (r_vaddr r / 2 ^ 20) k), (Z.ltb_spec k (r_vaddr r / 2 ^ 20 + r_num_pages r));
    simpl; try (apply write_ptes_out; rewrite ?E; [dlia..|intros; lia]).
  replace (pt_addr pt + 4 * k) with (pt_addr pt + 4 * (r_vaddr r / 2 ^ 20) + 4 * (k - r_vaddr r / 2 ^ 20)) by lia.
  apply write_ptes_in; rewrite ?E; [dlia..|lia].
Qed.

Lemma master_out x : x < pt_addr pt \/ pt_addr pt + MMU_PTSZ_MASTER <= x ->
  tables s' x = tables s x.
Proof.
  intros Hx. pose proof (mi_fits _ _ Hi) as [? ?]. pose proof Hr as [? (? & ? & ?) _ _ _].
  destruct master_bounds as [E1 E]. unfold MMU_PTSZ_MASTER in *. unfold s'. cbn [tables set_tables].
  rewrite E1.
  apply write_ptes_out; rewrite ?E; [dlia..|intros; dlia].
Qed.

Lemma master_walk_out va : 0 <= va < 2 ^ 32 -> ~ in_sections r va -> walk s' va = walk s va.
Proof.
  intros Hva Hni. unfold in_sections in Hni. pose proof Hr as [? (? & ? & ?) _ _ _].
  pose proof (mi_private _ _ Hi va Hva) as Hp. cbv zeta in Hp.
  unfold walk. change (ttbr0 s') with (ttbr0 s). rewrite (mi_ttb _ _ Hi) in *. unfold l1_addr in *.
  rewrite master_slot. replace ((_ <=? _) && _) with false by (repeat (zcase; try done); dlia).
  destruct (Z.eqb_spec (tables s (pt_addr pt + 4 * (va / 2 ^ 20)) mod 4) MMU_PTE_SECTION); [done|].
  destruct (Z.eqb_spec (tables s (pt_addr pt + 4 * (va / 2 ^ 20)) mod 4) MMU_PTE_COARSE) as [Hc|]; [|done].
  f_equal. apply master_out. specialize (Hp Hc). unfold l2_addr, MMU_PTSZ_MASTER in *. dlia.
Qed.

Lemma master_l1 va : in_sections r va -> tables s' (l1_addr (ttbr0 s') va) =
  u32 (pte + Z.shiftl ((va - r_vaddr r) / 2 ^ 20) 20).
Proof.
  intros Hva. unfold in_sections in Hva. pose proof Hr as [? (? & ? & ?) _ _ _].
  change (ttbr0 s') with (ttbr0 s). rewrite (mi_ttb _ _ Hi). unfold l1_addr. rewrite master_slot.
  replace ((_ <=? _) && _) with true by (repeat (zcase; try done); dlia).
  do 3 f_equal. dlia.
Qed.
End master_update.

(** The same for sections: what [dynmem_alloc_region] maps. *)
Theorem mmu_map_sections (s : mmu) (pt : mmu_pagetable) (r : mmu_region)
    (Hinv : master_inv s pt) (Hr : section_ok pt r) :
  exists s', mmu_map_region s pt r = Some (0, s') /\
    (forall va, in_sections r va ->
      walk s' va = Some (Mapping (r_paddr r + (va - r_vaddr r)) (r_ap r)
                           (Z.land (r_control r) CTRL_MASK))) /\
    (forall va, 0 <= va < 2 ^ 32 -> ~ in_sections r va -> walk s' va = walk s va).
Proof.
  exists (mmu_map_section_region s pt r). split.
  { unfold mmu_map_region. pose proof (so_pages _ _ Hr). zcase; [|lia]. cbn. by rewrite (mi_type _ _ Hinv). }
  split; [|intros; by apply master_walk_out].
  intros va Hva. unfold walk, mmu_map_section_region. rewrite master_l1 by done.
  unfold in_sections in Hva. pose proof Hr as [? (? & ? & ?) (? & ? & ?) ? ?]. pose proof (mi_dom _ _ Hinv).
  destruct (section_low_spec (pt_dom pt) (r_ap r) (r_control r)) as (Hl & Hb & Ha & Hc); [lia..|].
  rewrite section_pte_split, Z.shiftl_mul_pow2 by lia.
  destruct (descr_split (r_paddr r / 2 ^ 20) (section_low (pt_dom pt) (r_ap r) (r_control r)) 20
              ((va - r_vaddr r) / 2 ^ 20)) as [E1 E2]; [lia..|].
  rewrite u32_small by dlia. unfold walk_section. rewrite E1, E2, Ha, Hc.
  match goal with |- context [?w mod 4] => replace (w mod 4) with 2 by dlia end.
  cbn. do 2 f_equal. dlia.
Qed.

Theorem mmu_unmap_sections (s : mmu) (pt : mmu_pagetable) (r : mmu_region)
    (Hinv : master_inv s pt) (Hr : section_ok pt r) :
  exists s', mmu_unmap_region s pt r = (0, s') /\
    (forall va, in_sections r va -> walk s' va = None) /\
    (forall va, 0 <= va < 2 ^ 32 -> ~ in_sections r va -> walk s' va = walk s va).
Proof.
  exists (mmu_unmap_section_region s pt r).
  split; [unfold mmu_unmap_region; by rewrite (mi_type _ _ Hinv)|].
  split; [|intros; by apply master_walk_out].
  intros va Hva. unfold walk, mmu_unmap_section_region. rewrite master_l1 by done.
  rewrite Z.shiftl_mul_pow2 by lia. unfold MMU_PTE_FAULT. rewrite Z.add_0_l.
  match goal with |- context [?w mod 4] => replace (w mod 4) with 0 by (unfold u32; dlia) end. done.
Qed.

(** ** Attaching and detaching *)

Lemma l1_pte_spec pt j : fits pt -> 0 <= j < nr_tables pt ->
  l1_pte pt j mod 4 = MMU_PTE_COARSE /\ l2_base (l1_pte pt j) = pt_addr pt + j * 2 ^ 10 /\
  0 <= l1_pte pt j < 2 ^ 32.
Proof.
  intros (_ & _ & _ & _ & _ & ? & ? & ? & ? & Hd) Hj. unfold l1_pte, MMU_PTSZ_COARSE, MMU_PTE_COARSE.
  assert (0 <= Z.lor (u32 (Z.shiftl (pt_dom pt) 5)) 1 < 2 ^ 10 /\
    Z.lor (u32 (Z.shiftl (pt_dom pt) 5)) 1 mod 4 = 1) as [Hl Hm].
  { set (P d := let l := Z.lor (u32 (Z.shiftl d 5)) 1 in (0 <=? l) && (l <? 2 ^ 10) && (l mod 4 =? 1)).
    assert (P (pt_dom pt) = true) as HP by (revert Hd; generalize (pt_dom pt); by apply range_check).
    unfold P in HP. rewrite !andb_true_iff in HP. lia. }
  rewrite (u32_small (j * 0x400)), (u32_small (pt_addr pt + _)) by lia.
  change 0xfffffc00 with (2 ^ 32 - 2 ^ 10). rewrite land_mask_high, <-Z.lor_assoc, lor_fields by lia.
  unfold l2_base. dlia.
Qed.

Section l1.
Context (s : mmu) (pt : mmu_pagetable) (Hi : pt_ready s pt) (e : Z -> Z).
Let s' := set_tables s (set_l1 (Z.to_nat (nr_tables pt)) 0 (tables s) pt e).

Lemma l1_in j : 0 <= j < nr_tables pt -> tables s' (l1_slot pt j) = e j.
Proof. intros. apply set_l1_in; [apply Hi|lia..]. Qed.

Lemma l1_out x : (forall j, 0 <= j < nr_tables pt -> x <> l1_slot pt j) -> tables s' x = tables s x.
Proof.
  intros Hx. pose proof (pi_fits _ _ Hi) as (_ & _ & _ & _ & ? & _).
  apply set_l1_out; [apply Hi|lia..|]. intros j Hj. apply Hx. lia.
Qed.

Lemma l1_slot_of va : in_image pt va ->
  l1_addr (ttbr0 s) va = l1_slot pt ((va - pt_vaddr pt) / 2 ^ 20) /\
  0 <= (va - pt_vaddr pt) / 2 ^ 20 < nr_tables pt.
Proof.
  intros Hva. unfold in_image in Hva. pose proof (pi_fits _ _ Hi) as Hf.
  pose proof Hf as (_ & _ & _ & ? & ? & ? & _).
  assert (0 <= (va - pt_vaddr pt) / 2 ^ 20 < nr_tables pt) as Hj by dlia.
  split; [|done]. destruct (l1_slot_eq pt _ Hf Hj) as (_ & -> & _).
  rewrite (pi_ttb _ _ Hi). unfold l1_addr. dlia.
Qed.

Lemma l1_addr_out va : 0 <= va < 2 ^ 32 -> ~ in_image pt va ->
  tables s' (l1_addr (ttbr0 s) va) = tables s (l1_addr (ttbr0 s) va).
Proof.
  intros Hva Hni. unfold in_image in Hni. pose proof (pi_fits _ _ Hi) as Hf.
  pose proof Hf as (_ & _ & _ & ? & ? & ? & _). apply l1_out. intros j Hj E.
  destruct (l1_slot_eq pt j Hf Hj) as (_ & E' & _). rewrite E' in E.
  rewrite (pi_ttb _ _ Hi) in E. unfold l1_addr in E. dlia.
Qed.

Lemma l1_walk_out va : 0 <= va < 2 ^ 32 -> ~ in_image pt va -> walk s' va = walk s va.
Proof.
  intros Hva Hni. unfold walk. change (ttbr0 s') with (ttbr0 s). rewrite l1_addr_out by done.
  destruct (Z.eqb_spec (tables s (l1_addr (ttbr0 s) va) mod 4) MMU_PTE_SECTION); [done|].
  destruct (Z.eqb_spec (tables s (l1_addr (ttbr0 s) va) mod 4) MMU_PTE_COARSE) as [Hc|]; [|done].
  f_equal. apply l1_out. intros j Hj.
  destruct (l1_slot_eq pt j (pi_fits _ _ Hi) Hj) as (_ & _ & ?).
  pose proof (pi_master _ _ Hi va Hva Hni Hc) as Hm. unfold l2_addr, MMU_PTSZ_MASTER in *. dlia.
Qed.

Lemma l1_ready : (forall j, 0 <= j < nr_tables pt -> 0 <= e j < 2 ^ 32) -> pt_ready s' pt.
Proof.
  intros He. pose proof Hi as [Hf Ht Htt Hw Hap Hpr Hma]. split; try done.
  2,3: intros va Hva Hni w; subst w; change (ttbr0 s') with (ttbr0 s);
    rewrite l1_addr_out by done; by (apply Hpr || apply Hma).
  cbn. pose proof (pi_fits _ _ Hi) as (_ & _ & _ & _ & ? & _). apply set_l1_words; [done|].
  intros j Hj. apply He. lia.
Qed.
End l1.

Lemma attach_inv s pt : pt_ready s pt ->
  let s1 := set_tables s (set_l1 (Z.to_nat (nr_tables pt)) 0 (tables s) pt (l1_pte pt)) in
  mmu_attach_pagetable s pt = Some (0, s1) /\ pt_inv s1 pt.
Proof.
  intros Hready s1. pose proof (pi_fits _ _ Hready) as Hf. pose proof Hf as (_ & _ & _ & _ & Hn & _).
  split.
  { unfold mmu_attach_pagetable, attach_coarse_pagetable. rewrite (pi_type _ _ Hready). by zcase; [|lia]. }
  split.
  - apply l1_ready; [done|]. intros j Hj. by apply (l1_pte_spec pt j Hf).
  - intros j Hj. unfold s1. rewrite l1_in by done.
    by destruct (l1_pte_spec pt j Hf Hj) as (? & ? & _).
Qed.

(** C28. Attaching a page table installs it: afterwards the processor translates its
    addresses through the table; addresses outside of its range are translated as
    before.  Detaching makes the range fault and leaves the rest as it is. *)
Theorem mmu_attach_walk (s : mmu) (pt : mmu_pagetable) (Hready : pt_ready s pt) :
  exists s1 s2,
    mmu_attach_pagetable s pt = Some (0, s1) /\ pt_inv s1 pt /\
    (forall va, in_image pt va -> walk s1 va =
      walk_small (tables s (pt_addr pt + 4 * ((va - pt_vaddr pt) / 2 ^ 12))) va) /\
    (forall va, 0 <= va < 2 ^ 32 -> ~ in_image pt va -> walk s1 va = walk s va) /\
    mmu_detach_pagetable s1 pt = Some (0, s2) /\ pt_ready s2 pt /\
    (forall va, in_image pt va -> walk s2 va = None) /\
    (forall va, 0 <= va < 2 ^ 32 -> ~ in_image pt va -> walk s2 va = walk s va).
Proof.
  pose proof (pi_fits _ _ Hready) as Hf. pose proof Hf as (_ & _ & _ & _ & Hn & _).
  set (s1 := set_tables s (set_l1 (Z.to_nat (nr_tables pt)) 0 (tables s) pt (l1_pte pt))).
  set (s2 := set_tables s1 (set_l1 (Z.to_nat (nr_tables pt)) 0 (tables s1) pt (fun _ => MMU_PTE_FAULT))).
  destruct (attach_inv s pt Hready) as [Hatt Hi1]. fold s1 in Hatt, Hi1.
  pose proof (pi_ready _ _ Hi1) as Hr1. exists s1, s2. split; [done|].
  split; [done|]. split.
  { intros va Hva. rewrite (walk_in_image s1 pt va Hi1 Hva). f_equal. apply l1_out; [done|].
    intros j Hj E. destruct (l1_slot_eq pt j Hf Hj) as (_ & _ & ?). unfold in_image in Hva.
    pose proof (pi_apart _ _ Hready). dlia. }
  split; [intros; by apply l1_walk_out|]. split.
  { unfold mmu_detach_pagetable. zcase; [|lia]. cbn. rewrite decide_False; [done|].
    by rewrite (pi_type _ _ Hready). }
  split; [apply l1_ready; [done|]; intros; unfold MMU_PTE_FAULT; lia|]. split.
  - intros va Hva. destruct (l1_slot_of s1 pt Hr1 va Hva) as [E Hj]. unfold walk.
    change (ttbr0 s2) with (ttbr0 s1). rewrite E. unfold s2. by rewrite l1_in by done.
  - intros va Hva Hni. unfold s2. rewrite l1_walk_out by done. by apply l1_walk_out.
Qed.

(** ** New tables and copies of tables *)

(** [mmu_init_pagetable] fills exactly the table with entries that fault. *)
Theorem mmu_init_pagetable_fills (s : mmu) (pt : mmu_pagetable)
    (Htype : pt_type pt <> MMU_PTT_FAULT) (Hn : 0 < nr_tables pt < 2 ^ 16)
    (Haddr : 0 < pt_addr pt) (Halign : pt_addr pt mod 2 ^ 10 = 0)
    (Hend : pt_addr pt + mmu_sizeof_pt pt < 2 ^ 32) :
  exists s', mmu_init_pagetable s pt = Some (0, s') /\
    forall x, x mod 4 = 0 -> tables s' x =
      if (pt_addr pt <=? x) && (x <? pt_addr pt + mmu_sizeof_pt pt) then MMU_PTE_FAULT
      else tables s x.
Proof.
  unfold mmu_init_pagetable, mmu_sizeof_pt, table_count, MMU_PTSZ_COARSE, MMU_PTSZ_MASTER in *.
  rewrite (proj2 (Z.ltb_lt _ _)), (proj2 (Z.eqb_neq (pt_addr pt) 0)) by lia. cbn [negb].
  rewrite (proj2 (Z.eqb_neq (nr_tables pt) 0)) in * by lia.
  assert (forall k, k mod 128 = 0 -> 0 < k <= 0x4000 -> pt_addr pt + u32 (nr_tables pt * k) < 2 ^ 32 ->
    (u32 (nr_tables pt * k) / 4 / 32 =? 0) = false /\
    forall x, x mod 4 = 0 ->
      init_loop (Z.to_nat (u32 (nr_tables pt * k) / 4 / 32)) (tables s) (pt_addr pt) MMU_PTE_FAULT x =
        if (pt_addr pt <=? x) && (x <? pt_addr pt + u32 (nr_tables pt * k)) then MMU_PTE_FAULT
        else tables s x) as Hk.
  { intros k Hk ? Hend'. assert (u32 (nr_tables pt * k) = nr_tables pt * k) as E.
    { apply u32_small. assert (nr_tables pt * k <= 2 ^ 16 * 0x4000); [apply Z.mul_le_mono_nonneg; lia|]. nia. }
    rewrite E in *. assert (k = 128 * (k / 128)) as Ek by dlia. set (c := k / 128) in *.
    rewrite Ek in *. replace (nr_tables pt * (128 * c) / 4 / 32) with (nr_tables pt * c) by dlia.
    split; [apply Z.eqb_neq; nia|]. intros x Hx.
    assert (0 <= nr_tables pt * c) by nia.
    rewrite init_loop_eq by first [done|dlia].
    by replace (128 * Z.of_nat (Z.to_nat (nr_tables pt * c))) with (nr_tables pt * (128 * c)) by lia. }
  revert Htype Hend. destruct (pt_type pt); intros Htype Hend; [done|..].
  - destruct (Hk 0x400) as [-> ?]; [done..|]. eauto.
  - destruct (Hk 0x4000) as [-> ?]; [done..|]. eauto.
Qed.

(** Words stay words. *)
Definition words (s : mmu) : Prop := forall x, 0 <= tables s x < 2 ^ 32.
Lemma wset_words m a v : (forall x, 0 <= m x < 2 ^ 32) -> 0 <= v < 2 ^ 32 ->
  forall x, 0 <= wset m a v x < 2 ^ 32.
Proof. intros Hm Hv x. unfold wset. case_match; auto. Qed.

Lemma init_loop_words n m p : (forall x, 0 <= m x < 2 ^ 32) ->
  forall x, 0 <= init_loop n m p MMU_PTE_FAULT x < 2 ^ 32.
Proof.
  assert (forall k m p, (forall x, 0 <= m x < 2 ^ 32) ->
    forall x, 0 <= stm_rep k m p MMU_PTE_FAULT x < 2 ^ 32) as Hk.
  { intros k. induction k as [|k IH]; intros m' p' Hm; [done|]. cbn [stm_rep]. apply IH.
    unfold stm4. by repeat apply wset_words. }
  revert m p. induction n as [|n IH]; intros m p Hm; [done|]. cbn [init_loop]. by apply IH, Hk.
Qed.

Lemma mmu_init_frame s pt err s' : mmu_init_pagetable s pt = Some (err, s') ->
  ttbr0 s' = ttbr0 s /\ (words s -> words s').
Proof.
  unfold mmu_init_pagetable. intros Hi.
  repeat case_match; simplify_eq; split; try done; intros Hw x; cbn; by apply init_loop_words.
Qed.

(** C29. [mmu_ptcpy] clones a page table: an address space whose table for the same
    range is the copy translates every address of the range as the original one
    does, and the original is as before. *)
Theorem mmu_ptcpy_same (s : mmu) (dest src : mmu_pagetable)
    (Hsrc : pt_inv s src) (Hdest : pt_inv (set_ttbr0 s (master_pt_addr dest)) dest)
    (Hrange : pt_vaddr dest = pt_vaddr src /\ nr_tables dest = nr_tables src)
    (Hapart : pt_addr src + nr_tables src * 2 ^ 10 <= pt_addr dest \/
      pt_addr dest + nr_tables src * 2 ^ 10 <= pt_addr src)
    (Hmaster : pt_addr dest + nr_tables dest * 2 ^ 10 <= master_pt_addr src \/
      master_pt_addr src + MMU_PTSZ_MASTER <= pt_addr dest) :
  exists s', mmu_ptcpy s dest src = (0, s') /\
    (forall va, in_image src va ->
      walk (set_ttbr0 s' (master_pt_addr dest)) va = walk s va /\ walk s' va = walk s va).
Proof.
  destruct Hrange as [Hv Hn]. pose proof Hsrc as [[Hfs Hts Htts Hws Haps _ _] Hats].
  pose proof Hdest as [[Hfd Htd _ _ Hapd _ _] Hatd].
  pose proof Hfs as (? & ? & ? & ? & ? & ? & ? & ? & ? & _).
  pose proof Hfd as (_ & _ & _ & _ & _ & _ & ? & ? & ? & _).
  assert (forall pt, pt_type pt = MMU_PTT_COARSE -> nr_tables pt = nr_tables src ->
    mmu_sizeof_pt pt = nr_tables src * 2 ^ 10) as Hsz.
  { intros pt Ht Hnn. unfold mmu_sizeof_pt, table_count. rewrite Ht, Hnn.
    rewrite (proj2 (Z.eqb_neq _ _)), u32_small by (unfold MMU_PTSZ_COARSE; lia). done. }
  set (s' := set_tables s (wcopy (tables s) (pt_addr dest) (pt_addr src) (nr_tables src * 2 ^ 10))).
  exists s'. split.
  { unfold mmu_ptcpy. rewrite !Hsz by done. rewrite (proj2 (Z.eqb_neq _ 0)), Z.eqb_refl by lia. done. }
  assert (forall x, x < pt_addr dest \/ pt_addr dest + nr_tables src * 2 ^ 10 <= x ->
    tables s' x = tables s x) as Hout.
  { intros x Hx. cbn. unfold wcopy. by repeat (zcase; simpl; try done; try lia). }
  intros va Hva. assert (in_image dest va) as Hvd by (unfold in_image in *; lia).
  rewrite (walk_in_image s src va Hsrc Hva).
  rewrite (walk_attached (set_ttbr0 s' _) dest va Hfd eq_refl); [|by eapply attached_same; [..|intros; apply Hout; lia]|done].
  rewrite (walk_attached s' src va Hfs Htts); [|by eapply attached_same; [..|intros; apply Hout; lia]|done].
  unfold in_image in *. split; f_equal; [|apply Hout; dlia].
  cbn. unfold wcopy. rewrite Hv. repeat (zcase; simpl); try (exfalso; dlia). f_equal. lia.
Qed.

(** ** A concrete system

    The master table is at 0x8000, two tables for the megabytes at 0x40000000 are
    at 0x10000. *)

Definition pt1 : mmu_pagetable :=
  MmuPagetable 0x40000000 0x10000 2 0x8000 MMU_PTT_COARSE 0.
Definition r1 : mmu_region := MmuRegion 0x40003000 3 MMU_AP_RWRW MMU_CTRL_MEMTYPE_WB 0x200000.
Definition s0 : mmu := Mmu (fun _ => 0) 0x8000 0 0.
Definition s1 : mmu :=
  match mmu_attach_pagetable s0 pt1 with Some (_, s) => s | None => s0 end.

Lemma pt1_ready : pt_ready s0 pt1.
Proof. split; try done; try (cbn; lia). by right. Qed.

Lemma s1_inv : pt_inv s1 pt1.
Proof. destruct (attach_inv s0 pt1 pt1_ready) as [E H]. unfold s1. rewrite E. exact H. Qed.

Lemma r1_ok : region_ok pt1 r1.
Proof. split; vm_compute; intuition congruence. Qed.



Lemma mmu_attach_walk_witness :
  exists s1 s2, mmu_attach_pagetable s0 pt1 = Some (0, s1) /\ pt_inv s1 pt1 /\
    mmu_detach_pagetable s1 pt1 = Some (0, s2) /\ walk s2 0x40004567 = None.
Proof.
  destruct (mmu_attach_walk s0 pt1 pt1_ready) as (a & b & ? & ? & _ & _ & ? & _ & Hin & _).
  exists a, b. split; [done|]. split; [done|]. split; [done|].
  apply (Hin 0x40004567). unfold in_image. cbn. lia.
Defined.

(** The same range in a second address space, with its master table at 0x14000 and
    its own tables at 0x20000. *)
Definition pt2 : mmu_pagetable :=
  MmuPagetable 0x40000000 0x20000 2 0x14000 MMU_PTT_COARSE 0.
Definition s2 : mmu :=
  match mmu_attach_pagetable (set_ttbr0 s0 0x14000) pt2 with Some (_, s) => s | None => s0 end.
Definition s12 : mmu :=
  match mmu_attach_pagetable (set_ttbr0 s2 0x8000) pt1 with Some (_, s) => s | None => s0 end.

Lemma s2_words x : 0 <= tables s2 x < 2 ^ 32.
Proof.
  destruct (attach_inv (set_ttbr0 s0 0x14000) pt2) as [E H].
  { split; try done; try (cbn; lia). by right. }
  unfold s2. rewrite E. apply H.
Qed.

(** Attaching [pt2] wrote two words only. *)
Lemma s2_zero x : x <> 0x15000 -> x <> 0x15004 -> tables s2 x = 0.
Proof.
  intros. change (tables s2) with (wset (wset (fun _ => 0) 0x15000 0x20001) 0x15004 0x20401).
  by rewrite !wset_ne.
Qed.

Lemma s12_src : pt_inv s12 pt1.
Proof.
  destruct (attach_inv (set_ttbr0 s2 0x8000) pt1) as [E H].
  { assert (forall va, 0 <= va < 2 ^ 32 -> tables s2 (l1_addr 0x8000 va) = 0) as Hz.
    { intros va Hva. apply s2_zero; unfold l1_addr; dlia. }
    split; try done; [apply s2_words|by right|..];
      intros va Hva _ w; subst w; change (tables (set_ttbr0 s2 0x8000)) with (tables s2);
      change (ttbr0 (set_ttbr0 s2 0x8000)) with 0x8000; by rewrite Hz. }
  unfold s12. rewrite E. exact H.
Qed.

Lemma s12_dest : pt_inv (set_ttbr0 s12 0x14000) pt2.
Proof.
  assert (forall x, 0x9004 < x -> tables s12 x = tables s2 x) as Hs.
  { intros x Hx. change (tables s12) with (wset (wset (tables s2) 0x9000 0x10001) 0x9004 0x10401).
    by rewrite !wset_ne by lia. }
  assert (forall va, 0 <= va < 2 ^ 32 -> ~ in_image pt2 va -> tables s12 (l1_addr 0x14000 va) = 0) as Hz.
  { intros va Hva Hni. unfold in_image in Hni. cbn in Hni.
    rewrite Hs by (unfold l1_addr; dlia). apply s2_zero; unfold l1_addr; dlia. }
  split; [split; try done|].
  - apply s12_src.
  - by right.
  - intros va Hva Hni w. subst w. change (tables (set_ttbr0 s12 0x14000)) with (tables s12).
    change (ttbr0 (set_ttbr0 s12 0x14000)) with 0x14000. by rewrite Hz.
  - intros va Hva Hni w. subst w. change (tables (set_ttbr0 s12 0x14000)) with (tables s12).
    change (ttbr0 (set_ttbr0 s12 0x14000)) with 0x14000. by rewrite Hz.
  - intros j Hj. cbn in Hj. assert (j = 0 \/ j = 1) as [-> | ->] by lia; by vm_compute.
Qed.

Lemma mmu_ptcpy_same_witness :
  exists s', mmu_ptcpy s12 pt2 pt1 = (0, s') /\
    walk (set_ttbr0 s' 0x14000) 0x40004567 = walk s12 0x40004567.
Proof.
  destruct (mmu_ptcpy_same s12 pt2 pt1 s12_src s12_dest) as (s' & E & Hw);
    [done|cbn; lia|cbn; unfold MMU_PTSZ_MASTER; lia|].
  exists s'. split; [done|]. apply (Hw 0x40004567). unfold in_image. cbn. lia.
Defined.

(** ** Departures *)

(** The index of an entry has only bits 19:12 of the address: a region in the second
    megabyte of a page table is mapped a megabyte below its address. *)
Definition r2 : mmu_region := MmuRegion 0x40100000 1 MMU_AP_RWRW 0 0x200000.
Definition s1_mapped : mmu :=
  match mmu_map_region s1 pt1 r2 with Some (_, s) => s | None => s1 end.
Lemma mmu_map_second_megabyte :
  mmu_map_region s1 pt1 r2 = Some (0, s1_mapped) /\ walk s1_mapped 0x40100000 = None /\
    walk s1_mapped 0x40000000 = Some (Mapping 0x200000 MMU_AP_RWRW 0) /\
    mmu_translate_vaddr s1_mapped pt1 0x40100000 = 0x200000.
Proof. split; [reflexivity|]. by vm_compute. Qed.

(** The second loop of [mmu_preinit] starts at 0 again: the first 16 megabytes get
    the attributes of devices, the last 16 get no entry. *)
Lemma mmu_preinit_entries :
  tables (mmu_preinit s0 0x100000) 0x100000 = 0x406 /\
    tables (mmu_preinit s0 0x100000) (0x100000 + 4 * 4095) = 0.
Proof. by vm_compute. Qed.

(** The size of what a master table maps does not fit into a [size_t]. *)
Lemma mmu_sizeof_pt_img_master pt : pt_type pt = MMU_PTT_MASTER -> mmu_sizeof_pt_img pt = 0.
Proof. unfold mmu_sizeof_pt_img. by intros ->. Qed.

(** A domain has two bits of the access register, the macros shift by one: a value
    for domain 1 changes the access to domain 0. *)
Lemma domac_overlap :
  MMU_DOMAC_TO 1 3 = 6 /\
    MMU_DOMAC_FROM 0 (mmu_domain_access_get
      (mmu_domain_access_set (set_dacr s0 (MMU_DOMAC_TO 0 MMU_DOMAC_CL)) (MMU_DOMAC_TO 1 3)
         (MMU_DOMAC_DOM2MASK 1))) = 3.
Proof. by vm_compute. Qed.

(** ** The page fault counter *)

(** The average stays below the largest rate seen, as long as a period has fewer than
    [2 ^ 9] faults. *)
Lemma CALC_PFC_bound avg n b : 0 <= avg <= b -> 0 <= n <= b -> b < 2 ^ 20 ->
  0 <= CALC_PFC avg n <= b.
Proof.
  intros Ha Hn Hb. unfold CALC_PFC, PFC_FEXP_1, PFC_FIXED_1, PFC_FSHIFT. change (Z.shiftl 1 11) with 2048.
  rewrite (u32_small (avg * 753)), (u32_small (n * (2048 - 753))), u32_small by lia.
  rewrite Z.shiftr_div_pow2 by lia. change (2 ^ 11) with 2048. dlia.
Qed.

(** With 1620 faults in a period the product wraps around. *)
Lemma CALC_PFC_wraps :
  CALC_PFC 0 (1619 * PFC_FIXED_1) = 1619 * (PFC_FIXED_1 - PFC_FEXP_1) /\ CALC_PFC 0 (1620 * PFC_FIXED_1) = 748.
Proof. by vm_compute. Qed.

(** ** Mapping a buffer: [vrmmap] of vralloc.c *)

Definition vrmmap (s : mmu) (b : buf) (pt : mmu_pagetable) : option (Z * buf * mmu) :=
  let b := vm_updateusr_ap b in
  '(err, s) ← mmu_map_region s pt (b_mmu b);
  Some (err, b, s).
