(* ===== verification/Ptmapper.v ===== *)
(** * Allocation of page tables: kern/ptmapper.c

    Page tables live in an area of their own, in blocks of 1 kB that a bit map
    accounts for: a coarse table takes one block, a master table 16.  A new
    table is filled with entries that fault.  The state contains the words of
    the tables ([Mmu]). *)
From stdpp Require Import relations.
From S2P Require Import Prelude Mem Bitmap Dynmem Mmu.

Class PtConfig := { configPT_AREA_START : Z; configPT_AREA_END : Z }.

Record ptm := Ptm {
  ptm_alloc_map : list Z; ptm_nr_pt : Z; ptm_mem_free : Z; ptm_mmu : mmu
}.

Section code.
Context `{PtConfig}.

Definition PTREGION_SIZE : Z :=
  (configPT_AREA_END - configPT_AREA_START + 1) / MMU_PGSIZE_SECTION.
Definition PTS_PER_MB : Z := (1024 * 1024) / MMU_PTSZ_COARSE.
Definition PTM_SIZEOF_MAP : Z := E2BITMAP_SIZE (PTREGION_SIZE * PTS_PER_MB) * 4.
Definition PTM_MASTER : Z := MMU_PTSZ_MASTER / MMU_PTSZ_COARSE.
Definition PTM_COARSE : Z := 0x01.
Definition PTM_BLOCK2ADDR (block : Z) : Z :=
  u32 (configPT_AREA_START + block * MMU_PTSZ_COARSE).
Definition PTM_ADDR2BLOCK (addr : Z) : Z :=
  u32 (addr - configPT_AREA_START) / MMU_PTSZ_COARSE.
Definition PTM_ALLOC (st : ptm) (len balign : Z) : option ((Z + Z) * list Z) :=
  bitmap_block_align_alloc len (ptm_alloc_map st) PTM_SIZEOF_MAP balign.
Definition PTM_FREE (st : ptm) (block len : Z) : option (Z * list Z) :=
  bitmap_block_update (ptm_alloc_map st) 0 block len PTM_SIZEOF_MAP.

(** The static state, over the memory of the tables. *)
Definition ptm_boot (s : mmu) : ptm :=
  Ptm (replicate (Z.to_nat (E2BITMAP_SIZE (PTREGION_SIZE * PTS_PER_MB))) 0) 0
    (u32 (PTREGION_SIZE * MMU_PGSIZE_SECTION)) s.

(** The part under the lock: allocate [size] blocks at a multiple of [balign]. *)
Definition ptm_place (st : ptm) (pt : mmu_pagetable) (size bsize balign : Z)
    : option (Z * mmu_pagetable * ptm) :=
  '(r, m) ← PTM_ALLOC st size balign;
  match r with
  | inr block =>
      let addr := PTM_BLOCK2ADDR block in
      let master := if decide (pt_type pt = MMU_PTT_MASTER) then addr else master_pt_addr pt in
      let pt := MmuPagetable (pt_vaddr pt) addr (nr_tables pt) master (pt_type pt) (pt_dom pt) in
      '(_, s) ← mmu_init_pagetable (ptm_mmu st) pt;
      Some (0, pt, Ptm m (ptm_nr_pt st + 1) (u32 (ptm_mem_free st - bsize)) s)
  | inl _ => Some (- ENOMEM, pt, Ptm m (ptm_nr_pt st) (ptm_mem_free st) (ptm_mmu st))
  end.

(** The error code, and [*pt] and the state after the call. *)
Definition ptmapper_alloc (st : ptm) (pt : mmu_pagetable) : option (Z * mmu_pagetable * ptm) :=
  let pt :=
    if nr_tables pt =? 0 then
      MmuPagetable (pt_vaddr pt) (pt_addr pt) 1 (master_pt_addr pt) (pt_type pt) (pt_dom pt)
    else pt in
  match pt_type pt with
  | MMU_PTT_MASTER =>
      ptm_place st pt (u32 (nr_tables pt * PTM_MASTER)) (u32 (nr_tables pt * MMU_PTSZ_MASTER))
        PTM_MASTER
  | MMU_PTT_COARSE =>
      ptm_place st pt (u32 (nr_tables pt * PTM_COARSE)) (u32 (nr_tables pt * MMU_PTSZ_COARSE))
        PTM_COARSE
  | MMU_PTT_FAULT => Some (- EINVAL, pt, st)
  end.

Definition ptmapper_free (st : ptm) (pt : mmu_pagetable) : option ptm :=
  let bsize := mmu_sizeof_pt pt in
  let size := bsize / MMU_PTSZ_COARSE in
  if size =? 0 then Some st
  else
    let block := PTM_ADDR2BLOCK (pt_addr pt) in
    '(_, m) ← PTM_FREE st block size;
    Some (Ptm m (ptm_nr_pt st - 1) (u32 (ptm_mem_free st + bsize)) (ptm_mmu st)).
End code.

(** ** Invariant *)

(** The area is a whole number of megabytes. *)
Class PtConfigOk `{PtConfig} : Prop := {
  pc_start : 0 < configPT_AREA_START /\ configPT_AREA_START mod 2 ^ 20 = 0;
  pc_end : configPT_AREA_END + 1 = configPT_AREA_START + PTREGION_SIZE * 2 ^ 20;
  pc_size : 0 < PTREGION_SIZE <= 64;
  pc_fit : configPT_AREA_END + 1 < 2 ^ 32
}.

Section proofs.
Context `{PtConfigOk}.

Definition blocks : Z := PTREGION_SIZE * 2 ^ 10.

(** [A] maps the first block of each table in use to its number of blocks.  The
    update of a bit map does not leave its first word, so no table may start
    before block 32 and end after it. *)
Record ptm_inv (st : ptm) (A : gmap Z Z) : Prop := {
  pm_wf : bitmap_wf (ptm_alloc_map st);
  pm_len : 32 * Z.of_nat (length (ptm_alloc_map st)) = blocks;
  pm_range : forall k n, A !! k = Some n -> 0 <= k /\ 0 < n /\ k + n <= blocks;
  pm_straddle : forall k n, A !! k = Some n -> 32 <= k \/ k + n <= 32;
  pm_bits : forall q, 0 <= q < blocks -> bit (ptm_alloc_map st) q = Some true <->
    exists k n, A !! k = Some n /\ k <= q < k + n;
  pm_disjoint : forall k n j m q, A !! k = Some n -> A !! j = Some m ->
    k <= q < k + n -> j <= q < j + m -> k = j
}.

Lemma ptm_map_words : E2BITMAP_SIZE (PTREGION_SIZE * PTS_PER_MB) = 32 * PTREGION_SIZE.
Proof. pose proof pc_size. unfold E2BITMAP_SIZE. change PTS_PER_MB with 1024. dlia. Qed.

Lemma bit_zero n q : 0 <= q < 32 * Z.of_nat n -> bit (replicate n 0) q = Some false.
Proof.
  intros Hq. unfold bit. destruct (rd_is_Some (replicate n 0) (q / 32)) as [w Hw].
  { rewrite length_replicate. dlia. }
  rewrite Hw. unfold rd in Hw. case_match; [done|].
  apply lookup_replicate in Hw as [-> _]. cbn. by rewrite Z.bits_0.
Qed.

Lemma ptm_boot_inv s : ptm_inv (ptm_boot s) ∅.
Proof.
  pose proof pc_size. unfold ptm_boot. rewrite ptm_map_words.
  split; cbn [ptm_alloc_map]; try done; rewrite ?length_replicate.
  - split; [apply Forall_replicate; lia|]. rewrite length_replicate. lia.
  - unfold blocks. lia.
  - intros q Hq. rewrite bit_zero by (unfold blocks in Hq; lia). split; [done|]. by intros (k & n & ? & _).
Qed.

Lemma block2addr k : 0 <= k < blocks ->
  PTM_BLOCK2ADDR k = configPT_AREA_START + k * 2 ^ 10 /\ PTM_ADDR2BLOCK (PTM_BLOCK2ADDR k) = k.
Proof.
  intros Hk. pose proof pc_start. pose proof pc_end. pose proof pc_fit. unfold blocks in Hk.
  unfold PTM_ADDR2BLOCK, PTM_BLOCK2ADDR, MMU_PTSZ_COARSE. rewrite u32_small by lia.
  split; [done|]. rewrite u32_small by lia. replace (_ - _) with (k * 0x400) by lia. apply Z.div_mul. lia.
Qed.

Lemma sizeof_map_eq st A : ptm_inv st A -> PTM_SIZEOF_MAP = 4 * Z.of_nat (length (ptm_alloc_map st)).
Proof.
  intros Hi. pose proof (pm_len _ _ Hi). unfold PTM_SIZEOF_MAP. rewrite ptm_map_words.
  unfold blocks in *. lia.
Qed.

(** The bits of a table become used or free. *)
Lemma ptm_inv_insert st st' A k n : ptm_inv st A ->
  range_set (ptm_alloc_map st) (ptm_alloc_map st') k (k + n) true ->
  0 < n -> block_free (ptm_alloc_map st) k n -> 32 <= k \/ k + n <= 32 ->
  ptm_inv st' (<[k := n]> A).
Proof.
  intros Hi (Hwf & Hl & Hb) Hn Hf Hs. pose proof Hi as [Hwf0 Hl0 Hr Hst Hbits Hd].
  pose proof (block_free_range _ _ _ Hn Hf) as [? ?].
  assert (forall j m q, A !! j = Some m -> k <= q < k + n -> ~ (j <= q < j + m)) as Hsep.
  { intros j m q Hj Hq Hjq. assert (bit (ptm_alloc_map st) q = Some true); [apply Hbits; [lia|eauto]|].
    rewrite (Hf q Hq) in *. done. }
  split; [done|by rewrite Hl|..].
  - intros j m. rewrite lookup_insert_Some. intros [[<- <-]|[_ Hj]]; [lia|by apply Hr].
  - intros j m. rewrite lookup_insert_Some. intros [[<- <-]|[_ Hj]]; [done|by apply Hst].
  - intros q Hq. rewrite Hb by lia. destruct (Z.leb_spec k q), (Z.ltb_spec q (k + n)); simpl.
    1: { split; [|done]. intros _. exists k, n. rewrite lookup_insert_eq. split; [done|lia]. }
    all: rewrite Hbits by done; split; intros (j & m & Hj & ?).
    1, 3, 5: exists j, m; rewrite lookup_insert_ne; [done|]; intros E; subst j;
      pose proof (Hr _ _ Hj); destruct (Hsep k m k Hj); lia.
    all: apply lookup_insert_Some in Hj as [[<- <-]|[_ Hj]]; [lia|eauto].
  - intros j1 m1 j2 m2 q. rewrite !lookup_insert_Some.
    intros [[<- <-]|[_ Hj1]] [[<- <-]|[_ Hj2]] Hq1 Hq2; [done| | |by apply (Hd j1 m1 j2 m2 q)].
    + by destruct (Hsep _ _ _ Hj2 Hq1).
    + by destruct (Hsep _ _ _ Hj1 Hq2).
Qed.

Lemma ptm_inv_delete st st' A k n : ptm_inv st A -> A !! k = Some n ->
  range_set (ptm_alloc_map st) (ptm_alloc_map st') k (k + n) false ->
  ptm_inv st' (delete k A).
Proof.
  intros Hi Hk (Hwf & Hl & Hb). pose proof Hi as [Hwf0 Hl0 Hr Hst Hbits Hd].
  pose proof (Hr _ _ Hk) as (? & ? & ?).
  split; [done|by rewrite Hl|..].
  - intros j m [_ Hj]%lookup_delete_Some. by apply Hr.
  - intros j m [_ Hj]%lookup_delete_Some. by apply Hst.
  - intros q Hq. rewrite Hb by lia. destruct (Z.leb_spec k q), (Z.ltb_spec q (k + n)); simpl.
    1: { split; [done|]. intros (j & m & [Hne Hj]%lookup_delete_Some & Hjq). destruct Hne.
         by apply (Hd k n j m q). }
    all: rewrite Hbits by done; split; intros (j & m & Hj & ?).
    1, 3, 5: exists j, m; rewrite lookup_delete_ne; [done|]; intros <-; simplify_eq; lia.
    all: apply lookup_delete_Some in Hj as [_ Hj]; eauto.
  - intros j1 m1 j2 m2 q [_ ?]%lookup_delete_Some [_ ?]%lookup_delete_Some. by apply (Hd j1 m1 j2 m2 q).
Qed.

(** ** Operations *)

(** Blocks of a page table, and their alignment. *)
Definition pt_blocks (pt : mmu_pagetable) : Z := mmu_sizeof_pt pt / 2 ^ 10.
Definition pt_align (pt : mmu_pagetable) : Z :=
  if decide (pt_type pt = MMU_PTT_MASTER) then 16 else 1.

Lemma pt_blocks_eq pt : pt_type pt <> MMU_PTT_FAULT -> 0 <= nr_tables pt < 2 ^ 10 ->
  pt_blocks pt = table_count pt * pt_align pt /\ mmu_sizeof_pt pt = pt_blocks pt * 2 ^ 10 /\
  0 < table_count pt < 2 ^ 10.
Proof.
  intros Ht Hn. unfold pt_blocks, mmu_sizeof_pt, pt_align, table_count in *.
  destruct (Z.eqb_spec (nr_tables pt) 0) as [E|]; unfold MMU_PTSZ_MASTER, MMU_PTSZ_COARSE;
    (destruct (pt_type pt); [done|..]; case_decide; try done; rewrite u32_small by lia; dlia).
Qed.

(** A table that a call has placed at block [k]. *)
Definition placed (st st' : ptm) (A : gmap Z Z) (pt pt' : mmu_pagetable) (k : Z) : Prop :=
  pt_addr pt' = PTM_BLOCK2ADDR k /\ 0 <= k /\ k + pt_blocks pt <= blocks /\
  k mod pt_align pt = 0 /\
  (forall j m, A !! j = Some m -> j + m <= k \/ k + pt_blocks pt <= j) /\
  pt_vaddr pt' = pt_vaddr pt /\ nr_tables pt' = table_count pt /\
  pt_type pt' = pt_type pt /\ pt_dom pt' = pt_dom pt /\
  master_pt_addr pt' =
    (if decide (pt_type pt = MMU_PTT_MASTER) then pt_addr pt' else master_pt_addr pt) /\
  forall x, x mod 4 = 0 -> tables (ptm_mmu st') x =
    if (pt_addr pt' <=? x) && (x <? pt_addr pt' + mmu_sizeof_pt pt) then MMU_PTE_FAULT
    else tables (ptm_mmu st) x.

Lemma block_free_disjoint st A k n : ptm_inv st A -> 0 < n ->
  block_free (ptm_alloc_map st) k n ->
  forall j m, A !! j = Some m -> j + m <= k \/ k + n <= j.
Proof.
  intros Hi Hn Hf j m Hj. pose proof (block_free_range _ _ _ Hn Hf). pose proof (pm_len _ _ Hi).
  destruct (pm_range _ _ Hi j m Hj) as (? & ? & ?).
  destruct (decide (j + m <= k)); [by left|]. destruct (decide (k + n <= j)); [by right|]. exfalso.
  set (q := Z.max j k). assert (bit (ptm_alloc_map st) q = Some true) as E.
  { apply (pm_bits _ _ Hi); [lia|]. exists j, m. split; [done|lia]. }
  rewrite (Hf q) in E by lia. done.
Qed.

(** The allocation for a table of known shape. *)
Lemma ptm_alloc_spec st A len balign : ptm_inv st A -> 0 < len -> 0 < balign <= 16 ->
  exists r m, PTM_ALLOC st len balign = Some (r, m) /\
    match r with
    | inl _ => m = ptm_alloc_map st
    | inr k => block_free (ptm_alloc_map st) k len /\ k mod balign = 0 /\
        (32 <= k \/ k + len <= 32 -> range_set (ptm_alloc_map st) m k (k + len) true)
    end.
Proof.
  intros Hi Hl Hb. pose proof (sizeof_map_eq st A Hi) as Hsz. pose proof Hi as [Hwf Hlen _ _ _ _].
  pose proof pc_size. unfold blocks in Hlen.
  unfold PTM_ALLOC, bitmap_block_align_alloc. rewrite Hsz.
  set (bm := ptm_alloc_map st) in *.
  pose proof (align_search_spec (S (Z.to_nat (4 * Z.of_nat (length bm) * 8))) 0 len bm
    (4 * Z.of_nat (length bm)) balign Hwf Hl ltac:(lia) ltac:(lia) ltac:(lia) ltac:(lia)
    ltac:(lia) ltac:(lia)) as Hs.
  destruct (align_search _ _ _ _ _ _) as [[err|k]|]; [|destruct Hs as [Hf Hm]|done]; mstep.
  { by exists (inl err), bm. }
  pose proof (block_free_range _ _ _ Hl Hf) as [Hk0 Hk].
  destruct (block_update_spec bm 1 k len (4 * Z.of_nat (length bm)))
    as (bm' & -> & Hset); [done|done|done|lia|done|lia|lia|].
  mstep. exists (inr k), bm'. split; [done|]. split; [done|]. split; [done|]. intros Hns.
  change (Z.odd 1) with true in Hset.
  assert (update_end k len = k + len) as <-; [|done].
  unfold update_end. destruct (Z.ltb_spec k 32); lia.
Qed.

Lemma ptm_place_spec st A pt bsize :
  ptm_inv st A -> pt_type pt <> MMU_PTT_FAULT -> 0 < nr_tables pt < 2 ^ 10 ->
  exists err pt' st', ptm_place st pt (pt_blocks pt) bsize (pt_align pt) = Some (err, pt', st') /\
    (err = - ENOMEM /\ st' = st \/
     err = 0 /\ exists k, placed st st' A pt pt' k /\
       (32 <= k \/ k + pt_blocks pt <= 32 -> ptm_inv st' (<[k := pt_blocks pt]> A))).
Proof.
  intros Hi Ht Hn. destruct (pt_blocks_eq pt Ht ltac:(lia)) as (Hpb & Hsz & Hc).
  assert (1 <= pt_align pt <= 16) as Hal by (unfold pt_align; case_decide; lia).
  assert (0 < pt_blocks pt) as Hpos by nia.
  destruct (ptm_alloc_spec st A (pt_blocks pt) (pt_align pt) Hi Hpos ltac:(lia)) as (r & m & Ea & Hr).
  unfold ptm_place. rewrite Ea. mstep. destruct r as [e|k].
  { subst m. exists (- ENOMEM), pt, st. split; [by destruct st|by left]. }
  destruct Hr as (Hf & Hm & Hset). pose proof (block_free_range _ _ _ Hpos Hf) as [Hk0 Hk].
  rewrite (pm_len _ _ Hi) in Hk. destruct (block2addr k ltac:(lia)) as [Ek _].
  pose proof pc_start. pose proof pc_end. pose proof pc_fit.
  set (pt' := MmuPagetable _ (PTM_BLOCK2ADDR k) _ _ _ _).
  assert (mmu_sizeof_pt pt' = mmu_sizeof_pt pt) as Hsz' by done.
  unfold blocks in *.
  destruct (mmu_init_pagetable_fills (ptm_mmu st) pt') as (s' & -> & Hfill);
    [done|cbn; lia|cbn; lia|cbn; rewrite Ek; dlia|rewrite Hsz', Hsz; cbn; lia|].
  mstep. eexists 0, pt', _. split; [done|]. right. split; [done|]. exists k. split.
  - unfold placed, table_count. rewrite (proj2 (Z.eqb_neq _ _)) by lia. unfold blocks.
    split_and!; try done. by apply (block_free_disjoint st).
  - intros Hns. apply (ptm_inv_insert st); try done. by apply Hset.
Qed.

Lemma ptmapper_alloc_spec st A pt :
  ptm_inv st A -> pt_type pt <> MMU_PTT_FAULT -> 0 <= nr_tables pt < 2 ^ 10 ->
  exists err pt' st', ptmapper_alloc st pt = Some (err, pt', st') /\
    (err = - ENOMEM /\ st' = st \/
     err = 0 /\ exists k, placed st st' A pt pt' k /\
       (32 <= k \/ k + pt_blocks pt <= 32 -> ptm_inv st' (<[k := pt_blocks pt]> A))).
Proof.
  intros Hi Ht Hn.
  set (pt1 := MmuPagetable (pt_vaddr pt) (pt_addr pt) (table_count pt) (master_pt_addr pt)
                (pt_type pt) (pt_dom pt)).
  assert ((if nr_tables pt =? 0 then
      MmuPagetable (pt_vaddr pt) (pt_addr pt) 1 (master_pt_addr pt) (pt_type pt) (pt_dom pt)
    else pt) = pt1) as Ept.
  { unfold pt1, table_count. by destruct (nr_tables pt =? 0), pt. }
  assert (0 < table_count pt < 2 ^ 10) as Hc by (unfold table_count; zcase; lia).
  assert (table_count pt1 = table_count pt) as Etc.
  { unfold table_count at 1. cbn. rewrite (proj2 (Z.eqb_neq _ _)) by lia. done. }
  assert (pt_blocks pt1 = pt_blocks pt) as Epb.
  { unfold pt_blocks, mmu_sizeof_pt. by rewrite Etc. }
  assert (ptmapper_alloc st pt = ptm_place st pt1 (pt_blocks pt1)
    (mmu_sizeof_pt pt1) (pt_align pt1)) as ->.
  { unfold ptmapper_alloc. rewrite Ept. unfold pt_blocks, mmu_sizeof_pt, pt_align. rewrite Etc. cbn [pt1 pt_type nr_tables].
    destruct (pt_type pt); [done|..]; rewrite !u32_small by (unfold MMU_PTSZ_MASTER, MMU_PTSZ_COARSE, PTM_COARSE;
      change PTM_MASTER with 16; lia); f_equal; unfold MMU_PTSZ_MASTER, MMU_PTSZ_COARSE, PTM_COARSE;
      change PTM_MASTER with 16; dlia. }
  destruct (ptm_place_spec st A pt1 (mmu_sizeof_pt pt1) Hi Ht Hc) as (err & pt' & st' & -> & Hr).
  exists err, pt', st'. split; [done|]. destruct Hr as [?|(-> & k & Hp & Hk)]; [by left|right].
  split; [done|]. exists k. rewrite Epb in *. split; [|done].
  unfold placed, mmu_sizeof_pt in *. rewrite Etc, Epb in Hp. exact Hp.
Qed.

Lemma ptmapper_free_spec st A pt k n :
  ptm_inv st A -> A !! k = Some n -> pt_addr pt = PTM_BLOCK2ADDR k -> mmu_sizeof_pt pt = n * 2 ^ 10 ->
  exists st', ptmapper_free st pt = Some st' /\ ptm_inv st' (delete k A) /\ ptm_mmu st' = ptm_mmu st.
Proof.
  intros Hi Hk Ha Hs. pose proof (sizeof_map_eq st A Hi) as Hsz. pose proof pc_size.
  destruct (pm_range _ _ Hi k n Hk) as (? & ? & ?). pose proof (pm_len _ _ Hi) as Hlen.
  destruct (block2addr k ltac:(lia)) as [_ Eb].
  unfold ptmapper_free. rewrite Hs, Ha, Eb. unfold MMU_PTSZ_COARSE.
  replace (n * 2 ^ 10 / 0x400) with n by dlia. zcase; [lia|]. unfold PTM_FREE. rewrite Hsz.
  destruct (block_update_spec (ptm_alloc_map st) 0 k n (4 * Z.of_nat (length (ptm_alloc_map st))))
    as (bm' & -> & Hset); try (unfold blocks in *; lia); [apply Hi|].
  mstep. eexists. split; [done|]. split; [|done]. apply (ptm_inv_delete st _ _ k n Hi Hk).
  change (Z.odd 0) with false in Hset. cbn [ptm_alloc_map].
  assert (update_end k n = k + n) as <-; [|done].
  unfold update_end. pose proof (pm_straddle _ _ Hi k n Hk). destruct (Z.ltb_spec k 32); lia.
Qed.
End proofs.

Lemma ptmapper_alloc_frame `{PtConfig} st pt err pt' st' :
  ptmapper_alloc st pt = Some (err, pt', st') ->
  ttbr0 (ptm_mmu st') = ttbr0 (ptm_mmu st) /\ (words (ptm_mmu st) -> words (ptm_mmu st')).
Proof.
  assert (forall p a b c, ptm_place st p a b c = Some (err, pt', st') ->
    ttbr0 (ptm_mmu st') = ttbr0 (ptm_mmu st) /\ (words (ptm_mmu st) -> words (ptm_mmu st'))) as Hp.
  { intros p a b c. unfold ptm_place. destruct (PTM_ALLOC st a c) as [[[e|k] m]|]; mstep; [|
      destruct (mmu_init_pagetable _ _) as [[e s]|] eqn:E; mstep|done].
    - by intros [= <- <- <-].
    - intros [= <- <- <-]. by apply mmu_init_frame in E.
    - done. }
  unfold ptmapper_alloc. case_match; intros Ha; [by simplify_eq|by eapply Hp..].
Qed.

(** ** Page tables in use never overlap *)

Section live.
Context `{PtConfigOk}.

(** The memory of a page table. *)
Definition table_covers (pt : mmu_pagetable) (a : Z) : Prop :=
  pt_addr pt <= a < pt_addr pt + mmu_sizeof_pt pt.

(** States with the page tables that are in use.  Requests of the kernel are for
    one table, as those of more than one may cross the first word of the bit map
    ([ptmapper_overlap]). *)
Inductive ptm_step : ptm * list mmu_pagetable -> ptm * list mmu_pagetable -> Prop :=
| ps_alloc st l pt pt' st' : pt_type pt <> MMU_PTT_FAULT -> nr_tables pt = 1 ->
    ptmapper_alloc st pt = Some (0, pt', st') -> ptm_step (st, l) (st', pt' :: l)
| ps_nomem st l pt pt' st' : pt_type pt <> MMU_PTT_FAULT -> nr_tables pt = 1 ->
    ptmapper_alloc st pt = Some (- ENOMEM, pt', st') -> ptm_step (st, l) (st', l)
| ps_free st l pt l' st' : l ≡ₚ pt :: l' -> ptmapper_free st pt = Some st' ->
    ptm_step (st, l) (st', l').

Definition pt_key (pt : mmu_pagetable) : Z := PTM_ADDR2BLOCK (pt_addr pt).
Definition live_map (l : list mmu_pagetable) : gmap Z Z :=
  list_to_map ((fun pt => (pt_key pt, pt_blocks pt)) <$> l).
Definition table_ok (pt : mmu_pagetable) : Prop :=
  pt_type pt <> MMU_PTT_FAULT /\ nr_tables pt = 1 /\ 0 <= pt_key pt < blocks /\
  pt_addr pt = PTM_BLOCK2ADDR (pt_key pt) /\ pt_key pt mod pt_align pt = 0.
Record live_inv (st : ptm) (l : list mmu_pagetable) : Prop := {
  li_inv : ptm_inv st (live_map l);
  li_keys : NoDup (pt_key <$> l);
  li_ok : Forall table_ok l
}.

Lemma live_map_fst l : ((fun pt => (pt_key pt, pt_blocks pt)) <$> l).*1 = pt_key <$> l.
Proof. by rewrite <-list_fmap_compose. Qed.

Lemma live_map_lookup l pt : NoDup (pt_key <$> l) -> pt ∈ l ->
  live_map l !! pt_key pt = Some (pt_blocks pt).
Proof.
  intros Hnd Hin. unfold live_map. apply elem_of_list_to_map; [by rewrite live_map_fst|].
  apply list_elem_of_fmap. by exists pt.
Qed.

Lemma one_table pt : pt_type pt <> MMU_PTT_FAULT -> nr_tables pt = 1 ->
  pt_blocks pt = pt_align pt /\ mmu_sizeof_pt pt = pt_blocks pt * 2 ^ 10.
Proof.
  intros Ht Hn. destruct (pt_blocks_eq pt Ht) as (E & ? & _); [lia|].
  split; [|done]. rewrite E. unfold table_count. rewrite Hn. cbn. lia.
Qed.

Lemma live_step x y : ptm_step x y -> live_inv x.1 x.2 -> live_inv y.1 y.2.
Proof.
  intros [st l pt pt' st' Ht Hn Ha|st l pt pt' st' Ht Hn Ha|st l pt l' st' Hp Hf] [Hi Hnd Hok]; cbn [fst snd] in *.
  - destruct (ptmapper_alloc_spec st _ pt Hi Ht ltac:(lia)) as (err & pt1 & st1 & E & Hr).
    rewrite Ha in E. injection E as <- <- <-. destruct Hr as [[? _]|(_ & k & Hp & Hk)]; [done|].
    destruct (one_table pt Ht Hn) as [Eb Es]. destruct Hp as (Ea & ? & ? & Hm & Hd & _ & Hn' & Ht' & _).
    unfold table_count in Hn'. rewrite Hn in Hn'. cbn in Hn'.
    assert (pt_blocks pt' = pt_blocks pt) as Eb' by (unfold pt_blocks, mmu_sizeof_pt, table_count; by rewrite Ht', Hn', Hn).
    assert (0 < pt_blocks pt <= 16) as Hb by (rewrite Eb; unfold pt_align; case_decide; lia).
    assert (pt_key pt' = k) as Ek by (unfold pt_key; rewrite Ea; apply block2addr; lia).
    split.
    + unfold live_map. cbn [list_fmap list_to_map]. cbn. rewrite Ek, Eb'. apply Hk.
      rewrite Eb in *. unfold pt_align in *. case_decide; [dlia|lia].
    + cbn. constructor; [|done]. rewrite Ek. intros (pt2 & -> & Hin)%list_elem_of_fmap.
      pose proof (live_map_lookup l pt2 Hnd Hin) as Hl. pose proof (pm_range _ _ Hi _ _ Hl).
      destruct (Hd _ _ Hl); lia.
    + constructor; [|done]. unfold table_ok. rewrite Ht', Hn', Ek. split_and!; try done; try lia.
      unfold pt_align. by rewrite Ht'.
  - destruct (ptmapper_alloc_spec st _ pt Hi Ht ltac:(lia)) as (err & pt1 & st1 & E & Hr).
    rewrite Ha in E. injection E as <- <- <-. by destruct Hr as [[_ ->]|[? _]].
  - assert (Forall table_ok (pt :: l')) as [Hpt Hok']%Forall_cons by by rewrite <-Hp.
    assert (NoDup (pt_key <$> pt :: l')) as Hnd' by by rewrite <-Hp.
    assert (live_map l = <[pt_key pt := pt_blocks pt]> (live_map l')) as El.
    { unfold live_map. rewrite (list_to_map_proper _ ((fun pt => (pt_key pt, pt_blocks pt)) <$> pt :: l')); [done| |by rewrite Hp].
      by rewrite live_map_fst. }
    cbn in Hnd'. apply NoDup_cons in Hnd' as [Hnew Hnd'].
    destruct Hpt as (Ht & Hn & ? & Ea & _).
    destruct (ptmapper_free_spec st (live_map l) pt (pt_key pt) (pt_blocks pt) Hi) as (st1 & E & Hi' & _).
    { rewrite El. apply lookup_insert_eq. }
    { done. }
    { by apply one_table. }
    rewrite Hf in E. injection E as <-. split; [|done|done].
    rewrite El, delete_insert_id in Hi'; [done|].
    apply not_elem_of_list_to_map_1. by rewrite live_map_fst.
Qed.

Lemma live_boot s : live_inv (ptm_boot s) [].
Proof. split; [apply ptm_boot_inv|constructor|constructor]. Qed.

End live.

(** ** The default configuration *)

#[global] Instance ptconfig32 : PtConfig :=
  {| configPT_AREA_START := 0x00400000; configPT_AREA_END := 0x007FFFFF |}.
#[global] Instance ptconfig32_ok : PtConfigOk.
Proof. split; vm_compute; intuition congruence. Qed.

Definition master_request : mmu_pagetable := MmuPagetable 0 0 1 0 MMU_PTT_MASTER 0.
Definition coarse_request (vaddr n : Z) : mmu_pagetable :=
  MmuPagetable vaddr 0 n 0x400000 MMU_PTT_COARSE 0.
(** Run [ptmapper_alloc], keeping the state only. *)
Definition alloc_pt (st : ptm) (pt : mmu_pagetable) : ptm :=
  match ptmapper_alloc st pt with Some (_, _, st) => st | None => st end.
Definition alloced (st : ptm) (pt : mmu_pagetable) : mmu_pagetable :=
  match ptmapper_alloc st pt with Some (_, pt, _) => pt | None => pt end.

Definition pst0 : ptm := ptm_boot s0.
Definition pst1 : ptm := alloc_pt pst0 master_request.
Definition pst2 : ptm := alloc_pt pst1 (coarse_request 0x10000000 1).

Lemma alloc_eq st pt err : fst <$> (fst <$> ptmapper_alloc st pt) = Some err ->
  ptmapper_alloc st pt = Some (err, alloced st pt, alloc_pt st pt).
Proof.
  unfold alloced, alloc_pt. destruct (ptmapper_alloc st pt) as [[[e p] s]|]; [|done].
  by intros [= ->].
Qed.


(** A page table of two blocks that starts in the last block of the first word of
    the bit map: its second block is handed out again. *)
Definition pst16 : ptm :=
  Nat.iter 15 (fun st => alloc_pt st (coarse_request 0x10000000 1)) pst1.
Definition big_pt : mmu_pagetable := alloced pst16 (coarse_request 0x20000000 2).
Definition next_pt : mmu_pagetable :=
  alloced (alloc_pt pst16 (coarse_request 0x20000000 2)) (coarse_request 0x30000000 1).
Lemma ptmapper_overlap :
  fst <$> (fst <$> ptmapper_alloc pst16 (coarse_request 0x20000000 2)) = Some 0 /\
  table_covers big_pt (pt_addr next_pt).
Proof. split; [vm_compute; reflexivity|]. unfold table_covers. vm_compute. intuition congruence. Qed.
