(* ===== verification/Vm.v ===== *)
(** * Virtual memory of processes: kern/vm.c, kern/vm_vpt.c, kern/include/vm/vm.h

    A process has a master page table, a tree of coarse page tables and an array
    of regions, which are buffers of [Vralloc].  Page tables come from
    [Ptmapper]; what the processor makes of them is [Mmu.walk].  The red-black
    tree of sys/tree.h is the list of its elements in order.  Physical memory is
    the one of [Vralloc]; the kernel maps it one to one.

    Results of allocators that may fail are arguments: addresses for [kzalloc] (0
    when it fails), booleans where only success matters.  A lock that is taken
    twice is a deadlock, which is [None], as are panics.  Buffers whose
    operations are not those of vralloc (the frame buffer) are not modelled. *)
From stdpp Require Import sorting.
From S2P Require Import Prelude Mem Bitmap Dynmem Kobj Regions Vralloc Mmu Ptmapper.

Definition VM_PT_FLAG_FILTER : Z := 0x01.
Definition VM_PT_CREAT : Z := 0x0002.
Definition MM_STACK_REGION : Z := 1.
Definition VM_INSOP_MAP_REG : Z := 0x0002.
Definition VM_INSOP_NOFREE : Z := 0x0010.
Definition MMU_DOM_USER : Z := 0.
Definition MMU_CPT_VADDR (x : Z) : Z := Z.land x 0xFFF00000.

Definition VM_ADDR_IS_IN_RANGE (addr range_start range_end : Z) : bool :=
  (range_start <=? addr) && (addr <=? range_end).
Definition VM_RANGE_IS_OVERLAPPING (a_start a_end b_start b_end : Z) : bool :=
  ((a_start <=? b_start) && (b_start <=? a_end)) ||
  ((a_start <=? b_end) && (b_end <=? a_end)).
Definition VM_RANGE_IS_INSIDE (a_start a_end b_start b_end : Z) : bool :=
  ((a_start <=? b_start) && (b_start <=? a_end)) &&
  ((a_start <=? b_end) && (b_end <=? a_end)).

(** [NBITS(n)] of libkern.h. *)
Definition NBITS2 (n : Z) : Z := if Z.land n 2 =? 0 then 0 else 1.
Definition NBITS4 (n : Z) : Z := if Z.land n 0xC =? 0 then NBITS2 n else 2 + NBITS2 (Z.shiftr n 2).
Definition NBITS8 (n : Z) : Z := if Z.land n 0xF0 =? 0 then NBITS4 n else 4 + NBITS4 (Z.shiftr n 4).
Definition NBITS16 (n : Z) : Z :=
  if Z.land n 0xFF00 =? 0 then NBITS8 n else 8 + NBITS8 (Z.shiftr n 8).
Definition NBITS32 (n : Z) : Z :=
  if Z.land n 0xFFFF0000 =? 0 then NBITS16 n else 16 + NBITS16 (Z.shiftr n 16).
Definition NBITS (n : Z) : Z := if n =? 0 then 0 else NBITS32 n + 1.

Class VmConfig := { configEXEC_BASE_LIMIT : Z; configUSER_VM_MAX : Z }.

(** ** Permissions *)

(** The boolean results of the C functions are 0 and 1. *)
Definition test_ap_priv (rw ap : Z) (xn : bool) : bool :=
  if negb (Z.land rw VM_PROT_EXECUTE =? 0) && xn then false
  else if negb (Z.land rw VM_PROT_WRITE =? 0) then
    (ap =? MMU_AP_RWNA) || (ap =? MMU_AP_RWRO) || (ap =? MMU_AP_RWRW)
  else if negb (Z.land rw VM_PROT_READ =? 0) then
    (ap =? MMU_AP_RWNA) || (ap =? MMU_AP_RWRO) || (ap =? MMU_AP_RWRW) ||
    (ap =? MMU_AP_RONA) || (ap =? MMU_AP_RORO)
  else false.

Definition test_ap_user (rw : Z) (bp : buf) : bool :=
  let mmu_ap := r_ap (b_mmu bp) in
  let has m := negb (Z.land mmu_ap m =? 0) in
  let exec := negb (Z.land rw VM_PROT_EXECUTE =? 0) in
  if exec && negb (Z.land (r_control (b_mmu bp)) MMU_CTRL_XN =? 0) then false
  else if negb (Z.land rw VM_PROT_WRITE =? 0) then has MMU_AP_RWRW
  else if negb (Z.land rw VM_PROT_READ =? 0) then
    has MMU_AP_RWRO || has MMU_AP_RWRW || has MMU_AP_RORO
  else exec.

(** The characters of the string: 'r', 'w', 'x', 'C', 'c' and '-' as their codes. *)
Definition vm_get_uapstring (bp : buf) : list Z :=
  let uap := b_uflags bp in
  let on m := negb (Z.land uap m =? 0) in
  [ if on VM_PROT_READ then 114 else 45; if on VM_PROT_WRITE then 119 else 45;
    if on VM_PROT_EXECUTE then 120 else 45;
    if on VM_PROT_COR then 67 else if on VM_PROT_COW then 99 else 45; 0 ].

(** ** Page tables of a process *)

Record vm_pt := VmPt { vpt_pt : mmu_pagetable; vpt_flags : Z }.

(** The regions are addresses of buffers, 0 for NULL; [nr_regions] is the length of
    the array. *)
Record mm := Mm {
  mpt : mmu_pagetable; ptlist : list vm_pt; regions : list Z; regions_lock : bool
}.
Definition set_ptlist (m : mm) (l : list vm_pt) : mm :=
  Mm (mpt m) l (regions m) (regions_lock m).
Definition set_regions (m : mm) (l : list Z) : mm :=
  Mm (mpt m) (ptlist m) l (regions_lock m).
Definition mtx_lock_mm (m : mm) : option mm :=
  if regions_lock m then None else Some (Mm (mpt m) (ptlist m) (regions m) true).
Definition mtx_unlock_mm (m : mm) : mm := Mm (mpt m) (ptlist m) (regions m) false.

Definition bsize2nr_tables (bsize : Z) : Z :=
  memalign_size bsize MMU_PGSIZE_SECTION / MMU_PGSIZE_SECTION.
Definition nr_tables2bsize (n : Z) : Z := u32 (n * MMU_PGSIZE_SECTION).

Definition ptlist_compare (a b : vm_pt) : Z :=
  let a_start := pt_vaddr (vpt_pt a) in
  let b_start := pt_vaddr (vpt_pt b) in
  let last pt := u32 (pt_vaddr pt + mmu_sizeof_pt_img pt - 1) in
  if negb (Z.land (vpt_flags a) VM_PT_FLAG_FILTER =? 0) &&
     VM_ADDR_IS_IN_RANGE a_start b_start (last (vpt_pt b)) then 0
  else if (Z.land (vpt_flags a) VM_PT_FLAG_FILTER =? 0) &&
     negb (Z.land (vpt_flags b) VM_PT_FLAG_FILTER =? 0) &&
     VM_ADDR_IS_IN_RANGE b_start a_start (last (vpt_pt a)) then 0
  else s32 (a_start - b_start).

(** [RB_FIND], [RB_INSERT] and [RB_REMOVE] on the elements in order. *)
Definition rb_find (l : list vm_pt) (e : vm_pt) : option vm_pt :=
  List.find (fun x => ptlist_compare e x =? 0) l.
Fixpoint rb_insert (l : list vm_pt) (e : vm_pt) : list vm_pt :=
  match l with
  | [] => [e]
  | x :: l' =>
      let c := ptlist_compare e x in
      if c <? 0 then e :: l else if c =? 0 then l else x :: rb_insert l' e
  end.
Definition rb_remove (l : list vm_pt) (e : vm_pt) : list vm_pt :=
  filter (fun x => pt_vaddr (vpt_pt x) <> pt_vaddr (vpt_pt e)) l.

Section vpt.
Context `{PtConfig}.

(** [ok] is the success of [kzalloc]. *)
Definition vm_pt_alloc (ok : bool) (p : ptm) (nr : Z) : option (option vm_pt * ptm) :=
  if negb ok then Some (None, p)
  else
    '(err, pt, p) ← ptmapper_alloc p (MmuPagetable 0 0 nr 0 MMU_PTT_COARSE MMU_DOM_USER);
    if negb (err =? 0) then Some (None, p) else Some (Some (VmPt pt 0), p).
Definition vm_pt_free (p : ptm) (vpt : vm_pt) : option ptm := ptmapper_free p (vpt_pt vpt).

Definition set_pt_mmu (p : ptm) (s : mmu) : ptm :=
  Ptm (ptm_alloc_map p) (ptm_nr_pt p) (ptm_mem_free p) s.

(** [sys] is [vm_pagetable_system]. *)
Definition ptlist_get_pt (ok : bool) (sys : vm_pt) (m : mm) (p : ptm) (vaddr minsize flags : Z)
    : option (option vm_pt * mm * ptm) :=
  let nr := bsize2nr_tables minsize in
  let spt := vpt_pt sys in
  if (pt_vaddr spt <=? vaddr) && (vaddr <? u32 (pt_vaddr spt + mmu_sizeof_pt_img spt)) then
    Some (Some sys, m, p)
  else
    let flt := VmPt (MmuPagetable (MMU_CPT_VADDR vaddr) 0 1 0 MMU_PTT_FAULT 0) VM_PT_FLAG_FILTER in
    match rb_find (ptlist m) flt with
    | Some vpt =>
        let pt := vpt_pt vpt in
        if negb (VM_ADDR_IS_IN_RANGE vaddr (pt_vaddr pt)
                   (u32 (pt_vaddr pt + mmu_sizeof_pt_img pt - 1))) then Some (None, m, p)
        else if nr_tables pt <? nr then Some (None, m, p)
        else Some (Some vpt, m, p)
    | None =>
        if negb (Z.land flags VM_PT_CREAT =? VM_PT_CREAT) then Some (None, m, p)
        else
          '(vpt, p) ← vm_pt_alloc ok p nr;
          match vpt with
          | None => Some (None, m, p)
          | Some vpt =>
              let pt := vpt_pt vpt in
              let pt := MmuPagetable (MMU_CPT_VADDR vaddr) (pt_addr pt) (nr_tables pt)
                          (pt_addr (mpt m)) (pt_type pt) (pt_dom pt) in
              let vpt := VmPt pt (vpt_flags vpt) in
              let m := set_ptlist m (rb_insert (ptlist m) vpt) in
              '(err, s) ← mmu_attach_pagetable (ptm_mmu p) pt;
              let p := set_pt_mmu p s in
              if negb (err =? 0) then
                p ← vm_pt_free p vpt;
                Some (None, set_ptlist m (rb_remove (ptlist m) vpt), p)
              else Some (Some vpt, m, p)
          end
    end.

(** [for (var = RB_MIN(...); var != 0; var = nxt)]: the nodes are freed, the head of
    the list is not reset. *)
Fixpoint ptlist_free (p : ptm) (l : list vm_pt) : option ptm :=
  match l with
  | [] => Some p
  | vpt :: l => p ← vm_pt_free p vpt; ptlist_free p l
  end.

Definition vm_pt_clone_attach (ok : bool) (p : ptm) (old_vpt : vm_pt) (new_mpt : mmu_pagetable)
    : option (option vm_pt * ptm) :=
  let old := vpt_pt old_vpt in
  '(vpt, p) ← vm_pt_alloc ok p (nr_tables old);
  match vpt with
  | None => Some (None, p)
  | Some vpt =>
      let new := MmuPagetable (pt_vaddr old) (pt_addr (vpt_pt vpt)) (nr_tables old)
                   (pt_addr new_mpt) (pt_type (vpt_pt vpt)) (pt_dom old) in
      let '(_, s) := mmu_ptcpy (ptm_mmu p) new old in
      '(_, s) ← mmu_attach_pagetable s new;
      Some (Some (VmPt new (vpt_flags vpt)), set_pt_mmu p s)
  end.

(** [RB_FOREACH] of [vm_ptlist_clone]; [oks] are the results of [kzalloc]. *)
Fixpoint clone_loop (oks : list bool) (p : ptm) (new_head : list vm_pt) (new_mpt : mmu_pagetable)
    (old : list vm_pt) (cnt : Z) : option (Z * list vm_pt * ptm) :=
  match old with
  | [] => Some (cnt, new_head, p)
  | old_vpt :: old =>
      '(vpt, p) ← vm_pt_clone_attach (default true (head oks)) p old_vpt new_mpt;
      match vpt with
      | None => Some (- ENOMEM, new_head, p)
      | Some vpt => clone_loop (tail oks) p (rb_insert new_head vpt) new_mpt old (cnt + 1)
      end
  end.
Definition vm_ptlist_clone (oks : list bool) (p : ptm) (new_mpt : mmu_pagetable)
    (old_head : list vm_pt) : option (Z * list vm_pt * ptm) :=
  clone_loop oks p [] new_mpt old_head 0.
End vpt.

(** ** Regions of a process *)

Record vms (D : Type) := Vms { v_mm : mm; v_ptm : ptm; v_vr : vr D }.
Arguments Vms {D}. Arguments v_mm {D}. Arguments v_ptm {D}. Arguments v_vr {D}.

Section vm.
Context {D : Type} `{RegionAllocator D} `{PtConfig} `{VmConfig}.
(** [vm_pagetable_system], and the fixed kernel regions of [KMEM_FOREACH]. *)
Context (sys : vm_pt) (fixed : list mmu_region).
(** The page table at a pointer, for [b_mmu.pt]. *)
Context (pt_at : Z -> option mmu_pagetable).
Implicit Types st : vms D.

Definition set_mm st (m : mm) : vms D := Vms m (v_ptm st) (v_vr st).
Definition set_ptm st (p : ptm) : vms D := Vms (v_mm st) p (v_vr st).
Definition set_vr st (v : vr D) : vms D := Vms (v_mm st) (v_ptm st) v.
Definition lock st : option (vms D) := m ← mtx_lock_mm (v_mm st); Some (set_mm st m).
Definition unlock st : vms D := set_mm st (mtx_unlock_mm (v_mm st)).
Definition get_buf st (bp : Z) : option buf := bufs (v_vr st) !! bp.
Definition put_buf st (bp : Z) (b : buf) : vms D :=
  set_vr st (set_bufs (v_vr st) (<[bp := b]> (bufs (v_vr st)))).

Definition get_pt (ok : bool) st (vaddr minsize flags : Z) : option (option vm_pt * vms D) :=
  '(vpt, m, p) ← ptlist_get_pt ok sys (v_mm st) (v_ptm st) vaddr minsize flags;
  Some (vpt, set_ptm (set_mm st m) p).

(** The kernel address, 0 for NULL. *)
Definition vm_uaddr2kaddr (ok : bool) st (uaddr acc_size : Z) : option (Z * vms D) :=
  '(vpt, st) ← get_pt ok st uaddr acc_size VM_PT_CREAT;
  match vpt with
  | None => Some (0, st)
  | Some vpt => Some (mmu_translate_vaddr (ptm_mmu (v_ptm st)) (vpt_pt vpt) uaddr, st)
  end.

(** The first and the last address of a buffer in the address space. *)
Definition reg_start (b : buf) : Z := r_vaddr (b_mmu b).
Definition reg_end (b : buf) : Z := u32 (r_vaddr (b_mmu b) + b_bufsize b - 1).

(** [for (int i = 0; i < mm->nr_regions; i++)] of [vm_find_reg]; the region number
    and the buffer. *)
Fixpoint find_reg_loop (bs : gmap Z buf) (l : list Z) (i uaddr : Z) : option (option (Z * Z)) :=
  match l with
  | [] => Some None
  | bp :: l =>
      if bp =? 0 then find_reg_loop bs l (i + 1) uaddr
      else
        b ← bs !! bp;
        if VM_ADDR_IS_IN_RANGE uaddr (reg_start b) (reg_end b) then Some (Some (i, bp))
        else find_reg_loop bs l (i + 1) uaddr
  end.
Definition vm_find_reg st (uaddr : Z) : option (option (Z * Z) * vms D) :=
  st ← lock st;
  r ← find_reg_loop (bufs (v_vr st)) (regions (v_mm st)) 0 uaddr;
  Some (r, unlock st).

Definition useracc_proc st (addr len rw : Z) : option (bool * vms D) :=
  if addr =? 0 then Some (false, st)
  else
    '(r, st) ← vm_find_reg st addr;
    match r with
    | None => Some (false, st)
    | Some (_, bp) =>
        b ← get_buf st bp;
        let e := if b_bcount b =? 0 then mmu_sizeof_region (pt_at (b_pt b)) (b_mmu b)
                 else b_bcount b in
        let e := u32 (e + u32 (r_vaddr (b_mmu b) - 1)) in
        if VM_ADDR_IS_IN_RANGE addr (reg_start b) e then Some (test_ap_user rw b, st)
        else Some (false, st)
    end.
(** [proc] is whether there is a current process, which is the one modelled. *)
Definition useracc (proc : bool) st (addr len rw : Z) : option (bool * vms D) :=
  if negb proc then Some (false, st) else useracc_proc st addr len rw.

(** [memcpy] in physical memory. *)
Definition copy_phys st (d s n : Z) : vms D := set_vr st (set_phys (v_vr st) (pcopy (phys (v_vr st)) d s n)).

Definition copyin_proc (ok : bool) st (uaddr kaddr len : Z) : option (Z * vms D) :=
  '(acc, st) ← useracc_proc st uaddr len VM_PROT_READ;
  if negb acc then Some (- EFAULT, st)
  else
    '(pa, st) ← vm_uaddr2kaddr ok st uaddr len;
    if pa =? 0 then Some (- EFAULT, st) else Some (0, copy_phys st kaddr pa len).
Definition copyout_proc (ok : bool) st (kaddr uaddr len : Z) : option (Z * vms D) :=
  '(acc, st) ← useracc_proc st uaddr len VM_PROT_WRITE;
  if negb acc then Some (- EFAULT, st)
  else
    '(pa, st) ← vm_uaddr2kaddr ok st uaddr len;
    if pa =? 0 then Some (- EFAULT, st) else Some (0, copy_phys st pa kaddr len).
Definition copyin (ok : bool) st (uaddr kaddr len : Z) := copyin_proc ok st uaddr kaddr len.
Definition copyout (ok : bool) st (kaddr uaddr len : Z) := copyout_proc ok st kaddr uaddr len.

Definition ld st (a : Z) : Z := phys (v_vr st) a.
Definition sb st (a v : Z) : vms D := set_vr st (set_phys (v_vr st) (pset (phys (v_vr st)) a v 1)).

(** The check at the head of the loops: when [uaddr] is in another page than the one
    before, test the access and translate.  [inl] is the error. *)
Definition str_page (ok : bool) st (uaddr pa last : Z) : option ((Z + Z * Z) * vms D) :=
  let prefix := Z.shiftr uaddr (NBITS MMU_PGSIZE_COARSE) in
  if prefix =? last then Some (inr (pa, last), st)
  else
    '(acc, st) ← useracc true st uaddr 1 VM_PROT_READ;
    if negb acc then Some (inl (- EFAULT), st)
    else
      '(pa, st) ← vm_uaddr2kaddr ok st uaddr MMU_PGSIZE_COARSE;
      if pa =? 0 then Some (inl (- EFAULT), st) else Some (inr (pa, prefix), st).

(** The loop of [copyinstr], [n] is [len - off]; [inr] is the value of [off] after
    it. *)
Fixpoint copyinstr_loop (ok : bool) (n : nat) st (uaddr kaddr pa last off : Z)
    : option ((Z + Z) * vms D) :=
  match n with
  | O => Some (inr off, st)
  | S n =>
      '(r, st) ← str_page ok st uaddr pa last;
      match r with
      | inl err => Some (inl err, st)
      | inr (pa, last) =>
          let st := sb st (u32 (kaddr + off)) (ld st pa) in
          let off := off + 1 in
          if ld st (u32 (kaddr + off - 1)) =? 0 then Some (inr off, st)
          else copyinstr_loop ok n st (u32 (uaddr + off)) kaddr (u32 (pa + 1)) last off
      end
  end.
(** What follows the loop in both functions; the result is the error and [*done]. *)
Definition str_finish st (kaddr off : Z) : Z * Z * vms D :=
  let a := u32 (kaddr + off - 1) in
  if ld st a =? 0 then (0, off, st) else (- ENAMETOOLONG, off, sb st a 0).
(** [*done] is not set when an error is returned from the loop. *)
Definition copyinstr (ok : bool) st (uaddr kaddr len : Z) : option (Z * option Z * vms D) :=
  if (uaddr =? 0) || (kaddr =? 0) then None (* KASSERT *)
  else
    '(r, st) ← copyinstr_loop ok (Z.to_nat len) st uaddr kaddr 0 (2 ^ 32 - 1) 0;
    match r with
    | inl err => Some (err, None, st)
    | inr off => let '(err, off, st) := str_finish st kaddr off in Some (err, Some off, st)
    end.

Fixpoint copyoutstr_loop (ok : bool) (n : nat) st (uaddr kaddr pa last off : Z)
    : option ((Z + Z) * vms D) :=
  match n with
  | O => Some (inr off, st)
  | S n =>
      '(r, st) ← str_page ok st uaddr pa last;
      match r with
      | inl err => Some (inl err, st)
      | inr (pa, last) =>
          let st := sb st pa (ld st (u32 (kaddr + off))) in
          let off := off + 1 in
          if ld st (u32 (kaddr + off - 1)) =? 0 then Some (inr off, st)
          else copyoutstr_loop ok n st (u32 (uaddr + off)) kaddr (u32 (pa + 1)) last off
      end
  end.
Definition copyoutstr (ok : bool) st (kaddr uaddr len : Z) : option (Z * option Z * vms D) :=
  if (uaddr =? 0) || (kaddr =? 0) then None
  else
    '(r, st) ← copyoutstr_loop ok (Z.to_nat len) st uaddr kaddr 0 (2 ^ 32 - 1) 0;
    match r with
    | inl err => Some (err, None, st)
    | inr off => let '(err, off, st) := str_finish st kaddr off in Some (err, Some off, st)
    end.

(** A new section: [bp] and [nodes] are the results of [kzalloc] in [geteblk]. *)
Definition vm_newsect (bp : Z) (nodes : list Z) st (vaddr size prot : Z) : option (Z * vms D) :=
  let start_vaddr := vaddr - vaddr mod MMU_PGSIZE_COARSE in
  let sectsize := u32 (u32 (vaddr + size) - start_vaddr) in
  '(new, v) ← geteblk bp nodes (v_vr st) sectsize;
  let st := set_vr st v in
  if new =? 0 then Some (0, st)
  else
    b ← get_buf st new;
    let b := set_b_uflags b (Z.ldiff prot (Z.lor VM_PROT_COW VM_PROT_COR)) in
    let m := b_mmu b in
    let b := set_b_mmu b (MmuRegion start_vaddr (r_num_pages m) (r_ap m)
                            MMU_CTRL_MEMTYPE_WB (r_paddr m)) in
    Some (new, put_buf st new (vm_updateusr_ap b)).

Fixpoint overlap_loop (bs : gmap Z buf) (l : list Z) (vaddr newreg_end : Z) : option bool :=
  match l with
  | [] => Some false
  | bp :: l =>
      if bp =? 0 then overlap_loop bs l vaddr newreg_end
      else
        b ← bs !! bp;
        if VM_RANGE_IS_OVERLAPPING (reg_start b) (reg_end b) vaddr newreg_end then Some true
        else overlap_loop bs l vaddr newreg_end
  end.
Definition is_overlaping_current_regions st (vaddr size : Z) : option bool :=
  overlap_loop (bufs (v_vr st)) (regions (v_mm st)) vaddr (u32 (u32 (vaddr + size) - 1)).

(** [rnd] are the results of [kunirand], one for each turn of the loop; [None] when
    they are used up. *)
Fixpoint rnd_addr (ok : bool) (rnd : list Z) st (size : Z) : option (Z * vms D) :=
  match rnd with
  | [] => None
  | r :: rnd =>
      let bits := NBITS MMU_PGSIZE_SECTION in
      let vaddr := u32 (configEXEC_BASE_LIMIT + u32 (Z.shiftl r bits)) in
      let vaddr := vaddr - vaddr mod MMU_PGSIZE_COARSE in
      o ← is_overlaping_current_regions st vaddr size;
      if o : bool then rnd_addr ok rnd st size
      else
        '(vpt, st) ← get_pt ok st vaddr size VM_PT_CREAT;
        match vpt with
        | None => rnd_addr ok rnd st size
        | Some _ => Some (vaddr, st)
        end
  end.

(** [ok] is the success of [krealloc]. *)
Definition realloc_mm_regions_locked (ok : bool) (m : mm) (new_count : Z) : Z * mm :=
  let i := Z.of_nat (length (regions m)) in
  if new_count <=? i then (0, m)
  else if negb ok then (- ENOMEM, m)
  else (0, set_regions m (regions m ++ replicate (Z.to_nat (new_count - i)) 0)).
(** With no regions the lock is initialised first. *)
Definition realloc_mm_regions (ok : bool) (m : mm) (new_count : Z) : option (Z * mm) :=
  let m := if Z.of_nat (length (regions m)) =? 0 then mtx_unlock_mm m else m in
  m ← mtx_lock_mm m;
  let '(r, m) := realloc_mm_regions_locked ok m new_count in
  Some (r, mtx_unlock_mm m).

(** The first slot that is NULL. *)
Fixpoint free_slot (l : list Z) (i : Z) : Z :=
  match l with
  | [] => -1
  | bp :: l => if bp =? 0 then i else free_slot l (i + 1)
  end.
Definition vm_insert_region_ref (ok : bool) (m : mm) (region : Z) : option (Z * mm) :=
  let nr_regions := Z.of_nat (length (regions m)) in
  m ← mtx_lock_mm m;
  let slot := free_slot (regions m) 0 in
  if slot =? -1 then
    let '(err, m) := realloc_mm_regions_locked ok m (nr_regions + 1) in
    if negb (err =? 0) then Some (err, m) (* the lock is kept *)
    else
      l ← (regions m).[nr_regions <- region];
      Some (nr_regions, mtx_unlock_mm (set_regions m l))
  else
    l ← (regions m).[slot <- region];
    Some (slot, mtx_unlock_mm (set_regions m l)).

(** [vm_ops] of the buffers of vralloc. *)
Definition vm_map_region st (bp : Z) (vpt : vm_pt) : option (Z * vms D) :=
  b ← get_buf st bp;
  if negb (b_vra b) then None
  else
    '(err, b, s) ← vrmmap (ptm_mmu (v_ptm st)) b (vpt_pt vpt);
    Some (err, put_buf (set_ptm st (set_pt_mmu (v_ptm st) s)) bp b).
Definition rfree st (bp : Z) : option (vms D) :=
  b ← get_buf st bp;
  if negb (b_vra b) then None else v ← vrfree (v_vr st) bp; Some (set_vr st v).

Definition vm_mapproc_region (ok : bool) st (bp : Z) : option (Z * vms D) :=
  b ← get_buf st bp;
  '(vpt, st) ← get_pt ok st (r_vaddr (b_mmu b)) (b_bufsize b) VM_PT_CREAT;
  match vpt with
  | None => Some (- ENOMEM, st)
  | Some vpt => vm_map_region st bp vpt
  end.
Definition vm_unmapproc_region (ok : bool) st (bp : Z) : option (Z * vms D) :=
  b ← get_buf st bp;
  '(vpt, st) ← get_pt ok st (r_vaddr (b_mmu b)) (b_bufsize b) VM_PT_CREAT;
  match vpt with
  | None => Some (- EINVAL, st) (* the lock of the buffer is kept *)
  | Some vpt =>
      let '(err, s) := mmu_unmap_region (ptm_mmu (v_ptm st)) (vpt_pt vpt) (b_mmu b) in
      Some (err, set_ptm st (set_pt_mmu (v_ptm st) s))
  end.

(** [region] may be NULL unless it is to be mapped. *)
Definition vm_replace_region (ok : bool) st (region region_nr insop : Z) : option (Z * vms D) :=
  '(err, m) ← (if Z.of_nat (length (regions (v_mm st))) <=? region_nr
               then realloc_mm_regions ok (v_mm st) (region_nr + 1) else Some (0, v_mm st));
  let st := set_mm st m in
  if negb (err =? 0) then Some (err, st)
  else
    st ← lock st;
    old ← (regions (v_mm st)).[region_nr];
    l ← (regions (v_mm st)).[region_nr <- 0];
    let st := unlock (set_mm st (set_regions (v_mm st) l)) in
    st ← (if old =? 0 then Some st
          else
            b ← get_buf st old;
            let unmap := negb (existsb (fun r => r_vaddr r =? r_vaddr (b_mmu b)) fixed) in
            st ← (if unmap then '(_, st) ← vm_unmapproc_region ok st old; Some st else Some st);
            if negb (Z.land insop VM_INSOP_NOFREE =? VM_INSOP_NOFREE) then rfree st old
            else Some st);
    '(err, st) ← (if Z.land insop VM_INSOP_MAP_REG =? 0 then Some (0, st)
                  else if region =? 0 then None (* panic *)
                  else vm_mapproc_region ok st region);
    if negb (err =? 0) then Some (err, st)
    else
      st ← lock st;
      l ← (regions (v_mm st)).[region_nr <- region];
      Some (0, unlock (set_mm st (set_regions (v_mm st) l))).

Definition vm_insert_region (ok : bool) st (region insop : Z) : option (Z * vms D) :=
  if region =? 0 then None (* KASSERT *)
  else
    '(slot, m) ← vm_insert_region_ref ok (v_mm st) 0;
    let st := set_mm st m in
    if slot <? 0 then Some (slot, st)
    else
      '(err, st) ← vm_replace_region ok st region slot insop;
      if negb (err =? 0) then Some (err, st) else Some (slot, st).

(** [old_bp] is 0 for NULL. *)
Definition vm_rndsect (ok : bool) (rnd : list Z) (bp : Z) (nodes : list Z) st (size prot old_bp : Z)
    : option (Z * vms D) :=
  size ← (if negb (old_bp =? 0) && (size =? 0) then b ← get_buf st old_bp; Some (b_bufsize b)
          else Some size);
  st ← lock st;
  '(vaddr, st) ← rnd_addr ok rnd st size;
  let st := unlock st in
  '(new, st) ← (if negb (old_bp =? 0) then
      b ← get_buf st old_bp;
      let m := b_mmu b in
      Some (old_bp, put_buf st old_bp (set_b_mmu b
        (MmuRegion vaddr (r_num_pages m) (r_ap m) (r_control m) (r_paddr m))))
    else vm_newsect bp nodes st vaddr size prot);
  if new =? 0 then Some (0, st)
  else
    '(err, st) ← vm_insert_region ok st new VM_INSOP_MAP_REG;
    if err <? 0 then
      st ← (if old_bp =? 0 then rfree st new else Some st);
      Some (0, st)
    else Some (new, st).

Definition vm_new_userstack_curproc (ok : bool) (rnd : list Z) (bp : Z) (nodes : list Z) st
    (size : Z) : option (Z * vms D) :=
  '(stack, v) ← geteblk bp nodes (v_vr st) size;
  let st := set_vr st v in
  if stack =? 0 then Some (0, st)
  else
    st ← lock st;
    b ← get_buf st stack;
    '(vaddr, st) ← rnd_addr ok rnd st (b_bufsize b);
    let b := set_b_uflags b (Z.lor VM_PROT_READ VM_PROT_WRITE) in
    let b := set_b_mmu b (MmuRegion vaddr (r_num_pages (b_mmu b)) MMU_AP_RWRW MMU_CTRL_XN
                            (r_paddr (b_mmu b))) in
    let st := unlock (put_buf st stack b) in
    '(_, st) ← vm_replace_region ok st stack MM_STACK_REGION VM_INSOP_MAP_REG;
    Some (stack, st).

(** [n] regions from [i] on; the lock is not held at the head of the loop. *)
Fixpoint unload_loop (ok : bool) (n : nat) st (i : Z) : option (vms D) :=
  match n with
  | O => Some st
  | S n =>
      st ← lock st;
      region ← (regions (v_mm st)).[i];
      let st := unlock st in
      st ← (if negb (region =? 0) then '(_, st) ← vm_replace_region ok st 0 i 0; Some st
            else Some st);
      unload_loop ok n st (i + 1)
  end.
Definition vm_unload_regions (ok : bool) st (start end_ : Z) : option (Z * vms D) :=
  st ← lock st;
  let nr_regions := Z.of_nat (length (regions (v_mm st))) in
  if (start <? 0) || (nr_regions <=? start) || (nr_regions <=? end_) then
    Some (- EINVAL, unlock st)
  else
    let end_ := if end_ =? -1 then nr_regions - 1 else end_ in
    st ← unload_loop ok (Z.to_nat (end_ - start)) (unlock st) start;
    Some (0, st).

Fixpoint fixmemmap_loop (ok : bool) (l : list Z) st : option (vms D) :=
  match l with
  | [] => Some st
  | bp :: l =>
      st ← (if bp =? 0 then Some st else '(_, st) ← vm_mapproc_region ok st bp; Some st);
      fixmemmap_loop ok l st
  end.
Definition vm_fixmemmap_proc (ok : bool) st : option (vms D) :=
  st ← lock st;
  st ← fixmemmap_loop ok (regions (v_mm st)) st;
  Some (unlock st).

(** [ok] is the success of [krealloc]; the error code. *)
Definition vm_mm_init (ok : bool) (p : ptm) (m : mm) (nr_regions : Z) : option (Z * mm * ptm) :=
  '(err, pt, p) ← ptmapper_alloc p
    (MmuPagetable 0 (pt_addr (mpt m)) 1 (master_pt_addr (mpt m)) MMU_PTT_MASTER MMU_DOM_USER);
  let m := Mm pt (ptlist m) (regions m) (regions_lock m) in
  if negb (err =? 0) then Some (- ENOMEM, m, p)
  else
    '(err, m) ← realloc_mm_regions ok (set_regions m []) nr_regions;
    if (err =? 0) && (0 <? nr_regions) then Some (0, m, p) else Some (- ENOMEM, m, p).

Fixpoint rfree_all (l : list Z) st : option (vms D) :=
  match l with
  | [] => Some st
  | bp :: l => st ← (if bp =? 0 then Some st else rfree st bp); rfree_all l st
  end.
(** The array is not NULL after [vm_mm_init]. *)
Definition vm_mm_destroy st : option (vms D) :=
  st ← rfree_all (regions (v_mm st)) st;
  p ← ptlist_free (v_ptm st) (ptlist (v_mm st));
  let st := set_ptm (set_mm st (set_regions (v_mm st) [])) p in
  if pt_addr (mpt (v_mm st)) =? 0 then Some st
  else p ← ptmapper_free (v_ptm st) (mpt (v_mm st)); Some (set_ptm st p).

(** [acc] is what [dynmem_acc] returns; the result is always true. *)
Definition kernacc (region_kernel : mmu_region) (addr len rw : Z) (acc : Z * bool) : bool :=
  if existsb (fun _ =>
       (r_vaddr region_kernel <=? addr) &&
       (addr <? u32 (r_vaddr region_kernel +
                     mmu_sizeof_region (Some (vpt_pt sys)) region_kernel))) fixed
  then true
  else if negb (acc.1 =? 0) && test_ap_priv rw acc.1 acc.2 then true
  else true.
End vm.

(** ** Access permissions

    The table of include/hal/mmu.h. *)

Definition all_ap : list Z := [MMU_AP_NANA; MMU_AP_RONA; MMU_AP_RWNA; MMU_AP_RWRO; MMU_AP_RWRW; MMU_AP_RORO].
Definition priv_read (ap : Z) : bool := negb (ap =? MMU_AP_NANA).
Definition priv_write (ap : Z) : bool := bool_decide (ap ∈ [MMU_AP_RWNA; MMU_AP_RWRO; MMU_AP_RWRW]).
Definition user_read (ap : Z) : bool := bool_decide (ap ∈ [MMU_AP_RWRO; MMU_AP_RWRW; MMU_AP_RORO]).
Definition user_write (ap : Z) : bool := ap =? MMU_AP_RWRW.
Definition has (u f : Z) : bool := negb (Z.land u f =? 0).

(** Only the five flags matter. *)
Lemma land_flags u f : Z.land 31 f = f -> Z.land u f = Z.land (Z.land u 31) f.
Proof. intros E. by rewrite <-Z.land_assoc, E. Qed.

Lemma flags_range u : 0 <= Z.land u 31 < 32.
Proof. change 31 with (Z.ones 5). rewrite Z.land_ones by lia. apply Z.mod_pos_bound. lia. Qed.

Definition updated_ok (u ap : Z) : bool :=
  let ap' := updated_ap u ap in
  let cow := has u VM_PROT_COW && has u VM_PROT_READ in
  bool_decide (ap' ∈ all_ap) &&
  eqb (user_write ap') (has u VM_PROT_WRITE && negb (has u VM_PROT_COR) && negb cow) &&
  eqb (user_read ap') ((has u VM_PROT_READ || has u VM_PROT_WRITE) && negb (has u VM_PROT_COR)).

Lemma updated_ok_flags u ap : updated_ok u ap = updated_ok (Z.land u 31) ap.
Proof.
  unfold updated_ok, updated_ap, has.
  rewrite (land_flags u VM_PROT_COW), (land_flags u VM_PROT_READ), (land_flags u VM_PROT_COR),
    (land_flags u VM_PROT_WRITE), (land_flags u (Z.lor VM_PROT_COW VM_PROT_READ)) by done. done.
Qed.

(** C27. [vm_updateusr_ap] keeps the permissions of a region among those that the MMU
    has, and they say what the flags of the buffer say: user mode may write exactly
    when the region is writable, is not waiting for a copy on read and is not read
    only until a copy on write; it may read exactly when the region is readable or
    writable and is not waiting for a copy on read.  Nothing else changes. *)
Theorem vm_updateusr_ap_correct (b : buf) (Hap : r_ap (b_mmu b) ∈ all_ap) :
  let b' := vm_updateusr_ap b in
  let u := b_uflags b in
  let cow := has u VM_PROT_COW && has u VM_PROT_READ in
  r_ap (b_mmu b') ∈ all_ap /\
  user_write (r_ap (b_mmu b')) = has u VM_PROT_WRITE && negb (has u VM_PROT_COR) && negb cow /\
  user_read (r_ap (b_mmu b')) =
    (has u VM_PROT_READ || has u VM_PROT_WRITE) && negb (has u VM_PROT_COR) /\
  b' = set_b_mmu b (set_ap (b_mmu b) (r_ap (b_mmu b'))).
Proof.
  intros b' u cow. change (r_ap (b_mmu b')) with (updated_ap u (r_ap (b_mmu b))).
  assert (updated_ok u (r_ap (b_mmu b)) = true) as Hok.
  { rewrite updated_ok_flags. pose proof (flags_range u) as Hr. revert Hr. generalize (Z.land u 31).
    clear b' cow. revert Hap. generalize (r_ap (b_mmu b)). intros ap Hap.
    unfold all_ap in Hap. repeat (apply elem_of_cons in Hap as [->|Hap]);
      [..|by apply not_elem_of_nil in Hap]; apply range_check; vm_compute; reflexivity. }
  unfold updated_ok in Hok. rewrite !andb_true_iff, bool_decide_eq_true in Hok.
  destruct Hok as [[? ->%eqb_prop] ->%eqb_prop]. by split_and!.
Qed.

Definition code_buf : buf :=
  Buf 0x800000 4096 4096 (MmuRegion 0x10000000 1 MMU_AP_RWNA 0 0x800000) 0
    (Z.lor VM_PROT_READ VM_PROT_EXECUTE) B_BUSY true 0x100 kobj_init.

Lemma vm_updateusr_ap_correct_witness :
  user_write (r_ap (b_mmu (vm_updateusr_ap code_buf))) = false /\
  user_read (r_ap (b_mmu (vm_updateusr_ap code_buf))) = true.
Proof.
  destruct (vm_updateusr_ap_correct code_buf) as (_ & -> & -> & _).
  { apply (bool_decide_unpack _). vm_compute. exact I. }
  by vm_compute.
Defined.

(** [test_ap_priv] is the table for privileged accesses. *)
Lemma test_ap_priv_spec rw ap xn : ap ∈ all_ap ->
  test_ap_priv rw ap xn =
    negb (has rw VM_PROT_EXECUTE && xn) &&
    (if has rw VM_PROT_WRITE then priv_write ap
     else has rw VM_PROT_READ && priv_read ap).
Proof.
  intros Hap. unfold test_ap_priv. fold (has rw VM_PROT_EXECUTE) (has rw VM_PROT_WRITE) (has rw VM_PROT_READ).
  destruct (has rw VM_PROT_EXECUTE), xn, (has rw VM_PROT_WRITE), (has rw VM_PROT_READ); cbn [andb negb]; try done;
    unfold all_ap in Hap; repeat (apply elem_of_cons in Hap as [->|Hap]); try (by apply not_elem_of_nil in Hap); done.
Qed.

(** [test_ap_user] accepts a write to every region that is accessible at all, read-only
    ones and those of the kernel included. *)
Lemma test_ap_user_write b : r_ap (b_mmu b) ∈ all_ap -> r_ap (b_mmu b) <> MMU_AP_NANA ->
  test_ap_user VM_PROT_WRITE b = true.
Proof.
  intros Hap Hn. unfold test_ap_user. change (Z.land VM_PROT_WRITE VM_PROT_EXECUTE) with 0.
  change (Z.land VM_PROT_WRITE VM_PROT_WRITE) with 2. cbn [Z.eqb negb andb].
  revert Hap Hn. generalize (r_ap (b_mmu b)). intros ap Hap Hn. unfold all_ap in Hap.
  repeat (apply elem_of_cons in Hap as [->|Hap]); try (by apply not_elem_of_nil in Hap); done.
Qed.

(** *** Regions *)

(** A range that contains a region does not count as overlapping it. *)
Lemma overlap_missed : VM_RANGE_IS_OVERLAPPING 0x10001000 0x10001fff 0x10000000 0x10002fff = false.
Proof. reflexivity. Qed.

(** [NBITS] is one more than the logarithm that its comment promises. *)
Lemma NBITS_page : NBITS MMU_PGSIZE_COARSE = 13 /\ NBITS MMU_PGSIZE_SECTION = 21.
Proof. split; reflexivity. Qed.

(** A failed allocation leaves the lock taken: the next operation never gets it. *)
Lemma insert_ref_keeps_lock m region : regions_lock m = false -> free_slot (regions m) 0 = -1 ->
  exists m', vm_insert_region_ref false m region = Some (- ENOMEM, m') /\ mtx_lock_mm m' = None.
Proof.
  intros Hl Hs. unfold vm_insert_region_ref, mtx_lock_mm. rewrite Hl. mstep. cbn [regions].
  rewrite Hs. change (-1 =? -1) with true. cbv iota.
  unfold realloc_mm_regions_locked. cbn [regions]. zcase; [lia|]. cbn. by eexists.
Qed.

Lemma free_slot_spec l i : 0 <= i ->
  free_slot l i = -1 /\ Forall (fun bp => bp <> 0) l \/
  exists k, free_slot l i = i + k /\ 0 <= k < Z.of_nat (length l) /\ l.[k] = Some 0 /\
    forall j bp, 0 <= j < k -> l.[j] = Some bp -> bp <> 0.
Proof.
  revert i. induction l as [|bp l IH]; intros i Hi; [by left|]. cbn [free_slot].
  destruct (Z.eqb_spec bp 0) as [->|Hne].
  - right. exists 0. cbn [length]. split_and!; [lia|lia|lia|done|]. intros; lia.
  - destruct (IH (i + 1)) as [[-> ?]|(k & -> & Hk & Hl & Hlt)]; [lia|left; split; [done|by constructor]|].
    right. exists (k + 1). cbn [length]. split_and!; [lia|lia|lia|..].
    + unfold rd in *. zcase; [lia|]. zcase_in Hl; [lia|].
      replace (Z.to_nat (k + 1)) with (S (Z.to_nat k)) by lia. done.
    + intros j b Hj Hb. unfold rd in Hb. zcase_in Hb; [lia|]. destruct (decide (j = 0)) as [->|].
      { by injection Hb as ->. }
      apply (Hlt (j - 1) b); [lia|]. unfold rd. zcase; [lia|].
      replace (Z.to_nat j) with (S (Z.to_nat (j - 1))) in Hb by lia. done.
Qed.

(** Otherwise the region goes to the first free slot, or to a new one behind the others;
    no other slot changes and the lock is released. *)
Lemma vm_insert_region_ref_spec ok m region : regions_lock m = false ->
  exists slot m', vm_insert_region_ref ok m region = Some (slot, m') /\
    (slot = - ENOMEM /\ ok = false /\ free_slot (regions m) 0 = -1 \/
     0 <= slot <= Z.of_nat (length (regions m)) /\ regions_lock m' = false /\
     (regions m').[slot] = Some region /\ mpt m' = mpt m /\ ptlist m' = ptlist m /\
     ((regions m).[slot] = Some 0 \/ slot = Z.of_nat (length (regions m))) /\
     forall j, j <> slot -> (regions m').[j] = (regions m).[j]).
Proof.
  intros Hl. unfold vm_insert_region_ref, mtx_lock_mm. rewrite Hl. mstep. cbn [regions].
  destruct (free_slot_spec (regions m) 0 ltac:(lia)) as [[-> _]|(k & -> & Hk & Hz & _)].
  - change (-1 =? -1) with true. cbv iota. unfold realloc_mm_regions_locked. cbn [regions]. zcase; [lia|].
    destruct ok; cbn [negb]; cbn [Z.eqb negb set_regions regions mpt ptlist].
    2: { eexists _, _. split; [done|]. by left. }
    replace (Z.to_nat _) with 1%nat by lia. cbn [replicate].
    rewrite wr_Some by (rewrite length_app; cbn; lia). mstep. eexists _, _. split; [done|]. right.
    cbn [regions regions_lock mtx_unlock_mm set_regions]. split_and!; try done; try lia; [|].
    + apply rd_insert_eq. rewrite length_app. cbn. lia.
    + intros j Hj. rewrite rd_insert_ne by lia. unfold rd. zcase; [done|].
      destruct (decide (j < Z.of_nat (length (regions m)))).
      * by rewrite lookup_app_l by lia.
      * rewrite !lookup_ge_None_2; [done|lia|rewrite length_app; cbn; lia].
  - rewrite Z.add_0_l. rewrite (proj2 (Z.eqb_neq k (-1))) by lia. rewrite wr_Some by lia. mstep.
    eexists _, _. split; [done|]. right. cbn [regions regions_lock mtx_unlock_mm set_regions].
    split_and!; try done; try lia; [by apply rd_insert_eq|by left|].
    intros j Hj. apply rd_insert_ne; lia.
Qed.
