(* ===== verification/VmSpace.v ===== *)
(** * The address space of a process: what [Vm] guarantees

    [space_inv] relates the page tables of the current process to the page tables
    in use ([Ptmapper]) and to what the processor finds ([Mmu.walk]).  The
    operations of [Vm] that look up, create and fill page tables keep it; from
    it follow the theorems on mapped regions and on user copies. *)
From stdpp Require Import sorting.
From S2P Require Import Prelude Mem Bitmap Dynmem Kobj Regions Vralloc Mmu Ptmapper Vm.

(** ** Frame lemmas for page tables *)

Definition same_l1 (s s' : mmu) : Prop :=
  ttbr0 s' = ttbr0 s /\
  forall va, 0 <= va < 2 ^ 32 -> tables s' (l1_addr (ttbr0 s) va) = tables s (l1_addr (ttbr0 s) va).

(** What [pt_inv] asks of the first level entries outside of the range of [pt]. *)
Definition l1_private (s : mmu) (pt : mmu_pagetable) (va : Z) : Prop :=
  let w := tables s (l1_addr (ttbr0 s) va) in w mod 4 = MMU_PTE_COARSE ->
  (l2_base w + 2 ^ 10 <= pt_addr pt \/ pt_addr pt + nr_tables pt * 2 ^ 10 <= l2_base w) /\
  (l2_base w + 2 ^ 10 <= master_pt_addr pt \/
   master_pt_addr pt + MMU_PTSZ_MASTER <= l2_base w).

Lemma pt_inv_private s pt va : pt_ready s pt -> 0 <= va < 2 ^ 32 -> ~ in_image pt va ->
  l1_private s pt va.
Proof.
  intros Hi Hva Hni. unfold l1_private. intros Hc.
  split; [by apply (pi_private _ _ Hi)|by apply (pi_master _ _ Hi)].
Qed.

Lemma image_range s pt va : pt_ready s pt -> in_image pt va -> 0 <= va < 2 ^ 32.
Proof. intros Hi Hv. destruct (pi_fits _ _ Hi) as (_ & _ & ? & _ & _ & ? & _). unfold in_image in Hv. lia. Qed.

Lemma pt_inv_frame s s' pt : pt_inv s pt -> ttbr0 s' = ttbr0 s ->
  (forall x, 0 <= tables s' x < 2 ^ 32) ->
  (forall va, in_image pt va -> tables s' (l1_addr (ttbr0 s) va) = tables s (l1_addr (ttbr0 s) va)) ->
  (forall va, 0 <= va < 2 ^ 32 -> ~ in_image pt va -> l1_private s' pt va) ->
  pt_inv s' pt.
Proof.
  intros Hi Ht Hw Hs Hp. pose proof Hi as [[Hf Hty Htt _ Hap _ _] Hat].
  split; [split; try done; [by rewrite Ht|..]|].
  1,2: intros va Hva Hni w Hc; by apply (Hp va Hva Hni).
  intros j Hj. specialize (Hat j Hj). unfold l1_slot in *. rewrite <-Htt in *.
  rewrite Hs; [done|]. unfold in_image. lia.
Qed.

Lemma pt_inv_same_l1 s s' pt : pt_inv s pt -> same_l1 s s' ->
  (forall x, 0 <= tables s' x < 2 ^ 32) -> pt_inv s' pt.
Proof.
  intros Hi [Ht Hs] Hw. apply (pt_inv_frame s); try done.
  - intros va Hva. apply Hs. eapply image_range; [apply Hi|done].
  - intros va Hva Hni. unfold l1_private. rewrite Ht, Hs by done. apply pt_inv_private; [apply Hi|done..].
Qed.

(** ** The list of page tables *)

Lemma sizeof_img pt : pt_type pt = MMU_PTT_COARSE -> 0 < nr_tables pt < 2 ^ 12 ->
  mmu_sizeof_pt_img pt = nr_tables pt * 2 ^ 20.
Proof.
  intros Ht Hn. unfold mmu_sizeof_pt_img, table_count. rewrite Ht, (proj2 (Z.eqb_neq _ _)) by lia.
  unfold MMU_PGSIZE_SECTION. rewrite u32_small; lia.
Qed.

(** A page table of a process: its range is below 2 GB. *)
Definition user_pt (v : vm_pt) : Prop :=
  vpt_flags v = 0 /\ pt_type (vpt_pt v) = MMU_PTT_COARSE /\ 0 < nr_tables (vpt_pt v) /\
  0 <= pt_vaddr (vpt_pt v) /\ pt_vaddr (vpt_pt v) mod 2 ^ 20 = 0 /\
  pt_vaddr (vpt_pt v) + nr_tables (vpt_pt v) * 2 ^ 20 <= 2 ^ 31.
Definition pt_before (a b : vm_pt) : Prop :=
  pt_vaddr (vpt_pt a) + nr_tables (vpt_pt a) * 2 ^ 20 <= pt_vaddr (vpt_pt b).

Lemma last_addr v : user_pt v ->
  u32 (pt_vaddr (vpt_pt v) + mmu_sizeof_pt_img (vpt_pt v) - 1) =
    pt_vaddr (vpt_pt v) + nr_tables (vpt_pt v) * 2 ^ 20 - 1.
Proof. intros (_ & ? & ? & ? & ? & ?). rewrite sizeof_img by (done || lia). apply u32_small. lia. Qed.

(** The filter finds the page table with the megabyte of the address in its range. *)
Lemma compare_filter base v : user_pt v -> 0 <= base < 2 ^ 31 ->
  (ptlist_compare (VmPt (MmuPagetable base 0 1 0 MMU_PTT_FAULT 0) VM_PT_FLAG_FILTER) v =? 0) =
    bool_decide (in_image (vpt_pt v) base).
Proof.
  intros Hv Hb. unfold ptlist_compare. rewrite last_addr by done. cbn [vpt_flags vpt_pt pt_vaddr].
  destruct Hv as (Hf & Ht & Hn & ? & Hm & Hend).
  change (Z.land VM_PT_FLAG_FILTER VM_PT_FLAG_FILTER =? 0) with false. cbn [negb andb].
  unfold VM_ADDR_IS_IN_RANGE, in_image.
  destruct (Z.leb_spec (pt_vaddr (vpt_pt v)) base), (Z.leb_spec base (pt_vaddr (vpt_pt v) + nr_tables (vpt_pt v) * 2 ^ 20 - 1));
    cbn [andb]; rewrite ?s32_small by lia.
  - rewrite bool_decide_eq_true_2; [done|lia].
  - rewrite bool_decide_eq_false_2 by lia. apply Z.eqb_neq. lia.
  - rewrite bool_decide_eq_false_2 by lia. apply Z.eqb_neq. lia.
  - lia.
Qed.

Lemma cpt_vaddr va : 0 <= va < 2 ^ 32 -> MMU_CPT_VADDR va = va / 2 ^ 20 * 2 ^ 20.
Proof. intros. unfold MMU_CPT_VADDR. change 0xFFF00000 with (2 ^ 32 - 2 ^ 20). by apply land_mask_high. Qed.

Lemma in_image_base v va : user_pt v -> in_image (vpt_pt v) (va / 2 ^ 20 * 2 ^ 20) <-> in_image (vpt_pt v) va.
Proof. intros (_ & _ & ? & ? & ? & ?). unfold in_image. split; dlia. Qed.

Lemma rb_find_spec l va : Forall user_pt l -> 0 <= va < 2 ^ 31 ->
  let flt := VmPt (MmuPagetable (MMU_CPT_VADDR va) 0 1 0 MMU_PTT_FAULT 0) VM_PT_FLAG_FILTER in
  match rb_find l flt with
  | Some v => v ∈ l /\ in_image (vpt_pt v) va
  | None => forall v, v ∈ l -> ~ in_image (vpt_pt v) va
  end.
Proof.
  intros Hl Hva flt. subst flt. rewrite cpt_vaddr by lia.
  induction Hl as [|v l Hv Hl IH]; [intros v []%not_elem_of_nil|]. unfold rb_find in *. cbn [List.find].
  rewrite compare_filter by (done || dlia).
  destruct (bool_decide (in_image _ _)) eqn:E.
  - apply bool_decide_eq_true in E. rewrite in_image_base in E by done. split; [by left|done].
  - apply bool_decide_eq_false in E. rewrite in_image_base in E by done.
    destruct (List.find _ l) as [w|]; [destruct IH; split; [by right|done]|].
    intros w [->|Hw]%elem_of_cons; [done|by apply IH].
Qed.

(** A new page table goes to its place in the order. *)
Lemma rb_insert_spec l e : Forall user_pt l -> user_pt e -> StronglySorted pt_before l ->
  (forall v, v ∈ l -> pt_before v e \/ pt_before e v) ->
  StronglySorted pt_before (rb_insert l e) /\ rb_insert l e ≡ₚ e :: l.
Proof.
  intros Hl He. induction l as [|x l IH]; intros Hs Hsep.
  { split; [repeat constructor|done]. }
  apply Forall_cons in Hl as [Hx Hl]. apply StronglySorted_inv in Hs as [Hs Hxl].
  destruct (IH Hl Hs) as [IHs IHp]; [intros v Hv; apply Hsep; by right|]. cbn [rb_insert].
  assert (ptlist_compare e x = pt_vaddr (vpt_pt e) - pt_vaddr (vpt_pt x)) as ->.
  { unfold ptlist_compare. destruct He as (-> & _ & ? & ? & ? & ?), Hx as (-> & _ & ? & ? & ? & ?).
    cbn. apply s32_small. lia. }
  destruct He as (_ & _ & ? & ? & ? & ?), Hx as (_ & _ & ? & ? & ? & ?).
  destruct (Hsep x ltac:(by left)) as [Hb|Hb]; unfold pt_before in Hb at 1.
  - destruct (Z.ltb_spec (pt_vaddr (vpt_pt e) - pt_vaddr (vpt_pt x)) 0); [lia|].
    rewrite (proj2 (Z.eqb_neq _ _)) by lia. split; [|by rewrite IHp, Permutation_swap].
    constructor; [done|]. rewrite IHp. by constructor.
  - destruct (Z.ltb_spec (pt_vaddr (vpt_pt e) - pt_vaddr (vpt_pt x)) 0); [|lia]. split; [|done].
    constructor; [by constructor|]. constructor; [done|]. rewrite Forall_forall in *.
    intros y Hy. specialize (Hxl y Hy). unfold pt_before in *. lia.
Qed.

(** ** Invariant *)

Section space.
Context `{PtConfigOk}.

(** The page table is one of the tables in use. *)
Definition live_pt (A : gmap Z Z) (pt : mmu_pagetable) : Prop :=
  A !! pt_key pt = Some (pt_blocks pt) /\ pt_addr pt = PTM_BLOCK2ADDR (pt_key pt).

(** Every second level table that the processor may reach is in use, and is not
    the master table. *)
Definition reaches_live (s : mmu) (A : gmap Z Z) (mkey : Z) : Prop :=
  forall va, 0 <= va < 2 ^ 32 -> let w := tables s (l1_addr (ttbr0 s) va) in
    w mod 4 = MMU_PTE_COARSE ->
    exists k n, A !! k = Some n /\ k <> mkey /\
      PTM_BLOCK2ADDR k <= l2_base w /\ l2_base w + 2 ^ 10 <= PTM_BLOCK2ADDR k + n * 2 ^ 10.

Record space_inv (m : mm) (p : ptm) (A : gmap Z Z) : Prop := {
  sp_ptm : ptm_inv p A;
  sp_master : live_pt A (mpt m) /\ pt_type (mpt m) = MMU_PTT_MASTER /\ nr_tables (mpt m) = 1;
  sp_ttb : ttbr0 (ptm_mmu p) = pt_addr (mpt m);
  sp_words : words (ptm_mmu p);
  sp_user : Forall user_pt (ptlist m);
  sp_sorted : StronglySorted pt_before (ptlist m);
  sp_tables : forall v, v ∈ ptlist m -> pt_inv (ptm_mmu p) (vpt_pt v) /\ live_pt A (vpt_pt v);
  sp_reach : reaches_live (ptm_mmu p) A (pt_key (mpt m))
}.

(** A table of another block shares no byte with a table in use. *)
Lemma live_block p A k n j m : ptm_inv p A -> A !! k = Some n -> A !! j = Some m -> k <> j ->
  PTM_BLOCK2ADDR k + n * 2 ^ 10 <= PTM_BLOCK2ADDR j \/
  PTM_BLOCK2ADDR j + m * 2 ^ 10 <= PTM_BLOCK2ADDR k.
Proof.
  intros Hi Hk Hj Hne. destruct (pm_range _ _ Hi _ _ Hk) as (? & ? & ?).
  destruct (pm_range _ _ Hi _ _ Hj) as (? & ? & ?).
  destruct (block2addr k) as [-> _]; [lia|]. destruct (block2addr j) as [-> _]; [lia|].
  destruct (decide (k + n <= j)); [left; lia|]. destruct (decide (j + m <= k)); [right; lia|].
  exfalso. apply Hne. apply (pm_disjoint _ _ Hi k n j m (Z.max k j) Hk Hj); lia.
Qed.

Lemma master_blocks m p A : space_inv m p A -> pt_blocks (mpt m) = 16 /\
  A !! pt_key (mpt m) = Some 16 /\ pt_addr (mpt m) = PTM_BLOCK2ADDR (pt_key (mpt m)) /\
  0 < pt_addr (mpt m) /\ pt_addr (mpt m) + MMU_PTSZ_MASTER < 2 ^ 32.
Proof.
  intros Hi. destruct (sp_master _ _ _ Hi) as ([Hl Ha] & Ht & Hn).
  destruct (one_table (mpt m)) as [E _]; [congruence|done|]. unfold pt_align in E. rewrite Ht in E. cbn in E.
  rewrite E in Hl. destruct (pm_range _ _ (sp_ptm _ _ _ Hi) _ _ Hl) as (? & ? & ?).
  destruct (block2addr (pt_key (mpt m))) as [Eb _]; [lia|].
  pose proof pc_start. pose proof pc_end. pose proof pc_fit. unfold blocks in *.
  split_and!; try done; rewrite Ha, Eb; unfold MMU_PTSZ_MASTER; lia.
Qed.

(** Filling entries of tables keeps the invariant. *)
Lemma space_inv_same_l1 m p A s' : space_inv m p A -> same_l1 (ptm_mmu p) s' -> words s' ->
  space_inv m (set_pt_mmu p s') A.
Proof.
  intros Hi Hs Hw. pose proof Hi as [Hp Hm Ht _ Hu Hso Hta Hre]. pose proof Hs as [Htt Hl1].
  split; cbn [ptm_mmu set_pt_mmu]; try done.
  - by destruct Hp.
  - by rewrite Htt.
  - intros v Hv. destruct (Hta v Hv). split; [by apply (pt_inv_same_l1 (ptm_mmu p))|done].
  - intros va Hva. rewrite Htt, Hl1 by done. by apply Hre.
Qed.

Lemma update_same_l1 s pt r pte : pt_inv s pt -> region_ok pt r ->
  let s' := set_tables s (write_ptes (loop_count (r_num_pages r)) (tables s)
    (first_coarse pt (r_vaddr r)) pte 12) in same_l1 s s' /\ words s'.
Proof.
  intros Hi Hr s'. split; [|intros x; by apply update_words]. split; [done|].
  intros va Hva. apply update_l1; [done..|]. by apply l1_addr_range.
Qed.

(** *** A new page table *)

(** The table for the megabyte of [va], with its first level entry. *)
Section fresh.
Context (m : mm) (p p' : ptm) (A : gmap Z Z) (k va : Z) (pt0 : mmu_pagetable).
Context (Hi : space_inv m p A) (Hva : 0 <= va < 2 ^ 31).
Context (Hplaced : placed p p' A (MmuPagetable 0 0 1 0 MMU_PTT_COARSE MMU_DOM_USER) pt0 k).
Context (Hp' : ptm_inv p' (<[k := 1]> A)).
Context (Htt : ttbr0 (ptm_mmu p') = ttbr0 (ptm_mmu p)) (Hw' : words (ptm_mmu p')).
Context (Hnone : forall v, v ∈ ptlist m -> ~ in_image (vpt_pt v) va).
Let base := va / 2 ^ 20 * 2 ^ 20.
Let pt := MmuPagetable base (pt_addr pt0) 1 (pt_addr (mpt m)) MMU_PTT_COARSE MMU_DOM_USER.

Lemma fresh_addr : pt_addr pt = PTM_BLOCK2ADDR k /\ 0 <= k < blocks /\
  PTM_BLOCK2ADDR k = configPT_AREA_START + k * 2 ^ 10 /\ A !! k = None /\
  forall j n, A !! j = Some n ->
    PTM_BLOCK2ADDR j + n * 2 ^ 10 <= pt_addr pt \/ pt_addr pt + 2 ^ 10 <= PTM_BLOCK2ADDR j.
Proof.
  destruct Hplaced as (Ea & Hk & Hk' & _ & Hd & _). change (pt_blocks _) with 1 in *.
  destruct (block2addr k) as [Eb _]; [lia|]. split_and!; try done; try lia.
  - destruct (A !! k) as [n|] eqn:E; [|done]. destruct (pm_range _ _ (sp_ptm _ _ _ Hi) _ _ E).
    destruct (Hd k n E); lia.
  - intros j n Hj. destruct (pm_range _ _ (sp_ptm _ _ _ Hi) _ _ Hj) as (? & ? & ?).
    destruct (block2addr j) as [Ej _]; [lia|]. cbn [pt_addr pt]. rewrite Ea, Eb, Ej.
    destruct (Hd j n Hj); lia.
Qed.

(** The fill touches no word of the master table. *)
Lemma fresh_l1 x : 0 <= x < 2 ^ 32 ->
  tables (ptm_mmu p') (l1_addr (pt_addr (mpt m)) x) = tables (ptm_mmu p) (l1_addr (pt_addr (mpt m)) x).
Proof.
  intros Hx. destruct (master_blocks _ _ _ Hi) as (_ & Hm & Ea & _ & _).
  destruct fresh_addr as (Ek & _ & _ & _ & Hd). destruct (Hd _ _ Hm) as [Hd'|Hd'];
    destruct Hplaced as (_ & _ & _ & _ & _ & _ & _ & _ & _ & _ & Hf);
    pose proof pc_start as [_ Hs];
    destruct (pm_range _ _ (sp_ptm _ _ _ Hi) _ _ Hm) as (? & ? & ?);
    (destruct (block2addr (pt_key (mpt m))) as [Eb _]; [lia|]);
    (rewrite Hf by (unfold l1_addr; rewrite Ea, Eb; dlia));
    change (mmu_sizeof_pt _) with (2 ^ 10) at 1; cbn [pt_addr pt] in Hd';
    rewrite <-Ea in Hd'; unfold l1_addr; zcase; try (zcase; [|done]); try done; exfalso; dlia.
Qed.

Lemma fresh_image x : in_image pt x <-> x / 2 ^ 20 = va / 2 ^ 20.
Proof. unfold in_image, pt, base. cbn [pt_vaddr nr_tables]. split; dlia. Qed.

(** No first level entry of the old state leads into the new table or the master. *)
Lemma fresh_private x : 0 <= x < 2 ^ 32 -> l1_private (ptm_mmu p') pt x.
Proof.
  intros Hx. unfold l1_private. rewrite Htt, (sp_ttb _ _ _ Hi), fresh_l1 by done.
  rewrite <-(sp_ttb _ _ _ Hi). intros Hc.
  destruct (sp_reach _ _ _ Hi x Hx Hc) as (j & n & Hj & Hne & Hlo & Hhi).
  destruct fresh_addr as (_ & _ & _ & _ & Hd). destruct (master_blocks _ _ _ Hi) as (_ & Hm & Ea & _ & _).
  pose proof (live_block p A j n _ 16 (sp_ptm _ _ _ Hi) Hj Hm Hne). cbn [nr_tables master_pt_addr pt].
  unfold MMU_PTSZ_MASTER. split; [destruct (Hd j n Hj)|]; lia.
Qed.

Lemma fresh_ready : pt_ready (ptm_mmu p') pt.
Proof.
  destruct fresh_addr as (Ek & Hk & Eb & _ & Hd). destruct (master_blocks _ _ _ Hi) as (_ & Hm & Ea & ? & ?).
  pose proof pc_start as [? ?]. pose proof pc_end. pose proof pc_fit. unfold blocks in Hk.
  split; try done.
  - rewrite Eb in Ek. unfold fits. rewrite Ek. unfold pt, base, MMU_DOM_USER.
    cbn [master_pt_addr pt_vaddr nr_tables pt_dom].
    unfold MMU_PTSZ_MASTER in *. split_and!; dlia.
  - rewrite Htt. by rewrite (sp_ttb _ _ _ Hi).
  - cbn [nr_tables master_pt_addr pt]. rewrite Ea. unfold MMU_PTSZ_MASTER. destruct (Hd _ _ Hm); [right|left]; lia.
  - intros x Hx _ w Hc. by apply fresh_private.
  - intros x Hx _ w Hc. by apply fresh_private.
Qed.

Let s2 := set_tables (ptm_mmu p')
  (set_l1 (Z.to_nat (nr_tables pt)) 0 (tables (ptm_mmu p')) pt (l1_pte pt)).

Lemma fresh_inv : mmu_attach_pagetable (ptm_mmu p') pt = Some (0, s2) /\ pt_inv s2 pt.
Proof. apply attach_inv, fresh_ready. Qed.

Lemma fresh_entry x : in_image pt x ->
  tables s2 (l1_addr (ttbr0 (ptm_mmu p)) x) mod 4 = MMU_PTE_COARSE /\
  l2_base (tables s2 (l1_addr (ttbr0 (ptm_mmu p)) x)) = pt_addr pt.
Proof.
  intros Hx. rewrite <-Htt. destruct (l1_slot_of _ _ fresh_ready x Hx) as [-> Hj].
  destruct fresh_inv as [_ [_ Hat]]. destruct (Hat _ Hj) as [? E]. split; [done|]. rewrite E.
  cbn [nr_tables pt] in Hj. lia.
Qed.

Lemma fresh_entry_out x : 0 <= x < 2 ^ 32 -> ~ in_image pt x ->
  tables s2 (l1_addr (ttbr0 (ptm_mmu p)) x) = tables (ptm_mmu p) (l1_addr (ttbr0 (ptm_mmu p)) x).
Proof.
  intros Hx Hni. rewrite <-Htt. unfold s2. rewrite l1_addr_out by (done || apply fresh_ready).
  rewrite Htt, (sp_ttb _ _ _ Hi). by apply fresh_l1.
Qed.

Lemma fresh_disjoint v x : v ∈ ptlist m -> in_image (vpt_pt v) x -> ~ in_image pt x.
Proof.
  intros Hv Hx Hpt. apply (Hnone v Hv). apply fresh_image in Hpt.
  pose proof (sp_user _ _ _ Hi) as Hu. rewrite Forall_forall in Hu. specialize (Hu v Hv).
  apply (in_image_base v va Hu). rewrite <-Hpt. by apply (in_image_base v x Hu).
Qed.

Lemma fresh_old v : v ∈ ptlist m -> pt_inv s2 (vpt_pt v) /\ live_pt (<[k := 1]> A) (vpt_pt v).
Proof.
  intros Hv. destruct (sp_tables _ _ _ Hi v Hv) as [Hpv [Hl Ha]].
  destruct fresh_addr as (Ek & Hk & Eb & Hkn & Hd). destruct (master_blocks _ _ _ Hi) as (_ & Hm & Ea & _ & _).
  split.
  - apply (pt_inv_frame (ptm_mmu p)); [done|done|apply fresh_inv|..].
    + intros x Hx. apply fresh_entry_out; [by eapply image_range; [apply Hpv|]|by eapply fresh_disjoint].
    + intros x Hx Hni. unfold l1_private. change (ttbr0 s2) with (ttbr0 (ptm_mmu p')). rewrite Htt.
      destruct (decide (x / 2 ^ 20 = va / 2 ^ 20)) as [Hin%fresh_image|Hni'].
      * destruct (fresh_entry x Hin) as [_ ->]. intros _.
        rewrite <-(pi_ttb _ _ Hpv), (sp_ttb _ _ _ Hi).
        pose proof (sp_user _ _ _ Hi) as Hu. rewrite Forall_forall in Hu.
        destruct (Hu v Hv) as (_ & Ht & Hn & _ & _ & Hend).
        assert (pt_blocks (vpt_pt v) = nr_tables (vpt_pt v)) as Eb'.
        { destruct (Hu v Hv) as (_ & _ & _ & ? & _). unfold pt_blocks, mmu_sizeof_pt, table_count.
          rewrite Ht, (proj2 (Z.eqb_neq _ _)), u32_small by (unfold MMU_PTSZ_COARSE; lia).
          unfold MMU_PTSZ_COARSE. dlia. }
        rewrite Eb' in Hl. pose proof (Hd _ _ Hl) as Hd1. pose proof (Hd _ _ Hm) as Hd2.
        rewrite <-Ha in Hd1. rewrite <-Ea in Hd2. unfold MMU_PTSZ_MASTER. lia.
      * rewrite fresh_entry_out by (done || by rewrite fresh_image).
        by apply pt_inv_private; [apply Hpv|..].
  - split; [|done]. rewrite lookup_insert_ne; [done|]. intros E. rewrite <-E in Hl. congruence.
Qed.

Lemma fresh_insert : StronglySorted pt_before (rb_insert (ptlist m) (VmPt pt 0)) /\
  rb_insert (ptlist m) (VmPt pt 0) ≡ₚ VmPt pt 0 :: ptlist m /\ user_pt (VmPt pt 0).
Proof.
  pose proof (sp_user _ _ _ Hi) as Hu.
  assert (user_pt (VmPt pt 0)) as Hup.
  { unfold user_pt, pt, base. cbn [vpt_flags vpt_pt pt_type nr_tables pt_vaddr]. split_and!; try done; dlia. }
  destruct (rb_insert_spec (ptlist m) (VmPt pt 0) Hu Hup (sp_sorted _ _ _ Hi)) as [? ?]; [|done].
  intros v Hv. rewrite Forall_forall in Hu. destruct (Hu v Hv) as (_ & _ & ? & ? & ? & ?).
  pose proof (Hnone v Hv) as Hn. unfold pt_before, in_image in *. cbn [vpt_pt pt_vaddr nr_tables pt]. unfold base.
  destruct (decide (pt_vaddr (vpt_pt v) + nr_tables (vpt_pt v) * 2 ^ 20 <= va)); [left|right]; dlia.
Qed.

Lemma fresh_space :
  space_inv (set_ptlist m (rb_insert (ptlist m) (VmPt pt 0))) (set_pt_mmu p' s2) (<[k := 1]> A).
Proof.
  pose proof Hi as [Hp Hm Ht Hw Hu Hso Hta Hre]. destruct fresh_inv as [_ Hpi].
  destruct fresh_addr as (Ek & Hk & Eb & Hkn & _).
  destruct fresh_insert as (Hs' & Hperm & Hup).
  assert (A !! pt_key (mpt m) = Some (pt_blocks (mpt m))) as Hlm by apply Hm.
  split; cbn [ptm_mmu set_pt_mmu ptlist set_ptlist mpt]; try done.
  - by destruct Hp'.
  - destruct Hm as ([_ ?] & ? & ?). split; [split; [|done]|done].
    rewrite lookup_insert_ne; [done|]. intros E. rewrite <-E in Hlm. congruence.
  - change (ttbr0 s2) with (ttbr0 (ptm_mmu p')). by rewrite Htt.
  - exact (pi_words s2 pt Hpi).
  - rewrite Hperm. by constructor.
  - intros v Hv. rewrite Hperm in Hv. apply elem_of_cons in Hv as [->|Hv]; [|by apply fresh_old].
    split; [done|]. cbn [vpt_pt]. assert (pt_key pt = k) as Ekey.
    { unfold pt_key. rewrite Ek. by apply block2addr. }
    split; rewrite Ekey; [by rewrite lookup_insert_eq|done].
  - intros x Hx. change (ttbr0 s2) with (ttbr0 (ptm_mmu p')). rewrite Htt.
    destruct (decide (x / 2 ^ 20 = va / 2 ^ 20)) as [Hin%fresh_image|Hni].
    + intros w _. destruct (fresh_entry x Hin) as [_ E]. subst w. rewrite E, Ek. exists k, 1.
      rewrite lookup_insert_eq. split_and!; [done| |lia|lia]. intros E'. rewrite E' in Hkn. congruence.
    + rewrite fresh_entry_out by (done || by rewrite fresh_image). intros w Hc.
      destruct (Hre x Hx Hc) as (j & n & Hj & ?). exists j, n. split; [|done].
      rewrite lookup_insert_ne; [done|]. intros E. rewrite <-E in Hj. congruence.
Qed.

Lemma fresh_walk_in x : in_image pt x -> walk s2 x = None.
Proof.
  intros Hx. destruct fresh_inv as [_ Hpi]. rewrite (walk_in_image s2 pt x Hpi Hx).
  destruct fresh_addr as (Ek & Hk & Eb & _ & _). pose proof fresh_ready as Hr.
  assert (0 <= (x - pt_vaddr pt) / 2 ^ 12 < 2 ^ 8) as Hj.
  { unfold in_image in Hx. cbn [nr_tables pt] in Hx. dlia. }
  unfold s2. rewrite l1_out; [|done|].
  - destruct Hplaced as (_ & _ & _ & _ & _ & _ & _ & _ & _ & _ & Hf). change (mmu_sizeof_pt _) with (2 ^ 10) in Hf.
    pose proof pc_start. rewrite Hf by (rewrite Ek, Eb; dlia). cbn [pt_addr pt].
    repeat zcase; cbn [andb]; try (exfalso; lia). done.
  - intros j Hj' E. destruct (l1_slot_eq pt j (pi_fits _ _ Hr) Hj') as (_ & _ & ?).
    pose proof (pi_apart _ _ Hr) as Hap. cbn [nr_tables pt] in Hap. lia.
Qed.

Lemma fresh_walk_out x : 0 <= x < 2 ^ 32 -> ~ in_image pt x -> walk s2 x = walk (ptm_mmu p) x.
Proof.
  intros Hx Hni. unfold s2. rewrite l1_walk_out by (done || apply fresh_ready).
  unfold walk. rewrite Htt. rewrite (sp_ttb _ _ _ Hi), fresh_l1 by done. rewrite <-(sp_ttb _ _ _ Hi).
  set (w := tables (ptm_mmu p) (l1_addr (ttbr0 (ptm_mmu p)) x)).
  destruct (Z.eqb_spec (w mod 4) MMU_PTE_SECTION); [done|].
  destruct (Z.eqb_spec (w mod 4) MMU_PTE_COARSE) as [Hc|]; [|done]. f_equal.
  destruct (sp_reach _ _ _ Hi x Hx Hc) as (j & nb & Hj & _ & Hlo & Hhi). fold w in Hlo, Hhi.
  destruct fresh_addr as (_ & _ & _ & _ & Hd).
  destruct Hplaced as (_ & _ & _ & _ & _ & _ & _ & _ & _ & _ & Hf). change (mmu_sizeof_pt _) with (2 ^ 10) in Hf.
  rewrite Hf by (unfold l2_addr, l2_base; dlia).
  assert (l2_base w <= l2_addr w x < l2_base w + 2 ^ 10) by (unfold l2_addr; dlia).
  specialize (Hd j nb Hj). cbn [pt_addr pt] in Hd.
  repeat zcase; cbn [andb]; try done. exfalso. lia.
Qed.
End fresh.

(** *** Look-up and creation *)

(** What a look-up does to translations: a new table replaces whatever was mapped
    in its megabyte, where no other table was. *)
Definition walks_but (m : mm) (s s' : mmu) (vaddr : Z) : Prop :=
  forall x, 0 <= x < 2 ^ 32 -> walk s' x = walk s x \/
    x / 2 ^ 20 = vaddr / 2 ^ 20 /\ walk s' x = None /\
    forall v, v ∈ ptlist m -> ~ in_image (vpt_pt v) vaddr.

Definition outside_system (sys : vm_pt) (vaddr : Z) : Prop :=
  let spt := vpt_pt sys in
  ~ (pt_vaddr spt <= vaddr < u32 (pt_vaddr spt + mmu_sizeof_pt_img spt)).

Lemma one_megabyte minsize : 0 < minsize <= 2 ^ 20 -> bsize2nr_tables minsize = 1.
Proof.
  intros Hs. unfold bsize2nr_tables. change MMU_PGSIZE_SECTION with (2 ^ 20).
  destruct (memalign_size_spec minsize 20); [lia|lia|dlia|]. dlia.
Qed.

Lemma get_pt_found ok sys m p A vaddr minsize flags :
  space_inv m p A -> 0 <= vaddr < 2 ^ 31 -> outside_system sys vaddr -> 0 < minsize <= 2 ^ 20 ->
  (exists v, v ∈ ptlist m /\ in_image (vpt_pt v) vaddr) ->
  exists v, ptlist_get_pt ok sys m p vaddr minsize flags = Some (Some v, m, p) /\
    v ∈ ptlist m /\ in_image (vpt_pt v) vaddr.
Proof.
  intros Hi Hva Hsys Hsz (v0 & Hin0 & Him0). unfold ptlist_get_pt. rewrite one_megabyte by done.
  unfold outside_system in Hsys.
  replace ((_ <=? _) && (_ <? _)) with false by (repeat (zcase; cbn; try done); lia).
  pose proof (rb_find_spec (ptlist m) vaddr (sp_user _ _ _ Hi) Hva) as Hf. cbv zeta in Hf.
  destruct (rb_find _ _) as [v|]; [|by destruct (Hf v0)].
  destruct Hf as [Hin Him]. pose proof (sp_user _ _ _ Hi) as Hu. rewrite Forall_forall in Hu.
  specialize (Hu v Hin). rewrite last_addr by done. unfold VM_ADDR_IS_IN_RANGE, in_image in *.
  replace ((_ <=? _) && (_ <=? _)) with true by (repeat (zcase; cbn; try done); lia).
  destruct Hu as (_ & _ & ? & _). cbn [negb]. zcase; [lia|]. by exists v.
Qed.

Lemma get_pt_spec ok sys m p A vaddr minsize :
  space_inv m p A -> 0 <= vaddr < 2 ^ 31 -> outside_system sys vaddr ->
  0 < minsize -> vaddr mod 2 ^ 20 + minsize <= 2 ^ 20 ->
  exists r m' p' A', ptlist_get_pt ok sys m p vaddr minsize VM_PT_CREAT = Some (r, m', p') /\
    space_inv m' p' A' /\ mpt m' = mpt m /\ regions m' = regions m /\
    regions_lock m' = regions_lock m /\
    match r with
    | None => m' = m /\ p' = p
    | Some v => v ∈ ptlist m' /\ in_image (vpt_pt v) vaddr /\
        walks_but m (ptm_mmu p) (ptm_mmu p') vaddr /\
        (v ∈ ptlist m \/ pt_vaddr (vpt_pt v) = vaddr / 2 ^ 20 * 2 ^ 20)
    end.
Proof.
  intros Hi Hva Hsys Hsz Hfit. unfold ptlist_get_pt.
  pose proof (rb_find_spec (ptlist m) vaddr (sp_user _ _ _ Hi) Hva) as Hf. cbv zeta in Hf.
  destruct (rb_find _ _) as [v|] eqn:Ef.
  { destruct (get_pt_found ok sys m p A vaddr minsize VM_PT_CREAT Hi Hva Hsys) as (w & Ew & ? & ?);
      [dlia|by exists v|].
    unfold ptlist_get_pt in Ew. rewrite Ef in Ew. rewrite Ew.
    exists (Some w), m, p, A. split_and!; try done; [intros x _; by left|by left]. }
  rewrite one_megabyte by dlia. unfold outside_system in Hsys.
  replace ((_ <=? _) && (_ <? _)) with false by (repeat (zcase; cbn; try done); lia).
  cbn [negb]. change (Z.land VM_PT_CREAT VM_PT_CREAT =? VM_PT_CREAT) with true. cbn [negb].
    unfold vm_pt_alloc. destruct ok; cbn [negb]; mstep; [|exists None, m, p, A; by split_and!].
    destruct (ptmapper_alloc_spec p A (MmuPagetable 0 0 1 0 MMU_PTT_COARSE MMU_DOM_USER)
                (sp_ptm _ _ _ Hi)) as (err & pt0 & p1 & Ea & Hr); [done|done|].
    rewrite Ea. mstep. destruct (ptmapper_alloc_frame _ _ _ _ _ Ea) as [Htt Hw].
    specialize (Hw (sp_words _ _ _ Hi)).
    destruct Hr as [[-> ->]|(-> & k & Hpl & Hk)]; [exists None, m, p, A; by split_and!|].
    cbn [Z.eqb negb]. change (pt_blocks _) with 1 in Hk. specialize (Hk ltac:(lia)).
    pose proof Hpl as (_ & _ & _ & _ & _ & _ & En & Et & Ed & _). cbn in En, Et, Ed.
    mstep. cbn [vpt_pt vpt_flags].
    rewrite En, Et, Ed, cpt_vaddr by lia.
    destruct (fresh_inv m p p1 A k vaddr pt0 Hi Hva Hpl Htt Hw) as [Hat Hpi].
    change (table_count _) with 1. rewrite Hat. mstep. cbn [Z.eqb negb].
    pose proof (fresh_space m p p1 A k vaddr pt0 Hi Hva Hpl Hk Htt Hw Hf) as Hsp.
    eexists (Some _), _, _, _. split; [done|]. split; [exact Hsp|].
    split; [done|]. split; [done|]. split; [done|].
    split_and!; [|by apply (fresh_image m vaddr pt0)| |by right].
    + cbn [ptlist set_ptlist]. destruct (fresh_insert m p A vaddr pt0 Hi Hva Hf) as (_ & -> & _). by left.
    + intros x Hx. cbn [ptm_mmu set_pt_mmu].
      destruct (decide (x / 2 ^ 20 = vaddr / 2 ^ 20)) as [E|E].
      * right. split; [done|]. split; [|done].
        apply (fresh_walk_in m p p1 A k vaddr pt0 Hi Hva Hpl Htt Hw). by apply fresh_image.
      * left. apply (fresh_walk_out m p p1 A k vaddr pt0 Hi Hva Hpl Htt Hw); [done|]. by rewrite fresh_image.
Qed.
End space.

(** ** A new address space *)

Section init.
Context `{PtConfigOk}.

Lemma realloc_empty ok m nr : regions m = [] -> realloc_mm_regions ok m nr = Some
  (if nr <=? 0 then (0, Mm (mpt m) (ptlist m) [] false)
   else if ok then (0, Mm (mpt m) (ptlist m) (replicate (Z.to_nat nr) 0) false)
   else (- ENOMEM, Mm (mpt m) (ptlist m) [] false)).
Proof.
  destruct m as [mp pl rs lk]. cbn. intros ->. unfold realloc_mm_regions, realloc_mm_regions_locked. cbn.
  change (Z.of_nat 0) with 0. cbn [Z.eqb]. unfold mtx_lock_mm, mtx_unlock_mm, set_regions.
  cbn [regions_lock mpt ptlist regions]. mstep. cbn [length regions]. change (Z.of_nat 0) with 0.
  zcase; [done|]. destruct ok; [|done]. cbn. by rewrite Z.sub_0_r.
Qed.

(** After [vm_mm_init] the master table, once loaded, is a consistent address space in
    which every address faults. *)
Theorem vm_mm_init_space (ok : bool) (p : ptm) (A : gmap Z Z) (m m' : mm) (p' : ptm) (nr : Z) :
  ptm_inv p A -> words (ptm_mmu p) -> ptlist m = [] -> vm_mm_init ok p m nr = Some (0, m', p') ->
  let p1 := set_pt_mmu p' (set_ttbr0 (ptm_mmu p') (pt_addr (mpt m'))) in
  exists A', space_inv m' p1 A' /\ Z.of_nat (length (regions m')) = nr /\
    (forall i, 0 <= i < nr -> (regions m').[i] = Some 0) /\ regions_lock m' = false /\
    forall va, 0 <= va < 2 ^ 32 -> walk (ptm_mmu p1) va = None.
Proof.
  intros Hp Hw Hl Hin p1. unfold vm_mm_init in Hin.
  set (req := MmuPagetable 0 _ 1 _ MMU_PTT_MASTER MMU_DOM_USER) in Hin.
  destruct (ptmapper_alloc_spec p A req Hp) as (err & pt & q & Ea & Hr); [done|done|].
  rewrite Ea in Hin. mstep in Hin. destruct (ptmapper_alloc_frame _ _ _ _ _ Ea) as [_ Hw'].
  destruct Hr as [[-> _]|(-> & k & Hpl & Hk)]; [done|]. cbn [Z.eqb negb] in Hin.
  destruct Hpl as (Eaddr & Hk0 & Hk1 & Hkm & _ & _ & En & Et & _ & _ & Hf).
  change (pt_blocks req) with 16 in *. change (mmu_sizeof_pt req) with (2 ^ 14) in Hf.
  change (pt_align req) with 16 in Hkm. specialize (Hk ltac:(dlia)). cbn in En, Et.
  destruct (block2addr k) as [Eb Ekey]; [lia|]. pose proof pc_start. pose proof pc_end. pose proof pc_fit.
  unfold blocks in Hk1.
  assert (exists l, m' = Mm pt [] l false /\ p' = q /\ l = replicate (Z.to_nat nr) 0 /\ 0 < nr)
    as (l & -> & -> & -> & Hnr).
  { rewrite realloc_empty, Hl in Hin by done. cbn [mpt ptlist set_regions] in Hin.
    destruct (Z.leb_spec nr 0), ok; mstep in Hin; try (destruct (Z.ltb_spec 0 nr)); cbn in Hin; try done; try lia.
    injection Hin as <- <-. by eexists. }
  assert (forall va, 0 <= va < 2 ^ 32 -> tables (ptm_mmu q) (l1_addr (pt_addr pt) va) = MMU_PTE_FAULT) as Hz.
  { intros va Hva. rewrite Hf by (rewrite Eaddr, Eb; unfold l1_addr; dlia).
    unfold l1_addr. repeat zcase; cbn [andb]; try done; exfalso; dlia. }
  assert (pt_key pt = k) as Ek by (unfold pt_key; by rewrite Eaddr).
  assert (pt_blocks pt = 16) as Epb by (unfold pt_blocks, mmu_sizeof_pt, table_count; by rewrite Et, En).
  exists (<[k := 16]> A). unfold p1. cbn [ptm_mmu set_pt_mmu mpt regions regions_lock].
  split; [split; cbn [ptm_mmu set_pt_mmu mpt ptlist]; try done|].
  - by destruct Hk.
  - split; [|done]. split; [by rewrite Ek, Epb, lookup_insert_eq|by rewrite Ek].
  - by apply Hw'.
  - constructor.
  - by intros v ?%not_elem_of_nil.
  - intros va Hva. cbn [ttbr0 set_ttbr0 tables]. by rewrite Hz.
  - split_and!; [rewrite length_replicate; lia| |done|].
    + intros i Hi. unfold rd. zcase; [lia|]. apply lookup_replicate. split; [done|lia].
    + intros va Hva. unfold walk. cbn [ttbr0 set_ttbr0 tables]. by rewrite Hz.
Qed.
End init.

(** ** Regions and user copies *)

Section regions.
Context {D : Type} `{RegionAllocator D} `{PtConfigOk}.
Context (sys : vm_pt).
Implicit Types st : vms D.

Definition page_walk st (va : Z) : option mapping := walk (ptm_mmu (v_ptm st)) va.

(** A buffer that can be mapped: whole pages in one megabyte of user space. *)
Record user_buf (b : buf) : Prop := {
  ub_vra : b_vra b = true;
  ub_size : b_bufsize b = r_num_pages (b_mmu b) * 2 ^ 12 /\ 0 < r_num_pages (b_mmu b);
  ub_vaddr : 0 <= reg_start b < 2 ^ 31 /\ reg_start b mod 2 ^ 12 = 0;
  ub_megabyte : reg_start b mod 2 ^ 20 + b_bufsize b <= 2 ^ 20;
  ub_paddr : 0 <= r_paddr (b_mmu b) /\ r_paddr (b_mmu b) mod 2 ^ 12 = 0 /\
    r_paddr (b_mmu b) + b_bufsize b <= 2 ^ 32;
  ub_ap : 0 <= r_ap (b_mmu b) < 8;
  ub_control : 0 <= r_control (b_mmu b) < 1024
}.
Definition in_buf (b : buf) (va : Z) : Prop := reg_start b <= va < reg_start b + b_bufsize b.

(** Tables of more than one megabyte are used from their first one only, as the
    index of an entry has no higher bits ([Mmu.mmu_map_second_megabyte]). *)
Definition first_megabyte (m : mm) (va : Z) : Prop :=
  forall v, v ∈ ptlist m -> in_image (vpt_pt v) va -> va < pt_vaddr (vpt_pt v) + 2 ^ 20.

Lemma updated_ap_range u ap : 0 <= ap < 8 -> 0 <= updated_ap u ap < 8.
Proof.
  intros ?. unfold updated_ap, MMU_AP_NANA, MMU_AP_RORO, MMU_AP_RWRW, MMU_AP_RWRO, MMU_AP_RWNA, MMU_AP_RONA.
  repeat case_match; lia.
Qed.

Lemma region_in_pt m p A v b : space_inv m p A -> user_buf b -> v ∈ ptlist m ->
  in_image (vpt_pt v) (reg_start b) -> reg_start b < pt_vaddr (vpt_pt v) + 2 ^ 20 ->
  region_ok (vpt_pt v) (b_mmu (vm_updateusr_ap b)).
Proof.
  intros Hi Hb Hv Him Hfst. pose proof (sp_user _ _ _ Hi) as Hu. rewrite Forall_forall in Hu.
  destruct (Hu v Hv) as (_ & _ & ? & ? & ? & ?). pose proof Hb as [].
  unfold in_image, reg_start in *. pose proof (updated_ap_range (b_uflags b) (r_ap (b_mmu b)) ub_ap0).
  split; cbn; try lia; try dlia.
Qed.

(** Mapping a buffer into the page tables; the buffer gets the permissions of its
    flags. *)
Definition region_mapped st st' (b : buf) : Prop :=
  let b' := vm_updateusr_ap b in
  (forall va, in_buf b va -> page_walk st' va =
    Some (Mapping (r_paddr (b_mmu b) + (va - reg_start b)) (r_ap (b_mmu b'))
            (Z.land (r_control (b_mmu b)) CTRL_MASK))) /\
  (forall va, 0 <= va < 2 ^ 32 -> ~ in_buf b va -> page_walk st' va = page_walk st va \/
    va / 2 ^ 20 = reg_start b / 2 ^ 20 /\ page_walk st' va = None /\
    forall v, v ∈ ptlist (v_mm st) -> ~ in_image (vpt_pt v) (reg_start b)).

Lemma vm_mapproc_spec (ok : bool) (st : vms D) (A : gmap Z Z) (bp : Z) (b : buf)
    (Hinv : space_inv (v_mm st) (v_ptm st) A) (Hb : get_buf st bp = Some b) (Hbuf : user_buf b)
    (Hsys : outside_system sys (reg_start b)) (Hfirst : first_megabyte (v_mm st) (reg_start b)) :
  exists err st' A', vm_mapproc_region sys ok st bp = Some (err, st') /\
    space_inv (v_mm st') (v_ptm st') A' /\
    (err = - ENOMEM /\ st' = st \/
     err = 0 /\ get_buf st' bp = Some (vm_updateusr_ap b) /\ region_mapped st st' b).
Proof.
  pose proof Hbuf as []. unfold reg_start in *. destruct st as [m p vr]. cbn [v_mm v_ptm] in *.
  unfold vm_mapproc_region. rewrite Hb. mstep. unfold get_pt. cbn [v_mm v_ptm].
  destruct (get_pt_spec ok sys m p A (r_vaddr (b_mmu b)) (b_bufsize b) Hinv)
    as (r & m' & p' & A' & -> & Hi' & Hmpt & _ & _ & Hr); [lia|done|lia|lia|]. mstep.
  destruct r as [v|].
  2: { destruct Hr as [-> ->]. exists (- ENOMEM), (Vms m p vr), A'. split_and!; auto. }
  destruct Hr as (Hv & Him & Hwalk & Hold).
  assert (r_vaddr (b_mmu b) < pt_vaddr (vpt_pt v) + 2 ^ 20) as Hfst.
  { destruct Hold as [Hin| ->]; [by apply (Hfirst v)|dlia]. }
  destruct (sp_tables _ _ _ Hi' v Hv) as [Hpi _].
  pose proof (region_in_pt m' p' A' v b Hi' Hbuf Hv Him Hfst) as Hok.
  set (b' := vm_updateusr_ap b) in *. unfold vm_map_region.
  unfold get_buf in *. cbn [v_vr set_mm set_ptm v_ptm v_mm] in *. rewrite Hb. mstep. rewrite ub_vra0.
  unfold vrmmap. fold b'. cbn [set_mm set_ptm v_ptm negb].
  rewrite (mmu_map_coarse_eq _ _ _ Hpi Hok). mstep.
  destruct (update_same_l1 _ _ _ (coarse_pte (b_mmu b')) Hpi Hok) as [Hl1 Hw].
  eexists _, _, A'. split; [done|]. cbn [v_mm v_ptm put_buf set_vr set_ptm set_mm].
  split; [by apply space_inv_same_l1|]. right. split; [done|].
  split; [apply lookup_insert_eq|]. split.
  - intros va Hva. unfold page_walk. cbn [v_ptm put_buf set_vr set_ptm ptm_mmu set_pt_mmu].
    rewrite map_walk_in by (try done; unfold in_region, in_buf, reg_start in *; cbn; lia). done.
  - intros va Hva Hni. unfold page_walk. cbn [v_ptm put_buf set_vr set_ptm ptm_mmu set_pt_mmu].
    unfold mmu_map_coarse_region. rewrite update_walk_out; [by apply Hwalk|done|done|done|].
    unfold in_region, in_buf, reg_start in *. cbn. lia.
Qed.


(** The converse: afterwards the region is not accessible. *)
Theorem vm_unmapproc_correct (ok : bool) (st : vms D) (A : gmap Z Z) (bp : Z) (b : buf)
    (Hinv : space_inv (v_mm st) (v_ptm st) A) (Hb : get_buf st bp = Some b) (Hbuf : user_buf b)
    (Hsys : outside_system sys (reg_start b)) (Hfirst : first_megabyte (v_mm st) (reg_start b)) :
  exists err st' A', vm_unmapproc_region sys ok st bp = Some (err, st') /\
    space_inv (v_mm st') (v_ptm st') A' /\
    (err = - EINVAL /\ st' = st \/
     err = 0 /\ v_vr st' = v_vr st /\
     (forall va, in_buf b va -> page_walk st' va = None) /\
     forall va, 0 <= va < 2 ^ 32 -> ~ in_buf b va -> page_walk st' va = page_walk st va \/
       va / 2 ^ 20 = reg_start b / 2 ^ 20 /\ page_walk st' va = None /\
       forall v, v ∈ ptlist (v_mm st) -> ~ in_image (vpt_pt v) (reg_start b)).
Proof.
  pose proof Hbuf as []. unfold reg_start in *. destruct st as [m p vr]. cbn [v_mm v_ptm v_vr] in *.
  unfold vm_unmapproc_region. rewrite Hb. mstep. unfold get_pt. cbn [v_mm v_ptm].
  destruct (get_pt_spec ok sys m p A (r_vaddr (b_mmu b)) (b_bufsize b) Hinv)
    as (r & m' & p' & A' & -> & Hi' & _ & _ & _ & Hr); [lia|done|lia|lia|]. mstep.
  destruct r as [v|].
  2: { destruct Hr as [-> ->]. exists (- EINVAL), (Vms m p vr), A'. split_and!; auto. }
  destruct Hr as (Hv & Him & Hwalk & Hold).
  assert (r_vaddr (b_mmu b) < pt_vaddr (vpt_pt v) + 2 ^ 20) as Hfst.
  { destruct Hold as [Hin| ->]; [by apply (Hfirst v)|dlia]. }
  destruct (sp_tables _ _ _ Hi' v Hv) as [Hpi _].
  assert (region_ok (vpt_pt v) (b_mmu b)) as Hok.
  { destruct (region_in_pt m' p' A' v b Hi' Hbuf Hv Him Hfst) as []. by split. }
  cbn [set_mm set_ptm v_ptm v_vr]. unfold mmu_unmap_region. rewrite (pi_type _ _ Hpi).
  destruct (update_same_l1 _ _ _ MMU_PTE_FAULT Hpi Hok) as [Hl1 Hw].
  eexists _, _, A'. split; [done|]. cbn [v_mm v_ptm v_vr set_ptm]. split; [by apply space_inv_same_l1|].
  right. split; [done|]. split; [done|].
  unfold page_walk. cbn [v_ptm set_ptm ptm_mmu set_pt_mmu]. split.
  - intros va Hva. apply unmap_walk_in; try done. unfold in_region, in_buf, reg_start in *. lia.
  - intros va Hva Hni. unfold mmu_unmap_coarse_region. rewrite update_walk_out; [by apply Hwalk|done|done|done|].
    unfold in_region, in_buf, reg_start in *. lia.
Qed.

(** *** User copies *)

Context (pt_at : Z -> option mmu_pagetable).

(** Address [uaddr] and [len] bytes from it lie in buffer [b] of the process, which
    is mapped and allows the access [rw]. *)
Record accessible st (uaddr len rw bp : Z) (b : buf) : Prop := {
  ac_lock : regions_lock (v_mm st) = false;
  ac_reg : exists i, find_reg_loop (bufs (v_vr st)) (regions (v_mm st)) 0 uaddr = Some (Some (i, bp));
  ac_buf : get_buf st bp = Some b;
  ac_range : 0 < uaddr /\ reg_start b <= uaddr /\ 0 < len /\
    uaddr + len <= reg_start b + b_bcount b /\ b_bcount b <= b_bufsize b /\
    reg_start b + b_bufsize b <= 2 ^ 31;
  ac_megabyte : uaddr mod 2 ^ 20 + len <= 2 ^ 20;
  ac_data : 0 < b_data b /\ b_data b + b_bufsize b <= 2 ^ 32;
  ac_mapped : forall va, in_buf b va -> exists ap c,
    page_walk st va = Some (Mapping (b_data b + (va - reg_start b)) ap c);
  ac_table : exists v, v ∈ ptlist (v_mm st) /\ in_image (vpt_pt v) uaddr;
  ac_first : first_megabyte (v_mm st) uaddr;
  ac_sys : outside_system sys uaddr;
  ac_rw : test_ap_user rw b = true
}.

Lemma lock_unlock st : regions_lock (v_mm st) = false ->
  exists st', lock st = Some st' /\ unlock st' = st /\ v_vr st' = v_vr st /\
    regions (v_mm st') = regions (v_mm st).
Proof.
  intros Hl. destruct st as [[mp pl rs lk] p vr]. cbn in Hl. subst lk. eexists. split; [done|]. by split_and!.
Qed.

Lemma find_reg_spec st uaddr r : regions_lock (v_mm st) = false ->
  find_reg_loop (bufs (v_vr st)) (regions (v_mm st)) 0 uaddr = Some r ->
  vm_find_reg st uaddr = Some (r, st).
Proof.
  intros Hl Hr. unfold vm_find_reg. destruct (lock_unlock st Hl) as (st' & -> & Hu & Hv & Hg). mstep.
  rewrite Hv, Hg, Hr. mstep. by rewrite Hu.
Qed.

Lemma useracc_spec st uaddr len rw bp b : accessible st uaddr len rw bp b ->
  useracc_proc pt_at st uaddr len rw = Some (true, st).
Proof.
  intros [Hl [i Hr] Hb (? & ? & ? & ? & ? & ?) _ _ _ _ _ _ Hrw]. unfold useracc_proc. zcase; [lia|].
  rewrite (find_reg_spec _ _ _ Hl Hr). mstep. rewrite Hb. mstep. zcase; [lia|].
  unfold reg_start, VM_ADDR_IS_IN_RANGE in *. rewrite Hrw.
  assert (u32 (b_bcount b + u32 (r_vaddr (b_mmu b) - 1)) = r_vaddr (b_mmu b) + b_bcount b - 1) as ->.
  { unfold u32. dlia. }
  by replace ((_ <=? _) && (_ <=? _)) with true by (repeat (zcase; cbn; try done); lia).
Qed.

Lemma uaddr2kaddr_spec ok st A uaddr len rw bp b :
  space_inv (v_mm st) (v_ptm st) A -> accessible st uaddr len rw bp b ->
  vm_uaddr2kaddr sys ok st uaddr len = Some (b_data b + (uaddr - reg_start b), st).
Proof.
  intros Hi [_ _ _ (? & ? & ? & ? & ? & ?) ? [? ?] Hm Ht Hf Hs _]. unfold vm_uaddr2kaddr, get_pt.
  destruct (get_pt_found ok sys _ _ A uaddr len VM_PT_CREAT Hi) as (v & -> & Hv & Him);
    [lia|done|dlia|done|]. mstep.
  destruct (sp_tables _ _ _ Hi v Hv) as [Hpi _].
  assert (set_ptm (set_mm st (v_mm st)) (v_ptm st) = st) as -> by by destruct st.
  unfold in_image in Him. pose proof (Hf v Hv Him).
  rewrite (translate_spec _ _ _ Hpi) by lia.
  destruct (Hm uaddr) as (ap & c & Hw); [unfold in_buf; lia|]. unfold page_walk in Hw. rewrite Hw.
  cbn. by rewrite u32_small by lia.
Qed.

(** What a copy does to memory: [len] bytes, and no others. *)
Definition copied (m m' : pmem) (d s len : Z) : Prop :=
  (forall i, 0 <= i < len -> m' (d + i) = m (s + i)) /\
  forall x, ~ (d <= x < d + len) -> m' x = m x.

Lemma pcopy_copied m d s len : copied m (pcopy m d s len) d s len.
Proof.
  split; unfold pcopy.
  - intros i Hi. replace ((_ <=? _) && (_ <? _)) with true by (repeat (zcase; cbn; try done); lia).
    f_equal. lia.
  - intros x Hx. by replace ((_ <=? _) && (_ <? _)) with false by (repeat (zcase; cbn; try done); lia).
Qed.

Lemma copyin_spec ok st A uaddr kaddr len bp b :
  space_inv (v_mm st) (v_ptm st) A -> accessible st uaddr len VM_PROT_READ bp b ->
  copyin sys pt_at ok st uaddr kaddr len =
    Some (0, copy_phys st kaddr (b_data b + (uaddr - reg_start b)) len).
Proof.
  intros Hi Ha. unfold copyin, copyin_proc. rewrite (useracc_spec _ _ _ _ _ _ Ha). mstep.
  cbn [negb]. rewrite (uaddr2kaddr_spec ok _ _ _ _ _ _ _ Hi Ha). mstep.
  destruct (ac_data _ _ _ _ _ _ Ha), (ac_range _ _ _ _ _ _ Ha) as (? & ? & _). zcase; [lia|done].
Qed.

Lemma copyout_spec ok st A uaddr kaddr len bp b :
  space_inv (v_mm st) (v_ptm st) A -> accessible st uaddr len VM_PROT_WRITE bp b ->
  copyout sys pt_at ok st kaddr uaddr len =
    Some (0, copy_phys st (b_data b + (uaddr - reg_start b)) kaddr len).
Proof.
  intros Hi Ha. unfold copyout, copyout_proc. rewrite (useracc_spec _ _ _ _ _ _ Ha). mstep.
  cbn [negb]. rewrite (uaddr2kaddr_spec ok _ _ _ _ _ _ _ Hi Ha). mstep.
  destruct (ac_data _ _ _ _ _ _ Ha), (ac_range _ _ _ _ _ _ Ha) as (? & ? & _). zcase; [lia|done].
Qed.


Lemma accessible_copy st d s n uaddr len rw bp b :
  accessible st uaddr len rw bp b -> accessible (copy_phys st d s n) uaddr len rw bp b.
Proof. by intros []. Qed.

(** C24. What [copyout] writes to a process, [copyin] reads back: after copying out
    from [k1] and in to [k2] the bytes at [k2] are those that were at [k1]. *)
Theorem copyout_copyin (ok : bool) (st : vms D) (A : gmap Z Z) (uaddr k1 k2 len bp : Z) (b : buf)
    (Hinv : space_inv (v_mm st) (v_ptm st) A)
    (Hread : accessible st uaddr len VM_PROT_READ bp b)
    (Hwrite : accessible st uaddr len VM_PROT_WRITE bp b) :
  exists st1 st2, copyout sys pt_at ok st k1 uaddr len = Some (0, st1) /\
    copyin sys pt_at ok st1 uaddr k2 len = Some (0, st2) /\
    forall i, 0 <= i < len -> ld st2 (k2 + i) = ld st (k1 + i).
Proof.
  rewrite (copyout_spec ok st A uaddr k1 len bp b Hinv Hwrite). eexists _, _. split; [done|].
  set (pa := b_data b + (uaddr - reg_start b)).
  pose proof (accessible_copy st pa k1 len _ _ _ _ _ Hread) as Hread'.
  rewrite (copyin_spec ok (copy_phys st pa k1 len) A uaddr k2 len bp b Hinv Hread'). split; [done|].
  intros i Hi. unfold ld. cbn [v_vr copy_phys set_vr phys set_phys]. fold pa.
  destruct (pcopy_copied (pcopy (phys (v_vr st)) pa k1 len) k2 pa len) as [Hc2 _].
  destruct (pcopy_copied (phys (v_vr st)) pa k1 len) as [Hc1 _]. by rewrite Hc2, Hc1 by done.
Qed.

(** An address that the process must not access with [rw]: NULL, outside of its
    regions, in the slack behind the data of one, or against its permissions. *)
Inductive inaccessible st (uaddr rw : Z) : Prop :=
| ia_null : uaddr = 0 -> inaccessible st uaddr rw
| ia_nowhere : (forall bp, bp ∈ regions (v_mm st) -> bp <> 0 -> exists b, get_buf st bp = Some b /\
    ~ (reg_start b <= uaddr <= reg_end b)) -> inaccessible st uaddr rw
| ia_buffer i bp b : find_reg_loop (bufs (v_vr st)) (regions (v_mm st)) 0 uaddr = Some (Some (i, bp)) ->
    get_buf st bp = Some b -> 0 < b_bcount b -> 0 < reg_start b -> reg_start b + b_bcount b <= 2 ^ 32 ->
    reg_start b + b_bcount b <= uaddr \/ test_ap_user rw b = false -> inaccessible st uaddr rw.

Lemma find_reg_none bs l i uaddr :
  (forall bp, bp ∈ l -> bp <> 0 -> exists b, bs !! bp = Some b /\ ~ (reg_start b <= uaddr <= reg_end b)) ->
  find_reg_loop bs l i uaddr = Some None.
Proof.
  revert i. induction l as [|bp l IH]; intros i Hl; [done|]. cbn [find_reg_loop].
  destruct (Z.eqb_spec bp 0); [apply IH; intros; apply Hl; [by right|done]|].
  destruct (Hl bp) as (b & -> & Hni); [by left|done|]. mstep. unfold VM_ADDR_IS_IN_RANGE.
  replace ((_ <=? _) && (_ <=? _)) with false by (repeat (zcase; cbn; try done); lia).
  apply IH. intros. apply Hl; [by right|done].
Qed.

Lemma useracc_false st uaddr len rw : regions_lock (v_mm st) = false -> inaccessible st uaddr rw ->
  useracc_proc pt_at st uaddr len rw = Some (false, st).
Proof.
  intros Hl Hi. unfold useracc_proc. destruct (Z.eqb_spec uaddr 0) as [|Hu0]; [done|].
  destruct Hi as [?|Hn|i bp b Hr Hb Hc Hs He Ho]; [done|..].
  - by rewrite (find_reg_spec _ _ _ Hl (find_reg_none _ _ 0 _ Hn)).
  - rewrite (find_reg_spec _ _ _ Hl Hr). mstep. rewrite Hb. mstep. zcase; [lia|].
    unfold reg_start, VM_ADDR_IS_IN_RANGE in *.
    assert (u32 (b_bcount b + u32 (r_vaddr (b_mmu b) - 1)) = r_vaddr (b_mmu b) + b_bcount b - 1) as ->
      by (unfold u32; dlia).
    destruct Ho as [Ho|Ho]; [|destruct (_ && _); by rewrite ?Ho].
    replace ((_ <=? _) && (_ <=? _)) with false; [done|]. repeat (zcase; cbn; try done); lia.
Qed.


(** *** Strings *)

(** The string at [uaddr] has [k] characters before its terminator. *)
Definition user_string st (b : buf) (uaddr k : Z) : Prop :=
  let pa := b_data b + (uaddr - reg_start b) in
  (forall i, 0 <= i < k -> ld st (pa + i) <> 0) /\ ld st (pa + k) = 0.

(** [uaddr += ++off] moves the address by 1, 2, 3, ... *)
Definition drift (j : Z) : Z := j * (j + 1) / 2.
Lemma drift_step j : 0 <= j -> drift (j + 1) = drift j + (j + 1).
Proof.
  intros. unfold drift. replace ((j + 1) * (j + 1 + 1)) with (j * (j + 1) + (j + 1) * 2) by lia.
  by rewrite Z.div_add by lia.
Qed.
Lemma drift_mono i j : 0 <= i <= j -> drift i <= drift j.
Proof. intros. unfold drift. apply Z.div_le_mono; nia. Qed.

(** As long as the address stays in its block of [NBITS] bits, the loop copies the
    string byte by byte. *)
Lemma copyinstr_loop_spec ok m0 (pa uaddr kaddr k : Z) n j st :
  0 < pa -> pa + k < 2 ^ 32 -> 0 < kaddr -> kaddr + k < 2 ^ 32 -> 0 <= uaddr ->
  (kaddr + k < pa \/ pa + k < kaddr) ->
  (forall i, 0 <= i < k -> m0 (pa + i) <> 0) -> m0 (pa + k) = 0 ->
  uaddr + drift (k + 1) < 2 ^ 32 ->
  (uaddr + drift k) / 2 ^ 13 = uaddr / 2 ^ 13 ->
  0 <= j <= k -> k - j < Z.of_nat n ->
  copied m0 (phys (v_vr st)) kaddr pa j ->
  (forall n', n = S n' -> exists st', str_page sys pt_at ok st (uaddr + drift j)
     (if j =? 0 then 0 else pa + j) (if j =? 0 then 2 ^ 32 - 1 else uaddr / 2 ^ 13) =
     Some (inr (pa + j, uaddr / 2 ^ 13), st') /\ phys (v_vr st') = phys (v_vr st)) ->
  exists st', copyinstr_loop sys pt_at ok n st (uaddr + drift j) kaddr
      (if j =? 0 then 0 else pa + j) (if j =? 0 then 2 ^ 32 - 1 else uaddr / 2 ^ 13) j =
      Some (inr (k + 1), st') /\ copied m0 (phys (v_vr st')) kaddr pa (k + 1).
Proof.
  intros Hpa Hpk Hka Hkk Hu Hsep Hnz Hz Hov Hblk.
  revert j st. induction n as [|n IH]; intros j st Hj Hn Hc Hpage; [lia|].
  cbn [copyinstr_loop]. destruct (Hpage n eq_refl) as (st1 & -> & Hst1). mstep.
  destruct Hc as [Hin Hout]. rewrite (u32_small (kaddr + j)) by lia.
  replace (kaddr + (j + 1) - 1) with (kaddr + j) by lia. rewrite (u32_small (kaddr + j)) by lia.
  assert (ld st1 (pa + j) = m0 (pa + j)) as Eld.
  { unfold ld. rewrite Hst1. apply Hout. lia. }
  rewrite Eld. set (st2 := sb st1 (kaddr + j) (m0 (pa + j))).
  assert (copied m0 (phys (v_vr st2)) kaddr pa (j + 1)) as Hc2.
  { unfold st2, sb, pset. cbn [v_vr set_vr phys set_phys]. rewrite Hst1. split.
    - intros i Hi. destruct (Z.leb_spec (kaddr + j) (kaddr + i)), (Z.ltb_spec (kaddr + i) (kaddr + j + 1));
        cbn [andb]; try (apply Hin; lia). f_equal. lia.
    - intros x Hx. destruct (Z.leb_spec (kaddr + j) x), (Z.ltb_spec x (kaddr + j + 1)); cbn [andb]; try lia;
        apply Hout; lia. }
  assert (ld st2 (kaddr + j) = m0 (pa + j)) as -> by (destruct Hc2 as [Hc2 _]; apply Hc2; lia).
  destruct (decide (j = k)) as [->|Hne].
  - rewrite Hz. cbn [Z.eqb]. by exists st2.
  - rewrite (proj2 (Z.eqb_neq _ _)) by (apply Hnz; lia).
    pose proof (drift_mono (j + 1) k ltac:(lia)). pose proof (drift_mono 0 (j + 1) ltac:(lia)).
    assert (drift 0 = 0) by done. pose proof (drift_mono k (k + 1) ltac:(lia)).
    rewrite <-(Z.add_assoc uaddr), <-drift_step by lia. rewrite (u32_small (uaddr + _)) by lia.
    rewrite (u32_small (pa + j + 1)) by lia. replace (pa + j + 1) with (pa + (j + 1)) by lia.
    specialize (IH (j + 1) st2 ltac:(lia) ltac:(lia) Hc2).
    rewrite (proj2 (Z.eqb_neq (j + 1) 0)) in IH by lia. apply IH.
    intros n' _. exists st2. split; [|done]. unfold str_page.
    change (NBITS MMU_PGSIZE_COARSE) with 13. rewrite Z.shiftr_div_pow2 by lia.
    assert ((uaddr + drift (j + 1)) / 2 ^ 13 = uaddr / 2 ^ 13) as -> by dlia.
    by rewrite Z.eqb_refl.
Qed.

(** [copyinstr] copies a string that is short enough for the drift of its address to
    stay in one block of 8 kB: it returns 0 and the length with the terminator. *)
Theorem copyinstr_correct (ok : bool) (st : vms D) (A : gmap Z Z) (uaddr kaddr len k bp : Z) (b : buf)
    (Hinv : space_inv (v_mm st) (v_ptm st) A)
    (Hacc : accessible st uaddr MMU_PGSIZE_COARSE VM_PROT_READ bp b)
    (Hlen : 0 <= k < len) (Hstr : user_string st b uaddr k)
    (Hdrift : (uaddr + drift k) / 2 ^ 13 = uaddr / 2 ^ 13) (Hfit : uaddr + drift (k + 1) < 2 ^ 32)
    (Hk : 0 < kaddr /\ kaddr + k < 2 ^ 32)
    (Hin : b_data b + (uaddr - reg_start b) + k < 2 ^ 32)
    (Hsep : kaddr + k < b_data b + (uaddr - reg_start b) \/
      b_data b + (uaddr - reg_start b) + k < kaddr) :
  exists st', copyinstr sys pt_at ok st uaddr kaddr len = Some (0, Some (k + 1), st') /\
    copied (phys (v_vr st)) (phys (v_vr st')) kaddr (b_data b + (uaddr - reg_start b)) (k + 1).
Proof.
  destruct (ac_range _ _ _ _ _ _ Hacc) as (? & ? & ? & ? & ? & ?). destruct (ac_data _ _ _ _ _ _ Hacc).
  set (pa := b_data b + (uaddr - reg_start b)) in *. destruct Hstr as [Hnz Hz]. fold pa in Hnz, Hz.
  unfold copyinstr. rewrite (proj2 (Z.eqb_neq uaddr 0)), (proj2 (Z.eqb_neq kaddr 0)) by lia. cbn [orb].
  destruct (copyinstr_loop_spec ok (phys (v_vr st)) pa uaddr kaddr k (Z.to_nat len) 0 st) as (st' & Hl & Hc);
    try done; try lia.
  - split; [intros i ?; lia|done].
  - intros n' _. exists st. split; [|done]. unfold str_page. change (drift 0) with 0. rewrite Z.add_0_r.
    change (NBITS MMU_PGSIZE_COARSE) with 13. rewrite Z.shiftr_div_pow2 by lia. cbn [Z.eqb].
    rewrite (proj2 (Z.eqb_neq _ _)) by dlia. unfold useracc. cbn [negb].
    assert (accessible st uaddr 1 VM_PROT_READ bp b) as Ha1.
    { destruct Hacc. unfold MMU_PGSIZE_COARSE in *. split; try done; lia. }
    rewrite (useracc_spec _ _ _ _ _ _ Ha1). mstep. cbn [negb].
    rewrite (uaddr2kaddr_spec ok _ _ _ _ _ _ _ Hinv Hacc). mstep. fold pa. zcase; [lia|].
    by rewrite Z.add_0_r.
  - change (drift 0) with 0 in Hl. rewrite Z.add_0_r in Hl. cbn [Z.eqb] in Hl. rewrite Hl. mstep.
    unfold str_finish. replace (kaddr + (k + 1) - 1) with (kaddr + k) by lia. rewrite u32_small by lia.
    assert (ld st' (kaddr + k) = 0) as ->.
    { destruct Hc as [Hc _]. unfold ld. rewrite Hc by lia. exact Hz. }
    by exists st'.
Qed.
End regions.

(** ** A concrete process *)

#[local] Existing Instance provider32.

(** The kernel has the first four megabytes to itself. *)
Definition sys0 : vm_pt := VmPt (MmuPagetable 0 0 4 0 MMU_PTT_COARSE 0) 0.
Definition mm0 : mm := Mm (MmuPagetable 0 0 0 0 MMU_PTT_FAULT 0) [] [] false.
Definition init0 : option (Z * mm * ptm) := vm_mm_init true pst0 mm0 3.
Definition m_init : mm := default mm0 (snd <$> (fst <$> init0)).
Definition p_init : ptm := default pst0 (snd <$> init0).
(** A buffer of two pages for reading and writing, in the first of three regions. *)
Definition data_buf : buf :=
  Buf 0x800000 8192 8192 (MmuRegion 0x10000000 2 MMU_AP_RWRW 0x60 0x800000) 0 3 8 true 0x100 kobj_init.
Definition process (mem : pmem) : vms dynmem :=
  Vms (set_regions m_init [1; 0; 0]) (set_pt_mmu p_init (set_ttbr0 (ptm_mmu p_init) (pt_addr (mpt m_init))))
    (set_phys (set_bufs vr32 {[ 1 := data_buf ]}) mem).
(** The same with the region mapped. *)
Definition running (mem : pmem) : vms dynmem :=
  after (vm_mapproc_region sys0 true (process mem) 1) (process mem).
Lemma Some_pair {A B} (a c : A) (b d : B) : Some (a, b) = Some (c, d) -> a = c /\ b = d.
Proof. by intros [=]. Qed.
Lemma running_eq mem : vm_mapproc_region sys0 true (process mem) 1 = Some (0, running mem).
Proof. unfold running. apply after_eq. vm_compute. reflexivity. Qed.

Lemma init0_eq : init0 = Some (0, m_init, p_init).
Proof.
  unfold m_init, p_init. assert (fst <$> (fst <$> init0) = Some 0) as H by (vm_compute; reflexivity).
  destruct init0 as [[[e m] p]|]; [|done]. by injection H as ->.
Qed.

Lemma space_regions `{PtConfigOk} m p A l : space_inv m p A -> space_inv (set_regions m l) p A.
Proof. by intros []. Qed.

Lemma process_space mem : exists A, space_inv (v_mm (process mem)) (v_ptm (process mem)) A.
Proof.
  destruct (vm_mm_init_space true pst0 ∅ mm0 m_init p_init 3) as (A & Hi & _).
  - apply ptm_boot_inv.
  - intros x. cbn. lia.
  - done.
  - exact init0_eq.
  - exists A. by apply space_regions.
Qed.

Lemma data_user_buf : user_buf data_buf.
Proof. split; vm_compute; intuition congruence. Qed.

Lemma data_outside va : 0x10000000 <= va -> outside_system sys0 va.
Proof. unfold outside_system. replace (u32 _) with 0x400000 by (vm_compute; reflexivity). cbn. lia. Qed.

Lemma process_tables mem : ptlist (v_mm (process mem)) = [].
Proof. vm_compute. reflexivity. Qed.

Lemma process_first mem va : first_megabyte (v_mm (process mem)) va.
Proof. intros v. by rewrite process_tables, elem_of_nil. Qed.


(** Afterwards reads and writes of the region are possible. *)
Lemma running_pts mem : exists v, ptlist (v_mm (running mem)) = [v] /\
  pt_vaddr (vpt_pt v) = 0x10000000 /\ nr_tables (vpt_pt v) = 1.
Proof. eexists. split; [vm_compute; reflexivity|]. split; reflexivity. Qed.

Lemma running_accessible mem rw : rw = VM_PROT_READ \/ rw = VM_PROT_WRITE ->
  exists A b, space_inv (v_mm (running mem)) (v_ptm (running mem)) A /\
    accessible sys0 (running mem) 0x10000100 4096 rw 1 b /\ reg_start b = 0x10000000 /\ b_data b = 0x800000.
Proof.
  intros Hrw. destruct (process_space mem) as [A Hi].
  destruct (vm_mapproc_spec sys0 true (process mem) A 1 data_buf Hi) as (e & s & A' & E & Hi' & Hr).
  - reflexivity.
  - exact data_user_buf.
  - by apply data_outside.
  - apply process_first.
  - rewrite running_eq in E. apply Some_pair in E as [<- <-].
    destruct Hr as [[Hr _]|(_ & Hb & Hm & _)]; [discriminate Hr|].
    destruct (running_pts mem) as (v & El & Ev & En).
    exists A', (vm_updateusr_ap data_buf). split; [exact Hi'|]. split; [|split; reflexivity].
    constructor.
    + vm_compute. reflexivity.
    + exists 0. vm_compute. reflexivity.
    + exact Hb.
    + vm_compute. intuition congruence.
    + vm_compute. intuition congruence.
    + vm_compute. intuition congruence.
    + intros va Hva. do 2 eexists. rewrite Hm by exact Hva. reflexivity.
    + exists v. rewrite El. split; [by left|]. unfold in_image. rewrite Ev, En. lia.
    + intros v' Hv'. rewrite El in Hv'. apply list_elem_of_singleton in Hv' as ->. intros _. rewrite Ev. lia.
    + by apply data_outside.
    + destruct Hrw as [-> | ->]; vm_compute; reflexivity.
Qed.

(** Byte [x] of memory is [x] modulo 256. *)
Definition ramp : pmem := fun x => x mod 256.


Lemma accessible_unique st a len bp b b' rw rw' :
  accessible sys0 (D := dynmem) st a len rw bp b -> accessible sys0 st a len rw' bp b' -> b = b'.
Proof. intros [_ _ Hb _ _ _ _ _ _ _ _] [_ _ Hb' _ _ _ _ _ _ _ _]. rewrite Hb in Hb'. by injection Hb'. Qed.

Lemma copyout_copyin_witness :
  exists st1 st2, copyout sys0 (fun _ => None) true (running ramp) 0x1000 0x10000100 4096 = Some (0, st1) /\
    copyin sys0 (fun _ => None) true st1 0x10000100 0x2000 4096 = Some (0, st2) /\
    forall i, 0 <= i < 4096 -> ld st2 (0x2000 + i) = ld (running ramp) (0x1000 + i).
Proof.
  destruct (running_accessible ramp VM_PROT_READ) as (A & b & Hi & Ha & _); [by left|].
  destruct (running_accessible ramp VM_PROT_WRITE) as (A' & b' & _ & Ha' & _); [by right|].
  rewrite <-(accessible_unique _ _ _ _ _ _ _ _ Ha Ha') in Ha'.
  exact (copyout_copyin sys0 (fun _ => None) true (running ramp) A 0x10000100 0x1000 0x2000 4096 1 b Hi Ha Ha').
Defined.


(** Memory with a string of [n] characters at the start of the buffer. *)
Definition with_string (n : Z) : pmem := fun x => if (0x800000 <=? x) && (x <? 0x800000 + n) then 65 else 0.

Lemma copyinstr_correct_witness :
  exists st', copyinstr sys0 (fun _ => None) true (running (with_string 300)) 0x10000100 0x2000 64 =
      Some (0, Some 45, st') /\ ld st' (0x2000 + 43) = 65 /\ ld st' (0x2000 + 44) = 0.
Proof.
  destruct (running_accessible (with_string 300) VM_PROT_READ) as (A & b & Hi & Ha & Hr & Hd); [by left|].
  destruct (copyinstr_correct sys0 (fun _ => None) true (running (with_string 300)) A 0x10000100 0x2000 64 44 1 b Hi Ha)
    as (st' & E & Hc & _); rewrite ?Hr, ?Hd; try lia.
  - unfold user_string. rewrite Hr, Hd. unfold ld.
    change (phys (v_vr (running (with_string 300)))) with (with_string 300). unfold with_string. split.
    + intros i Hi'. replace ((_ <=? _) && (_ <? _)) with true by (repeat (zcase; cbn; try done); lia). done.
    + reflexivity.
  - reflexivity.
  - reflexivity.
  - exists st'. split; [exact E|]. unfold ld. rewrite Hr, Hd in Hc.
    split; [rewrite (Hc 43) by lia|rewrite (Hc 44) by lia]; vm_compute; reflexivity.
Defined.

(** *** Deviations *)

(** The address of the string moves by 1, 2, 3, ...: a string of 200 characters in the
    region is reported as not accessible. *)
Lemma copyinstr_long_string :
  (fst <$> copyinstr sys0 (fun _ => None) true (running (with_string 200)) 0x10000000 0x2000 300) =
    Some (- EFAULT, None).
Proof. vm_compute. reflexivity. Qed.

(** [useracc] looks at the first address only: a copy may run past the region. *)
Lemma copyin_past_region :
  (fst <$> copyin sys0 (fun _ => None) true (running ramp) 0x10000000 0x2000 0x3000) = Some 0 /\
  page_walk (running ramp) 0x10002000 = None.
Proof. split; vm_compute; reflexivity. Qed.

(** A length of 0 makes [copyinstr] look at the byte before the buffer of the kernel. *)
Lemma copyinstr_empty :
  (fst <$> copyinstr sys0 (fun _ => None) true (running ramp) 0x10000000 0x2000 0) = Some (- ENAMETOOLONG, Some 0).
Proof. vm_compute. reflexivity. Qed.

(** A string too long for [copyoutstr] clears the last byte of the source in the kernel. *)
Definition after_copyoutstr : vms dynmem :=
  after (copyoutstr sys0 (fun _ => None) true (running (fun _ => 65)) 0x2000 0x10000000 4) (running (fun _ => 65)).
Lemma copyoutstr_clears_source :
  ld (running (fun _ => 65)) 0x2003 = 65 /\ ld after_copyoutstr 0x2003 = 0 /\ ld after_copyoutstr 0x800003 = 65.
Proof. split_and!; vm_compute; reflexivity. Qed.

(** Unloading the regions up to the end leaves the last one. *)
Lemma vm_unload_regions_last st bp :
  regions (v_mm st) = [bp] -> regions_lock (v_mm st) = false ->
  vm_unload_regions (D := dynmem) sys0 [] true st 0 (-1) = Some (0, st).
Proof.
  intros Hr Hl. unfold vm_unload_regions. destruct (lock_unlock st Hl) as (st' & -> & Hu & _ & Hg).
  mstep. rewrite Hg, Hr. cbn. by rewrite Hu.
Qed.
