(* ===== verification/Uio.v ===== *)
(** * I/O buffers (uio.c)

    A [uio] describes memory of the kernel or of the current process; the copy
    functions move bytes between it and an address in the kernel. *)
From S2P Require Import Prelude Mem Bitmap Dynmem Kobj Regions Vralloc Mmu Ptmapper Vm VmSpace.

(** Addresses are 0 for NULL.  The process is the one of the state. *)
Record uio := Uio { kbuf : Z; ubuf : Z; uio_bufsize : Z }.

Section code.
Context {D : Type} `{RegionAllocator D} `{PtConfig}.
Context (sys : vm_pt) (pt_at : Z -> option mmu_pagetable).
Implicit Types st : vms D.

Definition uio_init_kbuf (addr size : Z) : Z * uio := (0, Uio addr 0 size).

Definition uio_init_ubuf st (addr size rw : Z) : option ((Z * option uio) * vms D) :=
  '(acc, st) ← useracc_proc pt_at st addr size rw;
  if negb acc then Some ((- EFAULT, None), st) else Some ((0, Some (Uio 0 addr size)), st).

Definition uio_buf2kuio (b : buf) : Z * option uio :=
  if b_data b =? 0 then (- EINVAL, None) else (0, Some (uio_init_kbuf (b_data b) (b_bcount b)).2).

(** [memmove] in physical memory is [copy_phys]: the bytes of the source before the
    call.  [ok] is the success of an allocation while a page table is looked up. *)
Definition uio_copyout (ok : bool) st (src : Z) (u : uio) (offset size : Z) : option (Z * vms D) :=
  if uio_bufsize u <? u32 (offset + size) then Some (- EIO, st)
  else if negb (kbuf u =? 0) then Some (0, copy_phys st (u32 (kbuf u + offset)) src size)
  else if negb (ubuf u =? 0) then copyout_proc sys pt_at ok st src (u32 (ubuf u + offset)) size
  else Some (- EIO, st).

Definition uio_copyin (ok : bool) st (u : uio) (dst offset size : Z) : option (Z * vms D) :=
  if uio_bufsize u <? u32 (offset + size) then Some (- EIO, st)
  else if negb (kbuf u =? 0) then Some (0, copy_phys st dst (u32 (kbuf u + offset)) size)
  else if negb (ubuf u =? 0) then copyin_proc sys pt_at ok st (u32 (ubuf u + offset)) dst size
  else Some (- EIO, st).

(** The error code and the address. *)
Definition uio_get_kaddr (ok : bool) st (u : uio) : option ((Z * Z) * vms D) :=
  if negb (kbuf u =? 0) then Some ((0, kbuf u), st)
  else if negb (ubuf u =? 0) then
    '(a, st) ← vm_uaddr2kaddr sys ok st (ubuf u) (uio_bufsize u); Some ((0, a), st)
  else Some ((- EINVAL, 0), st).
End code.

(** ** Memory behind an I/O buffer *)

Section spec.
Context {D : Type} `{RegionAllocator D} `{PtConfigOk}.
Context (sys : vm_pt) (pt_at : Z -> option mmu_pagetable).
Implicit Types st : vms D.

(** Buffers come into being, the address space stays as it is. *)
Record grows st st' : Prop := {
  gr_mm : v_mm st' = v_mm st;
  gr_ptm : v_ptm st' = v_ptm st;
  gr_bufs : bufs (v_vr st) ⊆ bufs (v_vr st')
}.

Lemma grows_refl st : grows st st.
Proof. by split. Qed.
Lemma grows_trans st1 st2 st3 : grows st1 st2 -> grows st2 st3 -> grows st1 st3.
Proof. intros [? ? ?] [? ? ?]. split; [congruence..|]. by etrans. Qed.
Lemma grows_buf st st' bp b : grows st st' -> get_buf st bp = Some b -> get_buf st' bp = Some b.
Proof. unfold get_buf. intros Hg Hb. exact (lookup_weaken _ _ _ _ Hb (gr_bufs _ _ Hg)). Qed.
Lemma grows_copy st d s n : grows st (copy_phys st d s n).
Proof. by split. Qed.

Lemma find_reg_grows bs bs' l i uaddr r : bs ⊆ bs' ->
  find_reg_loop bs l i uaddr = Some r -> find_reg_loop bs' l i uaddr = Some r.
Proof.
  intros Hs. revert i. induction l as [|bp l IH]; intros i; cbn [find_reg_loop]; [done|].
  case_match; [by apply IH|]. destruct (bs !! bp) as [b|] eqn:Eb; [|done].
  rewrite (lookup_weaken _ _ _ _ Eb Hs). mstep. case_match; [done|]. apply IH.
Qed.

Lemma accessible_grows st st' uaddr len rw bp b : grows st st' ->
  accessible sys st uaddr len rw bp b -> accessible sys st' uaddr len rw bp b.
Proof.
  intros [Em Ep Hs] [? [i Hi] Hb ? ? ? ? ? ? ? ?]. unfold get_buf, page_walk in *.
  split; unfold page_walk, get_buf; rewrite ?Em, ?Ep; try done.
  - exists i. by apply (find_reg_grows (bufs (v_vr st))).
  - by apply (lookup_weaken _ _ _ _ Hb Hs).
Qed.

Lemma accessible_shorter st uaddr len n rw bp b : 0 < n <= len ->
  accessible sys st uaddr len rw bp b -> accessible sys st uaddr n rw bp b.
Proof. intros Hn []. split; try done; lia. Qed.

(** The I/O buffer gives access to the [len] bytes of memory from [a] on: a buffer of
    the kernel, or a range of one region of the process. *)
Inductive uio_at st (u : uio) (a len rw : Z) : Prop :=
| uio_kernel : kbuf u = a -> 0 < a -> a + len <= 2 ^ 32 -> len <= uio_bufsize u -> uio_at st u a len rw
| uio_user A bp b : kbuf u = 0 -> ubuf u <> 0 -> len <= uio_bufsize u ->
    space_inv (v_mm st) (v_ptm st) A ->
    (forall o, 0 <= o < len -> accessible sys st (ubuf u + o) (len - o) rw bp b) ->
    a = b_data b + (ubuf u - reg_start b) -> uio_at st u a len rw.

Lemma uio_at_grows st st' u a len rw : grows st st' -> uio_at st u a len rw -> uio_at st' u a len rw.
Proof.
  intros Hg [?|A bp b ? ? ? Hi Ha ?]; [by apply uio_kernel|]. apply (uio_user _ _ _ _ _ A bp b); try done.
  - by rewrite (gr_mm _ _ Hg), (gr_ptm _ _ Hg).
  - intros o Ho. by apply (accessible_grows st), Ha.
Qed.

Lemma uio_copyin_spec ok st u a len dst o n :
  uio_at st u a len VM_PROT_READ -> 0 <= o -> 0 < n -> o + n <= len -> len < 2 ^ 32 ->
  uio_copyin sys pt_at ok st u dst o n = Some (0, copy_phys st dst (a + o) n).
Proof.
  intros Hu Ho Hn Hl Hlen. unfold uio_copyin. rewrite u32_small by lia.
  destruct Hu as [Hk ? ? ?|A bp b Hk Hub ? Hi Ha ->]; (destruct (Z.ltb_spec (uio_bufsize u) (o + n)); [lia|]).
  - rewrite (proj2 (Z.eqb_neq _ _)) by lia. cbn [negb]. by rewrite Hk, u32_small by lia.
  - rewrite Hk. cbn [Z.eqb negb]. rewrite (proj2 (Z.eqb_neq (ubuf u) 0)) by done. cbn [negb].
    assert (accessible sys st (ubuf u + o) n VM_PROT_READ bp b) as Hs
      by (apply (accessible_shorter _ _ (len - o)); [lia|apply Ha; lia]).
    destruct (ac_range _ _ _ _ _ _ _ Hs) as (? & ? & ? & ? & ? & ?).
    rewrite u32_small by lia. fold (copyin sys pt_at ok st (ubuf u + o) dst n).
    rewrite (copyin_spec sys pt_at ok st A _ _ _ _ _ Hi Hs). do 2 f_equal. f_equal; lia.
Qed.

Lemma uio_copyout_spec ok st u a len src o n :
  uio_at st u a len VM_PROT_WRITE -> 0 <= o -> 0 < n -> o + n <= len -> len < 2 ^ 32 ->
  uio_copyout sys pt_at ok st src u o n = Some (0, copy_phys st (a + o) src n).
Proof.
  intros Hu Ho Hn Hl Hlen. unfold uio_copyout. rewrite u32_small by lia.
  destruct Hu as [Hk ? ? ?|A bp b Hk Hub ? Hi Ha ->]; (destruct (Z.ltb_spec (uio_bufsize u) (o + n)); [lia|]).
  - rewrite (proj2 (Z.eqb_neq _ _)) by lia. cbn [negb]. by rewrite Hk, u32_small by lia.
  - rewrite Hk. cbn [Z.eqb negb]. rewrite (proj2 (Z.eqb_neq (ubuf u) 0)) by done. cbn [negb].
    assert (accessible sys st (ubuf u + o) n VM_PROT_WRITE bp b) as Hs
      by (apply (accessible_shorter _ _ (len - o)); [lia|apply Ha; lia]).
    destruct (ac_range _ _ _ _ _ _ _ Hs) as (? & ? & ? & ? & ? & ?).
    rewrite u32_small by lia. fold (copyout sys pt_at ok st src (ubuf u + o) n).
    rewrite (copyout_spec sys pt_at ok st A _ _ _ _ _ Hi Hs). do 2 f_equal. f_equal; lia.
Qed.
End spec.
