(* ===== verification/Ramfs.v ===== *)
(** * Regular files of ramfs (fs/ramfs/ramfs.c)

    The inode, and the operations on the data of regular files: an array of page
    buffers ([Vralloc]) that [ramfs_set_filesize] extends, and through which
    [ramfs_wr_regular] and [ramfs_rd_regular] copy bytes from and to an I/O buffer
    ([Uio]).  *)
From S2P Require Import Prelude Mem Bitmap Dynmem CTime Kobj Regions DirHash Vralloc Mmu Ptmapper Vm VmSpace Uio.

(** [sizeof(struct buf)], which depends on the configuration of the locks. *)
Class RamfsConfig := { SIZEOF_BUF : Z }.

(** ** Inodes *)

(** The union [in], all zero after [memset].  The array of buffers has [None] where it
    was never written. *)
Inductive inode_data :=
| InNull
| InData (data : list (option Z))
| InDir (dir : dh_table).

Record ramfs_inode := RamfsInode {
  vn_num : Z; vn_hash : Z; vn_refcount : Z; vn_len : Z; vn_mode : Z;   (* in_vnode *)
  in_nlink : Z; in_uid : Z; in_gid : Z;
  in_atime : timespec; in_mtime : timespec; in_ctime : timespec; in_birthtime : timespec;
  in_blksize : Z; in_blocks : Z; in_data : inode_data
}.
Definition set_refcount (f : ramfs_inode) (v : Z) : ramfs_inode :=
  RamfsInode (vn_num f) (vn_hash f) v (vn_len f) (vn_mode f) (in_nlink f) (in_uid f) (in_gid f)
    (in_atime f) (in_mtime f) (in_ctime f) (in_birthtime f) (in_blksize f) (in_blocks f) (in_data f).
Definition set_len (f : ramfs_inode) (v : Z) : ramfs_inode :=
  RamfsInode (vn_num f) (vn_hash f) (vn_refcount f) v (vn_mode f) (in_nlink f) (in_uid f) (in_gid f)
    (in_atime f) (in_mtime f) (in_ctime f) (in_birthtime f) (in_blksize f) (in_blocks f) (in_data f).
Definition set_nlink (f : ramfs_inode) (v : Z) : ramfs_inode :=
  RamfsInode (vn_num f) (vn_hash f) (vn_refcount f) (vn_len f) (vn_mode f) v (in_uid f) (in_gid f)
    (in_atime f) (in_mtime f) (in_ctime f) (in_birthtime f) (in_blksize f) (in_blocks f) (in_data f).
Definition set_blocks (f : ramfs_inode) (n : Z) (d : inode_data) : ramfs_inode :=
  RamfsInode (vn_num f) (vn_hash f) (vn_refcount f) (vn_len f) (vn_mode f) (in_nlink f) (in_uid f)
    (in_gid f) (in_atime f) (in_mtime f) (in_ctime f) (in_birthtime f) (in_blksize f) n d.
Definition set_times (f : ramfs_inode) (a m c : timespec) : ramfs_inode :=
  RamfsInode (vn_num f) (vn_hash f) (vn_refcount f) (vn_len f) (vn_mode f) (in_nlink f) (in_uid f)
    (in_gid f) a m c (in_birthtime f) (in_blksize f) (in_blocks f) (in_data f).

(** [now] is the result of [getrealtime]. *)
Definition ramfs_vnode_accessed (noatime : bool) (now : timespec) (f : ramfs_inode) : ramfs_inode :=
  if negb noatime then set_times f now (in_mtime f) (in_ctime f) else f.
Definition ramfs_vnode_modified (now : timespec) (f : ramfs_inode) : ramfs_inode :=
  set_times f (in_atime f) now now.
Definition ramfs_vnode_changed (now : timespec) (f : ramfs_inode) : ramfs_inode :=
  set_times f (in_atime f) (in_mtime f) now.

(** ** Blocks *)

(** What the allocators return during a call: [ok] is the success of [krealloc]
    and of [kzalloc] for page tables, [mem] the results of [kzalloc] for
    buffers and vregions, one element for each [geteblk]. *)
Record answer := Answer { krealloc_ok : bool; mem : list (Z * list Z) }.

Section code.
Context {D : Type} `{RegionAllocator D} `{PtConfig} `{RamfsConfig}.
Context (sys : vm_pt) (pt_at : Z -> option mmu_pagetable).
Implicit Types st : vms D.

(** [krealloc] of the array to [size] bytes; the elements of the part that is new are
    not initialised. *)
Definition krealloc_array (l : list (option Z)) (size : Z) : list (option Z) :=
  resize (Z.to_nat (size / 4)) None l.

(** [for (i = 0; i < file->in_blocks; i++) if (bpp[i]) vrfree(bpp[i]);] *)
Fixpoint release_blocks (n : nat) (bpp : list (option Z)) (i : Z) st : option (vms D) :=
  match n with
  | O => Some st
  | S n =>
      bp ← bpp.[i];
      bp ← bp;
      st ← (if bp =? 0 then Some st else v ← vrfree (v_vr st) bp; Some (set_vr st v));
      release_blocks n bpp (i + 1) st
  end.

(** [n] blocks from [i] on; the result is the index that the loop ends with, and
    whether [geteblk] failed there. *)
Fixpoint alloc_blocks (n : nat) (a : list (Z * list Z)) st (blksize : Z) (data : list (option Z)) (i : Z)
    : option (Z * bool * list (option Z) * vms D) :=
  match n with
  | O => Some (i, false, data, st)
  | S n =>
      match a with
      | [] => None
      | (bp, nodes) :: a =>
          '(r, v) ← geteblk bp nodes (v_vr st) blksize;
          let st := set_vr st v in
          data ← data.[i <- Some r];
          if r =? 0 then Some (i, true, data, st) else alloc_blocks n a st blksize data (i + 1)
      end
  end.

(** [new_size] rounded up to blocks. *)
Definition block_align (blksize new_size : Z) : Z :=
  s64 (new_size + u32 (u32 blksize - Z.land (u32 (new_size - 1)) (u32 (u32 blksize - 1)) - 1)).

Definition ramfs_set_filesize (a : answer) st (file : ramfs_inode) (new_size : Z)
    : option (Z * ramfs_inode * vms D) :=
  let blksize := in_blksize file in
  let old_size := s64 (in_blocks file * blksize) in
  let new_size := block_align blksize new_size in
  if new_size =? old_size then Some (0, file, st)
  else if new_size <? old_size then
    if 0 <? new_size then Some (0, file, st) (* nothing is freed *)
    else
      match in_data file with
      | InData bpp =>
          st ← release_blocks (Z.to_nat (in_blocks file)) bpp 0 st;
          Some (0, set_blocks file 0 InNull, st)
      | _ => None
      end
  else
    let new_blkcnt := u32 (Z.quot new_size blksize) in
    old ← match in_data file with InNull => Some [] | InData l => Some l | InDir _ => None end;
    if negb (krealloc_ok a) then Some (- ENOMEM, file, st)
    else
      let new_data := krealloc_array old (u32 (SIZEOF_BUF * new_blkcnt)) in
      '(i, failed, new_data, st) ←
        alloc_blocks (Z.to_nat (new_blkcnt - in_blocks file)) (mem a) st blksize new_data (in_blocks file);
      if failed : bool then
        Some (- ENOMEM, set_blocks file (u32 (in_blocks file + i)) (InData new_data), st)
      else Some (0, set_blocks file new_blkcnt (InData new_data), st).

(** The address in the block and the bytes that follow there; [None] inside is a
    [dp.p] of NULL. *)
Definition get_dp_by_offset st (inode : ramfs_inode) (offset : Z) : option (option (Z * Z)) :=
  let blksize := in_blksize inode in
  if s64 (in_blocks inode * blksize) <=? offset then Some None
  else
    match in_data inode with
    | InNull => Some None
    | InDir _ => None
    | InData data =>
        let bi := u32 (Z.quot (offset - Z.land offset (blksize - 1)) blksize) in
        let di := Z.land (u32 offset) (u32 (blksize - 1)) in
        bp ← data.[bi];
        bp ← bp;
        b ← get_buf st bp; (* a NULL pointer is no buffer *)
        Some (Some (u32 (b_data b + di), u32 (blksize - di)))
    end.

(** The loop of [ramfs_wr_regular]; [inl] is an error of the copy, [inr] the number
    of bytes written.  [ans] are the answers for the extensions. *)
Fixpoint wr_loop (fuel : nat) (ans : list answer) st (file : ramfs_inode) (offset : Z) (u : uio)
    (count bytes_wr : Z) : option ((Z + Z) * ramfs_inode * vms D) :=
  match fuel with
  | O => None
  | S fuel =>
      let remain := u32 (count - bytes_wr) in
      dp ← get_dp_by_offset st file (s64 (offset + bytes_wr));
      match dp with
      | None =>
          a ← head ans;
          '(err, file, st) ← ramfs_set_filesize a st file
             (s64 (u32 (in_blocks file * in_blksize file) + offset + count));
          if negb (err =? 0) then Some (inr bytes_wr, file, st)
          else if bytes_wr <? count then wr_loop fuel (tail ans) st file offset u count bytes_wr
          else Some (inr bytes_wr, file, st)
      | Some (p, len) =>
          let curr_wr_len := min remain len in
          '(err, st) ← uio_copyin sys pt_at true st u p bytes_wr curr_wr_len;
          if negb (err =? 0) then Some (inl err, file, st)
          else
            let bytes_wr := u32 (bytes_wr + curr_wr_len) in
            if bytes_wr <? count then wr_loop fuel ans st file offset u count bytes_wr
            else Some (inr bytes_wr, file, st)
      end
  end.
(** Enough for every write: each turn extends the file or copies bytes. *)
Definition wr_fuel (count : Z) : nat := Z.to_nat count + 2.
Definition ramfs_wr_regular (ans : list answer) st (file : ramfs_inode) (offset : Z) (u : uio) (count : Z)
    : option (Z * ramfs_inode * vms D) :=
  '(r, file, st) ← wr_loop (wr_fuel count) ans st file offset u count 0;
  match r with
  | inl err => Some (err, file, st)
  | inr bytes_wr =>
      Some (s32 bytes_wr, set_len file (max (vn_len file) (s64 (offset + bytes_wr))), st)
  end.

Fixpoint rd_loop (fuel : nat) st (file : ramfs_inode) (offset : Z) (u : uio) (count bytes_rd : Z)
    : option (Z * vms D) :=
  match fuel with
  | O => None
  | S fuel =>
      let remain := u32 (count - bytes_rd) in
      if vn_len file <=? s64 (offset + bytes_rd) then Some (s32 bytes_rd, st) (* EOF *)
      else
        dp ← get_dp_by_offset st file (s64 (offset + bytes_rd));
        match dp with
        | None => Some (s32 bytes_rd, st)
        | Some (p, len) =>
            let curr_rd_len := min remain len in
            '(err, st) ← uio_copyout sys pt_at true st p u bytes_rd curr_rd_len;
            if negb (err =? 0) then Some (err, st)
            else
              let bytes_rd := u32 (bytes_rd + curr_rd_len) in
              if bytes_rd <? count then rd_loop fuel st file offset u count bytes_rd
              else Some (s32 bytes_rd, st)
        end
  end.
Definition ramfs_rd_regular st (file : ramfs_inode) (offset : Z) (u : uio) (count : Z)
    : option (Z * vms D) :=
  rd_loop (wr_fuel count) st file offset u count 0.

(** ** Files: the seek position and the inode *)

(** The results have the type [size_t] in between. *)
Definition ramfs_read st (inode : ramfs_inode) (seek_pos : Z) (u : uio) (count : Z)
    : option (Z * Z * vms D) :=
  let t := Z.land (vn_mode inode) S_IFMT in
  if t =? S_IFREG then
    '(r, st) ← ramfs_rd_regular st inode seek_pos u count;
    Some (s32 r, s64 (seek_pos + u32 r), st)
  else if t =? S_IFDIR then Some (- EISDIR, seek_pos, st)
  else Some (- EOPNOTSUPP, seek_pos, st).

Definition ramfs_write (ans : list answer) (now : timespec) st (inode : ramfs_inode) (seek_pos : Z) (u : uio)
    (count : Z) : option (Z * Z * ramfs_inode * vms D) :=
  if Z.land (vn_mode inode) S_IFMT =? S_IFREG then
    '(r, inode, st) ← ramfs_wr_regular ans st inode seek_pos u count;
    Some (s32 r, s64 (seek_pos + u32 r), ramfs_vnode_modified now inode, st)
  else Some (- EOPNOTSUPP, seek_pos, inode, st).
End code.

(** ** Files as functions from offsets to bytes *)

Section spec.
Context {D : Type} `{RegionAllocator D} `{PtConfigOk} `{RamfsConfig}.
Context (sys : vm_pt) (pt_at : Z -> option mmu_pagetable).
Implicit Types st : vms D.

(** A buffer of one page that nobody else holds. *)
Definition page_buf (b : buf) : Prop :=
  b_vra b = true /\ b_bufsize b = 4096 /\ ko_refcount (b_obj b) = 1.

(** Elements [lo] to [hi] of the array are different page buffers. *)
Definition owns st (data : list (option Z)) (lo hi : Z) : Prop :=
  (forall k, lo <= k < hi -> exists bp b, data.[k] = Some (Some bp) /\ bp <> 0 /\
     get_buf st bp = Some b /\ page_buf b) /\
  forall k j bp, lo <= k < hi -> lo <= j < hi -> data.[k] = Some (Some bp) ->
    data.[j] = Some (Some bp) -> k = j.

Record file_inv st (L : gmap Z Z) (f : ramfs_inode) : Prop := {
  fi_vr : vr_inv (v_vr st) L;
  fi_blksize : in_blksize f = 4096;
  fi_blocks : 0 <= in_blocks f;
  fi_small : in_blocks f * 4096 < 2 ^ 31;
  fi_data : exists l, (in_data f = InData l \/ in_data f = InNull /\ l = []) /\ owns st l 0 (in_blocks f)
}.

(** The byte at an offset, as the code finds it. *)
Definition fbyte st (f : ramfs_inode) (o : Z) : Z :=
  match get_dp_by_offset st f o with Some (Some (p, _)) => ld st p | _ => 0 end.

(** The contents of the blocks; zeros follow. *)
Definition contents st (f : ramfs_inode) (m : Z -> Z) : Prop :=
  (forall o, 0 <= o < in_blocks f * 4096 -> fbyte st f o = m o) /\
  forall o, in_blocks f * 4096 <= o -> m o = 0.

Definition overwrite (m : Z -> Z) (off n : Z) (src : Z -> Z) : Z -> Z :=
  fun x => if (off <=? x) && (x <? off + n) then src (x - off) else m x.

Lemma buf_range st L bp b : vr_inv (v_vr st) L -> get_buf st bp = Some b -> b_vra b = true ->
  0 < b_data b /\ b_data b + b_bufsize b < 2 ^ 32.
Proof.
  intros Hi Hb Hv. destruct (vi_buf _ _ Hi bp b Hb Hv) as (v & i & n & Hin & (-> & -> & ? & ? & ?) & _).
  destruct (vi_node _ _ Hi _ _ Hin) as (_ & k & ? & _ & ? & ? & ? & _). lia.
Qed.

Lemma buf_apart st L p1 b1 p2 b2 a1 a2 : vr_inv (v_vr st) L -> get_buf st p1 = Some b1 -> get_buf st p2 = Some b2 ->
  b_vra b1 = true -> b_vra b2 = true -> covers b1 a1 -> covers b2 a2 -> p1 <> p2 -> a1 <> a2.
Proof. intros Hi G1 G2 V1 V2 C1 C2 Hne ->. apply Hne. eapply (vi_disj _ _ Hi p1 b1 p2 b2 a2); done. Qed.

(** *** Finding a byte *)

Lemma low_bits o : Z.land o 4095 = o mod 4096.
Proof. change 4095 with (Z.ones 12). by rewrite Z.land_ones by lia. Qed.

Lemma get_dp_spec st L f o : file_inv st L f -> 0 <= o < in_blocks f * 4096 ->
  exists l bp b, in_data f = InData l /\ l.[o / 4096] = Some (Some bp) /\ get_buf st bp = Some b /\ page_buf b /\
    get_dp_by_offset st f o = Some (Some (b_data b + o mod 4096, 4096 - o mod 4096)).
Proof.
  intros Hi Ho. destruct (fi_data _ _ _ Hi) as (l & Hl & Hown & _). pose proof (fi_small _ _ _ Hi).
  destruct (Hown (o / 4096)) as (bp & b & Hbp & Hne & Hb & Hpg); [dlia|].
  destruct Hl as [Hl|[_ ->]]; [|by unfold rd in Hbp; case_match].
  exists l, bp, b. split_and!; try done. unfold get_dp_by_offset.
  rewrite (fi_blksize _ _ _ Hi), s64_small by lia. zcase; [lia|]. rewrite Hl.
  change (4096 - 1) with 4095. rewrite !(u32_small 4095), (u32_small o), !low_bits by lia.
  rewrite Z.quot_div_nonneg by dlia. replace ((o - o mod 4096) / 4096) with (o / 4096) by dlia.
  rewrite (u32_small (o / 4096)), Hbp by dlia. mstep. rewrite Hb. mstep.
  destruct (buf_range _ _ _ _ (fi_vr _ _ _ Hi) Hb) as [? ?]; [apply Hpg|].
  destruct Hpg as (_ & E & _). rewrite E in *. by rewrite !u32_small by dlia.
Qed.

Lemma fbyte_eq st L f o : file_inv st L f -> 0 <= o < in_blocks f * 4096 ->
  exists l bp b, in_data f = InData l /\ l.[o / 4096] = Some (Some bp) /\ get_buf st bp = Some b /\ page_buf b /\
    fbyte st f o = ld st (b_data b + o mod 4096).
Proof.
  intros Hi Ho. destruct (get_dp_spec st L f o Hi Ho) as (l & bp & b & ? & ? & ? & ? & E).
  exists l, bp, b. split_and!; try done. unfold fbyte. by rewrite E.
Qed.

Lemma get_dp_eof st L f o : file_inv st L f -> in_blocks f * 4096 <= o -> get_dp_by_offset st f o = Some None.
Proof.
  intros Hi Ho. pose proof (fi_small _ _ _ Hi). pose proof (fi_blocks _ _ _ Hi). unfold get_dp_by_offset.
  rewrite (fi_blksize _ _ _ Hi), s64_small by lia. zcase; [done|lia].
Qed.
(** An address that belongs to no block of the file. *)
Definition outside st (f : ramfs_inode) (a : Z) : Prop :=
  forall l k bp b, in_data f = InData l -> 0 <= k < in_blocks f -> l.[k] = Some (Some bp) ->
    get_buf st bp = Some b -> ~ covers b a.

Lemma file_inv_copy st L f d s n : file_inv st L f -> file_inv (copy_phys st d s n) L f.
Proof. intros []. split; try done. by apply (vr_inv_ext (v_vr st)). Qed.

(** One turn of the loop: [n] bytes in one block. *)
Lemma write_block st L f m o sa n : file_inv st L f -> contents st f m ->
  0 <= o -> 0 < n -> o + n <= in_blocks f * 4096 -> o mod 4096 + n <= 4096 ->
  exists p, get_dp_by_offset st f o = Some (Some (p, 4096 - o mod 4096)) /\
    let st' := copy_phys st p sa n in
    file_inv st' L f /\ contents st' f (overwrite m o n (fun i => ld st (sa + i))) /\
    forall a, outside st f a -> ld st' a = ld st a.
Proof.
  intros Hi [Hm Hz] Ho Hn Hfit Hblk. destruct (get_dp_spec st L f o Hi) as (l & bp & b & Hl & Hbp & Hb & Hpg & E); [lia|].
  eexists. split; [exact E|]. set (p := b_data b + o mod 4096). cbv zeta.
  pose proof (proj1 (proj2 Hpg)) as Esz.
  assert (forall a, p <= a < p + n -> covers b a) as Hcov by (intros a Ha; unfold covers, p in *; dlia).
  split; [by apply file_inv_copy|]. split; [split|].
  - intros o' Ho'. destruct (fbyte_eq (copy_phys st p sa n) L f o' (file_inv_copy _ _ _ _ _ _ Hi) Ho')
      as (l' & bp' & b' & Hl' & Hbp' & Hb' & Hpg' & ->).
    destruct (fbyte_eq st L f o' Hi Ho') as (l2 & bp2 & b2 & Hl2 & Hbp2 & Hb2 & _ & E2).
    rewrite Hl in Hl', Hl2. injection Hl' as <-. injection Hl2 as <-. rewrite Hbp' in Hbp2. injection Hbp2 as <-.
    change (get_buf st bp' = Some b') in Hb'. rewrite Hb' in Hb2. injection Hb2 as <-.
    unfold ld at 1. cbn [copy_phys v_vr set_vr phys set_phys]. unfold pcopy, overwrite.
    rewrite <-(Hm o' Ho'), E2. destruct (decide (o' / 4096 = o / 4096)) as [Eq|Ne].
    + rewrite Eq, Hbp in Hbp'. injection Hbp' as <-. rewrite Hb in Hb'. injection Hb' as <-.
      subst p. repeat zcase; cbn [andb]; try (exfalso; dlia); try done. f_equal. dlia.
    + assert (bp <> bp') as Hne.
      { intros <-. apply Ne. destruct (fi_data _ _ _ Hi) as (l3 & Hl3 & _ & Hinj).
        destruct Hl3 as [Hl3|[Hl3 _]]; rewrite Hl in Hl3; [|done]. injection Hl3 as <-.
        apply (Hinj _ _ bp); try done; dlia. }
      rewrite (proj2 (andb_false_iff _ _)).
      2: { destruct (Z.leb_spec p (b_data b' + o' mod 4096)); [right|by left]. apply Z.ltb_ge.
           apply Z.le_ngt. intros Hlt. assert (covers b (b_data b' + o' mod 4096)) as Hc by (apply Hcov; lia).
           refine (buf_apart st L bp b bp' b' _ _ (fi_vr _ _ _ Hi) Hb Hb' _ _ Hc _ Hne eq_refl);
             [apply Hpg|apply Hpg'|]. unfold covers. destruct Hpg' as (_ & -> & _). dlia. }
      rewrite (proj2 (andb_false_iff _ _)); [done|]. repeat zcase; try tauto; exfalso; apply Ne; dlia.
  - intros o' Ho'. unfold overwrite. repeat zcase; cbn [andb]; try lia; by apply Hz.
  - intros a Ha. unfold ld. cbn [copy_phys v_vr set_vr phys set_phys]. unfold pcopy.
    repeat zcase; cbn [andb]; try done. exfalso. apply (Ha l (o / 4096) bp b Hl); try done; [dlia|]. apply Hcov. lia.
Qed.
(** *** Extending a file *)

(** [kzalloc] returns memory that is not in use: [n] buffers, and for each of them
    a vregion or NULL, when the calls of [geteblk] run one after the other. *)
Fixpoint fresh_answers (n : nat) (a : list (Z * list Z)) (v : vr D) : Prop :=
  match n with
  | O => True
  | S n =>
      match a with
      | [] => False
      | (bp, nodes) :: a =>
          (exists node, nodes = [node] /\ (node = 0 \/ node ∉ (vrlist v).*1)) /\
          bp <> 0 /\ bufs v !! bp = None /\
          forall v', geteblk bp nodes v 4096 = Some (bp, v') -> fresh_answers n a v'
      end
  end.

(** Memory of live buffers stays as it is. *)
Definition keeps st st' : Prop :=
  grows st st' /\
  forall bp b a, get_buf st bp = Some b -> b_vra b = true -> covers b a -> ld st' a = ld st a.

Lemma keeps_refl st : keeps st st.
Proof. split; [apply grows_refl|done]. Qed.
Lemma keeps_trans st1 st2 st3 : keeps st1 st2 -> keeps st2 st3 -> keeps st1 st3.
Proof.
  intros [Hg1 Hk1] [Hg2 Hk2]. split; [by eapply grows_trans|]. intros bp b a Hb Hv Hc.
  rewrite (Hk2 bp b a), (Hk1 bp b a); try done. by apply (grows_buf st1).
Qed.

Lemma geteblk_obj bp nodes (v : vr D) size r v' : geteblk bp nodes v size = Some (r, v') -> r <> 0 ->
  exists b, bufs v' !! r = Some b /\ b_obj b = kobj_init.
Proof.
  unfold geteblk. intros E Hr. case_match; [by injection E as <- _|].
  destruct (get_iblocks _ _ _) as [[[node i] v1]|]; [|done]. mstep in E.
  case_match; [by injection E as <- _|]. destruct (vreg_at _ _); [|done]. mstep in E.
  injection E as <- <-. eexists. split; [apply lookup_insert_eq|done].
Qed.

Lemma geteblk_page st L bp node : vr_inv (v_vr st) L -> bp <> 0 -> bufs (v_vr st) !! bp = None ->
  node = 0 \/ node ∉ (vrlist (v_vr st)).*1 ->
  exists r v', geteblk bp [node] (v_vr st) 4096 = Some (r, v') /\ (exists L', vr_inv v' L') /\
    keeps st (set_vr st v') /\
    (r = 0 \/ r = bp /\ exists b, bufs v' = <[bp := b]> (bufs (v_vr st)) /\ page_buf b /\
       forall a, covers b a -> phys v' a = 0).
Proof.
  intros Hi Hbp Hfr Hnode.
  destruct (geteblk_spec (v_vr st) L bp node 4096 Hi Hbp Hfr Hnode) as (r & v' & E & Hr); [lia..|].
  exists r, v'. split; [exact E|]. destruct Hr as [(-> & HL & Eb & Ep)|(-> & b & i & n & Eb & Esz & Hnew & _ & HL)].
  { split; [done|]. split; [|by left]. split; [split; try done; cbn [v_vr set_vr]; by rewrite Eb|].
    intros ? ? ? _ _ _. unfold ld. by cbn [v_vr set_vr]; rewrite Ep. }
  destruct Hnew as (_ & Hsz & Hv & _ & _ & Hph & Hdis).
  assert (n = 1) as -> by lia. split; [apply HL; unfold no_straddle; lia|].
  destruct (geteblk_obj _ _ _ _ _ _ E Hbp) as (b2 & Hb2 & Ho). rewrite Eb, lookup_insert_eq in Hb2. injection Hb2 as <-.
  split; [split|right; split; [done|exists b; split; [done|split; [split; [done|split]|]]]].
  - split; try done. cbn [v_vr set_vr]. rewrite Eb. by apply insert_subseteq.
  - intros bp' b' a Hb' Hv' Hc. unfold ld. cbn [v_vr set_vr]. rewrite Hph. case_decide as Hcb; [|done].
    exfalso. by apply (Hdis bp' b' a).
  - lia.
  - by rewrite Ho.
  - intros a Hc. rewrite Hph. by rewrite decide_True.
Qed.

Definition new_block st st' (data' : list (option Z)) (k : Z) : Prop :=
  exists bp b, data'.[k] = Some (Some bp) /\ bp <> 0 /\ get_buf st bp = None /\ get_buf st' bp = Some b /\
    page_buf b /\ forall a, covers b a -> ld st' a = 0.

Lemma alloc_blocks_spec n : forall a st L data i,
  vr_inv (v_vr st) L -> fresh_answers n a (v_vr st) -> 0 <= i -> i + Z.of_nat n <= Z.of_nat (length data) ->
  exists j failed data' st', alloc_blocks n a st 4096 data i = Some (j, failed, data', st') /\
    (exists L', vr_inv (v_vr st') L') /\ keeps st st' /\ (forall k, k < i -> data'.[k] = data.[k]) /\
    i <= j <= i + Z.of_nat n /\
    (failed = true /\ j < i + Z.of_nat n /\ data'.[j] = Some (Some 0) \/ failed = false /\ j = i + Z.of_nat n) /\
    (forall k, i <= k < j -> new_block st st' data' k) /\
    forall k k' bp, i <= k < j -> i <= k' < j -> data'.[k] = Some (Some bp) -> data'.[k'] = Some (Some bp) -> k = k'.
Proof.
  induction n as [|n IH]; intros a st L data i Hi Ha H0i Hlen; cbn [alloc_blocks].
  { exists i, false, data, st. split_and!; eauto using keeps_refl; try lia. }
  cbn [fresh_answers] in Ha. destruct a as [|[bp nodes] a]; [done|].
  destruct Ha as ((node & -> & Hnode) & Hbp & Hfr & Hnext).
  destruct (geteblk_page st L bp node Hi Hbp Hfr Hnode) as (r & v' & E & (L' & Hi') & Hk & Hr). rewrite E. mstep.
  rewrite wr_Some by lia. mstep. destruct Hr as [->|(-> & b & Eb & Hpg & Hz)].
  { rewrite Z.eqb_refl. eexists i, true, _, _. split; [done|]. split_and!; eauto; try lia.
    - intros k Hlt. apply rd_insert_ne; lia.
    - left. split_and!; [done|lia|]. apply rd_insert_eq. lia. }
  rewrite (proj2 (Z.eqb_neq bp 0)) by done.
  destruct (IH a (set_vr st v') L' (<[Z.to_nat i := Some bp]> data) (i + 1)) as
    (j & fl & data' & st' & E' & HL & Hk' & Hlow & Hj & Hfl & Hnew & Hinj); try done; try lia; try (rewrite length_insert; lia); try by apply Hnext.
  assert (data'.[i] = Some (Some bp)) as Hdi.
  { rewrite Hlow by lia. apply rd_insert_eq. lia. }
  assert (get_buf (set_vr st v') bp = Some b) as Hgb by (unfold get_buf; cbn [v_vr set_vr]; rewrite Eb; apply lookup_insert_eq).
  assert (forall k, i + 1 <= k < j -> data'.[k] = Some (Some bp) -> False) as Hne.
  { intros k Hkr Hd. destruct (Hnew k Hkr) as (bp' & b' & Hd' & _ & Hn & _). rewrite Hd in Hd'. injection Hd' as <-. congruence. }
  exists j, fl, data', st'. split; [exact E'|]. split_and!; try done; try lia.
  - by eapply keeps_trans.
  - intros k Hlt. rewrite Hlow by lia. apply rd_insert_ne; lia.
  - destruct Hfl as [(? & ? & ?)|[? ?]]; [left|right]; split_and!; try done; lia.
  - intros k Hkr. destruct (decide (k = i)) as [->|].
    + exists bp, b. split_and!; try done; [by apply (grows_buf (set_vr st v')); [apply Hk'|]|].
      intros a' Hc. rewrite (proj2 Hk' bp b a' Hgb) by (try apply Hpg; done). by apply Hz.
    + destruct (Hnew k ltac:(lia)) as (bp' & b' & ? & ? & Hn & ? & ? & ?). exists bp', b'. split_and!; try done.
      destruct (get_buf st bp') eqn:Eg; [|done]. by rewrite (grows_buf _ _ _ _ (proj1 Hk) Eg) in Hn.
  - intros k k' p Hk1 Hk2 D1 D2. destruct (decide (k = i)) as [->|], (decide (k' = i)) as [->|]; try done.
    + rewrite Hdi in D1. injection D1 as <-. exfalso. apply (Hne k'); [lia|done].
    + rewrite Hdi in D2. injection D2 as <-. exfalso. apply (Hne k); [lia|done].
    + apply (Hinj _ _ p); try done; lia.
Qed.
Lemma block_align_eq new_size : 0 < new_size -> new_size + 4096 < 2 ^ 31 ->
  block_align 4096 new_size = (new_size + 4095) / 4096 * 4096.
Proof.
  intros Hpos Hsm. unfold block_align. change (u32 4096) with 4096. change (u32 (4096 - 1)) with 4095.
  rewrite low_bits, (u32_small (new_size - 1)) by lia. rewrite (u32_small (_ - _ - 1)) by dlia.
  rewrite s64_small by dlia. dlia.
Qed.

Lemma rd_resize (l : list (option Z)) n k : 0 <= k < n -> k < Z.of_nat (length l) ->
  (resize (Z.to_nat n) None l).[k] = l.[k].
Proof. intros Hk Hl. unfold rd. zcase; [lia|]. rewrite lookup_resize by lia. done. Qed.

Lemma owns_length st l lo hi : owns st l lo hi -> 0 <= lo -> lo < hi -> hi <= Z.of_nat (length l).
Proof.
  intros [Ho _] Hlo Hhi. destruct (Ho (hi - 1)) as (bp & b & Hb & _); [lia|].
  apply rd_Some_lt in Hb. lia.
Qed.

(** A file whose array has a NULL pointer below its block count. *)
Definition damaged (f : ramfs_inode) : Prop :=
  exists l i, in_data f = InData l /\ 0 <= i < in_blocks f /\ l.[i] = Some (Some 0).

Record extend_ok (a : answer) st (f : ramfs_inode) (new_size : Z) : Prop := {
  eo_size : in_blocks f * 4096 < new_size /\ new_size + 4096 < 2 ^ 31;
  eo_array : 4 <= SIZEOF_BUF /\ SIZEOF_BUF * (new_size / 4096 + 1) < 2 ^ 32;
  eo_fresh : fresh_answers (Z.to_nat ((new_size + 4095) / 4096 - in_blocks f)) (mem a) (v_vr st)
}.

Lemma extended_owns st st' l data' n j : keeps st st' ->
  owns st l 0 n -> 0 <= n -> (forall k, 0 <= k < n -> data'.[k] = l.[k]) -> (forall k, n <= k < j -> new_block st st' data' k) ->
  (forall k k' bp, n <= k < j -> n <= k' < j -> data'.[k] = Some (Some bp) -> data'.[k'] = Some (Some bp) -> k = k') ->
  owns st' data' 0 j.
Proof.
  intros Hk [Hown Hinj] Hn Hlow Hnew Hinj'.
  assert (forall k bp, 0 <= k < n -> data'.[k] = Some (Some bp) -> exists b, get_buf st bp = Some b) as Hold.
  { intros k bp Hkr Hd. rewrite Hlow in Hd by done. destruct (Hown k Hkr) as (p & b & Hp & _ & Hb & _).
    rewrite Hd in Hp. injection Hp as <-. by exists b. }
  assert (forall k bp, n <= k < j -> data'.[k] = Some (Some bp) -> get_buf st bp = None) as Hnone.
  { intros k bp Hkr Hd. destruct (Hnew k Hkr) as (p & b & Hp & _ & Hb & _). rewrite Hd in Hp. by injection Hp as <-. }
  split.
  - intros k Hkr. destruct (decide (k < n)).
    + destruct (Hown k ltac:(lia)) as (bp & b & ? & ? & Hb & ?). exists bp, b. rewrite Hlow by lia.
      split_and!; try done. by apply (grows_buf st); [apply Hk|].
    + destruct (Hnew k ltac:(lia)) as (bp & b & ? & ? & _ & ? & ? & _). by exists bp, b.
  - intros k k' bp Hk1 Hk2 D1 D2. destruct (decide (k < n)), (decide (k' < n)).
    + rewrite Hlow in D1, D2 by lia. by apply (Hinj k k' bp); try lia.
    + destruct (Hold k bp) as [b Hb]; [lia|done|]. rewrite (Hnone k' bp) in Hb; [done|lia|done].
    + destruct (Hold k' bp) as [b Hb]; [lia|done|]. rewrite (Hnone k bp) in Hb; [done|lia|done].
    + by apply (Hinj' k k' bp); try lia.
Qed.

Lemma ramfs_extend_spec a st L f m new_size : file_inv st L f -> contents st f m -> extend_ok a st f new_size ->
  exists err f' st', ramfs_set_filesize a st f new_size = Some (err, f', st') /\ keeps st st' /\
    (exists n d, f' = set_blocks f n d) /\
    (err = 0 /\ new_size <= in_blocks f' * 4096 /\ (exists L', file_inv st' L' f') /\ contents st' f' m /\
       (forall l' k bp b, in_data f' = InData l' -> 0 <= k < in_blocks f' -> l'.[k] = Some (Some bp) ->
          get_buf st bp = Some b -> exists l, in_data f = InData l /\ k < in_blocks f /\ l.[k] = Some (Some bp)) \/
     err = - ENOMEM /\ krealloc_ok a = false /\ f' = f /\ st' = st \/
     err = - ENOMEM /\ (0 < in_blocks f -> damaged f')).
Proof.
  intros Hi [Hm Hz] [[Hlt Hsm] [HS1 HS2] Hfr]. pose proof (fi_blocks _ _ _ Hi) as Hnb.
  destruct (fi_data _ _ _ Hi) as (l & Hl & Hown). set (nb := (new_size + 4095) / 4096) in *.
  assert (in_blocks f < nb /\ nb * 4096 < 2 ^ 31 /\ new_size <= nb * 4096 /\ nb <= new_size / 4096 + 1) as (Hnb1 & Hnb2 & Hnb3 & Hnb4)
    by (subst nb; split_and!; dlia).
  unfold ramfs_set_filesize. rewrite (fi_blksize _ _ _ Hi), block_align_eq by lia. fold nb.
  rewrite s64_small by lia. zcase; [lia|]. zcase; [lia|].
  rewrite Z.quot_div_nonneg, Z.div_mul by lia. rewrite (u32_small nb) by lia.
  replace (match in_data f with InNull => Some [] | InData l => Some l | InDir _ => None end) with (Some l)
    by (destruct Hl as [->|[-> ->]]; done). mstep.
  destruct (krealloc_ok a) eqn:Ekr; cbn [negb].
  2: { exists (- ENOMEM), f, st. split; [done|]. split; [apply keeps_refl|]. split; [|by right; left].
       exists (in_blocks f), (in_data f). by destruct f. }
  rewrite (u32_small (SIZEOF_BUF * nb)) by nia.
  set (data := krealloc_array l (SIZEOF_BUF * nb)).
  assert (nb <= SIZEOF_BUF * nb / 4) as Hcap by (apply Z.div_le_lower_bound; nia).
  assert (forall k, 0 <= k < in_blocks f -> data.[k] = l.[k]) as Hdl.
  { intros k Hk. pose proof (owns_length _ _ _ _ Hown ltac:(lia) ltac:(lia)). apply rd_resize; lia. }
  destruct (alloc_blocks_spec (Z.to_nat (nb - in_blocks f)) (mem a) st L data (in_blocks f)) as
    (j & fl & data' & st' & -> & [L' Hv] & Hk & Hlow & Hj & Hfl & Hnew & Hinj); try done; try lia.
  { apply Hi. } { unfold data, krealloc_array. rewrite length_resize. lia. }
  mstep. rewrite Z2Nat.id in * by lia.
  destruct Hfl as [(-> & Hj1 & Hd)|(-> & ->)].
  - exists (- ENOMEM). eexists _, st'. split; [done|]. split; [done|]. split; [eauto|]. right. right. split; [done|].
    intros Hpos. exists data', j. cbn [set_blocks in_data in_blocks]. rewrite u32_small by lia. split_and!; try done; lia.
  - replace (in_blocks f + (nb - in_blocks f)) with nb in * by lia.
    exists 0. eexists _, st'. split; [done|]. split; [done|]. split; [eauto|]. left. split; [done|].
    cbn [set_blocks in_data in_blocks].
    assert (owns st' data' 0 nb) as Hown'.
    { apply (extended_owns st st' l data' (in_blocks f)); try done.
      intros k Hkr. rewrite Hlow by lia. by apply Hdl. }
    set (f' := set_blocks f nb (InData data')).
    assert (file_inv st' L' f') as Hi'.
    { split; try done; [apply (fi_blksize _ _ _ Hi)|cbn; lia|]. exists data'. split; [by left|done]. }
    split; [done|]. split; [by exists L'|]. split; [split|].
    + intros o Ho. cbn [f' set_blocks in_blocks] in Ho.
      destruct (fbyte_eq st' L' f' o Hi' Ho) as (l' & bp & b & Hl' & Hbp & Hb & Hpg & ->). injection Hl' as <-.
      assert (covers b (b_data b + o mod 4096)) as Hc by (unfold covers; destruct Hpg as (_ & -> & _); dlia).
      destruct (decide (o < in_blocks f * 4096)) as [Hlo|Hhi].
      * rewrite <-Hm by lia. destruct (fbyte_eq st L f o Hi ltac:(lia)) as (l2 & bp2 & b2 & Hl2 & Hbp2 & Hb2 & Hpg2 & ->).
        rewrite Hlow, Hdl in Hbp by dlia. destruct Hl as [Hl|[Hl _]]; rewrite Hl in Hl2; [|done]. injection Hl2 as <-.
        rewrite Hbp in Hbp2. injection Hbp2 as <-. rewrite (grows_buf _ _ _ _ (proj1 Hk) Hb2) in Hb. injection Hb as <-.
        apply (proj2 Hk bp b2); [done|apply Hpg|done].
      * rewrite Hz by lia. destruct (Hnew (o / 4096) ltac:(dlia)) as (bp2 & b2 & Hbp2 & _ & _ & Hb2 & _ & Hzero).
        rewrite Hbp in Hbp2. injection Hbp2 as <-. rewrite Hb in Hb2. injection Hb2 as <-. by apply Hzero.
    + intros o Ho. cbn [f' set_blocks in_blocks] in Ho. apply Hz. lia.
    + intros l' k bp b [= <-] Hkr Hbp Hb. destruct (decide (k < in_blocks f)).
      * rewrite Hlow, Hdl in Hbp by lia. destruct Hl as [Hl|[_ ->]]; [by exists l|]. by unfold rd in Hbp; case_match.
      * destruct (Hnew k ltac:(lia)) as (bp2 & b2 & Hbp2 & _ & Hn & _). rewrite Hbp in Hbp2. injection Hbp2 as <-. congruence.
Qed.
(** *** Writing *)

(** An address in a live buffer that is no block of the file. *)
Definition foreign st (f : ramfs_inode) (a : Z) : Prop :=
  exists sp sb, get_buf st sp = Some sb /\ b_vra sb = true /\ covers sb a /\
    forall l k, in_data f = InData l -> 0 <= k < in_blocks f -> l.[k] <> Some (Some sp).

Lemma foreign_outside st L f a : file_inv st L f -> foreign st f a -> outside st f a.
Proof.
  intros Hi (sp & sb & Hsb & Hv & Hc & Hno) l k bp b Hl Hk Hbp Hb Hc'.
  apply (Hno l k Hl Hk). destruct (fi_data _ _ _ Hi) as (l' & Hl' & Hown & _).
  destruct Hl' as [Hl'|[Hl' _]]; rewrite Hl in Hl'; [|done]. injection Hl' as <-.
  destruct (Hown k Hk) as (bp' & b' & Hbp' & _ & Hb' & Hpg). rewrite Hbp in Hbp'. injection Hbp' as <-.
  rewrite Hb in Hb'. injection Hb' as <-. rewrite Hbp. do 2 f_equal.
  eapply (vi_disj _ _ (fi_vr _ _ _ Hi) bp b sp sb a); try done. apply Hpg.
Qed.

(** Only the contents of memory change. *)
Definition touched st st' : Prop :=
  v_mm st' = v_mm st /\ v_ptm st' = v_ptm st /\ exists mem', v_vr st' = set_phys (v_vr st) mem'.
Lemma touched_grows st st' : touched st st' -> grows st st'.
Proof. intros (? & ? & m & E). split; [done..|]. by rewrite E. Qed.

Lemma touched_trans st1 st2 st3 : touched st1 st2 -> touched st2 st3 -> touched st1 st3.
Proof.
  intros (E1 & E2 & m1 & E3) (F1 & F2 & m2 & F3). split; [congruence|]. split; [congruence|].
  exists m2. by rewrite F3, E3.
Qed.

Section write.
Context (st0 : vms D) (f0 : ramfs_inode) (m : Z -> Z) (off sa count : Z) (u : uio).
Context (Hoff : 0 <= off) (Hcount : 0 < count).
Context (Hsrc : forall i, 0 <= i < count -> foreign st0 f0 (sa + i)).

(** After [w] bytes: the file has them, other buffers are as they were. *)
Record written st (L : gmap Z Z) (f : ramfs_inode) (w : Z) : Prop := {
  wn_inv : file_inv st L f;
  wn_contents : contents st f (overwrite m off w (fun i => ld st0 (sa + i)));
  wn_uio : uio_at sys st u sa count VM_PROT_READ;
  wn_grows : grows st0 st;
  wn_frame : forall a, foreign st0 f0 a -> foreign st f a /\ ld st a = ld st0 a
}.

Lemma written_grow st L f w o n st' : written st L f w -> 0 <= w -> w + n <= count -> o = off + w -> 0 < n ->
  file_inv st' L f -> touched st st' ->
  contents st' f (overwrite (overwrite m off w (fun i => ld st0 (sa + i))) o n (fun i => ld st (sa + w + i))) ->
  (forall a, outside st f a -> ld st' a = ld st a) -> written st' L f (w + n).
Proof.
  intros [Hi Hc Hu Hg Hf] Hw Hwn -> Hn Hi' Ht [Hc1 Hc2] Hout.
  assert (forall x, overwrite (overwrite m off w (fun i => ld st0 (sa + i))) (off + w) n (fun i => ld st (sa + w + i)) x =
    overwrite m off (w + n) (fun i => ld st0 (sa + i)) x) as E.
  { intros x. unfold overwrite. repeat zcase; cbn [andb]; try lia; try done.
    destruct (Hf (sa + (x - off))) as [_ <-]; [apply Hsrc; lia|]. f_equal. lia. }
  split; [done|..].
  - split; intros o Ho; rewrite <-E; [by apply Hc1|by apply Hc2].
  - apply (uio_at_grows sys st); [by apply touched_grows|done].
  - apply (grows_trans _ st); [done|by apply touched_grows].
  - intros a Ha. destruct (Hf a Ha) as [Hfa <-]. split.
    + destruct Ht as (_ & _ & mm' & Ev). destruct Hfa as (sp & sb & Hsb & ?). exists sp, sb.
      unfold get_buf. rewrite Ev. done.
    + apply Hout. by apply (foreign_outside _ L).
Qed.

(** The loop copies until the end of the write or of the blocks. *)
Lemma wr_run fuel : forall ans st L f w, written st L f w -> 0 <= w < count -> count < 2 ^ 31 -> off < 2 ^ 31 ->
  (Z.to_nat (count - w) <= fuel)%nat ->
  let w' := Z.max w (Z.min count (in_blocks f * 4096 - off)) in
  exists fuel' st', written st' L f w' /\ touched st st' /\ (Z.to_nat (count - w') + (fuel - Z.to_nat (count - w)) <= fuel')%nat /\
    wr_loop sys pt_at fuel ans st f off u count w =
      if w' =? count then Some (inr count, f, st') else wr_loop sys pt_at fuel' ans st' f off u count w'.
Proof.
  induction fuel as [|fuel IH]; intros ans st L f w Hw Hwr Hc31 Ho31 Hfuel w'; [lia|].
  pose proof (wn_inv _ _ _ _ Hw) as Hi. pose proof (fi_small _ _ _ Hi).
  destruct (decide (in_blocks f * 4096 <= off + w)) as [Heof|Hin].
  { replace w' with w in * by lia. exists (S fuel), st. split; [done|]. split; [|split; [lia|by rewrite (proj2 (Z.eqb_neq _ _)) by lia]].
    split; [done|]. split; [done|]. exists (phys (v_vr st)). by destruct (v_vr st). }
  set (n := Z.min (count - w) (4096 - (off + w) mod 4096)).
  assert (0 < n <= count - w /\ (off + w) mod 4096 + n <= 4096 /\ off + w + n <= in_blocks f * 4096 /\
    (w + n < count -> (off + w + n) mod 4096 = 0) /\ n < 2 ^ 31) as (Hn & Hn1 & Hn2 & Hn3 & Hn4) by (unfold n; split_and!; dlia).
  destruct (write_block st L f _ (off + w) (sa + w) n Hi (wn_contents _ _ _ _ Hw)) as (p & Edp & Hi' & Hc' & Hout); [dlia..|].
  cbn [wr_loop]. rewrite (s64_small (off + w)), Edp by lia. mstep.
  rewrite (u32_small (count - w)), min_small by dlia. fold n.
  rewrite (uio_copyin_spec sys pt_at _ st u sa count) by (try apply (wn_uio _ _ _ _ Hw); dlia). mstep.
  cbn [Z.eqb negb]. rewrite (u32_small (w + n)) by dlia.
  set (st1 := copy_phys st p (sa + w) n) in *.
  assert (touched st st1) as Ht by (split; [done|split; [done|by eexists]]).
  assert (written st1 L f (w + n)) as Hw1.
  { apply (written_grow st L f w (off + w) n); try done; dlia. }
  destruct (Z.ltb_spec (w + n) count) as [Hlt|Hge].
  - destruct (IH ans st1 L f (w + n) Hw1) as (fuel' & st' & Hw' & Ht' & Hf' & ->); [dlia..|].
    replace (Z.max (w + n) _) with w' in * by dlia. exists fuel', st'. split; [done|]. split; [by apply (touched_trans _ st1)|]. split; [dlia|done].
  - assert (w + n = count) as Ewn by dlia. rewrite Ewn in *. replace w' with count in * by dlia.
    exists fuel, st1. rewrite Z.eqb_refl. split; [done|]. split; [done|]. split; [dlia|done].
Qed.
Lemma written_extended st L f w L' f' st' : written st L f w -> keeps st st' -> file_inv st' L' f' ->
  contents st' f' (overwrite m off w (fun i => ld st0 (sa + i))) ->
  (forall l' k bp b, in_data f' = InData l' -> 0 <= k < in_blocks f' -> l'.[k] = Some (Some bp) ->
     get_buf st bp = Some b -> exists l, in_data f = InData l /\ k < in_blocks f /\ l.[k] = Some (Some bp)) ->
  written st' L' f' w.
Proof.
  intros [Hi Hc Hu Hg0 Hf] [Hg Hk] Hi' Hc' Hold.
  split; try done; [by apply (uio_at_grows sys st)|by apply (grows_trans _ st)|].
  intros a Ha. destruct (Hf a Ha) as [(sp & sb & Hsb & Hv & Hcov & Hno) <-]. split; [|by apply (Hk sp sb)].
  exists sp, sb. split_and!; try done; [by apply (grows_buf st)|].
  intros l' k Hl' Hkr Hbp. destruct (Hold l' k sp sb Hl' Hkr Hbp Hsb) as (l & Hl & Hlt & Hbp').
  apply (Hno l k Hl); [lia|done].
Qed.

(** The answers for the one extension that a write may need. *)
Definition write_ok (a : answer) : Prop :=
  (0 <= vn_len f0 /\ in_blocks f0 * 4096 + off + count + 4096 < 2 ^ 31 /\ vn_len f0 < 2 ^ 31) /\
  forall mem', extend_ok a (set_vr st0 (set_phys (v_vr st0) mem')) f0 (in_blocks f0 * 4096 + off + count).

Lemma touched_extend_ok a st f n : touched st0 st ->
  (forall mem', extend_ok a (set_vr st0 (set_phys (v_vr st0) mem')) f n) -> extend_ok a st f n.
Proof. intros (_ & _ & mm' & E) Ha. destruct (Ha mm') as [? ? Hf]. split; try done. by rewrite E. Qed.

Lemma wr_spec a ans L : written st0 L f0 0 -> head ans = Some a -> write_ok a ->
  exists n f' st', wr_loop sys pt_at (wr_fuel count) ans st0 f0 off u count 0 = Some (inr n, f', st') /\
    0 <= n <= count /\ (exists k d, f' = set_blocks f0 k d) /\
    ((exists L', written st' L' f' n) /\ (off + count <= in_blocks f0 * 4096 \/ krealloc_ok a = true -> n = count) /\
       (0 < n -> off + n <= in_blocks f' * 4096) /\ in_blocks f0 <= in_blocks f' \/
     n < count /\ (0 < in_blocks f0 -> damaged f')).
Proof.
  intros Hw Ha [(Hlen & Hsm & Hl31) Heo]. pose proof (wn_inv _ _ _ _ Hw) as Hi. pose proof (fi_blocks _ _ _ Hi) as Hb0.
  assert (exists k d, f0 = set_blocks f0 k d) as Hsame by (exists (in_blocks f0), (in_data f0); by destruct f0).
  destruct (wr_run (wr_fuel count) ans st0 L f0 0 Hw) as (fuel1 & st1 & Hw1 & Ht1 & Hf1 & ->); [unfold wr_fuel; lia..|].
  set (w1 := Z.max 0 _) in *. destruct (Z.eqb_spec w1 count) as [Ew|Ew].
  { exists count, f0, st1. split; [done|]. split; [lia|]. split; [done|]. left.
    rewrite Ew in Hw1. split; [by exists L|]. split; [done|]. split; lia. }
  assert (0 <= w1 < count /\ in_blocks f0 * 4096 <= off + w1) as [Hwr Heof] by lia.
  destruct fuel1 as [|fuel1]; [unfold wr_fuel in *; lia|]. cbn [wr_loop].
  rewrite (s64_small (off + w1)), (get_dp_eof st1 L f0 (off + w1) (wn_inv _ _ _ _ Hw1)) by lia. mstep. rewrite Ha. mstep.
  rewrite (fi_blksize _ _ _ Hi), (u32_small (in_blocks f0 * 4096)), s64_small by lia.
  destruct (ramfs_extend_spec a st1 L f0 _ _ (wn_inv _ _ _ _ Hw1) (wn_contents _ _ _ _ Hw1) (touched_extend_ok _ _ _ _ Ht1 Heo))
    as (err & f2 & st2 & -> & Hk & Hmeta & Hr). mstep.
  destruct Hr as [(-> & Hcap & [L2 Hi2] & Hc2 & Hold)|[(-> & Hkr & -> & ->)|(-> & Hdam)]].
  - cbn [Z.eqb negb]. destruct (Z.ltb_spec w1 count); [|lia].
    pose proof (written_extended _ _ _ _ _ _ _ Hw1 Hk Hi2 Hc2 Hold) as Hw2.
    destruct (wr_run fuel1 (tail ans) st2 L2 f2 w1 Hw2) as (fuel2 & st3 & Hw3 & _ & _ & ->); [unfold wr_fuel in *; lia..|].
    replace (Z.max w1 _) with count in * by lia. rewrite Z.eqb_refl. exists count, f2, st3.
    split; [done|]. split; [lia|]. split; [done|]. left. split; [by exists L2|].
    split; [done|]. split; lia.
  - cbn [Z.eqb Z.opp negb ENOMEM]. exists w1, f0, st1. split; [done|]. split; [lia|]. split; [done|].
    left. split; [by exists L|]. split; [rewrite Hkr; intros [?|?]; [lia|done]|]. split; lia.
  - exists w1, f2, st2. split; [done|]. split; [lia|]. split; [done|]. right. split; [lia|done].
Qed.
End write.
(** *** Reading *)

Lemma read_block st L f m o da n : file_inv st L f -> contents st f m -> 0 <= o -> 0 < n ->
  o + n <= in_blocks f * 4096 -> o mod 4096 + n <= 4096 ->
  (forall i, 0 <= i < n -> foreign st f (da + i)) ->
  exists p, get_dp_by_offset st f o = Some (Some (p, 4096 - o mod 4096)) /\
    let st' := copy_phys st da p n in
    file_inv st' L f /\ contents st' f m /\ (forall i, 0 <= i < n -> ld st' (da + i) = m (o + i)) /\
    forall x, ~ (da <= x < da + n) -> ld st' x = ld st x.
Proof.
  intros Hi [Hm Hz] Ho Hn Hfit Hblk Hdst. destruct (get_dp_spec st L f o Hi) as (l & bp & b & Hl & Hbp & Hb & Hpg & E); [lia|].
  eexists. split; [exact E|]. set (p := b_data b + o mod 4096). cbv zeta.
  destruct (pcopy_copied (phys (v_vr st)) da p n) as [Hin Hout].
  split; [by apply file_inv_copy|]. split; [split; [|done]|split].
  - intros o' Ho'. destruct (fbyte_eq (copy_phys st da p n) L f o' (file_inv_copy _ _ _ _ _ _ Hi) Ho')
      as (l' & bp' & b' & Hl' & Hbp' & Hb' & Hpg' & ->).
    destruct (fbyte_eq st L f o' Hi Ho') as (l2 & bp2 & b2 & Hl2 & Hbp2 & Hb2 & _ & E2).
    rewrite Hl' in Hl2. injection Hl2 as <-. rewrite Hbp' in Hbp2. injection Hbp2 as <-.
    change (get_buf st bp' = Some b') in Hb'. rewrite Hb' in Hb2. injection Hb2 as <-.
    rewrite <-(Hm o' Ho'), E2. apply Hout. intros Hx.
    refine (foreign_outside st L f (b_data b' + o' mod 4096) Hi _ l' (o' / 4096) bp' b' Hl' _ Hbp' Hb' _); [|dlia|].
    + replace (b_data b' + o' mod 4096) with (da + (b_data b' + o' mod 4096 - da)) by lia. apply Hdst. lia.
    + unfold covers. destruct Hpg' as (_ & -> & _). dlia.
  - intros i Hir. unfold ld. cbn [copy_phys v_vr set_vr phys set_phys]. rewrite Hin by done.
    rewrite <-(Hm (o + i)) by lia. destruct (fbyte_eq st L f (o + i) Hi ltac:(lia)) as (l2 & bp2 & b2 & Hl2 & Hbp2 & Hb2 & _ & ->).
    rewrite Hl in Hl2. injection Hl2 as <-. replace ((o + i) / 4096) with (o / 4096) in Hbp2 by dlia.
    rewrite Hbp in Hbp2. injection Hbp2 as <-. rewrite Hb in Hb2. injection Hb2 as <-.
    unfold ld, p. f_equal. dlia.
  - exact Hout.
Qed.

(** The loop stops at the first block that begins behind the end of the file. *)
Definition read_end (f : ramfs_inode) : Z := (vn_len f + 4095) / 4096 * 4096.

Section read.
Context (f : ramfs_inode) (m : Z -> Z) (L : gmap Z Z) (off da count : Z) (u : uio).
Context (Hoff : 0 <= off) (Hlen : vn_len f <= in_blocks f * 4096) (Hc31 : count < 2 ^ 31) (Ho31 : off < 2 ^ 31).

(** After [r] bytes. *)
Record read_state st st' (r : Z) : Prop := {
  rs_inv : file_inv st' L f;
  rs_contents : contents st' f m;
  rs_uio : uio_at sys st' u da count VM_PROT_WRITE;
  rs_touched : touched st st';
  rs_bytes : forall i, 0 <= i < r -> ld st' (da + i) = m (off + i);
  rs_frame : forall x, ~ (da <= x < da + r) -> ld st' x = ld st x
}.

Lemma foreign_touched st st' a : touched st st' -> foreign st f a -> foreign st' f a.
Proof. intros (_ & _ & mm' & E) (sp & sb & Hsb & ?). exists sp, sb. unfold get_buf. by rewrite E. Qed.

Lemma rd_run st fuel : forall st1 r, (forall i, 0 <= i < count -> foreign st f (da + i)) ->
  read_state st st1 r -> 0 <= r < count -> (off + r) mod 4096 = 0 \/ r = 0 -> (Z.to_nat (count - r) < fuel)%nat ->
  exists st', rd_loop sys pt_at fuel st1 f off u count r =
      Some (Z.max r (if vn_len f <=? off then 0 else Z.min count (read_end f - off)), st') /\
    read_state st st' (Z.max r (if vn_len f <=? off then 0 else Z.min count (read_end f - off))).
Proof.
  induction fuel as [|fuel IH]; intros st1 r Hdst Hs Hr Hal Hfuel; [lia|].
  set (e := Z.max r _). pose proof (rs_inv _ _ _ Hs) as Hi. pose proof (fi_small _ _ _ Hi).
  cbn [rd_loop]. rewrite s64_small by lia. destruct (Z.leb_spec (vn_len f) (off + r)) as [Heof|Hin].
  { assert (e = r) as -> by (unfold e, read_end; zcase; dlia). rewrite s32_small by lia. by exists st1. }
  set (n := Z.min (count - r) (4096 - (off + r) mod 4096)).
  assert (0 < n <= count - r /\ (off + r) mod 4096 + n <= 4096 /\ off + r + n <= in_blocks f * 4096 /\
    (r + n < count -> (off + r + n) mod 4096 = 0) /\ off + r + n <= read_end f)
    as (Hn & Hn1 & Hn2 & Hn3 & Hn4) by (unfold n, read_end; split_and!; dlia).
  destruct (read_block st1 L f m (off + r) (da + r) n Hi (rs_contents _ _ _ Hs)) as (p & -> & Hi' & Hc' & Hb' & Hfr'); [lia..| |].
  { intros i Hir. apply (foreign_touched st); [apply Hs|]. rewrite <-Z.add_assoc. apply Hdst. lia. }
  mstep. rewrite (u32_small (count - r)), min_small by dlia. fold n.
  rewrite (uio_copyout_spec sys pt_at _ st1 u da count) by (try apply (rs_uio _ _ _ Hs); lia). mstep.
  cbn [Z.eqb negb]. rewrite (u32_small (r + n)) by lia. set (st2 := copy_phys st1 (da + r) p n) in *.
  assert (read_state st st2 (r + n)) as Hs2.
  { assert (touched st1 st2) as Ht by (split; [done|split; [done|by eexists]]).
    split; try done.
    - apply (uio_at_grows sys st1); [by apply touched_grows|apply Hs].
    - by apply (touched_trans _ st1); [apply Hs|].
    - intros i Hir. destruct (decide (i < r)).
      + rewrite Hfr' by lia. apply (rs_bytes _ _ _ Hs). lia.
      + replace (da + i) with (da + r + (i - r)) by lia. rewrite Hb' by lia. f_equal. lia.
    - intros x Hx. rewrite Hfr', (rs_frame _ _ _ Hs) by lia. done. }
  assert (e = Z.max (r + n) e) as Ee.
  { unfold e. destruct (Z.leb_spec (vn_len f) off); lia. }
  destruct (Z.ltb_spec (r + n) count) as [Hlt|Hge].
  - destruct (IH st2 (r + n) Hdst Hs2) as (st' & E & Hs'); [lia|left; rewrite Z.add_assoc; by apply Hn3|lia|].
    replace (Z.max (r + n) (if vn_len f <=? off then 0 else Z.min count (read_end f - off))) with e in *
      by (unfold e in *; lia). by exists st'.
  - assert (e = r + n) as -> by (unfold e in *; destruct (Z.leb_spec (vn_len f) off); lia).
    rewrite s32_small by lia. by exists st2.
Qed.
End read.
(** *** Removing the data of a file *)

Lemma release_blocks_spec data n : forall i st L, vr_inv (v_vr st) L -> 0 <= i -> owns st data i (i + Z.of_nat n) ->
  exists st', release_blocks n data i st = Some st' /\ (exists L', vr_inv (v_vr st') L') /\
    v_mm st' = v_mm st /\ v_ptm st' = v_ptm st /\ phys (v_vr st') = phys (v_vr st) /\
    forall bp, get_buf st' bp = None /\ (exists k, i <= k < i + Z.of_nat n /\ data.[k] = Some (Some bp)) \/
      get_buf st' bp = get_buf st bp /\ forall k, i <= k < i + Z.of_nat n -> data.[k] <> Some (Some bp).
Proof.
  induction n as [|n IH]; intros i st L Hi H0i [Hown Hinj]; cbn [release_blocks].
  { exists st. split_and!; eauto. intros bp. right. split; [done|]. intros; lia. }
  destruct (Hown i) as (bp & b & Hbp & Hne & Hb & Hv & Hsz & Href); [lia|].
  rewrite Hbp. mstep. rewrite (proj2 (Z.eqb_neq bp 0)) by done.
  destruct (vrfree_spec (v_vr st) L bp b Hi Hb Hv) as (v' & L' & -> & Hi' & Hr).
  rewrite Href, Z.eqb_refl in Hr. destruct Hr as [Hbufs Hph]. mstep.
  assert (forall q, get_buf (set_vr st v') q = if decide (q = bp) then None else get_buf st q) as Hgb.
  { intros q. unfold get_buf. cbn [v_vr set_vr]. rewrite Hbufs. case_decide as E; [subst; apply lookup_delete_eq|].
    by apply lookup_delete_ne. }
  destruct (IH (i + 1) (set_vr st v') L' Hi') as (st' & -> & HL & Hm & Hp & Hph' & Hbs); [lia| |].
  - split.
    + intros k Hk. destruct (Hown k) as (q & c & Hq & ? & Hc & ?); [lia|]. exists q, c. split_and!; try done.
      rewrite Hgb. rewrite decide_False; [done|]. intros ->. assert (k = i); [|lia].
      apply (Hinj k i bp); try done; lia.
    + intros k j q Hk Hj. apply Hinj; lia.
  - exists st'. split_and!; try done; [by rewrite Hph'|].
    intros q. destruct (Hbs q) as [(HN & k & Hk & Hq)|[HS Hno]].
    + left. split; [done|]. exists k. split; [lia|done].
    + destruct (decide (q = bp)) as [->|Hq].
      * left. split; [by rewrite HS, Hgb, decide_True|]. exists i. split; [lia|done].
      * right. split; [by rewrite HS, Hgb, decide_False|]. intros k Hk. destruct (decide (k = i)) as [->|]; [|apply Hno; lia].
        rewrite Hbp. congruence.
Qed.

(** A size of 0 releases every block of the file and nothing else. *)
Lemma ramfs_free_spec a st L f l : file_inv st L f -> in_data f = InData l -> 0 < in_blocks f ->
  exists st', ramfs_set_filesize a st f 0 = Some (0, set_blocks f 0 InNull, st') /\ (exists L', vr_inv (v_vr st') L') /\
    phys (v_vr st') = phys (v_vr st) /\
    forall bp, get_buf st' bp = None /\ (exists k, 0 <= k < in_blocks f /\ l.[k] = Some (Some bp)) \/
      get_buf st' bp = get_buf st bp /\ forall k, 0 <= k < in_blocks f -> l.[k] <> Some (Some bp).
Proof.
  intros Hi Hl Hpos. destruct (fi_data _ _ _ Hi) as (l' & Hl' & Hown). pose proof (fi_small _ _ _ Hi).
  destruct Hl' as [Hl'|[Hl' _]]; rewrite Hl in Hl'; [|done]. injection Hl' as <-.
  unfold ramfs_set_filesize. rewrite (fi_blksize _ _ _ Hi), Hl. change (block_align 4096 0) with 0.
  rewrite s64_small, (proj2 (Z.eqb_neq 0 _)), (proj2 (Z.ltb_lt 0 (in_blocks f * 4096))) by lia.
  change (0 <? 0) with false. cbv iota.
  destruct (release_blocks_spec l (Z.to_nat (in_blocks f)) 0 st L (fi_vr _ _ _ Hi)) as (st' & -> & HL & _ & _ & Hph & Hb);
    [lia|by rewrite Z2Nat.id by lia|]. mstep. rewrite Z2Nat.id in Hb by lia. exists st'. by split_and!.
Qed.

(** *** Theorems *)

Lemma contents_set_len st f m v : contents st (set_len f v) m <-> contents st f m.
Proof. done. Qed.
Lemma file_inv_set_len st L f v : file_inv st L f -> file_inv st L (set_len f v).
Proof. by intros []. Qed.

Lemma written_start st L f m off u sa count : file_inv st L f -> contents st f m ->
  uio_at sys st u sa count VM_PROT_READ -> written st f m off sa count u st L f 0.
Proof.
  intros Hi [Hm Hz] Hu. split; try done.
  assert (forall x, overwrite m off 0 (fun i => ld st (sa + i)) x = m x) as E.
  { intros x. unfold overwrite. repeat zcase; cbn [andb]; done || lia. }
  split; intros o Ho; rewrite E; [by apply Hm|by apply Hz].
Qed.

Lemma max_small a b : 0 <= a < 2 ^ 32 -> 0 <= b < 2 ^ 32 -> max a b = Z.max a b.
Proof. intros. unfold max. rewrite !u32_small by lia. zcase; lia. Qed.

Lemma ramfs_wr_spec a ans st L f m off u sa count :
  file_inv st L f -> contents st f m -> uio_at sys st u sa count VM_PROT_READ ->
  (forall i, 0 <= i < count -> foreign st f (sa + i)) -> 0 <= off -> 0 < count ->
  head ans = Some a -> write_ok st f off count a ->
  exists n f' st', ramfs_wr_regular sys pt_at ans st f off u count = Some (n, f', st') /\ 0 <= n <= count /\
    ((exists L', written st f m off sa count u st' L' f' n) /\ vn_len f' = Z.max (vn_len f) (off + n) /\
       (off + count <= in_blocks f * 4096 \/ krealloc_ok a = true -> n = count) /\
       (0 < n -> off + n <= in_blocks f' * 4096) /\ in_blocks f <= in_blocks f' \/
     n < count /\ (0 < in_blocks f -> damaged f')).
Proof.
  intros Hi Hm Hu Hsrc Hoff Hcount Ha Hok. pose proof Hok as [(Hl0 & Hsm & Hl31) _].
  pose proof (fi_blocks _ _ _ Hi).
  destruct (wr_spec st f m off sa count u Hoff Hcount Hsrc a ans L (written_start _ _ _ _ _ _ _ _ Hi Hm Hu) Ha Hok)
    as (n & f' & st' & E & Hn & (k & d & ->) & Hr).
  unfold ramfs_wr_regular. rewrite E. mstep. rewrite s64_small, s32_small by lia.
  change (vn_len (set_blocks f k d)) with (vn_len f). rewrite max_small by lia.
  exists n. eexists _, st'. split; [done|]. split; [done|].
  destruct Hr as [([L' [Hi' Hc' Hu' Hg' Hf']] & Hfull & Hcap)|[Hlt Hdam]]; [left|by right].
  split; [|done]. exists L'. split; try done. by apply file_inv_set_len.
Qed.

(** C6. [ramfs_wr_regular] refines the write of a byte string at an offset of a file:
    it returns the number [n] of bytes that it wrote, the contents of the file are
    the old ones with the bytes of the I/O buffer in place of bytes [off] to
    [off + n], a gap behind the old end reads as zeros, the length is the larger of
    the old one and [off + n], and no other buffer changes.  The write is complete
    when it fits in the blocks or [krealloc] succeeds; only a failure of [geteblk]
    leaves a file with blocks damaged. *)
Theorem ramfs_wr_correct (a : answer) (ans : list answer) (st : vms D) (L : gmap Z Z) (f : ramfs_inode)
    (m : Z -> Z) (off : Z) (u : uio) (sa count : Z)
    (Hinv : file_inv st L f) (Hm : contents st f m) (Huio : uio_at sys st u sa count VM_PROT_READ)
    (Hsrc : forall i, 0 <= i < count -> foreign st f (sa + i)) (Hoff : 0 <= off) (Hcount : 0 < count)
    (Hans : head ans = Some a) (Hok : write_ok st f off count a) :
  exists n f' st', ramfs_wr_regular sys pt_at ans st f off u count = Some (n, f', st') /\ 0 <= n <= count /\
    ((exists L', file_inv st' L' f') /\ contents st' f' (overwrite m off n (fun i => ld st (sa + i))) /\
       vn_len f' = Z.max (vn_len f) (off + n) /\
       (forall x, foreign st f x -> ld st' x = ld st x) /\
       (off + count <= in_blocks f * 4096 \/ krealloc_ok a = true -> n = count) \/
     n < count /\ (0 < in_blocks f -> damaged f')).
Proof.
  destruct (ramfs_wr_spec a ans st L f m off u sa count Hinv Hm Huio Hsrc Hoff Hcount Hans Hok)
    as (n & f' & st' & E & Hn & Hr).
  exists n, f', st'. split; [done|]. split; [done|].
  destruct Hr as [([L' Hw] & Hlen & Hfull & _)|?]; [left|by right]. split_and!; try done.
  - exists L'. apply Hw.
  - apply Hw.
  - intros x Hx. by apply (wn_frame _ _ _ _ _ _ _ _ _ _ _ Hw).
Qed.

(** The number of bytes that a read returns. *)
Definition read_count (f : ramfs_inode) (off count : Z) : Z :=
  if vn_len f <=? off then 0 else Z.min count (read_end f - off).

Lemma ramfs_rd_spec st L f m off u da count :
  file_inv st L f -> contents st f m -> uio_at sys st u da count VM_PROT_WRITE ->
  (forall i, 0 <= i < count -> foreign st f (da + i)) -> 0 <= off < 2 ^ 31 -> 0 < count < 2 ^ 31 ->
  vn_len f <= in_blocks f * 4096 ->
  exists st', ramfs_rd_regular sys pt_at st f off u count = Some (read_count f off count, st') /\
    read_state f m L off da count u st st' (read_count f off count).
Proof.
  intros Hi Hm Hu Hdst Hoff Hcount Hlen. unfold ramfs_rd_regular.
  destruct (rd_run f m L off da count u) with (st := st) (st1 := st) (r := 0) (fuel := wr_fuel count)
    as (st' & E & Hs); try done; try lia.
  - split; try done; [|intros; lia]. split; [done|]. split; [done|]. exists (phys (v_vr st)). by destruct (v_vr st).
  - unfold wr_fuel. lia.
  - fold (read_count f off count) in E, Hs.
    assert (Z.max 0 (read_count f off count) = read_count f off count) as Er.
    { unfold read_count, read_end. zcase; dlia. }
    rewrite Er in *. by exists st'.
Qed.

(** C12. [ramfs_rd_regular] reads a file: nothing from the end of the file on;
    otherwise it returns the number of bytes up to [count] or to the end of the
    block with the last byte of the file, whichever is less, and the I/O buffer has
    the bytes of the file from [off] on; nothing else in memory and nothing of the
    file changes. *)
Theorem ramfs_rd_correct (st : vms D) (L : gmap Z Z) (f : ramfs_inode) (m : Z -> Z) (off : Z) (u : uio)
    (da count : Z)
    (Hinv : file_inv st L f) (Hm : contents st f m) (Huio : uio_at sys st u da count VM_PROT_WRITE)
    (Hdst : forall i, 0 <= i < count -> foreign st f (da + i)) (Hoff : 0 <= off < 2 ^ 31)
    (Hcount : 0 < count < 2 ^ 31) (Hlen : vn_len f <= in_blocks f * 4096) :
  exists st', ramfs_rd_regular sys pt_at st f off u count = Some (read_count f off count, st') /\
    file_inv st' L f /\ contents st' f m /\
    (forall i, 0 <= i < read_count f off count -> ld st' (da + i) = m (off + i)) /\
    forall x, ~ (da <= x < da + read_count f off count) -> ld st' x = ld st x.
Proof.
  destruct (ramfs_rd_spec st L f m off u da count Hinv Hm Huio Hdst Hoff Hcount Hlen) as (st' & E & []).
  by exists st'.
Qed.

(** C10. Bytes written to a file are read back: after a complete write of [count] bytes
    a read at the same offset returns [count] and puts the same bytes in the other
    I/O buffer; both may be memory of the kernel or of the process. *)
Theorem ramfs_write_read (a : answer) (ans : list answer) (st : vms D) (L : gmap Z Z) (f : ramfs_inode)
    (m : Z -> Z) (off : Z) (u1 u2 : uio) (sa da count : Z)
    (Hinv : file_inv st L f) (Hm : contents st f m) (Hlen : vn_len f <= in_blocks f * 4096)
    (Hread : uio_at sys st u1 sa count VM_PROT_READ) (Hwrite : uio_at sys st u2 da count VM_PROT_WRITE)
    (Hsrc : forall i, 0 <= i < count -> foreign st f (sa + i))
    (Hdst : forall i, 0 <= i < count -> foreign st f (da + i))
    (Hoff : 0 <= off) (Hcount : 0 < count) (Hans : head ans = Some a) (Hok : write_ok st f off count a) :
  exists n f' st', ramfs_wr_regular sys pt_at ans st f off u1 count = Some (n, f', st') /\
    (n = count -> exists st'', ramfs_rd_regular sys pt_at st' f' off u2 count = Some (count, st'') /\
       forall i, 0 <= i < count -> ld st'' (da + i) = ld st (sa + i)).
Proof.
  destruct (ramfs_wr_spec a ans st L f m off u1 sa count Hinv Hm Hread Hsrc Hoff Hcount Hans Hok)
    as (n & f' & st' & E & Hn & Hr).
  exists n, f', st'. split; [exact E|]. intros ->. destruct Hr as [([L' Hw] & Hl & _ & Hcap & Hb)|[? _]]; [|lia].
  destruct Hok as [(Hl0 & Hsm & _) _]. pose proof (fi_blocks _ _ _ Hinv).
  assert (read_count f' off count = count) as Erc by (unfold read_count, read_end; zcase; dlia).
  destruct (ramfs_rd_spec st' L' f' _ off u2 da count (wn_inv _ _ _ _ _ _ _ _ _ _ _ Hw) (wn_contents _ _ _ _ _ _ _ _ _ _ _ Hw))
    as (st'' & E' & Hs); try lia.
  - apply (uio_at_grows sys st); [apply Hw|done].
  - intros i Hi. by apply (wn_frame _ _ _ _ _ _ _ _ _ _ _ Hw), Hdst.
  - rewrite Erc in *. exists st''. split; [done|]. intros i Hi. rewrite (rs_bytes _ _ _ _ _ _ _ _ _ _ Hs) by done.
    unfold overwrite. repeat zcase; cbn [andb]; try lia. f_equal. lia.
Qed.
End spec.

(** ** A concrete file *)

#[local] Existing Instance provider32.
#[global] Instance ramfs_config : RamfsConfig := {| SIZEOF_BUF := 200 |}.

Definition no_pt (_ : Z) : option mmu_pagetable := None.
Definition time0 : timespec := Timespec 0 0.
Definition new_file : ramfs_inode :=
  RamfsInode 1 0 2 0 (Z.lor S_IFREG 0x1a4) 0 0 0 time0 time0 time0 time0 4096 0 InNull.
(** Two buffers of the kernel: the source of writes and the destination of reads. *)
Definition ramfs_vr : vr dynmem := after (geteblk 9 [0] vr_a 5000) vr_a.
Definition ramfs_st : vms dynmem := Vms mm0 pst0 ramfs_vr.
Definition src_uio : uio := Uio 0x800000 0 5000.
Definition answer0 : answer := Answer true [(2, [0]); (3, [0]); (4, [0]); (5, [0])].

Lemma ramfs_vr_eq : geteblk 9 [0] vr_a 5000 = Some (9, ramfs_vr).
Proof. unfold ramfs_vr. apply after_eq. vm_compute. reflexivity. Qed.

Lemma ramfs_vr_inv : exists L, vr_inv ramfs_vr L.
Proof.
  destruct vr_a_inv as [L Hi]. apply (vr_step_inv vr_a ramfs_vr L Hi).
  refine (vs_get vr_a ramfs_vr 9 0 5000 9 _ _ _ _ _ ramfs_vr_eq _); [done| |by left|done|done|].
  - vm_compute. reflexivity.
  - apply crosses_reflect. vm_compute. reflexivity.
Qed.

Lemma new_file_inv L : vr_inv ramfs_vr L -> file_inv ramfs_st L new_file.
Proof.
  intros Hi. split; try done. exists []. split; [by right|]. split; intros; cbn in *; lia.
Qed.
Lemma new_contents : contents ramfs_st new_file (fun _ => 0).
Proof. split; [cbn; intros; lia|done]. Qed.

Definition in_buffer (v : vr dynmem) (bp data size : Z) : Prop :=
  (fun b => (b_vra b, b_data b, b_bufsize b)) <$> bufs v !! bp = Some (true, data, size).
Lemma new_foreign a bp data size : in_buffer ramfs_vr bp data size -> data <= a < data + size ->
  foreign ramfs_st new_file a.
Proof.
  unfold in_buffer. intros Hb Ha. destruct (bufs ramfs_vr !! bp) as [b|] eqn:E; [|done].
  injection Hb as Hv Hd Hs. exists bp, b. split; [exact E|]. split; [done|]. split; [|done].
  unfold covers. lia.
Qed.
Lemma src_in : in_buffer ramfs_vr 1 0x800000 8192.
Proof. vm_compute. reflexivity. Qed.
Lemma dst_in : in_buffer ramfs_vr 9 0x802000 8192.
Proof. vm_compute. reflexivity. Qed.

Lemma fresh_cons n bp a (v : vr dynmem) : fst <$> geteblk bp [0] v 4096 = Some bp -> bp <> 0 -> bufs v !! bp = None ->
  fresh_answers n a (after (geteblk bp [0] v 4096) v) -> fresh_answers (S n) ((bp, [0]) :: a) v.
Proof.
  intros E Hbp Hb Hn. apply (after_eq _ v) in E. split; [exists 0; split; [done|by left]|]. split; [done|]. split; [done|].
  intros v' E'. rewrite E in E'. by apply Some_pair in E' as [_ <-].
Qed.

Lemma new_write_ok : write_ok ramfs_st new_file 10 5000 answer0.
Proof.
  split; [cbn; lia|]. intros mem'. split; [cbn; lia|vm_compute; intuition congruence|].
  change (Z.to_nat _) with 2%nat.
  apply fresh_cons; [vm_compute; reflexivity|done|vm_compute; reflexivity|].
  apply fresh_cons; [vm_compute; reflexivity|done|vm_compute; reflexivity|]. exact I.
Qed.

Lemma ramfs_wr_correct_witness :
  exists f' st', ramfs_wr_regular sys0 no_pt [answer0] ramfs_st new_file 10 src_uio 5000 = Some (5000, f', st') /\
    vn_len f' = 5010 /\ in_blocks f' = 2.
Proof.
  destruct ramfs_vr_inv as [L Hi].
  destruct (ramfs_wr_correct sys0 no_pt answer0 [answer0] ramfs_st L new_file (fun _ => 0) 10 src_uio 0x800000 5000
    (new_file_inv L Hi) new_contents) as (n & f' & st' & E & Hn & Hr).
  - by apply uio_kernel.
  - intros i Hir. apply (new_foreign _ _ _ _ src_in). lia.
  - lia.
  - lia.
  - reflexivity.
  - exact new_write_ok.
  - assert ((fun r => (r.1.1, in_blocks r.1.2)) <$> ramfs_wr_regular sys0 no_pt [answer0] ramfs_st new_file 10 src_uio 5000
      = Some (5000, 2)) as E2 by (vm_compute; reflexivity).
    rewrite E in E2. cbn in E2. injection E2 as -> Hb. exists f', st'. split; [exact E|]. split; [|exact Hb].
    destruct Hr as [(_ & _ & Hl & _)|[Hlt _]]; [exact Hl|lia].
Defined.

Lemma new_written : exists L f' st',
  ramfs_wr_regular sys0 no_pt [answer0] ramfs_st new_file 10 src_uio 5000 = Some (5000, f', st') /\
  written sys0 ramfs_st new_file (fun _ => 0) 10 0x800000 5000 src_uio st' L f' 5000 /\
  vn_len f' = 5010 /\ in_blocks f' = 2.
Proof.
  destruct ramfs_vr_inv as [L Hi].
  destruct (ramfs_wr_spec sys0 no_pt answer0 [answer0] ramfs_st L new_file (fun _ => 0) 10 src_uio 0x800000 5000
    (new_file_inv L Hi) new_contents) as (n & f' & st' & E & Hn & Hr).
  - by apply uio_kernel.
  - intros i Hir. apply (new_foreign _ _ _ _ src_in). lia.
  - lia.
  - lia.
  - reflexivity.
  - exact new_write_ok.
  - assert ((fun r => (r.1.1, in_blocks r.1.2)) <$> ramfs_wr_regular sys0 no_pt [answer0] ramfs_st new_file 10 src_uio 5000
      = Some (5000, 2)) as E2 by (vm_compute; reflexivity).
    rewrite E in E2. cbn in E2. injection E2 as -> Hb.
    destruct Hr as [([L' Hw] & Hl & _)|[Hlt _]]; [|lia]. exists L', f', st'. split; [exact E|]. split; [exact Hw|].
    split; [exact Hl|exact Hb].
Qed.

Definition dst_uio : uio := Uio 0x802000 0 5000.

Lemma ramfs_rd_correct_witness :
  exists f' st' st'', ramfs_wr_regular sys0 no_pt [answer0] ramfs_st new_file 10 src_uio 5000 = Some (5000, f', st') /\
    ramfs_rd_regular sys0 no_pt st' f' 10 dst_uio 5000 = Some (5000, st'') /\
    ld st'' 0x802000 = ld ramfs_st 0x800000.
Proof.
  destruct new_written as (L & f' & st' & E & Hw & Hl & Hb).
  destruct (ramfs_rd_correct sys0 no_pt st' L f' _ 10 dst_uio 0x802000 5000 ltac:(apply Hw)
    ltac:(apply Hw)) as (st'' & E' & _ & _ & Hbytes & _).
  - by apply uio_kernel.
  - intros i Hir. destruct Hw as [_ _ _ _ Hf]. apply (Hf (0x802000 + i)). apply (new_foreign _ _ _ _ dst_in). lia.
  - lia.
  - lia.
  - lia.
  - assert (read_count f' 10 5000 = 5000) as Ec by (unfold read_count, read_end; rewrite Hl; reflexivity).
    rewrite Ec in *. exists f', st', st''. split; [exact E|]. split; [exact E'|]. exact (Hbytes 0 ltac:(lia)).
Defined.

Lemma ramfs_write_read_witness :
  exists f' st' st'', ramfs_wr_regular sys0 no_pt [answer0] ramfs_st new_file 10 src_uio 5000 = Some (5000, f', st') /\
    ramfs_rd_regular sys0 no_pt st' f' 10 dst_uio 5000 = Some (5000, st'') /\
    forall i, 0 <= i < 5000 -> ld st'' (0x802000 + i) = ld ramfs_st (0x800000 + i).
Proof.
  destruct ramfs_vr_inv as [L Hi].
  destruct (ramfs_write_read sys0 no_pt answer0 [answer0] ramfs_st L new_file (fun _ => 0) 10 src_uio dst_uio
    0x800000 0x802000 5000 (new_file_inv L Hi) new_contents) as (n & f' & st' & E & Hr).
  - cbn. lia.
  - by apply uio_kernel.
  - by apply uio_kernel.
  - intros i Hir. apply (new_foreign _ _ _ _ src_in). lia.
  - intros i Hir. apply (new_foreign _ _ _ _ dst_in). lia.
  - lia.
  - lia.
  - reflexivity.
  - exact new_write_ok.
  - assert ((fun r => r.1.1) <$> ramfs_wr_regular sys0 no_pt [answer0] ramfs_st new_file 10 src_uio 5000 = Some 5000) as E2
      by (vm_compute; reflexivity).
    rewrite E in E2. cbn in E2. injection E2 as ->. destruct (Hr eq_refl) as (st'' & E' & Hb).
    exists f', st', st''. exact (conj E (conj E' Hb)).
Defined.

(** *** Deviations *)

(** The state and the file after a write. *)
Definition after_write (ans : list answer) (f : ramfs_inode) (off count : Z) : option (ramfs_inode * vms dynmem) :=
  '(_, f, st) ← ramfs_wr_regular sys0 no_pt ans ramfs_st f off src_uio count; Some (f, st).

(** A file of 10 bytes: a read of 100 bytes returns 100. *)
Lemma ramfs_read_past_eof :
  ('(f, st) ← after_write [answer0] new_file 0 10;
   '(n, _) ← ramfs_rd_regular sys0 no_pt st f 0 dst_uio 100; Some (vn_len f, n)) = Some (10, 100).
Proof. vm_compute. reflexivity. Qed.

(** A failed copy moves the seek position by almost 4 GB. *)
Lemma ramfs_write_error_seek :
  ('(r, pos, _, _) ← ramfs_write sys0 no_pt [answer0] time0 ramfs_st new_file 0 src_uio 6000; Some (r, pos)) =
    Some (- EIO, 4294967267).
Proof. vm_compute. reflexivity. Qed.

(** A write of no bytes behind the end changes the length. *)
Lemma ramfs_write_nothing :
  ('(f, _) ← after_write [answer0] new_file 100 0; Some (vn_len f)) = Some 100.
Proof. vm_compute. reflexivity. Qed.

(** One byte at offset 4096 of a file of one block: the file gets two more. *)
Definition answer1 : answer := Answer true [(6, [0]); (7, [0]); (8, [0])].
Lemma ramfs_write_extends_too_far :
  ('(f, st) ← after_write [answer0] new_file 0 4096;
   '(n, f', _) ← ramfs_wr_regular sys0 no_pt [answer1] st f 4096 src_uio 1; Some (in_blocks f, n, in_blocks f')) =
    Some (1, 1, 3).
Proof. vm_compute. reflexivity. Qed.

(** When a buffer cannot be had the block count is too large and the next access
    behind the blocks follows a NULL pointer. *)
Definition answer2 : answer := Answer true [(6, [0]); (0, []); (8, [0])].
Lemma ramfs_extend_failure :
  ('(f, st) ← after_write [answer0] new_file 0 4096;
   '(err, f', st') ← ramfs_set_filesize answer2 st f 12288;
   Some (err, in_blocks f', get_dp_by_offset st' f' 8192)) = Some (- ENOMEM, 3, None).
Proof. vm_compute. reflexivity. Qed.

(** Truncation to a size other than 0 frees nothing. *)
Lemma ramfs_truncate_nothing :
  ('(f, st) ← after_write [answer0] new_file 0 5000;
   '(err, f', _) ← ramfs_set_filesize answer0 st f 100; Some (err, in_blocks f, in_blocks f')) = Some (0, 2, 2).
Proof. vm_compute. reflexivity. Qed.

(** Lengths of 4 GB and more wrap around. *)
Lemma ramfs_len_wraps : max 0 (2 ^ 32 + 1) = 1.
Proof. reflexivity. Qed.
