(* ===== verification/Fildes.v ===== *)
(** * Open files (fs/fs.c, fs/fs_syscall.c, fs/nofs.c, proc_fork.c, proc.c)

    Vnode reference counts, open file objects ([file_t]) that count the file
    descriptors that refer to them ([Kobj]), the descriptor tables of processes, and
    the operations that create, duplicate, inherit and close descriptors.  A file
    object is named by its address, 0 is NULL.  An object that was freed with [kfree]
    is not in [mem] any more, so an access to it is [None].  The operations that a
    vnode has are the interface [VnodeOps]. *)
From S2P Require Import Prelude Priv Kobj.

(** ** Constants of fcntl.h, unistd.h, sys/stat.h, sys/priv.h, sys/mount.h, dirent.h *)

Definition F_DUPFD : Z := 0.
Definition F_DUP2FD : Z := 1.
Definition F_DUPFD_CLOEXEC : Z := 2.
Definition F_GETFD : Z := 3.
Definition F_SETFD : Z := 4.
Definition F_GETFL : Z := 5.
Definition F_SETFL : Z := 6.
Definition O_CLOEXEC : Z := 0x0001.
Definition O_DIRECTORY : Z := 0x0004.
Definition O_APPEND : Z := 0x0100.
Definition O_NONBLOCK : Z := 0x0200.
Definition O_SYNC : Z := 0x0400.
Definition O_RDONLY : Z := 0x1000.
Definition O_WRONLY : Z := 0x2000.
Definition O_ACCMODE : Z := 0x7000.
Definition O_USERMASK : Z := 0x0ffff.
Definition O_KFREEABLE : Z := 0x10000.
Definition O_EXEC_ALTPCAP : Z := 0x20000.
Definition R_OK : Z := 0x1000.
Definition W_OK : Z := 0x2000.
Definition X_OK : Z := 0x4000.
Definition S_IFIFO : Z := 0x1000.
Definition S_IFSOCK : Z := 0xC000.
Definition S_ISFIFO (m : Z) : bool := Z.land m S_IFMT =? S_IFIFO.
Definition S_ISSOCK (m : Z) : bool := Z.land m S_IFMT =? S_IFSOCK.
Definition S_IRUSR : Z := 0x100.
Definition S_IWUSR : Z := 0x80.
Definition S_IXUSR : Z := 0x40.
Definition S_IRGRP : Z := 0x20.
Definition S_IWGRP : Z := 0x10.
Definition S_IXGRP : Z := 0x8.
Definition S_IROTH : Z := 0x4.
Definition S_IWOTH : Z := 0x2.
Definition S_IXOTH : Z := 0x1.
Definition UF_SYSTEM : Z := 0x80.
Definition PRIV_VFS_ADMIN : Z := 110.
Definition MNT_NOEXEC : Z := 4.
Definition DIRENT_SEEK_START : Z := 0xFFFFFFFF.
Definition SEEK_SET : Z := 0.
Definition SEEK_CUR : Z := 1.
Definition SEEK_END : Z := 2.

Definition flag (w f : Z) : bool := negb (Z.land w f =? 0).

(** ** Data *)

(** The members of [struct vnode] and of its super block that are used here;
    [vn_lock] tells whether the lock is held. *)
Record vnode := Vnode {
  vn_refcount : Z;
  vn_mode : Z;
  vn_lock : bool;
  mode_flags : Z
}.

(** [stream] belongs to the file system; [vnode_of] is the member [vnode]. *)
Record file := File {
  seek_pos : Z;
  oflags : Z;
  vnode_of : Z;
  stream : Z;
  f_obj : kobj
}.

Record files_t := Files { count : Z; umask : Z; fd : list Z }.

Record stat := Stat { st_mode : Z; st_uid : Z; st_gid : Z; st_size : Z; st_flags : Z }.

(** [procs] has the member [files] of each process, [None] after it was released;
    [deleted] lists the calls of [delete_vnode], the last one first. *)
Record fstate := FState {
  mem : gmap Z file;
  procs : list (option files_t);
  vnodes : gmap Z vnode;
  deleted : list Z
}.

Definition set_mem (s : fstate) (m : gmap Z file) : fstate := FState m (procs s) (vnodes s) (deleted s).
Definition set_procs (s : fstate) (l : list (option files_t)) : fstate :=
  FState (mem s) l (vnodes s) (deleted s).
Definition set_vnodes (s : fstate) (m : gmap Z vnode) : fstate := FState (mem s) (procs s) m (deleted s).
Definition put_file (s : fstate) (a : Z) (f : file) : fstate := set_mem s (<[a := f]> (mem s)).

Definition set_refcount (v : vnode) (n : Z) : vnode := Vnode n (vn_mode v) (vn_lock v) (mode_flags v).
Definition set_lock (v : vnode) (b : bool) : vnode := Vnode (vn_refcount v) (vn_mode v) b (mode_flags v).
Definition set_seek (f : file) (n : Z) : file := File n (oflags f) (vnode_of f) (stream f) (f_obj f).
Definition set_oflags (f : file) (n : Z) : file := File (seek_pos f) n (vnode_of f) (stream f) (f_obj f).
Definition set_obj (f : file) (k : kobj) : file := File (seek_pos f) (oflags f) (vnode_of f) (stream f) k.

Definition files_of (s : fstate) (p : nat) : option files_t := t ← procs s !! p; t.
Definition set_files (s : fstate) (p : nat) (t : files_t) : fstate :=
  set_procs s (<[p := Some t]> (procs s)).
(** [p->files->fd[i] = a] *)
Definition set_fd (s : fstate) (p : nat) (i a : Z) : option fstate :=
  t ← files_of s p; l ← (fd t).[i <- a]; Some (set_files s p (Files (count t) (umask t) l)).

(** The functions of a [struct vnode_ops], by the vnode they are called on. *)
Class VnodeOps := {
  op_stat : Z -> Z * stat;
  op_event_vnode_opened : Z -> Z;
  op_event_fd_created : file -> file;
  op_event_fd_closed : file -> file;
  op_lseek : file -> Z -> Z -> Z * file;
  op_read : file -> Z -> Z * file;
  op_write : file -> Z -> Z * file;
  op_ioctl_gtermios : file -> Z
}.

(** What the file layer expects of them: they leave the members it owns alone. *)
Definition same_file (f g : file) : Prop :=
  vnode_of g = vnode_of f /\ f_obj g = f_obj f /\ oflags g = oflags f.
Class VnodeOpsOk `{VnodeOps} := {
  stat_error v : (op_stat v).1 <= 0;
  created_same f : same_file f (op_event_fd_created f);
  closed_same f : same_file f (op_event_fd_closed f);
  lseek_same f off w : same_file f (op_lseek f off w).2;
  read_same f n : same_file f (op_read f n).2;
  write_same f n : same_file f (op_write f n).2
}.

(** ** Vnode reference counts *)

Definition vrefcnt (s : fstate) (v : Z) : option Z := n ← vnodes s !! v; Some (vn_refcount n).
Definition vrefset (s : fstate) (v refcnt : Z) : option fstate :=
  n ← vnodes s !! v; Some (set_vnodes s (<[v := set_refcount n refcnt]> (vnodes s))).

Definition vref (s : fstate) (v : Z) : option (Z * fstate) :=
  prev ← vrefcnt s v;
  if prev <? 0 then Some (- ENOLINK, s)
  else s ← vrefset s v (s32 (prev + 1)); Some (0, s).

(** [atomic_dec] returns the value before. *)
Definition atomic_dec (s : fstate) (v : Z) : option (Z * fstate) :=
  prev ← vrefcnt s v; s ← vrefset s v (s32 (prev - 1)); Some (prev, s).
Definition delete_vnode (s : fstate) (v : Z) : fstate :=
  FState (mem s) (procs s) (vnodes s) (v :: deleted s).

Definition vrele (s : fstate) (v : Z) : option fstate :=
  if v =? 0 then Some s
  else '(prev, s) ← atomic_dec s v; Some (if prev <=? 1 then delete_vnode s v else s).

Definition vrele_nunlink (s : fstate) (v : Z) : option fstate :=
  if v =? 0 then Some s else '(_, s) ← atomic_dec s v; Some s.

(** The assertion that the vnode is locked is a panic. *)
Definition vput (s : fstate) (v : Z) : option fstate :=
  if v =? 0 then Some s
  else
    n ← vnodes s !! v;
    if negb (vn_lock n) then None
    else
      '(prev, s) ← atomic_dec s v;
      n ← vnodes s !! v;
      let s := set_vnodes s (<[v := set_lock n false]> (vnodes s)) in
      Some (if prev <=? 1 then delete_vnode s v else s).

Definition vunref (s : fstate) (v : Z) : option fstate :=
  if v =? 0 then Some s
  else
    n ← vnodes s !! v;
    if negb (vn_lock n) then None
    else '(prev, s) ← atomic_dec s v; Some (if prev <=? 1 then delete_vnode s v else s).

(** ** Permissions *)

(** One of the three tests of [chkperm]: the mode bits that would grant the access, and
    the capability. *)
Definition perm_test (su : bool) (cur c : cred) (st : stat) (member : bool) (usr grp oth priv : Z)
    : option bool :=
  let req_perm := 0 in
  let req_perm := if st_uid st =? euid cur then Z.lor req_perm usr else req_perm in
  let req_perm := if member then Z.lor req_perm grp else req_perm in
  let req_perm := Z.lor req_perm oth in
  if Z.land req_perm (st_mode st) =? 0 then Some false
  else err ← priv_check su c priv; Some (err =? 0).

(** [cur] is the credential of the current process. *)
Definition chkperm (su : bool) (cur : cred) (st : stat) (c : cred) (oflags : Z) : option Z :=
  is_grp_member ← (if st_gid st =? egid cur then Some true
                   else m ← priv_grp_is_member c (st_gid st); Some (negb (m =? 0)));
  let oflags := Z.land oflags O_ACCMODE in
  ok ← (if flag oflags R_OK
        then perm_test su cur c st is_grp_member S_IRUSR S_IRGRP S_IROTH PRIV_VFS_READ else Some true);
  if negb ok then Some (- EPERM)
  else
    ok ← (if flag oflags W_OK
          then perm_test su cur c st is_grp_member S_IWUSR S_IWGRP S_IWOTH PRIV_VFS_WRITE else Some true);
    if negb ok then Some (- EPERM)
    else
      ok ← (if flag oflags X_OK || S_ISDIR (st_mode st)
            then perm_test su cur c st is_grp_member S_IXUSR S_IXGRP S_IXOTH PRIV_VFS_EXEC else Some true);
      if negb ok then Some (- EPERM) else Some 0.

Definition chkperm_curproc (su : bool) (cur : cred) (st : stat) (oflags : Z) : option Z :=
  chkperm su cur st cur oflags.

(** ** File objects and descriptor tables *)

Section ops.
Context `{VnodeOps}.

(** [obj] is the vnode; the other argument of [chkperm_vnode] is the credential. *)
Definition chkperm_vnode (su : bool) (cur : cred) (v : Z) (c : cred) (oflags : Z) : option Z :=
  if v =? 0 then None
  else
    let '(err, st) := op_stat v in
    if negb (err =? 0) then Some err else chkperm su cur st c oflags.
Definition chkperm_vnode_curproc (su : bool) (cur : cred) (v : Z) (oflags : Z) : option Z :=
  chkperm_vnode su cur v cur oflags.

Definition fs_fildes_dtor (s : fstate) (a : Z) : option fstate :=
  f ← mem s !! a;
  let vn := vnode_of f in
  let s := if flag (oflags f) O_KFREEABLE then set_mem s (delete a (mem s)) else s in
  vrele s vn.

(** [kobj_init] gives the object one reference. *)
Definition fs_fildes_set (s : fstate) (a v oflags : Z) : option (Z * fstate) :=
  if (a =? 0) || (v =? 0) then Some (-1, s)
  else f ← mem s !! a; Some (0, put_file s a (File (seek_pos f) oflags v (stream f) kobj_init)).

(** The reference count functions of [Kobj] on a file object; the destructor runs when
    the last reference is dropped. *)
Definition file_ref (s : fstate) (a : Z) : option (Z * fstate) :=
  f ← mem s !! a;
  let '(err, k) := kobj_ref (f_obj f) in Some (err, put_file s a (set_obj f k)).
Definition file_unref (s : fstate) (a : Z) : option fstate :=
  f ← mem s !! a;
  let '(free, k) := kobj_unref (take_ref (f_obj f)) in
  let s := put_file s a (set_obj f k) in
  if free then fs_fildes_dtor s a else Some s.

Fixpoint kobj_ref_v (s : fstate) (a : Z) (n : nat) : option (Z * fstate) :=
  match n with
  | O => Some (0, s)
  | S n => '(err, s) ← file_ref s a; if negb (err =? 0) then Some (err, s) else kobj_ref_v s a n
  end.
Fixpoint kobj_unref_p (s : fstate) (a : Z) (n : nat) : option fstate :=
  match n with O => Some s | S n => s ← file_unref s a; kobj_unref_p s a n end.

Fixpoint next_loop (k : nat) (s : fstate) (p : nat) (t : files_t) (new_file i : Z)
    : option (Z * fstate) :=
  match k with
  | O => Some (- ENFILE, s)
  | S k =>
      d ← (fd t).[i];
      if d =? 0 then s ← set_fd s p i new_file; Some (i, s)
      else next_loop k s p t new_file (i + 1)
  end.
Definition fs_fildes_curproc_next (s : fstate) (p : nat) (new_file start : Z) : option (Z * fstate) :=
  t ← files_of s p;
  if new_file =? 0 then Some (- EBADF, s)
  else if count t - 1 <? start then Some (- EMFILE, s)
  else next_loop (Z.to_nat (count t - start)) s p t new_file start.

Definition fs_fildes_is_in_range (t : files_t) (i : Z) : bool := (0 <=? i) && (i <? count t).

(** Returns the file object, 0 for NULL. *)
Definition fs_fildes_ref (s : fstate) (p : nat) (i cnt : Z) : option (Z * fstate) :=
  t ← files_of s p;
  if negb (fs_fildes_is_in_range t i) then Some (0, s)
  else
    a ← (fd t).[i];
    if a =? 0 then Some (0, s)
    else
      f ← mem s !! a;
      let orig_refcount := kobj_refcnt (f_obj f) in
      if orig_refcount <=? 0 then s ← set_fd s p i 0; Some (0, s)
      else if 0 <? cnt then
        '(err, s) ← kobj_ref_v s a (Z.to_nat cnt);
        if negb (err =? 0) then s ← set_fd s p i 0; Some (0, s) else Some (a, s)
      else if cnt <? 0 then
        let cnt := min orig_refcount (- cnt) in
        s ← kobj_unref_p s a (Z.to_nat cnt);
        if cnt =? orig_refcount then s ← set_fd s p i 0; Some (0, s) else Some (a, s)
      else Some (a, s).

(** The exit of [fs_fildes_create_curproc]. *)
Definition create_out (v retval : Z) (s : fstate) : option (Z * fstate) :=
  if retval <? 0 then s ← vrele s v; Some (retval, s) else Some (retval, s).

(** Its part from the allocation of the file object on. *)
Definition create_file (s : fstate) (p : nat) (v oflags' : Z) (n : vnode) (is_dir : bool)
    (stat_buf : stat) (kzalloc : Z) : option (Z * fstate) :=
  let new_fildes := kzalloc in
  if new_fildes =? 0 then create_out v (- ENOMEM) s
  else
    let s := put_file s new_fildes
      (File (if is_dir then DIRENT_SEEK_START else 0) 0 0 0 (Kobj 0 0 0 0 0)) in
    '(i, s) ← fs_fildes_curproc_next s p new_fildes 0;
    if i <? 0 then create_out v i (set_mem s (delete new_fildes (mem s)))
    else
      t ← files_of s p;
      a ← (fd t).[i];
      '(_, s) ← fs_fildes_set s a v oflags';
      f ← mem s !! new_fildes;
      let o := Z.lor (oflags f) O_KFREEABLE in
      let o := if (Z.land (mode_flags n) MNT_NOEXEC =? 0) && negb is_dir &&
                  flag (st_flags stat_buf) UF_SYSTEM
               then Z.lor o O_EXEC_ALTPCAP else o in
      let f := op_event_fd_created (set_oflags f o) in
      create_out v i (put_file s new_fildes f).

Definition fs_fildes_create_curproc (su : bool) (cur : cred) (s : fstate) (p : nat) (v oflags' : Z)
    (kzalloc : Z) : option (Z * fstate) :=
  if v =? 0 then Some (- EINVAL, s)
  else
    '(_, s) ← vref s v;
    n ← vnodes s !! v;
    let is_dir := S_ISDIR (vn_mode n) in
    admin ← priv_check su cur PRIV_VFS_ADMIN;
    retval ← (if admin =? 0 then Some 0 else chkperm_vnode_curproc su cur v oflags');
    if negb (retval =? 0) then create_out v retval s
    else if flag oflags' O_DIRECTORY && negb is_dir then create_out v (- ENOTDIR) s
    else
      let '(retval, stat_buf) := op_stat v in
      if negb (retval =? 0) then create_out v retval s
      else
        let retval := op_event_vnode_opened v in
        if retval <? 0 then create_out v retval s
        else create_file s p v oflags' n is_dir stat_buf kzalloc.

Definition fs_fildes_close (s : fstate) (p : nat) (i : Z) : option (Z * fstate) :=
  '(a, s) ← fs_fildes_ref s p i 1;
  if a =? 0 then Some (- EBADF, s)
  else
    f ← mem s !! a;
    let s := put_file s a (op_event_fd_closed f) in
    '(_, s) ← fs_fildes_ref s p i (-2);
    s ← set_fd s p i 0;
    Some (0, s).

(** From descriptor [i] down to [fdstop + 1]. *)
Fixpoint close_down (k : nat) (s : fstate) (p : nat) (i : Z) : option fstate :=
  match k with
  | O => Some s
  | S k => '(_, s) ← fs_fildes_close s p i; close_down k s p (i - 1)
  end.
Definition fs_fildes_close_all (s : fstate) (p : nat) (fildes_begin : Z) : option fstate :=
  t ← files_of s p;
  let start := count t - 1 in
  if negb (fs_fildes_is_in_range t fildes_begin) then Some s
  else close_down (Z.to_nat (start - fildes_begin)) s p start.

Fixpoint close_exec_loop (k : nat) (s : fstate) (p : nat) (i : Z) : option fstate :=
  match k with
  | O => Some s
  | S k =>
      t ← files_of s p;
      a ← (fd t).[i];
      s ← (if a =? 0 then Some s
           else
             f ← mem s !! a;
             if flag (oflags f) O_CLOEXEC then '(_, s) ← fs_fildes_close s p i; Some s else Some s);
      close_exec_loop k s p (i + 1)
  end.
Definition fs_fildes_close_exec (s : fstate) (p : nat) : option fstate :=
  t ← files_of s p; close_exec_loop (Z.to_nat (count t)) s p 0.

Definition fs_fildes_isatty (s : fstate) (p : nat) (i : Z) : option (Z * fstate) :=
  '(a, s) ← fs_fildes_ref s p i 1;
  if a =? 0 then Some (- ENOTTY, s)
  else
    f ← mem s !! a;
    let err := op_ioctl_gtermios f in
    let err := if negb (err =? 0) then - ENOTTY else err in
    '(_, s) ← fs_fildes_ref s p i (-1);
    Some (err, s).

(** A new table of null pointers, [None] when [kzalloc] fails. *)
Definition fs_alloc_files (kzalloc_ok : bool) (nr_files umask : Z) : option files_t :=
  if kzalloc_ok then Some (Files nr_files umask (replicate (Z.to_nat nr_files) 0)) else None.

(** The loop of [proc_fork] over the descriptors of the parent [p]; [c] is the child. *)
Fixpoint fork_copy (k : nat) (s : fstate) (p c : nat) (i : Z) : option fstate :=
  match k with
  | O => Some s
  | S k =>
      t ← files_of s p;
      a ← (fd t).[i];
      s ← set_fd s c i a;
      '(_, s) ← fs_fildes_ref s c i 1;
      fork_copy k s p c (i + 1)
  end.
(** [nofile_max] is the hard limit of the parent, already replaced when negative; the
    child is the next process. *)
Definition fork_files (s : fstate) (p : nat) (nofile_max : Z) (kzalloc_ok : bool)
    : option (Z * fstate) :=
  match fs_alloc_files kzalloc_ok nofile_max nofile_max with
  | None => Some (- ENOMEM, s)
  | Some t =>
      old ← files_of s p;
      let c := length (procs s) in
      s ← fork_copy (Z.to_nat (count old)) (set_procs s (procs s ++ [Some t])) p c 0;
      Some (0, s)
  end.

(** The part of [proc_free] on files. *)
Definition free_files (s : fstate) (p : nat) : option fstate :=
  s ← fs_fildes_close_all s p 0;
  Some (set_procs s (<[p := None]> (procs s))).

(** ** System calls

    The result has the return value, [errno] when it is set, and the state; [None] for the
    arguments is a failed copy from user space. *)

Definition sysret : Type := Z * option Z * fstate.

(** [args] are the descriptor and the size, [uio_err] is what [uio_init_ubuf] returned. *)
Definition sys_readwrite (s : fstate) (p : nat) (args : option (Z * Z)) (uio_err : Z) (write : bool)
    : option sysret :=
  match args with
  | None => Some (-1, Some EFAULT, s)
  | Some (fildes, nbytes) =>
      if negb (uio_err =? 0) then Some (-1, Some EFAULT, s)
      else
        '(a, s) ← fs_fildes_ref s p fildes 1;
        if a =? 0 then Some (-1, Some EBADF, s)
        else
          f ← mem s !! a;
          let '(retval, errno, s) :=
            if negb (flag (oflags f) (if write then O_WRONLY else O_RDONLY) && negb (vnode_of f =? 0))
            then (-1, Some EBADF, s)
            else
              let '(n, f) := if write then op_write f nbytes else op_read f nbytes in
              let s := put_file s a f in
              if n <? 0 then (-1, Some (- n), s) else (n, None, s) in
          '(_, s) ← fs_fildes_ref s p fildes (-1);
          Some (retval, errno, s)
  end.
Definition sys_read s p args uio_err := sys_readwrite s p args uio_err false.
Definition sys_write s p args uio_err := sys_readwrite s p args uio_err true.

(** The offset that is copied out is the last component. *)
Definition sys_lseek (s : fstate) (p : nat) (args : option (Z * Z * Z)) : option (sysret * option Z) :=
  match args with
  | None => Some ((-1, Some EFAULT, s), None)
  | Some (i, offset, whence) =>
      '(a, s) ← fs_fildes_ref s p i 1;
      if a =? 0 then Some ((-1, Some EBADF, s), None)
      else
        f ← mem s !! a;
        vn ← vnodes s !! vnode_of f;
        '(retval, errno, s) ←
          (if S_ISFIFO (vn_mode vn) || S_ISSOCK (vn_mode vn) then
             '(_, s) ← fs_fildes_ref s p i (-1); Some (-1, Some ESPIPE, s)
           else
             let '(new_offset, f) := op_lseek f offset whence in
             let s := put_file s a f in
             Some (if new_offset <? 0 then (-1, Some (s32 (- new_offset)), s) else (0, None, s)));
        f ← mem s !! a;
        let res := seek_pos f in
        '(_, s) ← fs_fildes_ref s p i (-1);
        Some ((retval, errno, s), Some res)
  end.

Definition sys_close (s : fstate) (p : nat) (i : Z) : option sysret :=
  '(err, s) ← fs_fildes_close s p i;
  Some (if negb (err =? 0) then (-1, Some (- err), s) else (0, None, s)).
Definition sys_close_all (s : fstate) (p : nat) (i : Z) : option sysret :=
  s ← fs_fildes_close_all s p i; Some (0, None, s).

(** The case [F_DUPFD]: the new descriptor takes a reference. *)
Definition dupfd (s : fstate) (p : nat) (a start : Z) : option sysret :=
  '(new_fd, s) ← fs_fildes_curproc_next s p a start;
  if new_fd <? 0 then Some (-1, Some (- new_fd), s)
  else '(_, s) ← fs_fildes_ref s p new_fd 1; Some (new_fd, None, s).

(** The case [F_DUP2FD]. *)
Definition dup2fd (s : fstate) (p : nat) (a i new_fd : Z) : option sysret :=
  if i =? new_fd then Some (new_fd, None, s)
  else
    '(err, s) ← fs_fildes_close s p new_fd;
    if negb (err =? 0) && negb (err =? - EBADF) then Some (-1, Some EIO, s)
    else
      '(fd2, s) ← fs_fildes_curproc_next s p a new_fd;
      if fd2 <? 0 then Some (-1, Some (- fd2), s)
      else
        '(r, s) ← (if negb (fd2 =? new_fd) then Some (0, s) else fs_fildes_ref s p fd2 1);
        if r =? 0 then '(_, s) ← fs_fildes_close s p fd2; Some (-1, Some EIO, s)
        else Some (fd2, None, s).

Definition set_file_flags (s : fstate) (a : Z) (o : Z -> Z) : option fstate :=
  f ← mem s !! a; Some (put_file s a (set_oflags f (o (oflags f)))).

(** The switch of [sys_fcntl]; [a] is the file of the descriptor [i]. *)
Definition fcntl_cmd (s : fstate) (p : nat) (a i cmd ival : Z) : option sysret :=
  if cmd =? F_DUPFD_CLOEXEC then
    s ← set_file_flags s a (fun o => Z.lor o (Z.land O_CLOEXEC O_USERMASK)); dupfd s p a ival
  else if cmd =? F_DUPFD then dupfd s p a ival
  else if cmd =? F_DUP2FD then dup2fd s p a i ival
  else if cmd =? F_GETFD then f ← mem s !! a; Some (Z.land (oflags f) O_CLOEXEC, None, s)
  else if cmd =? F_SETFD then
    s ← set_file_flags s a (fun o => Z.lor (Z.land o (Z.lnot O_CLOEXEC)) (Z.land ival O_CLOEXEC));
    Some (-1, None, s)
  else if cmd =? F_GETFL then f ← mem s !! a; Some (Z.land (oflags f) O_USERMASK, None, s)
  else if cmd =? F_SETFL then
    let fl := Z.lor (Z.lor O_APPEND O_SYNC) O_NONBLOCK in
    s ← set_file_flags s a (fun o => Z.lor (Z.land o (Z.lnot fl)) (Z.land ival fl));
    Some (0, None, s)
  else Some (-1, Some EINVAL, s).

Definition sys_fcntl (s : fstate) (p : nat) (args : option (Z * Z * Z)) : option sysret :=
  match args with
  | None => Some (-1, Some EFAULT, s)
  | Some (i, cmd, ival) =>
      '(a, s) ← fs_fildes_ref s p i 1;
      if a =? 0 then Some (-1, Some EBADF, s)
      else
        '(retval, errno, s) ← fcntl_cmd s p a i cmd ival;
        '(_, s) ← fs_fildes_ref s p i (-1);
        Some (retval, errno, s)
  end.
End ops.

(** ** The default operations (fs/nofs.c) *)

(** [st] is the result of the operation [stat] of the vnode. *)
Definition fs_enotsup_lseek (st : Z * stat) (f : file) (offset whence : Z) : Z * file :=
  if whence =? SEEK_SET then (offset, set_seek f offset)
  else if whence =? SEEK_CUR then let o := s64 (seek_pos f + offset) in (o, set_seek f o)
  else if whence =? SEEK_END then
    if negb (st.1 =? 0) then (- EBADF, f)
    else
      let new_offset := s64 (st_size st.2 + offset) in
      if st_size st.2 <=? new_offset then (new_offset, set_seek f new_offset) else (- EOVERFLOW, f)
  else (- EINVAL, f).
Definition fs_enotsup_read (f : file) (count : Z) : Z * file := (- ENOTSUP, f).
Definition fs_enotsup_write (f : file) (count : Z) : Z * file := (- ENOTSUP, f).
Definition fs_enotsup_ioctl (f : file) : Z := - ENOTTY.
Definition fs_enotsup_event_vnode_opened (v : Z) : Z := 0.
Definition fs_enotsup_event_fd_created (f : file) : file := f.
Definition fs_enotsup_event_fd_closed (f : file) : file := f.

(** A file system that inherits everything but [stat]. *)
Definition nofs_ops (st : Z -> Z * stat) : VnodeOps := {|
  op_stat := st;
  op_event_vnode_opened := fs_enotsup_event_vnode_opened;
  op_event_fd_created := fs_enotsup_event_fd_created;
  op_event_fd_closed := fs_enotsup_event_fd_closed;
  op_lseek f := fs_enotsup_lseek (st (vnode_of f)) f;
  op_read := fs_enotsup_read;
  op_write := fs_enotsup_write;
  op_ioctl_gtermios := fs_enotsup_ioctl
|}.

Lemma nofs_ok st : (forall v, (st v).1 <= 0) -> @VnodeOpsOk (nofs_ops st).
Proof.
  intros Hst. split; intros; first [apply Hst|done|cbn; unfold fs_enotsup_lseek].
  repeat (case_match; try done).
Qed.

(** ** References and the invariant *)

(** Descriptors that refer to the file object [a]. *)
Definition ind (a d : Z) : Z := if (d =? a) && negb (d =? 0) then 1 else 0.
Definition table_refs (a : Z) (o : option files_t) : Z :=
  match o with Some t => zsum (ind a) (fd t) | None => 0 end.
Definition slots (s : fstate) (a : Z) : Z := zsum (table_refs a) (procs s).

Definition alive (f : file) : Prop := 0 < ko_refcount (f_obj f).
#[global] Instance alive_dec f : Decision (alive f).
Proof. unfold alive. apply _. Defined.

(** Open files of a vnode. *)
Definition uses (v : Z) (f : file) : Z := if decide (vnode_of f = v /\ alive f) then 1 else 0.
Definition users (m : gmap Z file) (v : Z) : Z :=
  Z.of_nat (size (filter (fun x : Z * file => vnode_of x.2 = v /\ alive x.2) m)).

(** [R] counts the references to each file object, [vo] those to a vnode that are not
    from open files.  An object that is not alive is about to be freed, or static. *)
Record obj_inv (s : fstate) (R vo : Z -> Z) : Prop := {
  oi_file a f : mem s !! a = Some f ->
    (alive f /\ ko_refcount (f_obj f) = R a /\ ko_flags (f_obj f) = 0 /\ vnode_of f <> 0 /\
     is_Some (vnodes s !! vnode_of f)) \/
    (~ alive f /\ R a = 0);
  oi_live a : R a <> 0 -> is_Some (mem s !! a);
  oi_vnode v n : vnodes s !! v = Some n -> vn_refcount n = users (mem s) v + vo v /\ vn_refcount n < 2 ^ 31;
  oi_other v : 0 <= vo v
}.

Definition table_wf (o : option files_t) : Prop :=
  match o with Some t => count t = Z.of_nat (length (fd t)) | None => True end.
Definition fds_total (s : fstate) : Z :=
  zsum (fun o => match o with Some t => count t | None => 0 end) (procs s).

(** Every reference is a descriptor, but for [extra] ones: those that a running
    operation holds and those that ended processes left behind.  [B] bounds them. *)
Record fd_inv (B : Z) (s : fstate) (extra vo : Z -> Z) : Prop := {
  fi_wf p o : procs s !! p = Some o -> table_wf o;
  fi_total a : fds_total s + extra a < B;
  fi_extra a : 0 <= extra a;
  fi_obj : obj_inv s (fun a => slots s a + extra a) vo
}.

Definition add (R : Z -> Z) (a n : Z) : Z -> Z := fun x => R x + (if x =? a then n else 0).

Lemma users_delete m a v : users (delete a m) v = users m v - from_option (uses v) 0 (m !! a).
Proof.
  unfold users, uses. rewrite map_filter_delete, map_size_delete.
  set (F := filter _ m) in *.
  destruct (m !! a) as [g|] eqn:Hg; cbn [from_option].
  - destruct (decide (vnode_of g = v /\ alive g)).
    + assert (F !! a = Some g) as HF by (apply map_lookup_filter_Some; done).
      rewrite HF. assert (size F <> 0)%nat; [|lia].
      intros H0%map_size_empty_inv. rewrite H0 in HF. by rewrite lookup_empty in HF.
    + assert (F !! a = None) as ->; [|unfold id; lia].
      apply map_lookup_filter_None. right. intros x Hx. by simplify_eq.
  - assert (F !! a = None) as -> by (apply map_lookup_filter_None; by left). unfold id; lia.
Qed.

Lemma users_insert m a f v :
  users (<[a := f]> m) v = users m v - from_option (uses v) 0 (m !! a) + uses v f.
Proof.
  rewrite <- users_delete, <- (insert_delete_eq m).
  assert (delete a m !! a = None) as Hnone by apply lookup_delete_eq.
  unfold users at 1, uses. case_decide.
  - rewrite map_filter_insert_True, map_size_insert_None by
      (try apply map_lookup_filter_None; auto). unfold users. lia.
  - rewrite map_filter_insert_False by done. rewrite delete_id by done. unfold users. lia.
Qed.

Lemma users_nonneg m v : 0 <= users m v.
Proof. unfold users. lia. Qed.
Lemma users_pos m v a f : m !! a = Some f -> vnode_of f = v -> alive f -> 0 < users m v.
Proof.
  intros Hf Hv Ha. pose proof (users_delete m a v) as H. rewrite Hf in H. cbn in H.
  unfold uses in H. rewrite decide_True in H by done. pose proof (users_nonneg (delete a m) v). lia.
Qed.

Lemma add_eq R a n : add R a n a = R a + n.
Proof. unfold add. by rewrite Z.eqb_refl. Qed.
Lemma add_ne R a n b : b <> a -> add R a n b = R b.
Proof. intros. unfold add. zcase; lia. Qed.

Lemma obj_inv_ext s R R' vo : (forall a, R a = R' a) -> obj_inv s R vo -> obj_inv s R' vo.
Proof.
  intros He [H1 H2 H3 H4]. split; auto.
  - intros a f Hf. rewrite <- He. eauto.
  - intros a Ha. apply H2. by rewrite He.
Qed.

Lemma obj_alive s R vo a : obj_inv s R vo -> R a <> 0 ->
  exists f, mem s !! a = Some f /\ alive f /\ ko_refcount (f_obj f) = R a /\
    ko_flags (f_obj f) = 0 /\ vnode_of f <> 0 /\ is_Some (vnodes s !! vnode_of f).
Proof.
  intros Hinv Ha. destruct (oi_live _ _ _ Hinv a Ha) as [f Hf]. exists f. split; [done|].
  destruct (oi_file _ _ _ Hinv a f Hf) as [?|[_ ?]]; [done|lia].
Qed.

Lemma obj_nonneg s R vo a : obj_inv s R vo -> 0 <= R a.
Proof.
  intros Hinv. destruct (decide (R a = 0)) as [->|Ha]; [done|].
  destruct (obj_alive _ _ _ _ Hinv Ha) as (f & _ & Hal & Hr & _). unfold alive in Hal. lia.
Qed.

(** An object stays alive under a new reference count, and with other members. *)
Lemma obj_put s R R' vo a f g : obj_inv s R vo -> mem s !! a = Some f -> alive f ->
  alive g -> vnode_of g = vnode_of f -> ko_flags (f_obj g) = 0 -> ko_refcount (f_obj g) = R' a ->
  (forall b, b <> a -> R' b = R b) -> obj_inv (put_file s a g) R' vo.
Proof.
  intros Hinv Hf Haf Hag Hv Hfl Hr HR.
  assert (vnode_of f <> 0 /\ is_Some (vnodes s !! vnode_of f)) as [Hv0 Hvs]
    by (destruct (oi_file _ _ _ Hinv a f Hf) as [?|[? ?]]; tauto).
  split; cbn [put_file set_mem mem vnodes].
  - intros b h. destruct (decide (b = a)) as [->|Hb].
    + rewrite lookup_insert_eq. intros [= <-]. left. by rewrite Hv.
    + rewrite lookup_insert_ne by done. rewrite HR by done. apply (oi_file _ _ _ Hinv).
  - intros b Hb. destruct (decide (b = a)) as [->|Hb'].
    + by rewrite lookup_insert_eq.
    + rewrite lookup_insert_ne by done. rewrite HR in Hb by done. by apply (oi_live _ _ _ Hinv).
  - intros v n Hn. rewrite users_insert, Hf. cbn [from_option].
    destruct (oi_vnode _ _ _ Hinv v n Hn). unfold uses. rewrite Hv.
    repeat case_decide; try tauto; lia.
  - apply (oi_other _ _ _ Hinv).
Qed.

Lemma file_ref_spec s R vo a f : obj_inv s R vo -> mem s !! a = Some f -> 0 < R a < 2 ^ 31 - 1 ->
  exists k, file_ref s a = Some (0, put_file s a (set_obj f k)) /\
    obj_inv (put_file s a (set_obj f k)) (add R a 1) vo.
Proof.
  intros Hinv Hf Ha.
  destruct (obj_alive _ _ _ a Hinv) as (f' & Hf' & Hal & Hr & Hfl & _); [lia|]. simplify_eq.
  unfold file_ref. rewrite Hf. mstep. unfold kobj_ref, kobj_ref_body. rewrite Hr, Hfl. cbn [negb].
  zcase; [lia|]. rewrite Z.land_0_l, Z.eqb_refl. cbn [negb]. rewrite s32_small by lia.
  eexists. split; [done|]. eapply obj_put; try done; cbn; unfold alive; cbn; try lia.
  - by rewrite add_eq.
  - intros. by apply add_ne.
Qed.

(** The object and its reference to the vnode are gone. *)
Definition released (s s' : fstate) (a : Z) (f : file) : Prop :=
  (if flag (oflags f) O_KFREEABLE then mem s' !! a = None
   else exists g, mem s' !! a = Some g /\ vnode_of g = vnode_of f /\ oflags g = oflags f) /\
  exists n, vnodes s !! vnode_of f = Some n /\
    vnodes s' = <[vnode_of f := set_refcount n (vn_refcount n - 1)]> (vnodes s) /\
    deleted s' = (if vn_refcount n <=? 1 then vnode_of f :: deleted s else deleted s).

(** What dropping [n] of [r] references to [a] does. *)
Definition unref_effect (s s' : fstate) (a : Z) (f : file) (n r : Z) : Prop :=
  procs s' = procs s /\ (forall b, b <> a -> mem s' !! b = mem s !! b) /\
  (n < r -> vnodes s' = vnodes s /\ deleted s' = deleted s /\ exists k, mem s' !! a = Some (set_obj f k)) /\
  (n = r -> released s s' a f).

Lemma file_unref_alive s R vo a f : obj_inv s R vo -> mem s !! a = Some f -> 1 < R a < 2 ^ 31 ->
  exists k, file_unref s a = Some (put_file s a (set_obj f k)) /\
    obj_inv (put_file s a (set_obj f k)) (add R a (-1)) vo.
Proof.
  intros Hinv Hf Ha.
  destruct (obj_alive _ _ _ a Hinv) as (f' & Hf' & Hal & Hr & Hfl & _); [lia|]. simplify_eq.
  unfold file_unref. rewrite Hf. mstep. unfold kobj_unref, kobj_unref_body, take_ref.
  cbn [ko_refcount]. rewrite Hr. zcase; [lia|]. zcase; [lia|]. cbn [negb].
  rewrite s32_small by lia. eexists. split; [done|].
  eapply obj_put; try done; cbn; unfold alive; cbn; try lia.
  - rewrite add_eq. lia.
  - intros. by apply add_ne.
Qed.

Lemma obj_gone s s' R vo a f n : obj_inv s R vo -> mem s !! a = Some f -> R a = 1 ->
  vnodes s !! vnode_of f = Some n ->
  (forall b, b <> a -> mem s' !! b = mem s !! b) ->
  (forall g, mem s' !! a = Some g -> ~ alive g) ->
  (forall v, users (mem s') v = users (mem s) v - uses v f) ->
  vnodes s' = <[vnode_of f := set_refcount n (vn_refcount n - 1)]> (vnodes s) ->
  obj_inv s' (add R a (-1)) vo.
Proof.
  intros Hinv Hf Ha Hn Hb Hg Hu Hv. split.
  - intros b h Hh. destruct (decide (b = a)) as [->|Hba].
    + right. rewrite add_eq. split; [by apply Hg|lia].
    + rewrite add_ne by done. rewrite Hb in Hh by done. rewrite Hv.
      destruct (oi_file _ _ _ Hinv b h Hh) as [(? & ? & ? & ? & ?)|?]; [left|by right].
      split_and!; try done. destruct (decide (vnode_of h = vnode_of f)) as [->|].
      * by rewrite lookup_insert_eq.
      * by rewrite lookup_insert_ne by done.
  - intros b Hb'. destruct (decide (b = a)) as [->|Hba].
    + rewrite add_eq in Hb'. lia.
    + rewrite add_ne in Hb' by done. rewrite Hb by done. by apply (oi_live _ _ _ Hinv).
  - intros v m. rewrite Hv, Hu. destruct (oi_vnode _ _ _ Hinv _ _ Hn).
    destruct (obj_alive _ _ _ a Hinv) as (f' & Hf' & Hal & _); [lia|]. simplify_eq.
    unfold uses. destruct (decide (v = vnode_of f)) as [->|Hvf].
    + rewrite lookup_insert_eq. intros [= <-]. cbn. rewrite decide_True by done. lia.
    + rewrite lookup_insert_ne by done. intros Hm. destruct (oi_vnode _ _ _ Hinv _ _ Hm).
      rewrite decide_False by (intros [? ?]; congruence). lia.
  - apply (oi_other _ _ _ Hinv).
Qed.

Lemma vrele_spec s v n : v <> 0 -> vnodes s !! v = Some n -> - 2 ^ 31 < vn_refcount n < 2 ^ 31 ->
  vrele s v = Some (FState (mem s) (procs s) (<[v := set_refcount n (vn_refcount n - 1)]> (vnodes s))
    (if vn_refcount n <=? 1 then v :: deleted s else deleted s)).
Proof.
  intros Hv Hn Hr. unfold vrele, atomic_dec, vrefcnt, vrefset. rewrite (proj2 (Z.eqb_neq v 0)) by done.
  repeat (rewrite Hn; mstep). rewrite s32_small by lia. by destruct (_ <=? 1).
Qed.

Lemma file_unref_last s R vo a f : obj_inv s R vo -> mem s !! a = Some f -> R a = 1 ->
  exists s', file_unref s a = Some s' /\ obj_inv s' (add R a (-1)) vo /\ procs s' = procs s /\
    (forall b, b <> a -> mem s' !! b = mem s !! b) /\ released s s' a f.
Proof.
  intros Hinv Hf Ha.
  destruct (obj_alive _ _ _ a Hinv) as (f' & Hf' & Hal & Hr & Hfl & Hv0 & [n Hn]); [lia|]. simplify_eq.
  destruct (oi_vnode _ _ _ Hinv _ _ Hn) as [Hrn Hlt]. pose proof (oi_other _ _ _ Hinv (vnode_of f)).
  pose proof (users_pos (mem s) _ a f Hf eq_refl Hal).
  unfold file_unref. rewrite Hf. mstep. unfold kobj_unref, kobj_unref_body, take_ref.
  cbn [ko_refcount]. rewrite Hr, Ha. cbn [Z.leb Z.eqb Pos.eqb Z.compare Pos.compare Pos.compare_cont negb].
  unfold fs_fildes_dtor. cbn [mem put_file set_mem]. rewrite lookup_insert_eq. mstep.
  cbn [oflags set_obj vnode_of].
  set (g := set_obj f _). set (s1 := if flag _ _ then _ else _).
  assert (mem s1 = if flag (oflags f) O_KFREEABLE then delete a (mem s) else <[a := g]> (mem s)) as Hm1.
  { subst s1. destruct (flag _ _); [|done]. cbn. by rewrite delete_insert_eq. }
  assert (vnodes s1 = vnodes s /\ deleted s1 = deleted s /\ procs s1 = procs s) as (Hv1 & Hd1 & Hp1)
    by (subst s1; destruct (flag _ _); done).
  assert (~ alive g) as Hg by (subst g; unfold alive; cbn; lia).
  rewrite (vrele_spec s1 (vnode_of f) n); [|done|by rewrite Hv1|lia].
  eexists. split; [done|].
  assert (forall b, b <> a -> mem s1 !! b = mem s !! b) as Hb.
  { intros b Hb. rewrite Hm1. destruct (flag _ _).
    - by rewrite lookup_delete_ne.
    - by rewrite lookup_insert_ne. }
  split_and!; cbn [mem procs]; try done.
  - eapply obj_gone; try done; cbn [mem vnodes].
    + intros h. rewrite Hm1. destruct (flag _ _).
      * by rewrite lookup_delete_eq.
      * rewrite lookup_insert_eq. by intros [= <-].
    + intros v. rewrite Hm1. destruct (flag _ _).
      * rewrite users_delete, Hf. done.
      * rewrite users_insert, Hf. cbn [from_option]. unfold uses at 2.
        rewrite decide_False by tauto. lia.
    + by rewrite Hv1.
  - split; cbn [mem vnodes deleted].
    + rewrite Hm1. destruct (flag _ _); [apply lookup_delete_eq|].
      exists g. by rewrite lookup_insert_eq.
    + exists n. by rewrite Hv1, Hd1.
Qed.

Lemma unref_p_spec n : forall s R vo a f, obj_inv s R vo -> mem s !! a = Some f ->
  0 < Z.of_nat n <= R a -> R a < 2 ^ 31 ->
  exists s', kobj_unref_p s a n = Some s' /\ obj_inv s' (add R a (- Z.of_nat n)) vo /\
    unref_effect s s' a f (Z.of_nat n) (R a).
Proof.
  induction n as [|n IH]; intros s R vo a f Hinv Hf Hn Hlt; [lia|]. cbn [kobj_unref_p].
  destruct (decide (R a = 1)) as [H1|H1].
  - assert (n = 0%nat) as -> by lia.
    destruct (file_unref_last _ _ _ _ _ Hinv Hf H1) as (s' & -> & Hi & ? & ? & Hr). mstep.
    exists s'. split; [done|]. split; [done|]. split_and!; try done. lia.
  - destruct (file_unref_alive _ _ _ _ _ Hinv Hf) as (k & -> & Hi); [lia|]. mstep.
    assert (forall b, b <> a -> mem (put_file s a (set_obj f k)) !! b = mem s !! b) as Hb
      by (intros; cbn; by rewrite lookup_insert_ne).
    assert (mem (put_file s a (set_obj f k)) !! a = Some (set_obj f k)) as Hfk
      by apply lookup_insert_eq.
    destruct (decide (n = 0%nat)) as [->|Hn0].
    + eexists. split; [done|]. split; [done|]. split_and!; [done|done| |lia].
      intros _. split_and!; [done|done|]. by exists k.
    + assert (0 < Z.of_nat n <= add R a (-1) a /\ add R a (-1) a < 2 ^ 31) as [Hn1 Hn2]
        by (rewrite add_eq; lia).
      destruct (IH _ _ vo a _ Hi Hfk Hn1 Hn2) as (s' & Hs' & Hi' & Hp & Hm & Hlive & Hdead).
      exists s'. split; [done|]. split; [|split_and!].
      * revert Hi'. apply obj_inv_ext. intros b. unfold add. zcase; lia.
      * done.
      * intros b Hne. by rewrite Hm, Hb.
      * intros Hlt'. rewrite add_eq in Hlive. destruct Hlive as (? & ? & k' & Hk'); [lia|].
        split_and!; try done. by exists k'.
      * intros He. rewrite add_eq in Hdead. apply Hdead. lia.
Qed.

(** ** Descriptors *)

Lemma ind_range a d : 0 <= ind a d <= 1.
Proof. unfold ind. destruct (_ && _); lia. Qed.
Lemma ind_self a : a <> 0 -> ind a a = 1.
Proof. intros. unfold ind. rewrite Z.eqb_refl. by zcase. Qed.
Lemma ind_zero a : ind a 0 = 0.
Proof. unfold ind. rewrite andb_false_r. done. Qed.

(** The state after [p->files->fd[i] = a]. *)
Definition with_fd (s : fstate) (p : nat) (t : files_t) (i a : Z) : fstate :=
  set_files s p (Files (count t) (umask t) (<[Z.to_nat i := a]> (fd t))).

Lemma set_fd_spec s p t i old a : files_of s p = Some t -> (fd t).[i] = Some old ->
  set_fd s p i a = Some (with_fd s p t i a).
Proof.
  intros Ht Hi. unfold set_fd. rewrite Ht. mstep.
  rewrite (wr_Some _ _ _ (rd_Some_lt _ _ _ Hi)). done.
Qed.

Lemma files_of_procs s p t : files_of s p = Some t -> procs s !! p = Some (Some t).
Proof. unfold files_of. by destruct (procs s !! p) as [[]|]; intros; simplify_eq/=. Qed.

Lemma slots_set s p t t' a : files_of s p = Some t ->
  slots (set_files s p t') a = slots s a - zsum (ind a) (fd t) + zsum (ind a) (fd t').
Proof.
  intros Ht%files_of_procs. unfold slots. cbn [procs set_files set_procs].
  by rewrite (zsum_insert _ _ _ _ _ Ht).
Qed.

Lemma zsum_fd t i old a b : (fd t).[i] = Some old ->
  zsum (ind b) (<[Z.to_nat i := a]> (fd t)) = zsum (ind b) (fd t) - ind b old + ind b a.
Proof.
  intros Hi. apply zsum_insert. pose proof (rd_Some_lt _ _ _ Hi).
  unfold rd in Hi. destruct (i <? 0) eqn:E; [lia|]. done.
Qed.

Lemma slots_with_fd s p t i old a b : files_of s p = Some t -> (fd t).[i] = Some old ->
  slots (with_fd s p t i a) b = slots s b - ind b old + ind b a.
Proof.
  intros Ht Hi. unfold with_fd. rewrite (slots_set _ _ _ _ _ Ht). cbn [fd].
  rewrite (zsum_fd _ _ _ _ _ Hi). lia.
Qed.

Lemma table_refs_nonneg a o : 0 <= table_refs a o.
Proof.
  destruct o; cbn; [|lia]. apply zsum_nonneg. intros x _. apply ind_range.
Qed.
Lemma slots_pos s p t i a : files_of s p = Some t -> (fd t).[i] = Some a -> a <> 0 -> 0 < slots s a.
Proof.
  intros Ht Hi Ha. pose proof (slots_with_fd s p t i a 0 a Ht Hi) as H.
  rewrite ind_zero, ind_self in H by done.
  enough (0 <= slots (with_fd s p t i 0) a) by lia.
  apply zsum_nonneg. intros. apply table_refs_nonneg.
Qed.
Lemma slots_nonneg s a : 0 <= slots s a.
Proof. apply zsum_nonneg. intros. apply table_refs_nonneg. Qed.

Lemma slots_bound B s extra vo a : fd_inv B s extra vo -> 0 <= slots s a + extra a < B.
Proof.
  intros Hinv. pose proof (slots_nonneg s a). pose proof (fi_extra _ _ _ _ Hinv a).
  split; [lia|]. eapply Z.le_lt_trans; [|apply (fi_total _ _ _ _ Hinv a)].
  enough (slots s a <= fds_total s) by lia. apply zsum_le.
  intros o [p Hp]%list_elem_of_lookup. pose proof (fi_wf _ _ _ _ Hinv p o Hp) as Ho.
  destruct o as [t|]; cbn in *; [|lia]. rewrite Ho.
  enough (zsum (ind a) (fd t) <= zsum (fun _ => 1) (fd t)) as Hle.
  { rewrite (zsum_const (fun _ => 1) (fd t) 1) in Hle by done. lia. }
  apply zsum_le. intros x _. apply ind_range.
Qed.

Lemma in_range_iff t i : table_wf (Some t) ->
  fs_fildes_is_in_range t i = true <-> 0 <= i < Z.of_nat (length (fd t)).
Proof. cbn. unfold fs_fildes_is_in_range. rewrite andb_true_iff. lia. Qed.

(** The entry of a descriptor, 0 when there is none. *)
Definition entry (t : files_t) (i : Z) : Z := from_option id 0 (fd t).[i].

Lemma entry_open t i : entry t i <> 0 -> (fd t).[i] = Some (entry t i).
Proof. unfold entry. by destruct (fd t).[i]. Qed.
Lemma entry_in_range t i : entry t i <> 0 -> table_wf (Some t) -> fs_fildes_is_in_range t i = true.
Proof. intros Hi Hwf. apply in_range_iff; [done|]. eauto using rd_Some_lt, entry_open. Qed.

Lemma rd_is_None {A} (l : list A) i : i < 0 \/ Z.of_nat (length l) <= i -> l.[i] = None.
Proof. intros [?|?]; [|by apply rd_None]. unfold rd. by rewrite (proj2 (Z.ltb_lt i 0)). Qed.

Lemma ref_none s p t i c : files_of s p = Some t -> table_wf (Some t) -> entry t i = 0 ->
  fs_fildes_ref s p i c = Some (0, s).
Proof.
  intros Ht Hwf Hi. unfold fs_fildes_ref. rewrite Ht. mstep.
  destruct (fs_fildes_is_in_range t i) eqn:E; cbn [negb]; [|done].
  apply in_range_iff in E; [|done]. destruct (rd_is_Some _ _ E) as [a Ha].
  unfold entry in Hi. rewrite Ha in Hi |- *. cbn in Hi. mstep. by subst.
Qed.

Lemma ref_take s R vo p t i f : obj_inv s R vo -> files_of s p = Some t -> table_wf (Some t) ->
  entry t i <> 0 -> mem s !! entry t i = Some f -> 0 < R (entry t i) < 2 ^ 31 - 1 ->
  exists k, let s' := put_file s (entry t i) (set_obj f k) in
    fs_fildes_ref s p i 1 = Some (entry t i, s') /\ obj_inv s' (add R (entry t i) 1) vo.
Proof.
  intros Hinv Ht Hwf Hi Hf HR. destruct (file_ref_spec _ _ _ _ _ Hinv Hf HR) as (k & Hr & Hi').
  exists k. split; [|done]. unfold fs_fildes_ref. rewrite Ht. mstep.
  rewrite (entry_in_range t i), (entry_open t i) by done. cbn [negb]. mstep.
  destruct (obj_alive _ _ _ (entry t i) Hinv) as (f' & Hf' & Hal & Hk & _); [lia|]. simplify_eq.
  rewrite (proj2 (Z.eqb_neq _ 0)), Hf by done. mstep. unfold kobj_refcnt. rewrite Hk.
  rewrite (proj2 (Z.leb_gt _ 0)) by lia. rewrite (proj2 (Z.ltb_lt 0 1)) by lia.
  change (Z.to_nat 1) with 1%nat. cbn [kobj_ref_v]. rewrite Hr. mstep. done.
Qed.

(** Dropping references: the entry is reset when no reference is left. *)
Lemma ref_drop s R vo p t i f n : obj_inv s R vo -> files_of s p = Some t -> table_wf (Some t) ->
  entry t i <> 0 -> mem s !! entry t i = Some f -> 0 < n <= R (entry t i) -> R (entry t i) < 2 ^ 31 ->
  exists s1, obj_inv s1 (add R (entry t i) (- n)) vo /\
    unref_effect s s1 (entry t i) f n (R (entry t i)) /\
    fs_fildes_ref s p i (- n) =
      Some (if n =? R (entry t i) then (0, with_fd s1 p t i 0) else (entry t i, s1)).
Proof.
  intros Hinv Ht Hwf Hi Hf Hn HR.
  assert (0 < Z.of_nat (Z.to_nat n) <= R (entry t i)) as Hn' by lia.
  destruct (unref_p_spec _ _ _ _ _ _ Hinv Hf Hn' HR) as (s1 & Hs1 & Hi1 & He).
  rewrite Z2Nat.id in Hi1, He by lia. exists s1. split; [done|]. split; [done|].
  unfold fs_fildes_ref. rewrite Ht. mstep.
  rewrite (entry_in_range t i), (entry_open t i) by done. cbn [negb]. mstep.
  destruct (obj_alive _ _ _ (entry t i) Hinv) as (f' & Hf' & Hal & Hk & _); [lia|]. simplify_eq.
  rewrite (proj2 (Z.eqb_neq _ 0)), Hf by done. mstep. unfold kobj_refcnt. rewrite Hk.
  rewrite (proj2 (Z.leb_gt _ 0)), (proj2 (Z.ltb_ge 0 (- n))), (proj2 (Z.ltb_lt (- n) 0)) by lia.
  rewrite min_small, Z.opp_involutive, Z.min_r by lia. rewrite Hs1. mstep.
  zcase; [|done].
  assert (files_of s1 p = Some t) as Ht1 by (unfold files_of; by rewrite (proj1 He)).
  rewrite (set_fd_spec s1 p t i (entry t i)) by (first [done|by apply entry_open]). done.
Qed.

(** ** Operations *)

Lemma obj_inv_procs s s' R vo : mem s' = mem s -> vnodes s' = vnodes s -> obj_inv s R vo -> obj_inv s' R vo.
Proof. intros Hm Hv [? ? ? ?]. by split; rewrite ?Hm, ?Hv. Qed.

Lemma files_wf B s extra vo p t : fd_inv B s extra vo -> files_of s p = Some t -> table_wf (Some t).
Proof. intros Hinv Ht%files_of_procs. by apply (fi_wf _ _ _ _ Hinv p). Qed.

(** Only the table of one process changes, and its size stays. *)
Lemma fd_inv_table B s s1 extra vo p t l R : fd_inv B s extra vo -> files_of s p = Some t ->
  procs s1 = <[p := Some (Files (count t) (umask t) l)]> (procs s) -> length l = length (fd t) ->
  obj_inv s1 R vo ->
  (forall a, R a = slots s a + extra a - zsum (ind a) (fd t) + zsum (ind a) l) ->
  fd_inv B s1 extra vo.
Proof.
  intros Hinv Ht Hp Hl Ho HR. pose proof (files_of_procs _ _ _ Ht) as Hpt.
  pose proof (files_wf _ _ _ _ _ _ Hinv Ht) as Hwf. cbn in Hwf. split.
  - intros q o. rewrite Hp. destruct (decide (q = p)) as [->|].
    + rewrite list_lookup_insert_eq by eauto using lookup_lt_Some. intros [= <-]. cbn. lia.
    + rewrite list_lookup_insert_ne by done. apply (fi_wf _ _ _ _ Hinv).
  - intros a. unfold fds_total. rewrite Hp, (zsum_insert _ _ _ _ _ Hpt). cbn [count].
    pose proof (fi_total _ _ _ _ Hinv a) as H. unfold fds_total in H. lia.
  - apply (fi_extra _ _ _ _ Hinv).
  - eapply obj_inv_ext; [|exact Ho]. intros a. rewrite HR.
    unfold slots. rewrite Hp, (zsum_insert _ _ _ _ _ Hpt). cbn [table_refs fd]. lia.
Qed.

Lemma files_of_with_fd s p t i a : files_of s p = Some t ->
  files_of (with_fd s p t i a) p = Some (Files (count t) (umask t) (<[Z.to_nat i := a]> (fd t))).
Proof.
  intros Ht%files_of_procs. unfold files_of. cbn [procs with_fd set_files set_procs].
  by rewrite list_lookup_insert_eq by eauto using lookup_lt_Some.
Qed.

Lemma with_fd_twice s p t i a t' : files_of s p = Some t -> files_of (with_fd s p t i a) p = Some t' ->
  with_fd (with_fd s p t i a) p t' i a = with_fd s p t i a.
Proof.
  intros Ht Ht'. rewrite files_of_with_fd in Ht' by done. simplify_eq.
  unfold with_fd, set_files, set_procs. cbn. by rewrite !list_insert_insert_eq.
Qed.

Lemma procs_with_fd s s1 p t i a : procs s1 = procs s ->
  procs (with_fd s1 p t i a) = procs (with_fd s p t i a).
Proof. intros Hp. cbn. by rewrite Hp. Qed.

Lemma fd_inv_with_fd B s s1 extra vo p t i old x R : fd_inv B s extra vo -> files_of s p = Some t ->
  (fd t).[i] = Some old -> procs s1 = procs s -> obj_inv s1 R vo ->
  (forall b, R b = slots s b + extra b - ind b old + ind b x) ->
  fd_inv B (with_fd s1 p t i x) extra vo.
Proof.
  intros Hinv Ht Hi Hp Ho HR.
  apply (fd_inv_table B s _ extra vo p t (<[Z.to_nat i := x]> (fd t)) R); try done.
  - by rewrite (procs_with_fd s s1).
  - apply length_insert.
  - by apply (obj_inv_procs s1).
  - intros b. rewrite HR, (zsum_fd t i old) by done. lia.
Qed.

(** The tables keep their sizes. *)
Definition sizes (s : fstate) : list (option Z) := fmap (M := list) (fmap (M := option) count) (procs s).

Lemma sizes_total s s' : sizes s' = sizes s -> fds_total s' = fds_total s.
Proof.
  unfold sizes, fds_total. generalize (procs s), (procs s').
  intros l. induction l as [|o l IH]; intros [|o' l'] He; try done. cbn in He. simplify_eq.
  cbn. rewrite (IH l') by done. destruct o, o'; simplify_eq/=; lia.
Qed.

Lemma sizes_procs s s' : procs s' = procs s -> sizes s' = sizes s.
Proof. unfold sizes. by intros ->. Qed.

Lemma sizes_with_fd s p t i a : files_of s p = Some t -> sizes (with_fd s p t i a) = sizes s.
Proof.
  intros Ht%files_of_procs. unfold sizes. cbn [with_fd set_files set_procs procs].
  rewrite list_fmap_insert. apply list_insert_id. by rewrite list_lookup_fmap, Ht.
Qed.

Lemma sizes_files s s' p t : sizes s' = sizes s -> files_of s p = Some t ->
  exists t', files_of s' p = Some t' /\ count t' = count t.
Proof.
  intros He Ht%files_of_procs. apply (f_equal (lookup p)) in He. unfold sizes in He.
  rewrite !list_lookup_fmap, Ht in He. unfold files_of.
  destruct (procs s' !! p) as [[t'|]|]; simplify_eq/=. eauto.
Qed.

Lemma fd_inv_ext B s e e' vo : (forall a, e a = e' a) -> fd_inv B s e vo -> fd_inv B s e' vo.
Proof.
  intros He [H1 H2 H3 H4]. split; [done|intros; by rewrite <- He..|].
  eapply obj_inv_ext; [|exact H4]. intros a. cbn. by rewrite He.
Qed.

(** Back to the bound before an operation that returned what it took. *)
Lemma fd_inv_back B B' s s' e e' vo : fd_inv B s e vo -> fd_inv B' s' e' vo ->
  sizes s' = sizes s -> (forall a, e' a = e a) -> fd_inv B s' e vo.
Proof.
  intros Hi Hi' Hs He. apply (fd_inv_ext _ _ _ e vo He) in Hi'.
  destruct Hi'. split; try done. intros a. rewrite (sizes_total s s') by done.
  apply (fi_total _ _ _ _ Hi).
Qed.

Lemma fd_inv_weaken B B' s e vo : B <= B' -> fd_inv B s e vo -> fd_inv B' s e vo.
Proof. intros ? [? Ht ? ?]. split; try done. intros a. specialize (Ht a). lia. Qed.

Lemma fd_file B s extra vo p t i : fd_inv B s extra vo -> files_of s p = Some t -> entry t i <> 0 ->
  exists f, mem s !! entry t i = Some f /\ alive f /\ vnode_of f <> 0 /\ is_Some (vnodes s !! vnode_of f).
Proof.
  intros Hinv Ht Hi. pose proof (slots_pos s p t i _ Ht (entry_open _ _ Hi) Hi).
  pose proof (fi_extra _ _ _ _ Hinv (entry t i)).
  destruct (obj_alive _ _ _ (entry t i) (fi_obj _ _ _ _ Hinv)) as (f & ? & ? & _ & _ & ? & ?); [lia|].
  eauto 10.
Qed.

(** A member of a file object that is not its reference count changes. *)
Lemma fd_inv_put B s extra vo a f g : fd_inv B s extra vo -> mem s !! a = Some f -> alive f ->
  vnode_of g = vnode_of f -> f_obj g = f_obj f -> fd_inv B (put_file s a g) extra vo.
Proof.
  intros Hinv Hf Hal Hv Hk. destruct (oi_file _ _ _ (fi_obj _ _ _ _ Hinv) a f Hf) as [(_ & Hr & Hfl & _)|[]]; [|done].
  destruct Hinv as [? ? ? Ho]. split; try done.
  eapply obj_put; try done; unfold alive in *; by rewrite Hk.
Qed.

(** A reference that is at hand becomes a descriptor. *)
Lemma fd_inv_next s p t j a B extra vo : fd_inv B s extra vo -> files_of s p = Some t ->
  (fd t).[j] = Some 0 -> a <> 0 -> 1 <= extra a ->
  fd_inv B (with_fd s p t j a) (add extra a (-1)) vo.
Proof.
  intros Hinv Ht Hj Ha He.
  pose proof (files_of_procs _ _ _ Ht) as Hpt. pose proof (files_wf _ _ _ _ _ _ Hinv Ht) as Hw.
  destruct Hinv as [Hw1 Hw2 Hw3 Ho]. split.
  - intros q o. cbn. destruct (decide (q = p)) as [->|].
    + rewrite list_lookup_insert_eq by eauto using lookup_lt_Some. intros [= <-]. cbn in *.
      by rewrite length_insert.
    + rewrite list_lookup_insert_ne by done. apply Hw1.
  - intros b. rewrite (sizes_total s) by (by apply sizes_with_fd). specialize (Hw2 b).
    unfold add. zcase; lia.
  - intros b. specialize (Hw3 b). unfold add. zcase; subst; lia.
  - eapply obj_inv_ext; [|by apply (obj_inv_procs s)]. intros b. cbn beta.
    rewrite (slots_with_fd _ _ _ _ _ _ _ Ht Hj), ind_zero. unfold add, ind.
    rewrite (proj2 (Z.eqb_neq a 0)), (Z.eqb_sym b), andb_true_r by done. destruct (a =? b); lia.
Qed.

(** Taking a reference, and dropping one that is not the last. *)
Lemma ref_take_inv B s extra vo p t i : B < 2 ^ 31 - 1 -> fd_inv B s extra vo ->
  files_of s p = Some t -> entry t i <> 0 ->
  exists f k, mem s !! entry t i = Some f /\
    let s' := put_file s (entry t i) (set_obj f k) in
    fs_fildes_ref s p i 1 = Some (entry t i, s') /\ fd_inv (B + 1) s' (add extra (entry t i) 1) vo.
Proof.
  intros HB Hinv Ht Hi. destruct (fd_file _ _ _ _ _ _ _ Hinv Ht Hi) as (f & Hf & _).
  pose proof (files_wf _ _ _ _ _ _ Hinv Ht) as Hwf. set (a := entry t i) in *.
  pose proof (slots_bound _ _ _ _ a Hinv). pose proof (slots_pos s p t i a Ht (entry_open _ _ Hi) Hi).
  pose proof (fi_extra _ _ _ _ Hinv a).
  destruct (ref_take _ _ _ _ _ _ _ (fi_obj _ _ _ _ Hinv) Ht Hwf Hi Hf) as (k & Hr & Ho); [fold a; lia|].
  exists f, k. split; [done|]. split; [done|]. destruct Hinv as [Hw1 Hw2 Hw3 _]. split; [done|..].
  - intros b. specialize (Hw2 b). unfold add.
    change (fds_total (put_file _ _ _)) with (fds_total s). destruct (_ =? _); lia.
  - intros b. specialize (Hw3 b). unfold add. destruct (_ =? _); lia.
  - eapply obj_inv_ext; [|exact Ho]. intros b. unfold add.
    change (slots (put_file _ _ _)) with (slots s). cbn beta. fold a. lia.
Qed.

Lemma ref_drop_inv B s extra vo p t i : B < 2 ^ 31 -> fd_inv B s extra vo ->
  files_of s p = Some t -> entry t i <> 0 -> 1 <= extra (entry t i) ->
  exists f k s', mem s !! entry t i = Some f /\ mem s' !! entry t i = Some (set_obj f k) /\
    (forall b, b <> entry t i -> mem s' !! b = mem s !! b) /\
    procs s' = procs s /\ vnodes s' = vnodes s /\ deleted s' = deleted s /\
    fs_fildes_ref s p i (-1) = Some (entry t i, s') /\ fd_inv B s' (add extra (entry t i) (-1)) vo.
Proof.
  intros HB Hinv Ht Hi He. destruct (fd_file _ _ _ _ _ _ _ Hinv Ht Hi) as (f & Hf & _).
  pose proof (files_wf _ _ _ _ _ _ Hinv Ht) as Hwf. set (a := entry t i) in *.
  pose proof (slots_bound _ _ _ _ a Hinv). pose proof (slots_pos s p t i a Ht (entry_open _ _ Hi) Hi).
  destruct (ref_drop _ _ _ p t i f 1 (fi_obj _ _ _ _ Hinv) Ht Hwf Hi Hf) as (s1 & Ho & Hef & Hr);
    [fold a; lia..|]. fold a in Ho, Hef, Hr.
  rewrite (proj2 (Z.eqb_neq 1 _)) in Hr by lia.
  destruct Hef as (Hp & Hb & Hlive & _). destruct Hlive as (? & ? & k & ?); [lia|].
  exists f, k, s1. split_and!; try done. destruct Hinv as [Hw1 Hw2 Hw3 _]. split.
  - by rewrite Hp.
  - intros b. specialize (Hw2 b). unfold add. rewrite (sizes_total s s1) by (by apply sizes_procs).
    destruct (_ =? _); lia.
  - intros b. specialize (Hw3 b). unfold add. zcase; [subst b|]; lia.
  - eapply obj_inv_ext; [|exact Ho]. intros b. unfold add, slots. rewrite Hp. cbn beta. zcase; lia.
Qed.

(** ** Permissions *)

(** A process may use a capability: it is the superuser, or has it effective. *)
Definition granted (su : bool) (c : cred) (priv : Z) : Prop :=
  (su = true /\ euid c = 0) \/ has (pcap_effmap c) priv.
Definition in_group (cur c : cred) (g : Z) : Prop := g = egid cur \/ egid c = g \/ g ∈ sup_gid c.
(** One of the classes of the process has the mode bit. *)
Definition class_bit (cur c : cred) (st : stat) (usr grp oth : Z) : Prop :=
  (st_uid st = euid cur /\ Z.land usr (st_mode st) <> 0) \/
  (in_group cur c (st_gid st) /\ Z.land grp (st_mode st) <> 0) \/
  Z.land oth (st_mode st) <> 0.

Lemma grp_loop_spec k : forall g i x, 0 <= i -> i + Z.of_nat k = Z.of_nat (length g) ->
  exists r, grp_loop k g i x = Some r /\ (r <> 0 <-> exists j, i <= j /\ g.[j] = Some x).
Proof.
  induction k as [|k IH]; intros g i x Hi Hk; cbn [grp_loop].
  - exists 0. split; [done|]. split; [done|]. intros (j & Hj & Hx). apply rd_Some_lt in Hx. lia.
  - destruct (rd_is_Some g i) as [y Hy]; [lia|]. rewrite Hy. mstep. destruct (Z.eqb_spec y x) as [->|Hne].
    + exists 1. split; [done|]. split; [|done]. intros _. by exists i.
    + destruct (IH g (i + 1) x) as (r & Hr & Hiff); [lia..|]. exists r. split; [done|]. rewrite Hiff.
      split; intros (j & Hj & Hx); exists j; (split; [|done]); [lia|].
      destruct (decide (j = i)) as [->|]; [congruence|lia].
Qed.

Lemma elem_of_rd {A} (l : list A) x : x ∈ l <-> exists j, 0 <= j /\ l.[j] = Some x.
Proof.
  rewrite list_elem_of_lookup. split.
  - intros [j Hj]. exists (Z.of_nat j). split; [lia|]. unfold rd. rewrite (proj2 (Z.ltb_ge _ 0)) by lia.
    by rewrite Nat2Z.id.
  - intros (j & Hj & Hx). unfold rd in Hx. rewrite (proj2 (Z.ltb_ge _ 0)) in Hx by lia. eauto.
Qed.

Lemma grp_member_spec c g : cred_wf c ->
  exists m, priv_grp_is_member c g = Some m /\ (m <> 0 <-> egid c = g \/ g ∈ sup_gid c).
Proof.
  intros (_ & _ & Hl). unfold priv_grp_is_member. destruct (Z.eqb_spec (egid c) g).
  - exists 1. split; [done|]. split; [by left|done].
  - destruct (grp_loop_spec (Z.to_nat NGROUPS_MAX) (sup_gid c) 0 g) as (r & Hr & Hiff); [done|by rewrite Hl|].
    exists r. split; [done|]. rewrite Hiff, elem_of_rd. naive_solver.
Qed.

Lemma granted_spec su c p : cred_wf c -> real_uid_priv p = false -> 0 <= p < 256 -> p <> PRIV_KMEM_READ ->
  exists r, priv_check su c p = Some r /\ (r = 0 <-> granted su c p).
Proof.
  intros Hwf Hr Hp Hk. destruct (decide (su = true /\ euid c = 0)) as [[-> He]|Hn].
  - exists 0. unfold priv_check. rewrite Hr, He. cbn. unfold granted. split; [done|]. split; [|done]. intros _. by left.
  - assert (su = false \/ euid c <> 0) as Hsu by (destruct su; naive_solver).
    rewrite priv_check_spec by done.
    eexists. split; [done|]. unfold granted. case_decide; naive_solver.
Qed.

Lemma perm_test_spec su cur c st (member : bool) usr grp oth priv : cred_wf c ->
  real_uid_priv priv = false -> 0 <= priv < 256 -> priv <> PRIV_KMEM_READ ->
  (member = true <-> in_group cur c (st_gid st)) ->
  exists b, perm_test su cur c st member usr grp oth priv = Some b /\
    (b = true <-> class_bit cur c st usr grp oth /\ granted su c priv).
Proof.
  intros Hwf Hr Hp Hk Hm. destruct (granted_spec su c priv Hwf Hr Hp Hk) as (r & Hc & Hg).
  unfold perm_test. set (req := Z.lor _ oth).
  assert (Z.land req (st_mode st) <> 0 <-> class_bit cur c st usr grp oth) as Hreq.
  { subst req. unfold class_bit. rewrite <- Hm.
    destruct (Z.eqb_spec (st_uid st) (euid cur)), member;
      rewrite ?Z.lor_0_l, ?Z.land_lor_distr_l, ?Z.lor_eq_0_iff;
      destruct (decide (Z.land usr (st_mode st) = 0)), (decide (Z.land grp (st_mode st) = 0)),
        (decide (Z.land oth (st_mode st) = 0)); naive_solver. }
  destruct (Z.eqb_spec (Z.land req (st_mode st)) 0) as [Hz|Hz].
  - exists false. split; [done|]. naive_solver.
  - rewrite Hc. mstep. eexists. split; [done|]. rewrite Z.eqb_eq. naive_solver.
Qed.

(** The accesses that [chkperm] grants. *)
Definition permitted (su : bool) (cur c : cred) (st : stat) (oflags : Z) : Prop :=
  let acc := Z.land oflags O_ACCMODE in
  (flag acc R_OK = true ->
     class_bit cur c st S_IRUSR S_IRGRP S_IROTH /\ granted su c PRIV_VFS_READ) /\
  (flag acc W_OK = true ->
     class_bit cur c st S_IWUSR S_IWGRP S_IWOTH /\ granted su c PRIV_VFS_WRITE) /\
  (flag acc X_OK || S_ISDIR (st_mode st) = true ->
     class_bit cur c st S_IXUSR S_IXGRP S_IXOTH /\ granted su c PRIV_VFS_EXEC).

Lemma chkperm_spec su cur c st oflags : cred_wf c ->
  exists r, chkperm su cur st c oflags = Some r /\ (r = 0 \/ r = - EPERM) /\
    (r = 0 <-> permitted su cur c st oflags).
Proof.
  intros Hwf.
  assert (exists m, (if st_gid st =? egid cur then Some true
                     else m ← priv_grp_is_member c (st_gid st); Some (negb (m =? 0))) = Some m /\
    (m = true <-> in_group cur c (st_gid st))) as (m & Hm & Hmem).
  { unfold in_group. destruct (Z.eqb_spec (st_gid st) (egid cur)).
    - exists true. naive_solver.
    - destruct (grp_member_spec c (st_gid st) Hwf) as (k & -> & Hk). mstep. eexists. split; [done|].
      rewrite negb_true_iff, Z.eqb_neq. naive_solver. }
  unfold chkperm, permitted. rewrite Hm. mstep. set (acc := Z.land oflags O_ACCMODE).
  assert (forall (test : bool) usr grp oth priv, real_uid_priv priv = false -> 0 <= priv < 256 ->
    priv <> PRIV_KMEM_READ ->
    exists b, (if test then perm_test su cur c st m usr grp oth priv else Some true) = Some b /\
      (b = true <-> (test = true -> class_bit cur c st usr grp oth /\ granted su c priv))) as Htest.
  { intros [] usr grp oth priv H1 H2 H3; [|exists true; naive_solver].
    destruct (perm_test_spec su cur c st m usr grp oth priv Hwf H1 H2 H3 Hmem) as (b & -> & Hb).
    exists b. naive_solver. }
  destruct (Htest (flag acc R_OK) S_IRUSR S_IRGRP S_IROTH PRIV_VFS_READ) as (r & -> & Hr); [done..|]. mstep.
  destruct r; cbn [negb]; [|exists (- EPERM); naive_solver].
  destruct (Htest (flag acc W_OK) S_IWUSR S_IWGRP S_IWOTH PRIV_VFS_WRITE) as (w & -> & Hw); [done..|]. mstep.
  destruct w; cbn [negb]; [|exists (- EPERM); naive_solver].
  destruct (Htest (flag acc X_OK || S_ISDIR (st_mode st)) S_IXUSR S_IXGRP S_IXOTH PRIV_VFS_EXEC)
    as (x & -> & Hx); [done..|]. mstep.
  destruct x; cbn [negb]; [exists 0|exists (- EPERM)]; naive_solver.
Qed.

(** ** Vnode references and new file objects *)

Lemma vref_inv B s extra vo v n : fd_inv B s extra vo -> vnodes s !! v = Some n ->
  vn_refcount n < 2 ^ 31 - 1 ->
  let s' := set_vnodes s (<[v := set_refcount n (vn_refcount n + 1)]> (vnodes s)) in
  vref s v = Some (0, s') /\ fd_inv B s' extra (add vo v 1).
Proof.
  intros Hinv Hn Hlt. destruct Hinv as [Hw1 Hw2 Hw3 Ho].
  destruct (oi_vnode _ _ _ Ho v n Hn) as [Hr _]. pose proof (oi_other _ _ _ Ho v).
  pose proof (users_nonneg (mem s) v). split.
  - unfold vref, vrefset, vrefcnt. rewrite Hn. mstep. rewrite (proj2 (Z.ltb_ge _ 0)) by lia.
    rewrite s32_small by lia. done.
  - split; try done. destruct Ho as [Ho1 Ho2 Ho3 Ho4]. split; cbn [mem vnodes set_vnodes].
    + intros a f Hf. destruct (Ho1 a f Hf) as [(? & ? & ? & ? & [m Hm])|?]; [left|by right].
      split_and!; try done. destruct (decide (vnode_of f = v)) as [->|].
      * by rewrite lookup_insert_eq.
      * rewrite lookup_insert_ne by done. by exists m.
    + done.
    + intros w m. destruct (decide (w = v)) as [->|].
      * rewrite lookup_insert_eq, add_eq. intros [= <-]. cbn. lia.
      * rewrite lookup_insert_ne, add_ne by done. apply Ho3.
    + intros w. specialize (Ho4 w). unfold add. zcase; lia.
Qed.

Lemma vrele_inv B s extra vo v n : fd_inv B s extra vo -> v <> 0 -> vnodes s !! v = Some n ->
  1 <= vo v ->
  exists s', vrele s v = Some s' /\ mem s' = mem s /\ procs s' = procs s /\ fd_inv B s' extra (add vo v (-1)).
Proof.
  intros Hinv Hv Hn Hvo. destruct Hinv as [Hw1 Hw2 Hw3 Ho].
  destruct (oi_vnode _ _ _ Ho v n Hn) as [Hr Hlt]. pose proof (users_nonneg (mem s) v).
  rewrite (vrele_spec s v n) by (try done; lia). eexists. split; [done|]. split; [done|]. split; [done|].
  split; try done. destruct Ho as [Ho1 Ho2 Ho3 Ho4]. split; cbn [mem vnodes].
  - intros a f Hf. destruct (Ho1 a f Hf) as [(? & ? & ? & ? & [m Hm])|?]; [left|by right].
    split_and!; try done. destruct (decide (vnode_of f = v)) as [->|].
    + by rewrite lookup_insert_eq.
    + rewrite lookup_insert_ne by done. by exists m.
  - done.
  - intros w m. destruct (decide (w = v)) as [->|].
    + rewrite lookup_insert_eq, add_eq. intros [= <-]. cbn. lia.
    + rewrite lookup_insert_ne, add_ne by done. apply Ho3.
  - intros w. specialize (Ho4 w). unfold add. zcase; subst; lia.
Qed.

(** A new file object in a free entry; the reference to the vnode becomes its own. *)
Lemma fd_inv_open B s extra vo v p t j a g : fd_inv B s extra vo -> files_of s p = Some t ->
  (fd t).[j] = Some 0 -> a <> 0 -> mem s !! a = None -> vnode_of g = v -> v <> 0 ->
  is_Some (vnodes s !! v) -> ko_refcount (f_obj g) = 1 -> ko_flags (f_obj g) = 0 -> 1 <= vo v ->
  fd_inv B (put_file (with_fd s p t j a) a g) extra (add vo v (-1)).
Proof.
  intros Hinv Ht Hj Ha Hm Hv Hv0 Hvs Hr Hfl Hvo. pose proof (fi_obj _ _ _ _ Hinv) as [Ho1 Ho2 Ho3 Ho4].
  assert (slots s a + extra a = 0) as Hz.
  { destruct (decide (slots s a + extra a = 0)) as [|Hne]; [done|].
    destruct (Ho2 a Hne) as [? ?]. congruence. }
  assert (forall b, slots (with_fd s p t j a) b = slots s b + (if b =? a then 1 else 0)) as Hs.
  { intros b. rewrite (slots_with_fd _ _ _ _ _ _ _ Ht Hj), ind_zero. unfold ind.
    rewrite (proj2 (Z.eqb_neq a 0)), (Z.eqb_sym b), andb_true_r by done. destruct (a =? b); lia. }
  assert (alive g) as Hag by (unfold alive; lia).
  split.
  - intros q o. cbn. destruct (decide (q = p)) as [->|].
    + rewrite list_lookup_insert_eq by eauto using lookup_lt_Some, files_of_procs. intros [= <-].
      pose proof (files_wf _ _ _ _ _ _ Hinv Ht) as Hw. cbn in *. by rewrite length_insert.
    + rewrite list_lookup_insert_ne by done. apply (fi_wf _ _ _ _ Hinv).
  - intros b. rewrite (sizes_total s) by (by apply sizes_with_fd). apply (fi_total _ _ _ _ Hinv).
  - apply (fi_extra _ _ _ _ Hinv).
  - split; cbn [mem vnodes put_file set_mem with_fd set_files set_procs].
    + intros b f. change (slots (put_file _ _ _) b) with (slots (with_fd s p t j a) b). rewrite Hs.
      destruct (decide (b = a)) as [->|Hb].
      * rewrite lookup_insert_eq, Z.eqb_refl. intros [= <-]. left. subst v. split_and!; try done; lia.
      * rewrite lookup_insert_ne, (proj2 (Z.eqb_neq b a)), Z.add_0_r by done. apply Ho1.
    + intros b. change (slots (put_file _ _ _) b) with (slots (with_fd s p t j a) b). rewrite Hs.
      destruct (decide (b = a)) as [->|Hb]; [by rewrite lookup_insert_eq|].
      rewrite lookup_insert_ne, (proj2 (Z.eqb_neq b a)), Z.add_0_r by done. apply Ho2.
    + intros w n Hn. rewrite users_insert, Hm. cbn [from_option]. destruct (Ho3 w n Hn).
      unfold uses, add. rewrite Hv. zcase; case_decide; naive_solver lia.
    + intros w. specialize (Ho4 w). unfold add. zcase; subst; lia.
Qed.

Lemma fd_inv_ext_vo B s extra vo vo' : (forall v, vo v = vo' v) -> fd_inv B s extra vo -> fd_inv B s extra vo'.
Proof.
  intros He [H1 H2 H3 [H4 H5 H6 H7]]. split; try done. split; try done.
  - intros v n Hn. rewrite <- He. by apply H6.
  - intros v. by rewrite <- He.
Qed.

Definition stat_example (v : Z) : Z * stat := (0, Stat 0x81A4 1000 100 0 0).
Definition cred_reader : cred :=
  Cred 1000 1000 1000 100 100 100 (replicate 16 65535) [6; 0; 0; 32768; 0; 0; 0; 0]
    [2; 0; 0; 4; 0; 0; 0; 0].

Lemma cred_reader_wf : cred_wf cred_reader.
Proof. split_and!; try done; try (apply (bool_decide_unpack _); vm_compute; exact I). Qed.


