(* ===== verification/FildesSpec.v ===== *)
(** * Histories of file descriptors

    The theorems about [Fildes]: what each operation does to the descriptor tables, the
    file objects and the vnodes ([tstep], [closed], [objs_kept]), that all keep the
    invariant [fd_inv], and with it every history of processes that open, duplicate,
    inherit and close descriptors ([fdop], [run_ops]).  At the end are states in which
    the code departs from its intent. *)
From S2P Require Import Prelude Priv Kobj Fildes.

Section spec.
Context `{VnodeOpsOk}.

(** A descriptor is closed: the file object is released with its last reference. *)
Definition closed (s s' : fstate) (extra : Z -> Z) (a : Z) (f : file) : Prop :=
  (forall b, b <> a -> mem s' !! b = mem s !! b) /\
  (slots s a + extra a = 1 -> released s s' a f) /\
  (slots s a + extra a <> 1 -> vnodes s' = vnodes s /\ deleted s' = deleted s /\
     exists g, mem s' !! a = Some g /\ vnode_of g = vnode_of f /\ oflags g = oflags f).

Lemma close_none B s extra vo p t i : fd_inv B s extra vo -> files_of s p = Some t -> entry t i = 0 ->
  fs_fildes_close s p i = Some (- EBADF, s).
Proof.
  intros Hinv Ht Hi. unfold fs_fildes_close.
  by rewrite (ref_none s p t) by eauto using files_wf.
Qed.

Lemma close_spec B s extra vo p t i f : B < 2 ^ 31 - 1 -> fd_inv B s extra vo -> files_of s p = Some t -> entry t i <> 0 ->
  mem s !! entry t i = Some f ->
  exists s', fs_fildes_close s p i = Some (0, s') /\ fd_inv B s' extra vo /\
    procs s' = procs (with_fd s p t i 0) /\ closed s s' extra (entry t i) f.
Proof.
  intros HB Hinv Ht Hi Hf. set (a := entry t i) in *.
  pose proof (files_wf _ _ _ _ _ _ Hinv Ht) as Hwf. pose proof (fi_obj _ _ _ _ Hinv) as Ho.
  pose proof (slots_bound _ _ _ _ a Hinv). pose proof (slots_pos s p t i a Ht (entry_open _ _ Hi) Hi).
  pose proof (fi_extra _ _ _ _ Hinv a).
  destruct (ref_take _ _ _ _ _ _ _ Ho Ht Hwf Hi Hf) as (k & Hr & Ho1); [fold a; lia|]. fold a in Hr, Ho1.
  unfold fs_fildes_close. rewrite Hr. mstep. rewrite (proj2 (Z.eqb_neq a 0)) by done.
  cbn [mem put_file set_mem]. rewrite lookup_insert_eq. mstep.
  set (g := op_event_fd_closed _). set (s1 := put_file s a _) in *. fold (put_file s1 a g).
  destruct (closed_same (set_obj f k)) as (Hgv & Hgo & Hgf). fold g in Hgv, Hgo, Hgf. cbn in Hgv, Hgo, Hgf.
  assert (mem s1 !! a = Some (set_obj f k)) as Hf1 by apply lookup_insert_eq.
  destruct (obj_alive _ _ _ a Ho1) as (f' & Hf1' & Hal & Hrc & Hfl & _); [rewrite add_eq; lia|].
  simplify_eq. assert (obj_inv (put_file s1 a g) (add (fun a => slots s a + extra a) a 1) vo) as Ho2.
  { eapply obj_put; try done; unfold alive; rewrite Hgo; done. }
  assert (mem (put_file s1 a g) !! a = Some g) as Hf2 by apply lookup_insert_eq.
  destruct (ref_drop _ _ _ p t i g 2 Ho2 Ht Hwf Hi Hf2) as (s3 & Ho3 & He & Hd);
    [fold a; rewrite add_eq; lia..|]. fold a in Ho3, He, Hd.
  change (- (2)) with (-2) in Hd. rewrite Hd. mstep. rewrite add_eq in *.
  destruct He as (Hp & Hb & Hlive & Hdead).
  assert (files_of s3 p = Some t) as Ht3 by (unfold files_of; by rewrite Hp).
  set (s4 := with_fd s3 p t i 0).
  assert (fd_inv B s4 extra vo) as Hi4.
  { eapply (fd_inv_with_fd _ s s3 _ _ p t i a 0); try done; [by apply entry_open|].
    intros b. cbn beta. rewrite ind_zero. unfold add, ind.
    rewrite (proj2 (Z.eqb_neq a 0)), (Z.eqb_sym b) by done. cbn [negb].
    rewrite andb_true_r. destruct (a =? b); lia. }
  assert (closed s s4 extra a f) as Hc.
  { split_and!.
    - intros b Hne. cbn [mem s4 with_fd set_files set_procs]. rewrite Hb by done.
      cbn. rewrite !lookup_insert_ne by done. done.
    - intros Hone. destruct Hdead as [Hk Hv]; [lia|]. rewrite Hgf, Hgv in *. split; [exact Hk|exact Hv].
    - intros Hne. destruct Hlive as (? & ? & k' & Hk'); [lia|]. split_and!; try done.
      exists (set_obj g k'). split; [done|]. cbn. by rewrite Hgv, Hgf. }
  assert (procs s4 = procs (with_fd s p t i 0)) as Hp4 by (by apply procs_with_fd).
  exists s4. split_and!; try done.
  enough (exists q, set_fd (if 2 =? slots s a + extra a + 1 then s4 else s3) p i 0 = Some q /\ q = s4)
    as (q & Hq & ->) by (destruct (2 =? _); rewrite Hq; done).
  destruct (2 =? _); [|exists s4; split; [|done]; apply (set_fd_spec s3 p t i a); [done|by apply entry_open]].
  pose proof (files_of_with_fd s3 p t i 0 Ht3) as Ht4. eexists. split.
  - apply (set_fd_spec _ _ _ _ 0 _ Ht4). cbn [fd]. apply rd_insert_eq.
    by eapply rd_Some_lt, entry_open.
  - by apply with_fd_twice.
Qed.

(** The table of [p] changes: its descriptors are [e], the other processes keep theirs. *)
Record tstep (s s' : fstate) (p : nat) (t t' : files_t) (e : Z -> Z) : Prop := {
  ts_files : files_of s' p = Some t';
  ts_count : count t' = count t;
  ts_umask : umask t' = umask t;
  ts_entry j : entry t' j = e j;
  ts_others q : q <> p -> procs s' !! q = procs s !! q;
  ts_sizes : sizes s' = sizes s
}.

Lemma tstep_refl s p t : files_of s p = Some t -> tstep s s p t t (entry t).
Proof. by intros. Qed.

Lemma tstep_trans s1 s2 s3 p t1 t2 t3 e1 e2 :
  tstep s1 s2 p t1 t2 e1 -> tstep s2 s3 p t2 t3 e2 -> tstep s1 s3 p t1 t3 e2.
Proof.
  intros [? ? ? ? Ho1 ?] [? ? ? ? Ho2 ?]. split; try congruence.
  intros q Hq. by rewrite Ho2, Ho1.
Qed.

Lemma tstep_ext s s' p t t' e e' : tstep s s' p t t' e -> (forall j, e j = e' j) -> tstep s s' p t t' e'.
Proof. intros [? ? ? He ? ?] Hee. split; try done. intros j. by rewrite He, Hee. Qed.

Lemma tstep_fd s s' p t i a old : files_of s p = Some t -> (fd t).[i] = Some old ->
  procs s' = procs (with_fd s p t i a) ->
  exists t', tstep s s' p t t' (fun j => if j =? i then a else entry t j).
Proof.
  intros Ht Hi Hp. pose proof (files_of_with_fd s p t i a Ht) as Ht'.
  eexists. split; [unfold files_of; by rewrite Hp|done|done| | |].
  - intros j. unfold entry. cbn [fd]. pose proof (rd_Some_lt _ _ _ Hi). zcase.
    + subst. by rewrite rd_insert_eq.
    + by rewrite rd_insert_ne by lia.
  - intros q Hq. rewrite Hp. cbn. by apply list_lookup_insert_ne.
  - rewrite (sizes_procs _ _ Hp). by apply sizes_with_fd.
Qed.

(** The flags of file objects stay. *)
Definition flags_kept (s s' : fstate) : Prop :=
  forall b g, mem s' !! b = Some g -> exists f, mem s !! b = Some f /\ oflags g = oflags f.

Lemma flags_kept_trans s1 s2 s3 : flags_kept s1 s2 -> flags_kept s2 s3 -> flags_kept s1 s3.
Proof. intros H1 H2 b g Hg. destruct (H2 b g Hg) as (f & Hf & ->). by apply H1. Qed.

Lemma closed_flags s s' e a f : mem s !! a = Some f -> closed s s' e a f -> flags_kept s s'.
Proof.
  intros Hf (Hb & Hone & Hmore) b g Hg. destruct (decide (b = a)) as [->|Hne].
  - exists f. split; [done|]. destruct (decide (slots s a + e a = 1)) as [H1|H1].
    + destruct (Hone H1) as [Hr _]. destruct (flag _ _); [congruence|].
      destruct Hr as (? & ? & _ & ?). congruence.
    + destruct (Hmore H1) as (_ & _ & ? & ? & _ & ?). congruence.
  - rewrite Hb in Hg by done. eauto.
Qed.

(** Closing any descriptor, open or not. *)
Lemma close_any B s extra vo p t i : B < 2 ^ 31 - 1 -> fd_inv B s extra vo -> files_of s p = Some t ->
  exists r s' t', fs_fildes_close s p i = Some (r, s') /\ fd_inv B s' extra vo /\
    tstep s s' p t t' (fun j => if j =? i then 0 else entry t j) /\ flags_kept s s' /\
    r = (if entry t i =? 0 then - EBADF else 0).
Proof.
  intros HB Hinv Ht. destruct (decide (entry t i = 0)) as [Hz|Hi].
  - exists (- EBADF), s, t. rewrite Hz. split; [by eapply close_none|]. split_and!; try done.
    + apply (tstep_ext _ _ _ _ _ (entry t)); [by apply tstep_refl|]. intros j. zcase; congruence.
    + intros b g Hg. eauto.
  - destruct (fd_file _ _ _ _ _ _ _ Hinv Ht Hi) as (f & Hf & _).
    destruct (close_spec _ _ _ _ _ _ _ _ HB Hinv Ht Hi Hf) as (s' & Hc & Hinv' & Hp & Hcl).
    destruct (tstep_fd s s' p t i 0 _ Ht (entry_open _ _ Hi) Hp) as [t' Ht'].
    exists 0, s', t'. rewrite (proj2 (Z.eqb_neq (entry t i) 0)) by done.
    split_and!; try done. by eapply closed_flags.
Qed.

Lemma close_down_spec k : forall B s extra vo p t i, B < 2 ^ 31 - 1 -> fd_inv B s extra vo ->
  files_of s p = Some t ->
  exists s' t', close_down k s p i = Some s' /\ fd_inv B s' extra vo /\
    tstep s s' p t t' (fun j => if decide (i - Z.of_nat k < j <= i) then 0 else entry t j).
Proof.
  induction k as [|k IH]; intros B s extra vo p t i HB Hinv Ht; cbn [close_down].
  - exists s, t. split_and!; try done. apply (tstep_ext _ _ _ _ _ (entry t)); [by apply tstep_refl|].
    intros j. case_decide; [lia|done].
  - destruct (close_any _ _ _ _ _ _ i HB Hinv Ht) as (r & s1 & t1 & -> & Hi1 & Hs1 & _). mstep.
    destruct (IH _ _ _ _ _ _ (i - 1) HB Hi1 (ts_files _ _ _ _ _ _ Hs1)) as (s2 & t2 & -> & Hi2 & Hs2).
    exists s2, t2. split_and!; try done. eapply tstep_ext; [by eapply tstep_trans|].
    intros j. cbn beta. rewrite (ts_entry _ _ _ _ _ _ Hs1).
    repeat case_decide; try zcase; first [done|lia].
Qed.

Lemma close_all_spec B s extra vo p t fildes_begin : B < 2 ^ 31 - 1 -> fd_inv B s extra vo ->
  files_of s p = Some t ->
  exists s' t', fs_fildes_close_all s p fildes_begin = Some s' /\ fd_inv B s' extra vo /\
    tstep s s' p t t' (fun j => if decide (0 <= fildes_begin < count t /\ fildes_begin < j) then 0
                                else entry t j).
Proof.
  intros HB Hinv Ht. unfold fs_fildes_close_all. rewrite Ht. mstep.
  destruct (fs_fildes_is_in_range t fildes_begin) eqn:E; cbn [negb andb].
  - assert (0 <= fildes_begin < count t) as Hr by (unfold fs_fildes_is_in_range in E; lia).
    destruct (close_down_spec (Z.to_nat (count t - 1 - fildes_begin)) _ _ _ _ p t (count t - 1) HB Hinv Ht)
      as (s' & t' & -> & Hi' & Hs'). exists s', t'. split_and!; try done.
    apply (tstep_ext _ _ _ _ _ _ _ Hs'). intros j.
    destruct (decide (0 <= j < count t)).
    + repeat case_decide; first [done|lia].
    + assert (entry t j = 0) as ->; [|by repeat case_decide].
      unfold entry. rewrite rd_is_None; [done|]. pose proof (files_wf _ _ _ _ _ _ Hinv Ht) as Hw.
      cbn in Hw. lia.
  - exists s, t. split_and!; try done. apply (tstep_ext _ _ _ _ _ (entry t)); [by apply tstep_refl|].
    intros j. rewrite decide_False; [done|]. unfold fs_fildes_is_in_range in E. lia.
Qed.

(** A file object is marked to be closed by [exec]. *)
Definition cloexec (s : fstate) (a : Z) : bool :=
  match mem s !! a with Some f => flag (oflags f) O_CLOEXEC | None => false end.

Lemma cloexec_kept s s' a f : flags_kept s s' -> mem s' !! a = Some f -> cloexec s' a = cloexec s a.
Proof. intros Hk Hf. destruct (Hk a f Hf) as (g & Hg & Ho). unfold cloexec. by rewrite Hf, Hg, Ho. Qed.

Lemma close_exec_step B s extra vo p t i k : B < 2 ^ 31 - 1 -> fd_inv B s extra vo ->
  files_of s p = Some t -> 0 <= i < count t ->
  exists s' t', close_exec_loop (S k) s p i = close_exec_loop k s' p (i + 1) /\
    fd_inv B s' extra vo /\ flags_kept s s' /\
    tstep s s' p t t' (fun j => if decide (j = i /\ cloexec s (entry t j) = true) then 0 else entry t j).
Proof.
  intros HB Hinv Ht Hi. cbn [close_exec_loop]. rewrite Ht. mstep.
  pose proof (files_wf _ _ _ _ _ _ Hinv Ht) as Hw. cbn in Hw.
  destruct (rd_is_Some (fd t) i) as [a Ha]; [lia|]. rewrite Ha. mstep.
  assert (entry t i = a) as He by (unfold entry; by rewrite Ha).
  destruct (decide (a <> 0 /\ cloexec s a = true)) as [[Ha0 Hc]|Hn].
  - destruct (fd_file _ _ _ _ _ _ i Hinv Ht) as (f & Hf & _); [congruence|]. rewrite He in Hf.
    rewrite (proj2 (Z.eqb_neq a 0)), Hf by done. mstep.
    unfold cloexec in Hc. rewrite Hf in Hc. rewrite Hc.
    destruct (close_any _ _ _ _ _ _ i HB Hinv Ht) as (r & s1 & t1 & -> & Hi1 & Hs1 & Hk & _). mstep.
    exists s1, t1. split_and!; try done. apply (tstep_ext _ _ _ _ _ _ _ Hs1). intros j. zcase.
    + subst j. rewrite decide_True; [done|]. split; [done|]. unfold cloexec. by rewrite He, Hf.
    + by rewrite decide_False by tauto.
  - exists s, t. split_and!; try done.
    + destruct (Z.eqb_spec a 0) as [|Ha0]; [done|].
      destruct (fd_file _ _ _ _ _ _ i Hinv Ht) as (f & Hf & _); [congruence|]. rewrite He in Hf.
      rewrite Hf. mstep. destruct (flag _ _) eqn:E; [|done].
      destruct Hn. split; [done|]. unfold cloexec. by rewrite Hf.
    + intros b g. eauto.
    + apply (tstep_ext _ _ _ _ _ (entry t)); [by apply tstep_refl|]. intros j. case_decide as Hd; [|done].
      destruct Hd as [-> Hc]. rewrite He in Hc |- *. destruct (decide (a = 0)); [done|tauto].
Qed.

(** The loop closes the marked descriptors from [i] on. *)
Lemma close_exec_loop_spec k : forall B s extra vo p t i, B < 2 ^ 31 - 1 -> fd_inv B s extra vo ->
  files_of s p = Some t -> 0 <= i -> i + Z.of_nat k <= count t ->
  exists s' t', close_exec_loop k s p i = Some s' /\ fd_inv B s' extra vo /\ flags_kept s s' /\
    tstep s s' p t t' (fun j => if decide (i <= j < i + Z.of_nat k /\ cloexec s (entry t j) = true) then 0
                                else entry t j).
Proof.
  induction k as [|k IH]; intros B s extra vo p t i HB Hinv Ht Hi Hk.
  - exists s, t. split_and!; try done; [intros b g; eauto|].
    apply (tstep_ext _ _ _ _ _ (entry t)); [by apply tstep_refl|]. intros j. case_decide; [lia|done].
  - destruct (close_exec_step _ _ _ _ _ _ i k HB Hinv Ht) as (s1 & t1 & -> & Hi1 & Hk1 & Hs1); [lia|].
    destruct (IH _ s1 extra vo p t1 (i + 1) HB Hi1 (ts_files _ _ _ _ _ _ Hs1))
      as (s2 & t2 & -> & Hi2 & Hk2 & Hs2); [lia|rewrite (ts_count _ _ _ _ _ _ Hs1); lia|].
    exists s2, t2. split_and!; try done; [by eapply flags_kept_trans|].
    eapply tstep_ext; [by eapply tstep_trans|]. intros j. cbn beta.
    destruct (decide (j = i)) as [->|Hji].
    + rewrite (ts_entry _ _ _ _ _ _ Hs1). rewrite (decide_False (P := (i + 1 <= i < _) /\ _)) by lia.
      repeat case_decide; naive_solver lia.
    + assert (entry t1 j = entry t j) as Hj
        by (rewrite (ts_entry _ _ _ _ _ _ Hs1); by rewrite decide_False by tauto).
      rewrite Hj. destruct (decide (entry t j = 0)) as [->|Hj0]; [by repeat case_decide|].
      rewrite <- Hj in Hj0. destruct (fd_file _ _ _ _ _ _ _ Hi1 (ts_files _ _ _ _ _ _ Hs1) Hj0) as (f & Hf & _).
      rewrite Hj in Hf. rewrite (cloexec_kept _ _ _ _ Hk1 Hf).
      repeat case_decide; naive_solver lia.
Qed.

Lemma close_exec_spec B s extra vo p t : B < 2 ^ 31 - 1 -> fd_inv B s extra vo ->
  files_of s p = Some t ->
  exists s' t', fs_fildes_close_exec s p = Some s' /\ fd_inv B s' extra vo /\ flags_kept s s' /\
    tstep s s' p t t' (fun j => if cloexec s (entry t j) then 0 else entry t j).
Proof.
  intros HB Hinv Ht. unfold fs_fildes_close_exec. rewrite Ht. mstep.
  pose proof (files_wf _ _ _ _ _ _ Hinv Ht) as Hw. cbn in Hw.
  destruct (close_exec_loop_spec (Z.to_nat (count t)) _ _ _ _ _ _ 0 HB Hinv Ht)
    as (s' & t' & -> & Hi' & Hk & Hs); [lia..|].
  exists s', t'. split_and!; try done. apply (tstep_ext _ _ _ _ _ _ _ Hs). intros j.
  destruct (decide (0 <= j < count t)).
  - destruct (cloexec s (entry t j)); case_decide; naive_solver lia.
  - assert (entry t j = 0) as ->; [|case_decide; by destruct (cloexec s 0)].
    unfold entry. rewrite rd_is_None; [done|lia].
Qed.

(** ** The lowest free descriptor *)

Lemma next_loop_spec k : forall s p t a i, files_of s p = Some t -> 0 <= i ->
  i + Z.of_nat k <= Z.of_nat (length (fd t)) ->
  (exists j, i <= j < i + Z.of_nat k /\ (fd t).[j] = Some 0 /\ (forall j', i <= j' < j -> entry t j' <> 0) /\
     next_loop k s p t a i = Some (j, with_fd s p t j a)) \/
  ((forall j, i <= j < i + Z.of_nat k -> entry t j <> 0) /\ next_loop k s p t a i = Some (- ENFILE, s)).
Proof.
  induction k as [|k IH]; intros s p t a i Ht Hi Hk; cbn [next_loop].
  - right. split; [lia|done].
  - destruct (rd_is_Some (fd t) i) as [d Hd]; [lia|]. rewrite Hd. mstep.
    destruct (Z.eqb_spec d 0) as [->|Hd0].
    + left. exists i. rewrite (set_fd_spec s p t i 0) by done. split_and!; try done; lia.
    + assert (entry t i <> 0) as He by (unfold entry; by rewrite Hd).
      destruct (IH s p t a (i + 1) Ht) as [(j & Hj & Hj0 & Hjj & ->)|[Hall ->]]; [lia..| |].
      * left. exists j. split_and!; try done; try lia. intros j' Hj'.
        destruct (decide (j' = i)) as [->|]; [done|]. apply Hjj. lia.
      * right. split; [|done]. intros j Hj. destruct (decide (j = i)) as [->|]; [done|]. apply Hall. lia.
Qed.

(** [fs_fildes_curproc_next] with one reference at hand for the new descriptor. *)
Lemma next_spec B s extra vo p t a start : fd_inv B s extra vo -> files_of s p = Some t ->
  a <> 0 -> 0 <= start ->
  (exists j, start <= j < count t /\ (forall j', start <= j' < j -> entry t j' <> 0) /\ entry t j = 0 /\
     fs_fildes_curproc_next s p a start = Some (j, with_fd s p t j a) /\
     (1 <= extra a -> fd_inv B (with_fd s p t j a) (add extra a (-1)) vo)) \/
  ((forall j, start <= j < count t -> entry t j <> 0) /\
     fs_fildes_curproc_next s p a start = Some (if count t <=? start then - EMFILE else - ENFILE, s)).
Proof.
  intros Hinv Ht Ha Hst. unfold fs_fildes_curproc_next. rewrite Ht. mstep.
  rewrite (proj2 (Z.eqb_neq a 0)) by done.
  pose proof (files_wf _ _ _ _ _ _ Hinv Ht) as Hw. cbn in Hw.
  destruct (Z.ltb_spec (count t - 1) start) as [Hlt|Hge].
  { right. split; [lia|]. by rewrite (proj2 (Z.leb_le _ _)) by lia. }
  rewrite (proj2 (Z.leb_gt (count t) start)) by lia.
  destruct (next_loop_spec (Z.to_nat (count t - start)) s p t a start Ht)
    as [(j & Hj & Hj0 & Hjj & ->)|[Hall ->]]; [lia..| |right; split; [|done]; intros; apply Hall; lia].
  left. exists j. split_and!; try done; [lia..|unfold entry; by rewrite Hj0|].
  intros He. eapply (fd_inv_next s p t j a); eauto.
Qed.

(** ** System calls *)

(** File objects keep everything but their reference counts. *)
Definition objs_kept (s s' : fstate) : Prop :=
  forall b f, mem s !! b = Some f -> exists k, mem s' !! b = Some (set_obj f k).

Lemma objs_kept_trans s1 s2 s3 : objs_kept s1 s2 -> objs_kept s2 s3 -> objs_kept s1 s3.
Proof.
  intros H1 H2 b f Hf. destruct (H1 b f Hf) as (k & Hk). destruct (H2 b _ Hk) as (k' & Hk'). by exists k'.
Qed.
Lemma objs_kept_same s s' : mem s' = mem s -> objs_kept s s'.
Proof. intros Hm b f Hf. exists (f_obj f). rewrite Hm, Hf. by destruct f. Qed.
Lemma objs_kept_at s s' a f k : mem s !! a = Some f -> mem s' !! a = Some (set_obj f k) ->
  (forall b, b <> a -> mem s' !! b = mem s !! b) -> objs_kept s s'.
Proof.
  intros Hf Hk Hb b g Hg. destruct (decide (b = a)) as [->|]; simplify_eq; [by exists k|].
  rewrite Hb, Hg by done. exists (f_obj g). by destruct g.
Qed.

(** The result of [fs_fildes_ref] with 1 and -1 on an open descriptor. *)
Lemma take_step B s extra vo p t i : B < 2 ^ 31 - 1 -> fd_inv B s extra vo ->
  files_of s p = Some t -> entry t i <> 0 ->
  exists s', fs_fildes_ref s p i 1 = Some (entry t i, s') /\ procs s' = procs s /\ objs_kept s s' /\
    fd_inv (B + 1) s' (add extra (entry t i) 1) vo.
Proof.
  intros HB Hinv Ht Hi. destruct (ref_take_inv _ _ _ _ _ _ _ HB Hinv Ht Hi) as (f & k & Hf & Hr & Hi').
  eexists. split; [exact Hr|]. split_and!; try done. eapply (objs_kept_at _ _ _ f k); try done.
  - apply lookup_insert_eq.
  - intros. by apply lookup_insert_ne.
Qed.

Lemma drop_step B s extra vo p t i : B < 2 ^ 31 -> fd_inv B s extra vo ->
  files_of s p = Some t -> entry t i <> 0 -> 1 <= extra (entry t i) ->
  exists s', fs_fildes_ref s p i (-1) = Some (entry t i, s') /\ procs s' = procs s /\ objs_kept s s' /\
    fd_inv B s' (add extra (entry t i) (-1)) vo.
Proof.
  intros HB Hinv Ht Hi He.
  destruct (ref_drop_inv _ _ _ _ _ _ _ HB Hinv Ht Hi He) as (f & k & s' & Hf & Hf' & Hb & ? & ? & ? & ? & ?).
  exists s'. split_and!; try done. by eapply objs_kept_at.
Qed.

Lemma tstep_procs s s' p t : files_of s p = Some t -> procs s' = procs s -> tstep s s' p t t (entry t).
Proof.
  intros Ht Hp. split; try done; [unfold files_of; by rewrite Hp|intros; by rewrite Hp|by apply sizes_procs].
Qed.

Lemma add_add e a b : add (add e a 1) a (-1) b = e b.
Proof. unfold add. zcase; lia. Qed.
Lemma add_add' e a b : add (add e a (-1)) a 1 b = e b.
Proof. unfold add. zcase; lia. Qed.

(** A descriptor for [a] is filled in at a free entry, and takes its reference. *)
Lemma fill_step B s extra vo p t j a : B < 2 ^ 31 - 1 -> fd_inv B s extra vo -> files_of s p = Some t ->
  entry t j = 0 -> 0 <= j < count t -> a <> 0 -> 1 <= extra a ->
  fd_inv B (with_fd s p t j a) (add extra a (-1)) vo ->
  exists s' t', fs_fildes_ref (with_fd s p t j a) p j 1 = Some (a, s') /\ fd_inv B s' extra vo /\
    objs_kept s s' /\ tstep s s' p t t' (fun k => if k =? j then a else entry t k).
Proof.
  intros HB Hinv Ht Hj Hjr Ha He Hi1. pose proof (files_wf _ _ _ _ _ _ Hinv Ht) as Hw. cbn in Hw.
  destruct (rd_is_Some (fd t) j) as [d Hd]; [lia|].
  destruct (tstep_fd s (with_fd s p t j a) p t j a d Ht Hd eq_refl) as [t1 Hs1].
  pose proof (ts_entry _ _ _ _ _ _ Hs1 j) as Hj1. cbn beta in Hj1. rewrite Z.eqb_refl in Hj1.
  assert (entry t1 j <> 0) as Hj1' by congruence.
  destruct (take_step _ _ _ _ _ _ _ HB Hi1 (ts_files _ _ _ _ _ _ Hs1) Hj1') as (s2 & Hr & Hp & Hk & Hi2).
  rewrite Hj1 in Hr, Hi2. exists s2, t1. split; [done|].
  pose proof (tstep_trans _ _ _ _ _ _ _ _ _ Hs1 (tstep_procs _ _ _ _ (ts_files _ _ _ _ _ _ Hs1) Hp)) as Hs2.
  split_and!.
  - eapply (fd_inv_back _ _ s); try done; [by apply (ts_sizes _ _ _ _ _ _ Hs2)|apply add_add'].
  - eapply objs_kept_trans; [|exact Hk]. by apply objs_kept_same.
  - eapply tstep_ext; [exact Hs2|]. apply (ts_entry _ _ _ _ _ _ Hs1).
Qed.

Lemma dupfd_spec B s extra vo p t a start : B < 2 ^ 31 - 1 -> fd_inv B s extra vo ->
  files_of s p = Some t -> a <> 0 -> 0 <= start -> 1 <= extra a ->
  (exists j s' t', dupfd s p a start = Some (j, None, s') /\ start <= j < count t /\ entry t j = 0 /\
     (forall j', start <= j' < j -> entry t j' <> 0) /\ fd_inv B s' extra vo /\ objs_kept s s' /\
     tstep s s' p t t' (fun k => if k =? j then a else entry t k)) \/
  ((forall j, start <= j < count t -> entry t j <> 0) /\
     dupfd s p a start = Some (-1, Some (if count t <=? start then EMFILE else ENFILE), s)).
Proof.
  intros HB Hinv Ht Ha Hst He. unfold dupfd.
  destruct (next_spec _ _ _ _ _ _ a start Hinv Ht Ha Hst) as [(j & Hj & Hjj & Hj0 & -> & Hi1)|[Hall ->]]; mstep.
  - left. rewrite (proj2 (Z.ltb_ge j 0)) by lia.
    destruct (fill_step B s extra vo p t j a) as (s' & t' & -> & ? & ? & ?); [auto; lia..|].
    mstep. exists j, s', t'. split_and!; try done; lia.
  - right. split; [done|]. by destruct (count t <=? start).
Qed.

Lemma dup2fd_spec B s extra vo p t a i n : B < 2 ^ 31 - 1 -> fd_inv B s extra vo ->
  files_of s p = Some t -> a <> 0 -> 0 <= n -> n <> i -> 1 <= extra a ->
  if n <? count t then
    exists s' t', dup2fd s p a i n = Some (n, None, s') /\ fd_inv B s' extra vo /\
      tstep s s' p t t' (fun k => if k =? n then a else entry t k)
  else dup2fd s p a i n = Some (-1, Some EMFILE, s).
Proof.
  intros HB Hinv Ht Ha Hn Hni He. unfold dup2fd. rewrite (proj2 (Z.eqb_neq i n)) by done.
  pose proof (files_wf _ _ _ _ _ _ Hinv Ht) as Hw. cbn in Hw.
  destruct (Z.ltb_spec n (count t)) as [Hlt|Hge].
  2:{ assert (entry t n = 0) as Hz by (unfold entry; rewrite rd_is_None; [done|lia]).
      rewrite (close_none _ _ _ _ _ _ _ Hinv Ht Hz). mstep. cbn [Z.eqb Z.opp EBADF Pos.eqb andb].
      destruct (next_spec _ _ _ _ _ _ a n Hinv Ht Ha Hn) as [(j & Hj & _)|[_ ->]]; mstep; [lia|].
      by rewrite (proj2 (Z.leb_le (count t) n)) by lia. }
  destruct (close_any _ _ _ _ _ _ n HB Hinv Ht) as (r & s1 & t1 & -> & Hi1 & Hs1 & _ & Hr). mstep.
  assert (negb (r =? 0) && negb (r =? - EBADF) = false) as -> by (rewrite Hr; by destruct (_ =? 0)).
  pose proof (ts_files _ _ _ _ _ _ Hs1) as Ht1. pose proof (ts_count _ _ _ _ _ _ Hs1) as Hct.
  assert (entry t1 n = 0) as Hn1 by (rewrite (ts_entry _ _ _ _ _ _ Hs1); by rewrite Z.eqb_refl).
  destruct (next_spec _ _ _ _ _ _ a n Hi1 Ht1 Ha Hn) as [(j & Hj & Hjj & Hj0 & -> & Hi2)|[Hall _]]; mstep.
  2:{ destruct (Hall n); [lia|done]. }
  assert (j = n) as ->.
  { destruct (decide (j = n)) as [|Hne]; [done|]. destruct (Hjj n); [lia|done]. }
  rewrite (proj2 (Z.ltb_ge n 0)) by lia. rewrite Z.eqb_refl. cbn [negb].
  destruct (fill_step B s1 extra vo p t1 n a) as (s' & t' & -> & ? & ? & Hs'); [auto; lia..|].
  mstep. rewrite (proj2 (Z.eqb_neq a 0)) by done. exists s', t'. split_and!; try done.
  eapply tstep_ext; [by eapply tstep_trans|]. intros k. cbn beta. rewrite (ts_entry _ _ _ _ _ _ Hs1).
  by zcase.
Qed.

(** The end of a system call gives back the reference taken at its start. *)
Lemma drop_back B s extra vo p t i s2 t2 e : B < 2 ^ 31 - 1 -> fd_inv B s extra vo ->
  entry t i <> 0 -> fd_inv (B + 1) s2 (add extra (entry t i) 1) vo -> tstep s s2 p t t2 e ->
  e i = entry t i ->
  exists s3, fs_fildes_ref s2 p i (-1) = Some (entry t i, s3) /\ objs_kept s2 s3 /\
    fd_inv B s3 extra vo /\ tstep s s3 p t t2 e.
Proof.
  intros HB Hinv Hi Hi2 Hs He. pose proof (ts_files _ _ _ _ _ _ Hs) as Ht2.
  assert (entry t2 i = entry t i) as Heq by (by rewrite (ts_entry _ _ _ _ _ _ Hs)).
  pose proof (fi_extra _ _ _ _ Hinv (entry t i)).
  destruct (drop_step (B + 1) s2 _ vo p t2 i ltac:(lia) Hi2 Ht2) as (s3 & Hr & Hp & Hk & Hi3).
  - by rewrite Heq.
  - rewrite Heq, add_eq. lia.
  - rewrite Heq in Hr, Hi3.
    assert (tstep s s3 p t t2 e) as Hs3.
    { eapply tstep_ext; [eapply tstep_trans; [exact Hs|by apply tstep_procs]|].
      apply (ts_entry _ _ _ _ _ _ Hs). }
    exists s3. split_and!; try done.
    eapply (fd_inv_back _ _ s); try done; [by apply (ts_sizes _ _ _ _ _ _ Hs3)|apply add_add].
Qed.

(** An update of the open file [a] by the file system or by the flags. *)
Lemma put_step B s extra vo p t i f g : fd_inv B s extra vo -> files_of s p = Some t ->
  entry t i <> 0 -> mem s !! entry t i = Some f -> vnode_of g = vnode_of f -> f_obj g = f_obj f ->
  fd_inv B (put_file s (entry t i) g) extra vo /\ tstep s (put_file s (entry t i) g) p t t (entry t).
Proof.
  intros Hinv Ht Hi Hf Hv Hk. split; [|by apply tstep_procs].
  destruct (fd_file _ _ _ _ _ _ _ Hinv Ht Hi) as (f' & Hf' & Hal & _). simplify_eq.
  by eapply fd_inv_put.
Qed.

Definition fcntl_args_ok (cmd ival : Z) : Prop :=
  cmd = F_DUPFD \/ cmd = F_DUPFD_CLOEXEC \/ cmd = F_DUP2FD -> 0 <= ival.

Definition call_ok (B : Z) (s : fstate) (extra vo : Z -> Z) (p : nat) (t : files_t) (r : option sysret)
    (P : (Z -> Z) -> Prop) : Prop :=
  exists ret errno s' t' e, r = Some (ret, errno, s') /\ fd_inv B s' extra vo /\ tstep s s' p t t' e /\ P e.

Lemma dupfd_ok B s extra vo p t i start : B < 2 ^ 31 - 1 -> fd_inv B s extra vo ->
  files_of s p = Some t -> entry t i <> 0 -> 0 <= start -> 1 <= extra (entry t i) ->
  call_ok B s extra vo p t (dupfd s p (entry t i) start) (fun e => e i = entry t i).
Proof.
  intros HB Hinv Ht Hi Hst He.
  destruct (dupfd_spec _ _ _ _ _ _ _ start HB Hinv Ht Hi Hst He)
    as [(j & s' & t' & -> & _ & Hj & _ & ? & _ & ?)|[_ ->]].
  - eexists j, None, s', t', _. split_and!; try done. cbn beta. zcase; congruence.
  - eexists (-1), _, s, t, _. split_and!; try done.
Qed.

Lemma call_ok_after B s s1 extra vo p t r P : tstep s s1 p t t (entry t) ->
  call_ok B s1 extra vo p t r P -> call_ok B s extra vo p t r P.
Proof.
  intros Hs (ret & errno & s' & t' & e & Hr & Hi & Hs' & HP). exists ret, errno, s', t', e.
  split_and!; try done. by eapply tstep_trans.
Qed.

Lemma call_ok_same B s extra vo p t i ret errno : fd_inv B s extra vo -> files_of s p = Some t ->
  call_ok B s extra vo p t (Some (ret, errno, s)) (fun e => e i = entry t i).
Proof. intros. by exists ret, errno, s, t, (entry t). Qed.

Lemma fcntl_cmd_ok B s extra vo p t i cmd ival : B < 2 ^ 31 - 1 -> fd_inv B s extra vo ->
  files_of s p = Some t -> entry t i <> 0 -> 1 <= extra (entry t i) -> fcntl_args_ok cmd ival ->
  call_ok B s extra vo p t (fcntl_cmd s p (entry t i) i cmd ival) (fun e => e i = entry t i).
Proof.
  intros HB Hinv Ht Hi He Harg. unfold fcntl_args_ok in Harg.
  destruct (fd_file _ _ _ _ _ _ _ Hinv Ht Hi) as (f & Hf & _).
  assert (forall o, exists s1, set_file_flags s (entry t i) o = Some s1 /\
    fd_inv B s1 extra vo /\ tstep s s1 p t t (entry t)) as Hfl.
  { intros o. unfold set_file_flags. rewrite Hf. mstep. eexists. split; [done|]. by eapply put_step. }
  unfold fcntl_cmd. repeat case_match; mstep.
  - edestruct Hfl as (s1 & -> & Hi1 & Hs1). mstep. eapply call_ok_after; [exact Hs1|].
    eapply dupfd_ok; eauto using ts_files. apply Harg. lia.
  - apply dupfd_ok; try done. apply Harg. lia.
  - assert (0 <= ival) as Hn by (apply Harg; lia).
    destruct (decide (i = ival)) as [->|Hne].
    + unfold dup2fd. rewrite Z.eqb_refl. by apply call_ok_same.
    + pose proof (dup2fd_spec _ _ _ _ _ _ (entry t i) i ival HB Hinv Ht Hi Hn (not_eq_sym Hne) He) as Hd.
      destruct (ival <? count t).
      * destruct Hd as (s' & t' & -> & ? & ?). eexists ival, None, s', t', _. split_and!; try done. cbn beta. zcase; [lia|done].
      * rewrite Hd. by apply call_ok_same.
  - rewrite Hf. mstep. by apply call_ok_same.
  - edestruct Hfl as (s1 & -> & Hi1 & Hs1). mstep. eapply call_ok_after; [exact Hs1|].
    apply call_ok_same; [done|by eapply ts_files].
  - rewrite Hf. mstep. by apply call_ok_same.
  - edestruct Hfl as (s1 & -> & Hi1 & Hs1). mstep. eapply call_ok_after; [exact Hs1|].
    apply call_ok_same; [done|by eapply ts_files].
  - by apply call_ok_same.
Qed.

Lemma sys_fcntl_ok B s extra vo p t i cmd ival : B < 2 ^ 31 - 2 -> fd_inv B s extra vo ->
  files_of s p = Some t -> fcntl_args_ok cmd ival ->
  call_ok B s extra vo p t (sys_fcntl s p (Some (i, cmd, ival))) (fun _ => True).
Proof.
  intros HB Hinv Ht Harg. cbn [sys_fcntl]. assert (B < 2 ^ 31 - 1) as HB1 by lia.
  assert (B + 1 < 2 ^ 31 - 1) as HB2 by lia.
  destruct (decide (entry t i = 0)) as [Hz|Hi].
  { rewrite (ref_none s p t) by eauto using files_wf. by exists (-1), (Some EBADF), s, t, (entry t). }
  destruct (take_step _ _ _ _ _ _ _ HB1 Hinv Ht Hi) as (s1 & -> & Hp & _ & Hi1). mstep.
  rewrite (proj2 (Z.eqb_neq _ 0)) by done.
  pose proof (tstep_procs _ _ _ _ Ht Hp) as Hs1. pose proof (fi_extra _ _ _ _ Hinv (entry t i)).
  destruct (fcntl_cmd_ok (B + 1) s1 _ vo p t i cmd ival HB2 Hi1 (ts_files _ _ _ _ _ _ Hs1) Hi)
    as (ret & errno & s2 & t2 & e & -> & Hi2 & Hs2 & He); [rewrite add_eq; lia|done|]. mstep.
  destruct (drop_back _ _ _ _ p t i s2 t2 e HB1 Hinv Hi Hi2) as (s3 & -> & _ & Hi3 & Hs3);
    [by eapply tstep_trans|done|]. mstep.
  by exists ret, errno, s3, t2, e.
Qed.

(** ** Opening *)

(** The permission test of [fs_fildes_create_curproc]. *)
Definition may_open (su : bool) (cur : cred) (v oflags : Z) : Prop :=
  granted su cur PRIV_VFS_ADMIN \/ permitted su cur cur (op_stat v).2 oflags.

Lemma perm_spec su cur v oflags : cred_wf cur -> v <> 0 ->
  exists admin r, priv_check su cur PRIV_VFS_ADMIN = Some admin /\
    (if admin =? 0 then Some 0 else chkperm_vnode_curproc su cur v oflags) = Some r /\ r <= 0 /\
    (r = 0 -> may_open su cur v oflags).
Proof.
  intros Hwf Hv. destruct (granted_spec su cur PRIV_VFS_ADMIN Hwf) as (admin & Hc & Hg); [done..|].
  exists admin. unfold may_open. destruct (Z.eqb_spec admin 0).
  - exists 0. naive_solver.
  - unfold chkperm_vnode_curproc, chkperm_vnode. rewrite (proj2 (Z.eqb_neq v 0)) by done.
    pose proof (stat_error v). destruct (op_stat v) as [err st]. cbn in *.
    destruct (Z.eqb_spec err 0); cbn [negb].
    + destruct (chkperm_spec su cur cur st oflags Hwf) as (r & Hr & Hr' & Hiff).
      exists r. split_and!; try done; [|naive_solver]. unfold EPERM in *. lia.
    + exists err. split_and!; try done.
Qed.

Definition open_failed (B : Z) (s : fstate) (extra vo : Z -> Z) (r : option (Z * fstate)) : Prop :=
  exists err s', r = Some (err, s') /\ err < 0 /\ mem s' = mem s /\ procs s' = procs s /\
    fd_inv B s' extra vo.
Definition opened (B : Z) (s : fstate) (extra vo : Z -> Z) (p : nat) (t : files_t) (v kzalloc : Z)
    (r : option (Z * fstate)) : Prop :=
  exists j s' t' g, r = Some (j, s') /\ 0 <= j < count t /\ entry t j = 0 /\
    (forall j', 0 <= j' < j -> entry t j' <> 0) /\ fd_inv B s' extra vo /\
    tstep s s' p t t' (fun k => if k =? j then kzalloc else entry t k) /\
    mem s' = <[kzalloc := g]> (mem s) /\ vnode_of g = v.

Lemma create_out_fail B s extra vo v n err : fd_inv B s extra (add vo v 1) -> v <> 0 ->
  vnodes s !! v = Some n -> 0 <= vo v -> err < 0 -> open_failed B s extra vo (create_out v err s).
Proof.
  intros Hinv Hv Hn Hvo Herr. unfold create_out. rewrite (proj2 (Z.ltb_lt err 0)) by done.
  destruct (vrele_inv _ _ _ _ _ _ Hinv Hv Hn) as (s2 & -> & Hm & Hp & Hi2); [rewrite add_eq; lia|].
  mstep. exists err, s2. split_and!; try done. eapply fd_inv_ext_vo; [|exact Hi2].
  intros w. apply add_add.
Qed.

Lemma create_file_spec B s extra vo p t v n o is_dir st kz : fd_inv B s extra (add vo v 1) ->
  files_of s p = Some t -> v <> 0 -> vnodes s !! v = Some n -> 0 <= vo v ->
  kz = 0 \/ mem s !! kz = None ->
  let r := create_file s p v o n is_dir st kz in
  open_failed B s extra vo r \/ opened B s extra vo p t v kz r.
Proof.
  intros Hinv Ht Hv Hn Hvo Hkz r. subst r. unfold create_file.
  pose proof (files_wf _ _ _ _ _ _ Hinv Ht) as Hw. cbn in Hw.
  destruct (Z.eqb_spec kz 0) as [->|Hkz0]; [left; by eapply create_out_fail|].
  destruct Hkz as [|Hfresh]; [done|]. set (f0 := File _ 0 0 0 _).
  assert (set_mem (put_file s kz f0) (delete kz (mem (put_file s kz f0))) = s) as Hback
    by (destruct s; unfold put_file, set_mem; cbn in *; by rewrite delete_insert_id).
  unfold fs_fildes_curproc_next. change (files_of (put_file s kz f0) p) with (files_of s p).
  rewrite Ht. mstep. rewrite (proj2 (Z.eqb_neq kz 0)) by done.
  destruct (Z.ltb_spec (count t - 1) 0); mstep.
  { left. cbn [Z.ltb Z.compare Z.opp EMFILE]. rewrite Hback. by eapply create_out_fail. }
  destruct (next_loop_spec (Z.to_nat (count t - 0)) (put_file s kz f0) p t kz 0 Ht)
    as [(j & Hj & Hj0 & Hjj & ->)|[_ ->]]; [lia..| |]; mstep.
  2:{ left. cbn [Z.ltb Z.compare Z.opp ENFILE]. rewrite Hback. by eapply create_out_fail. }
  right. rewrite (proj2 (Z.ltb_ge j 0)) by lia.
  rewrite (files_of_with_fd (put_file s kz f0) p t j kz Ht). mstep. cbn [fd].
  rewrite rd_insert_eq by (by eapply rd_Some_lt). mstep. unfold fs_fildes_set.
  rewrite (proj2 (Z.eqb_neq kz 0)), (proj2 (Z.eqb_neq v 0)) by done. cbn [orb].
  cbn [mem with_fd set_files set_procs put_file set_mem]. rewrite lookup_insert_eq. mstep.
  cbn [mem put_file set_mem]. rewrite lookup_insert_eq. mstep. set (o' := if _ && _ then _ else _).
  set (g := op_event_fd_created _). destruct (created_same (set_oflags (File (seek_pos f0) o v (stream f0) kobj_init) o'))
    as (Hgv & Hgk & _). fold g in Hgv, Hgk. cbn in Hgv, Hgk.
  destruct (tstep_fd s (put_file (with_fd s p t j kz) kz g) p t j kz 0 Ht Hj0 eq_refl) as [t' Hs'].
  unfold create_out. rewrite (proj2 (Z.ltb_ge j 0)) by lia.
  exists j, (put_file (with_fd s p t j kz) kz g), t', g. split_and!; try done; try lia.
  - unfold put_file, with_fd, set_files, set_procs, set_mem. cbn. by rewrite !insert_insert_eq.
  - unfold entry. by rewrite Hj0.
  - eapply fd_inv_ext_vo; [|eapply (fd_inv_open B s extra (add vo v 1) v)]; try done.
    + intros w. apply add_add.
    + by rewrite Hgk.
    + by rewrite Hgk.
    + rewrite add_eq. lia.
Qed.

Lemma fildes_create_spec su cur B s extra vo p t v n o kz : cred_wf cur ->
  fd_inv B s extra vo -> files_of s p = Some t -> v <> 0 -> vnodes s !! v = Some n ->
  vn_refcount n < 2 ^ 31 - 1 -> kz = 0 \/ mem s !! kz = None ->
  let r := fs_fildes_create_curproc su cur s p v o kz in
  open_failed B s extra vo r \/ (opened B s extra vo p t v kz r /\ may_open su cur v o).
Proof.
  intros Hwf Hinv Ht Hv Hn Hlt Hkz. cbv zeta. unfold fs_fildes_create_curproc.
  rewrite (proj2 (Z.eqb_neq v 0)) by done.
  destruct (vref_inv _ _ _ _ _ _ Hinv Hn Hlt) as [-> Hi1]. mstep.
  set (s1 := set_vnodes s _) in *. set (n1 := set_refcount n (vn_refcount n + 1)) in *.
  assert (vnodes s1 !! v = Some n1) as Hn1 by apply lookup_insert_eq. rewrite Hn1. mstep.
  assert (0 <= vo v) as Hvo by apply (oi_other _ _ _ (fi_obj _ _ _ _ Hinv)).
  assert (forall err, err < 0 -> open_failed B s extra vo (create_out v err s1)) as Hfail
    by (intros err Herr; exact (create_out_fail B s1 extra vo v n1 err Hi1 Hv Hn1 Hvo Herr)).
  destruct (perm_spec su cur v o Hwf Hv) as (admin & r & -> & Hr & Hr0 & Hmay). mstep. rewrite Hr. mstep.
  destruct (Z.eqb_spec r 0) as [->|Hrn]; cbn [negb]; [|left; apply Hfail; lia]. specialize (Hmay eq_refl).
  destruct (flag o O_DIRECTORY && _); [left; by apply Hfail|].
  pose proof (stat_error v). destruct (op_stat v) as [err st] eqn:Est. cbn [fst] in *.
  destruct (Z.eqb_spec err 0) as [->|Hne]; cbn [negb]; [|left; apply Hfail; lia].
  destruct (Z.ltb_spec (op_event_vnode_opened v) 0); [left; by apply Hfail|].
  destruct (create_file_spec B s1 extra vo p t v n1 o (S_ISDIR (vn_mode n1)) st kz)
    as [Hf|(j & s' & t' & g & Hr' & Hrest)]; try done; [left; exact Hf|right].
  split; [|done]. exists j, s', t', g. split; [done|]. destruct Hrest as (? & ? & ? & ? & Hs & ? & ?).
  split_and!; try done; try lia. by destruct Hs.
Qed.

(** ** Fork and exit *)

Lemma tstep_other s s' c t t' e p tp : tstep s s' c t t' e -> p <> c -> files_of s p = Some tp ->
  files_of s' p = Some tp.
Proof. intros Hs Hne Hp. unfold files_of. by rewrite (ts_others _ _ _ _ _ _ Hs p Hne). Qed.

Lemma entry_in t i : 0 <= i < Z.of_nat (length (fd t)) -> (fd t).[i] = Some (entry t i).
Proof. intros Hi. unfold entry. by destruct (rd_is_Some _ _ Hi) as [a ->]. Qed.

Lemma fork_step B s extra vo p c tp tc i : B < 2 ^ 31 - 1 -> fd_inv B s extra vo ->
  files_of s p = Some tp -> files_of s c = Some tc -> p <> c -> 0 <= i < count tp -> i < count tc ->
  entry tc i = 0 ->
  exists s1 r s2 tc', set_fd s c i (entry tp i) = Some s1 /\ fs_fildes_ref s1 c i 1 = Some (r, s2) /\
    fd_inv B s2 extra vo /\ tstep s s2 c tc tc' (fun j => if j =? i then entry tp i else entry tc j).
Proof.
  intros HB Hinv Hp Hc Hne Hi Hic Hz.
  pose proof (files_wf _ _ _ _ _ _ Hinv Hp) as Hwp. pose proof (files_wf _ _ _ _ _ _ Hinv Hc) as Hwc.
  cbn in Hwp, Hwc. assert ((fd tc).[i] = Some 0) as Hci by (rewrite entry_in by lia; by rewrite Hz).
  set (a := entry tp i). set (s1 := with_fd s c tc i a).
  exists s1. pose proof (files_of_with_fd s c tc i a Hc) as Hc1. fold s1 in Hc1.
  set (tc1 := Files _ _ _) in Hc1.
  assert (table_wf (Some tc1)) as Hw1 by (cbn; rewrite length_insert; done).
  assert (entry tc1 i = a) as He1.
  { unfold entry. cbn [fd tc1]. by rewrite rd_insert_eq by (by eapply rd_Some_lt). }
  destruct (decide (a = 0)) as [Ha|Ha].
  - destruct (tstep_fd s s1 c tc i a 0 Hc Hci eq_refl) as [t' Ht'].
    exists 0, s1, t'. split_and!; [by apply (set_fd_spec _ _ _ _ 0)| |  |done].
    + apply (ref_none _ _ tc1); try done. congruence.
    + apply (fd_inv_with_fd B s s extra vo c tc i 0 a (fun b => slots s b + extra b)); try done.
      * apply (fi_obj _ _ _ _ Hinv).
      * intros b. rewrite Ha, !ind_zero. lia.
  - destruct (fd_file _ _ _ _ _ _ i Hinv Hp Ha) as (f & Hf & _). fold a in Hf.
    pose proof (slots_bound _ _ _ _ a Hinv). pose proof (fi_extra _ _ _ _ Hinv a).
    pose proof (slots_pos s p tp i a Hp (entry_open _ _ Ha) Ha).
    assert (obj_inv s1 (fun a => slots s a + extra a) vo) as Ho1
      by (apply (obj_inv_procs s); try done; apply (fi_obj _ _ _ _ Hinv)).
    destruct (ref_take s1 _ vo c tc1 i f Ho1 Hc1 Hw1) as (k & Hr & Ho2); rewrite ?He1; try done; try lia.
    rewrite He1 in Hr, Ho2. set (s2 := put_file s1 a _) in *.
    destruct (tstep_fd s s2 c tc i a 0 Hc Hci eq_refl) as [t' Ht'].
    exists a, s2, t'. split_and!; try done; [by apply (set_fd_spec _ _ _ _ 0)|].
    eapply (fd_inv_table B s s2 extra vo c tc); try done; [apply length_insert|].
    intros b. cbn beta. rewrite (zsum_fd tc i 0), ind_zero by done. unfold add, ind.
    rewrite (proj2 (Z.eqb_neq a 0)), (Z.eqb_sym b), andb_true_r by done. destruct (a =? b); lia.
Qed.

Lemma fork_copy_spec k : forall B s extra vo p c tp tc i, B < 2 ^ 31 - 1 -> fd_inv B s extra vo ->
  files_of s p = Some tp -> files_of s c = Some tc -> p <> c -> 0 <= i ->
  i + Z.of_nat k <= count tp -> i + Z.of_nat k <= count tc ->
  (forall j, i <= j -> entry tc j = 0) ->
  exists s' tc', fork_copy k s p c i = Some s' /\ fd_inv B s' extra vo /\
    tstep s s' c tc tc' (fun j => if decide (i <= j < i + Z.of_nat k) then entry tp j else entry tc j).
Proof.
  induction k as [|k IH]; intros B s extra vo p c tp tc i HB Hinv Hp Hc Hne Hi Hkp Hkc Hz; cbn [fork_copy].
  - exists s, tc. split_and!; try done. eapply tstep_ext; [by apply tstep_refl|].
    intros j. cbn beta. case_decide; [lia|done].
  - rewrite Hp. mstep. pose proof (files_wf _ _ _ _ _ _ Hinv Hp) as Hwp. cbn in Hwp.
    rewrite entry_in by lia. mstep.
    destruct (fork_step B s extra vo p c tp tc i) as (s1 & r & s2 & tc2 & -> & Hr & Hi2 & Hs2);
      try done; try lia; [apply Hz; lia|].
    mstep. rewrite Hr. mstep.
    destruct (IH B s2 extra vo p c tp tc2 (i + 1)) as (s3 & tc3 & -> & Hi3 & Hs3); try done; try lia.
    + by eapply tstep_other.
    + by eapply ts_files.
    + rewrite (ts_count _ _ _ _ _ _ Hs2). lia.
    + intros j Hj. rewrite (ts_entry _ _ _ _ _ _ Hs2). zcase; [lia|]. apply Hz. lia.
    + exists s3, tc3. split_and!; try done. eapply tstep_ext; [by eapply tstep_trans|].
      intros j. cbn beta. rewrite (ts_entry _ _ _ _ _ _ Hs2).
      destruct (Z.eqb_spec j i) as [->|]; repeat case_decide; first [done|lia].
Qed.

Lemma fd_inv_new_table B s extra vo n : 0 <= n -> fd_inv B s extra vo ->
  fd_inv (B + n) (set_procs s (procs s ++ [Some (Files n n (replicate (Z.to_nat n) 0))])) extra vo.
Proof.
  intros Hn [Hw1 Hw2 Hw3 Ho].
  assert (forall b, slots (set_procs s (procs s ++ [Some (Files n n (replicate (Z.to_nat n) 0))])) b = slots s b) as Hs.
  { intros b. unfold slots. cbn [procs set_procs]. rewrite zsum_app. cbn [zsum table_refs fd].
    rewrite (zsum_const (ind b) _ 0); [lia|]. intros x Hx%elem_of_replicate_inv. subst. apply ind_zero. }
  split.
  - intros p o. cbn. rewrite lookup_app_Some. intros [?|[_ Ho']]; [by eapply Hw1|].
    destruct (p - _)%nat; [|done]. cbn in Ho'. simplify_eq. cbn. rewrite length_replicate. lia.
  - intros a. specialize (Hw2 a). unfold fds_total in *. cbn [procs set_procs]. rewrite zsum_app. cbn. lia.
  - done.
  - eapply obj_inv_ext; [|apply (obj_inv_procs s); [..|exact Ho]; done]. intros a. cbn beta. by rewrite Hs.
Qed.

(** The child has the descriptors of its parent, on the same file objects. *)
Lemma fork_spec B s extra vo p t n : B + n < 2 ^ 31 - 1 -> fd_inv B s extra vo -> files_of s p = Some t ->
  count t <= n ->
  exists s' tc, fork_files s p n true = Some (0, s') /\ fd_inv (B + n) s' extra vo /\
    procs s' = procs s ++ [Some tc] /\ count tc = n /\ umask tc = n /\ forall j, entry tc j = entry t j.
Proof.
  intros HB Hinv Ht Hn. pose proof (files_wf _ _ _ _ _ _ Hinv Ht) as Hw. cbn in Hw.
  unfold fork_files, fs_alloc_files. rewrite Ht. mstep.
  pose proof (fd_inv_new_table B s extra vo n ltac:(lia) Hinv) as Hi1.
  set (tc := Files n n _) in *. set (s1 := set_procs s _) in *. set (c := length (procs s)).
  pose proof (files_of_procs _ _ _ Ht) as Hpt. pose proof (lookup_lt_Some _ _ _ Hpt).
  assert (files_of s1 p = Some t) as Hp1.
  { unfold files_of. cbn [s1 procs set_procs]. by rewrite lookup_app_l, Hpt by done. }
  assert (files_of s1 c = Some tc) as Hc1.
  { unfold files_of. cbn [s1 procs set_procs]. by rewrite lookup_app_r, Nat.sub_diag by done. }
  assert (forall j, entry tc j = 0) as Hz.
  { intros j. unfold entry. destruct (fd tc).[j] as [x|] eqn:E; [|done]. cbn.
    unfold rd in E. destruct (j <? 0); [done|]. by apply lookup_replicate in E as [-> _]. }
  destruct (fork_copy_spec (Z.to_nat (count t)) (B + n) s1 extra vo p c t tc 0)
    as (s' & tc' & Hf & Hi' & Hs'); try done; try (subst c; cbn [count tc]; lia).
  rewrite Hf. mstep. exists s', tc'. split_and!; try done.
  - apply list_eq. intros q. destruct (decide (q = c)) as [->|Hq].
    + rewrite lookup_app_r, Nat.sub_diag by done. by apply files_of_procs, (ts_files _ _ _ _ _ _ Hs').
    + rewrite (ts_others _ _ _ _ _ _ Hs' q Hq). cbn [s1 procs set_procs].
      destruct (decide (q < c)%nat); [by rewrite !lookup_app_l by done|].
      rewrite !lookup_ge_None_2; try done; rewrite length_app; cbn; lia.
  - by rewrite (ts_count _ _ _ _ _ _ Hs').
  - by rewrite (ts_umask _ _ _ _ _ _ Hs').
  - intros j. rewrite (ts_entry _ _ _ _ _ _ Hs'). case_decide; [done|]. rewrite Hz.
    unfold entry. rewrite rd_is_None; [done|lia].
Qed.

Lemma zsum_first t b : table_wf (Some t) -> (forall j, 0 < j -> entry t j = 0) ->
  zsum (ind b) (fd t) = ind b (entry t 0).
Proof.
  intros Hw Hz. unfold entry, rd in *. cbn [Z.ltb Z.compare Z.to_nat]. destruct (fd t) as [|x l]; [by rewrite ind_zero|].
  cbn [zsum]. rewrite (zsum_const (ind b) l 0); [change ((x :: l) !! Z.to_nat 0) with (Some x); change (from_option id 0 (Some x)) with x; lia|].
  intros y [q Hq]%list_elem_of_lookup. specialize (Hz (Z.of_nat (S q)) ltac:(lia)).
  rewrite (proj2 (Z.ltb_ge _ 0)), Nat2Z.id in Hz by lia. change ((x :: l) !! S q) with (l !! q) in Hz. rewrite Hq in Hz. cbn in Hz. subst.
  apply ind_zero.
Qed.

(** The end of a process: descriptor 0 is not closed, and its reference stays. *)
Lemma free_files_spec B s extra vo p t : B < 2 ^ 31 - 1 -> fd_inv B s extra vo -> files_of s p = Some t ->
  exists s', free_files s p = Some s' /\ files_of s' p = None /\
    (forall q, q <> p -> procs s' !! q = procs s !! q) /\
    fd_inv B s' (fun a => extra a + ind a (entry t 0)) vo.
Proof.
  intros HB Hinv Ht. unfold free_files.
  destruct (close_all_spec _ _ _ _ _ _ 0 HB Hinv Ht) as (s1 & t1 & -> & Hi1 & Hs1). mstep.
  pose proof (ts_files _ _ _ _ _ _ Hs1) as Ht1. pose proof (files_of_procs _ _ _ Ht1) as Hpt.
  pose proof (files_wf _ _ _ _ _ _ Hi1 Ht1) as Hw1. pose proof (files_wf _ _ _ _ _ _ Hinv Ht) as Hw.
  pose proof (ts_entry _ _ _ _ _ _ Hs1) as He. cbn in Hw, Hw1.
  assert (forall b, zsum (ind b) (fd t1) = ind b (entry t 0)) as Hsum.
  { intros b. rewrite zsum_first; [rewrite He; by rewrite decide_False by lia|exact Hw1|].
    intros j Hj. rewrite He. destruct (decide _); [done|]. unfold entry. rewrite rd_is_None; [done|lia]. }
  eexists. split; [done|]. destruct Hi1 as [Hi1a Hi1b Hi1c Ho]. split_and!.
  - unfold files_of. cbn. by rewrite list_lookup_insert_eq by eauto using lookup_lt_Some.
  - intros q Hq. cbn. rewrite list_lookup_insert_ne by done. by apply (ts_others _ _ _ _ _ _ Hs1).
  - split.
    + intros q o. cbn. destruct (decide (q = p)) as [->|].
      * rewrite list_lookup_insert_eq by eauto using lookup_lt_Some. by intros [= <-].
      * rewrite list_lookup_insert_ne by done. apply Hi1a.
    + intros a. specialize (Hi1b a). unfold fds_total in *. cbn [procs set_procs].
      rewrite (zsum_insert _ _ _ _ _ Hpt). rewrite <- Hsum.
      enough (zsum (ind a) (fd t1) <= count t1) by lia. rewrite Hw1.
      pose proof (zsum_le (ind a) (fun _ => 1) (fd t1) ltac:(intros; apply ind_range)) as Hle.
      rewrite (zsum_const (fun _ => 1) (fd t1) 1) in Hle by done. lia.
    + intros a. specialize (Hi1c a). pose proof (ind_range a (entry t 0)). lia.
    + eapply obj_inv_ext; [|apply (obj_inv_procs s1); [..|exact Ho]; done]. intros a. cbn beta.
      unfold slots. cbn [procs set_procs]. rewrite (zsum_insert _ _ _ _ _ Hpt). cbn [table_refs].
      rewrite Hsum. lia.
Qed.

(** ** The other system calls *)

Lemma sys_readwrite_ok B s extra vo p t i nbytes uio_err write : B < 2 ^ 31 - 1 ->
  fd_inv B s extra vo -> files_of s p = Some t ->
  exists ret errno s', sys_readwrite s p (Some (i, nbytes)) uio_err write = Some (ret, errno, s') /\
    fd_inv B s' extra vo /\ tstep s s' p t t (entry t).
Proof.
  intros HB Hinv Ht. cbn [sys_readwrite]. pose proof (tstep_refl _ _ _ Ht).
  destruct (uio_err =? 0); cbn [negb]; [|by exists (-1), (Some EFAULT), s].
  destruct (decide (entry t i = 0)) as [Hz|Hi].
  { rewrite (ref_none s p t) by eauto using files_wf. by exists (-1), (Some EBADF), s. }
  destruct (take_step _ _ _ _ _ _ _ HB Hinv Ht Hi) as (s1 & -> & Hp & _ & Hi1). mstep.
  rewrite (proj2 (Z.eqb_neq _ 0)) by done. pose proof (tstep_procs _ _ _ _ Ht Hp) as Hs1.
  destruct (fd_file _ _ _ _ _ _ _ Hi1 (ts_files _ _ _ _ _ _ Hs1) Hi) as (f & Hf & _). rewrite Hf. mstep.
  destruct (flag _ _ && _); cbn [negb].
  2:{ destruct (drop_back _ _ _ _ p t i s1 t _ HB Hinv Hi Hi1 Hs1 eq_refl) as (s3 & -> & _ & ? & ?). mstep.
      by exists (-1), (Some EBADF), s3. }
  assert (same_file f (if write then op_write f nbytes else op_read f nbytes).2) as (Hv & Hk & _)
    by (destruct write; [apply write_same|apply read_same]).
  destruct (if write then _ else _) as [n g]. cbn [snd] in *.
  destruct (put_step _ _ _ _ _ _ _ f g Hi1 (ts_files _ _ _ _ _ _ Hs1) Hi Hf Hv Hk) as [Hi2 Hs2].
  destruct (drop_back _ _ _ _ p t i _ t (entry t) HB Hinv Hi Hi2) as (s3 & Hd & _ & ? & ?);
    [by eapply tstep_trans|done|].
  destruct (n <? 0); rewrite Hd; mstep; by eexists _, _, s3.
Qed.

Lemma sys_lseek_ok B s extra vo p t i offset whence f n : B < 2 ^ 31 - 1 ->
  fd_inv B s extra vo -> files_of s p = Some t ->
  (entry t i <> 0 -> mem s !! entry t i = Some f /\ vnodes s !! vnode_of f = Some n /\
     S_ISFIFO (vn_mode n) || S_ISSOCK (vn_mode n) = false) ->
  exists ret errno res s', sys_lseek s p (Some (i, offset, whence)) = Some ((ret, errno, s'), res) /\
    fd_inv B s' extra vo /\ tstep s s' p t t (entry t).
Proof.
  intros HB Hinv Ht Hfn. cbn [sys_lseek].
  destruct (decide (entry t i = 0)) as [Hz|Hi].
  { rewrite (ref_none s p t) by eauto using files_wf. exists (-1), (Some EBADF), None, s. 
    split_and!; try done. }
  destruct (Hfn Hi) as (Hf & Hn & Hnf).
  destruct (ref_take_inv _ _ _ _ _ _ _ HB Hinv Ht Hi) as (f' & k & Hf' & Hr & Hi1). simplify_eq.
  rewrite Hr. mstep. rewrite (proj2 (Z.eqb_neq _ 0)) by done. set (s1 := put_file s _ _) in *.
  assert (mem s1 !! entry t i = Some (set_obj f k)) as Hf1 by apply lookup_insert_eq. rewrite Hf1. mstep.
  change (vnodes s1 !! vnode_of (set_obj f k)) with (vnodes s !! vnode_of f). rewrite Hn. mstep. rewrite Hnf.
  assert (tstep s s1 p t t (entry t)) as Hs1 by (by apply tstep_procs).
  destruct (lseek_same (set_obj f k) offset whence) as (Hv & Hk & _).
  destruct (op_lseek (set_obj f k) offset whence) as [o g]. cbn [snd] in *.
  destruct (put_step _ _ _ _ _ _ _ _ g Hi1 (ts_files _ _ _ _ _ _ Hs1) Hi Hf1 Hv Hk) as [Hi2 Hs2].
  destruct (drop_back _ _ _ _ p t i _ t (entry t) HB Hinv Hi Hi2) as (s3 & Hd & _ & ? & ?);
    [by eapply tstep_trans|done|].
  destruct (o <? 0); mstep; cbn [mem put_file set_mem]; rewrite lookup_insert_eq; mstep;
    fold (put_file s1 (entry t i) g); rewrite Hd; mstep; by eexists _, _, _, s3.
Qed.

(** ** Histories *)

(** Operations of processes; [OOpen] has the answer of the allocator. *)
Inductive fdop :=
| OOpen (su : bool) (cur : cred) (p : nat) (v oflags kzalloc : Z)
| OClose (p : nat) (i : Z)
| OCloseAll (p : nat) (fildes_begin : Z)
| OFcntl (p : nat) (i cmd ival : Z)
| ORw (p : nat) (i nbytes uio_err : Z) (write : bool)
| OLseek (p : nat) (i offset whence : Z)
| OExec (p : nat)
| OFork (p : nat) (nofile_max : Z)
| OExit (p : nat).

Definition do_op (s : fstate) (o : fdop) : option fstate :=
  match o with
  | OOpen su cur p v oflags kz => '(_, s) ← fs_fildes_create_curproc su cur s p v oflags kz; Some s
  | OClose p i => '(_, _, s) ← sys_close s p i; Some s
  | OCloseAll p b => '(_, _, s) ← sys_close_all s p b; Some s
  | OFcntl p i cmd ival => '(_, _, s) ← sys_fcntl s p (Some (i, cmd, ival)); Some s
  | ORw p i n e w => '(_, _, s) ← sys_readwrite s p (Some (i, n)) e w; Some s
  | OLseek p i off w => '(_, _, s, _) ← sys_lseek s p (Some (i, off, w)); Some s
  | OExec p => fs_fildes_close_exec s p
  | OFork p n => '(_, s) ← fork_files s p n true; Some s
  | OExit p => free_files s p
  end.

Definition op_proc (o : fdop) : nat :=
  match o with
  | OOpen _ _ p _ _ _ | OClose p _ | OCloseAll p _ | OFcntl p _ _ _ | ORw p _ _ _ _
  | OLseek p _ _ _ | OExec p | OFork p _ | OExit p => p
  end.

(** What a caller provides: a live process, and
    - open: a vnode whose count has room, a proper credential, fresh memory;
    - fcntl: a number that is not negative for the new descriptor;
    - lseek: no FIFO and no socket;
    - fork: a limit that is not below the size of the table of the parent. *)
Definition op_ok (s : fstate) (o : fdop) : Prop :=
  exists t, files_of s (op_proc o) = Some t /\
  match o with
  | OOpen su cur p v oflags kz =>
      cred_wf cur /\ v <> 0 /\ (exists n, vnodes s !! v = Some n /\ vn_refcount n < 2 ^ 31 - 1) /\
      (kz = 0 \/ mem s !! kz = None)
  | OFcntl p i cmd ival => fcntl_args_ok cmd ival
  | OLseek p i off w => forall f n, mem s !! entry t i = Some f -> vnodes s !! vnode_of f = Some n ->
      S_ISFIFO (vn_mode n) || S_ISSOCK (vn_mode n) = false
  | OFork p n => count t <= n
  | _ => True
  end.

Definition op_fds (o : fdop) : Z := match o with OFork _ n => Z.max 0 n | _ => 0 end.
Definition is_exit (o : fdop) : bool := match o with OExit _ => true | _ => false end.

Fixpoint run_ops (s : fstate) (ops : list fdop) : option fstate :=
  match ops with [] => Some s | o :: ops => s ← do_op s o; run_ops s ops end.
Fixpoint ops_ok (s : fstate) (ops : list fdop) : Prop :=
  match ops with
  | [] => True
  | o :: ops => op_ok s o /\ forall s', do_op s o = Some s' -> ops_ok s' ops
  end.

Definition op_result (B : Z) (s : fstate) (extra vo : Z -> Z) (o : fdop) (s' : fstate) (extra' : Z -> Z) : Prop :=
  do_op s o = Some s' /\ fd_inv (B + op_fds o) s' extra' vo /\
  (is_exit o = false -> forall a, extra' a = extra a).

Lemma op_spec B s extra vo o : B + op_fds o < 2 ^ 31 - 2 -> fd_inv B s extra vo -> op_ok s o ->
  exists s' extra', op_result B s extra vo o s' extra'.
Proof.
  intros HB Hinv (t & Ht & Hok).
  assert (forall s', do_op s o = Some s' -> fd_inv B s' extra vo -> op_fds o = 0 ->
    exists s' extra', op_result B s extra vo o s' extra') as Hsame.
  { intros s' Hs' Hi' Hz. exists s', extra. split_and!; try done. by rewrite Hz, Z.add_0_r. }
  destruct o as [su cur p v fl kz|p i|p b|p i cmd ival|p i n e w|p i off w|p|p n|p];
    cbn [op_proc op_fds] in *; rewrite ?Z.add_0_r in HB; try (assert (B < 2 ^ 31 - 1) as HB1 by lia).
  - destruct Hok as (Hwf & Hv & (n & Hn & Hlt) & Hkz).
    destruct (fildes_create_spec su cur B s extra vo p t v n fl kz Hwf Hinv Ht Hv Hn Hlt Hkz)
      as [(err & s' & Hr & _ & _ & _ & Hi)|[(j & s' & t' & g & Hr & _ & _ & _ & Hi & _) _]];
      apply (Hsame s'); try done; cbn [do_op]; by rewrite Hr.
  - destruct (close_any _ _ _ _ _ _ i HB1 Hinv Ht) as (r & s' & t' & Hr & Hi & _).
    apply (Hsame s'); try done. cbn [do_op]. unfold sys_close. rewrite Hr. mstep. by destruct (r =? 0).
  - destruct (close_all_spec _ _ _ _ _ _ b HB1 Hinv Ht) as (s' & t' & Hr & Hi & _).
    apply (Hsame s'); try done. cbn [do_op]. unfold sys_close_all. by rewrite Hr.
  - destruct (sys_fcntl_ok _ _ _ _ _ _ i cmd ival HB Hinv Ht Hok) as (ret & errno & s' & t' & e & Hr & Hi & _).
    apply (Hsame s'); try done. cbn [do_op]. by rewrite Hr.
  - destruct (sys_readwrite_ok _ _ _ _ _ _ i n e w HB1 Hinv Ht) as (ret & errno & s' & Hr & Hi & _).
    apply (Hsame s'); try done. cbn [do_op]. by rewrite Hr.
  - destruct (decide (entry t i = 0)) as [Hz|Hi].
    + apply (Hsame s); try done. cbn [do_op sys_lseek]. by rewrite (ref_none s p t) by eauto using files_wf.
    + destruct (fd_file _ _ _ _ _ _ _ Hinv Ht Hi) as (f & Hf & _ & _ & [n Hn]).
      destruct (sys_lseek_ok _ _ _ _ _ _ i off w f n HB1 Hinv Ht) as (ret & errno & res & s' & Hr & Hi' & _);
        [intros; eauto|]. apply (Hsame s'); try done. cbn [do_op]. by rewrite Hr.
  - destruct (close_exec_spec _ _ _ _ _ _ HB1 Hinv Ht) as (s' & t' & Hr & Hi & _). by apply (Hsame s').
  - destruct (fork_spec B s extra vo p t n ltac:(lia) Hinv Ht Hok) as (s' & tc & Hr & Hi & _).
    exists s', extra. split_and!; [cbn [do_op]; by rewrite Hr| |done].
    eapply fd_inv_weaken; [|exact Hi]. cbn [op_fds]. lia.
  - destruct (free_files_spec _ _ _ _ _ _ HB1 Hinv Ht) as (s' & Hr & _ & _ & Hi).
    exists s', (fun a => extra a + ind a (entry t 0)). split_and!; [exact Hr| |done]. cbn [op_fds]. rewrite Z.add_0_r. exact Hi.
Qed.

Lemma run_spec ops : forall B s extra vo, B + zsum op_fds ops < 2 ^ 31 - 2 -> fd_inv B s extra vo ->
  ops_ok s ops ->
  exists s' extra', run_ops s ops = Some s' /\ fd_inv (B + zsum op_fds ops) s' extra' vo /\
    (forallb (fun o => negb (is_exit o)) ops = true -> forall a, extra' a = extra a).
Proof.
  assert (forall l, 0 <= zsum op_fds l) as Hpos
    by (intros l; apply zsum_nonneg; intros [] _; cbn; lia).
  induction ops as [|o ops IH]; intros B s extra vo HB Hinv Hok; cbn [run_ops zsum ops_ok forallb] in *.
  - exists s, extra. rewrite Z.add_0_r. by split_and!.
  - destruct Hok as [Ho Hrest]. specialize (Hpos ops).
    destruct (op_spec B s extra vo o) as (s1 & e1 & Hs1 & Hi1 & He1); [lia|done|done|].
    assert (B + op_fds o + zsum op_fds ops < 2 ^ 31 - 2) as HB' by lia.
    rewrite Hs1. mstep. destruct (IH _ s1 e1 vo HB' Hi1 (Hrest _ Hs1)) as (s2 & e2 & -> & Hi2 & He2).
    exists s2, e2. split; [done|]. split; [by rewrite Z.add_assoc|].
    intros [Hx Hxs]%andb_true_iff a. rewrite He2, He1; try done. by destruct (is_exit o).
Qed.

(** The state when the kernel has set up process 0, without the logger. *)
Definition boot (umask : Z) (vns : gmap Z vnode) : fstate :=
  FState ∅ [Some (Files 8 umask (replicate 8 0))] vns [].

Definition vns_ok (vns : gmap Z vnode) : Prop := forall v n, vns !! v = Some n -> 0 <= vn_refcount n < 2 ^ 31.
Definition refs_of (vns : gmap Z vnode) (v : Z) : Z := from_option vn_refcount 0 (vns !! v).

Lemma fd_boot_inv um vns : vns_ok vns -> fd_inv 9 (boot um vns) (fun _ => 0) (refs_of vns).
Proof.
  intros Hv.
  assert (forall a, slots (boot um vns) a = 0) as Hs.
  { intros a. unfold slots. cbn. rewrite !ind_zero. done. }
  split; try done.
  - intros [|p] o; cbn; [by intros [= <-]|]. by destruct p.
  - split; try done.
    + intros a. cbn beta. rewrite Hs. done.
    + intros v n Hn. cbn in Hn. unfold refs_of. rewrite Hn. specialize (Hv v n Hn).
      change (users (mem (boot um vns)) v) with (users ∅ v). unfold users.
      rewrite map_filter_empty, map_size_empty. cbn. lia.
    + intros v. unfold refs_of. destruct (vns !! v) eqn:E; cbn; [|lia]. by apply (Hv v).
Qed.

(** A decision procedure for [ops_ok], but for the credentials. *)
Definition op_okb (s : fstate) (o : fdop) : bool :=
  match files_of s (op_proc o) with
  | None => false
  | Some t =>
      match o with
      | OOpen _ _ _ v _ kz =>
          negb (v =? 0) &&
          match vnodes s !! v with Some n => vn_refcount n <? 2 ^ 31 - 1 | None => false end &&
          ((kz =? 0) || match mem s !! kz with None => true | _ => false end)
      | OFcntl _ _ _ ival => 0 <=? ival
      | OLseek _ i _ _ =>
          match mem s !! entry t i with
          | Some f => match vnodes s !! vnode_of f with
                      | Some n => negb (S_ISFIFO (vn_mode n) || S_ISSOCK (vn_mode n)) | None => true end
          | None => true
          end
      | OFork _ n => count t <=? n
      | _ => true
      end
  end.
Definition op_cred (o : fdop) : Prop := match o with OOpen _ cur _ _ _ _ => cred_wf cur | _ => True end.
Fixpoint ops_okb (s : fstate) (ops : list fdop) : bool :=
  match ops with
  | [] => true
  | o :: ops => op_okb s o && match do_op s o with Some s' => ops_okb s' ops | None => true end
  end.

Lemma op_okb_sound s o : op_cred o -> op_okb s o = true -> op_ok s o.
Proof.
  unfold op_okb, op_ok. intros Hc. destruct (files_of s (op_proc o)) as [t|] eqn:Ht; [|done].
  intros Hb. exists t. split; [done|]. destruct o; try done; cbn [op_cred] in Hc.
  - apply andb_true_iff in Hb as [Hb Hk]. apply andb_true_iff in Hb as [Hv Hn].
    destruct (vnodes s !! v) as [n|] eqn:En; [|done]. split_and!; [done|lia|exists n; split; [done|lia]|].
    destruct (Z.eqb_spec kzalloc 0); [by left|right]. by destruct (mem s !! kzalloc).
  - intros _. lia.
  - intros f n Hf Hn. rewrite Hf, Hn in Hb. by destruct (_ || _).
  - lia.
Qed.

Lemma ops_okb_sound ops : forall s, Forall op_cred ops -> ops_okb s ops = true -> ops_ok s ops.
Proof.
  induction ops as [|o ops IH]; intros s Hc Hb; cbn in *; [done|].
  apply Forall_cons in Hc as [Hc Hcs]. apply andb_true_iff in Hb as [Hb Hbs].
  split; [by apply op_okb_sound|]. intros s' Hs'. rewrite Hs' in Hbs. by apply IH.
Qed.
End spec.

(** ** Claims *)


Definition vns_example : gmap Z vnode := {[ 7 := Vnode 1 0x8000 false 0 ]}.
Definition ops_example : list fdop :=
  [OOpen true cred_reader 0 7 O_RDONLY 0x1000; OFcntl 0 0 F_DUPFD 0; OFork 0 8; OClose 0 0;
   OExec 1; OFcntl 1 1 F_DUP2FD 5; OOpen true cred_reader 1 7 O_RDONLY 0x2000; OExit 1; ORw 0 1 4 0 false].

Lemma vns_example_ok : vns_ok vns_example.
Proof.
  intros v n. unfold vns_example. rewrite lookup_singleton_Some. intros [_ <-]. cbn. lia.
Qed.


(** C13. Duplicating a descriptor gives the lowest free one from the given number on; it
    refers to the same file object, with the same offset and flags, and all other
    descriptors of all processes stay as they are.  Without a free descriptor the call
    fails and no descriptor changes. *)
Theorem dup_lowest `{VnodeOpsOk} (B : Z) (s : fstate) (extra vo : Z -> Z) (p : nat) (t : files_t)
    (i start : Z) (HB : B < 2 ^ 31 - 2) (Hinv : fd_inv B s extra vo) (Ht : files_of s p = Some t)
    (Hi : entry t i <> 0) (Hstart : 0 <= start) :
  exists s' t', fd_inv B s' extra vo /\ objs_kept s s' /\
    ((exists j, sys_fcntl s p (Some (i, F_DUPFD, start)) = Some (j, None, s') /\ start <= j < count t /\
        entry t j = 0 /\ (forall j', start <= j' < j -> entry t j' <> 0) /\
        tstep s s' p t t' (fun k => if k =? j then entry t i else entry t k)) \/
     ((forall j, start <= j < count t -> entry t j <> 0) /\
        sys_fcntl s p (Some (i, F_DUPFD, start)) =
          Some (-1, Some (if count t <=? start then EMFILE else ENFILE), s') /\
        tstep s s' p t t' (entry t))).
Proof.
  assert (B < 2 ^ 31 - 1 /\ B + 1 < 2 ^ 31 - 1) as [HB1 HB2] by lia. cbn [sys_fcntl].
  destruct (take_step _ _ _ _ _ _ _ HB1 Hinv Ht Hi) as (s1 & -> & Hp & Hk1 & Hi1). mstep.
  rewrite (proj2 (Z.eqb_neq _ 0)) by done. change (fcntl_cmd s1 p (entry t i) i F_DUPFD start)
    with (dupfd s1 p (entry t i) start).
  pose proof (tstep_procs _ _ _ _ Ht Hp) as Hs1. pose proof (fi_extra _ _ _ _ Hinv (entry t i)).
  assert (1 <= add extra (entry t i) 1 (entry t i)) as He by (rewrite add_eq; lia).
  destruct (dupfd_spec _ _ _ _ _ _ _ start HB2 Hi1 (ts_files _ _ _ _ _ _ Hs1) Hi Hstart He)
    as [(j & s2 & t2 & -> & Hj & Hj0 & Hjj & Hi2 & Hk2 & Hs2)|[Hall ->]]; mstep.
  - destruct (drop_back _ _ _ _ p t i s2 t2 _ HB1 Hinv Hi Hi2 (tstep_trans _ _ _ _ _ _ _ _ _ Hs1 Hs2))
      as (s3 & -> & Hk3 & Hi3 & Hs3); [cbn beta; zcase; congruence|]. mstep.
    exists s3, t2. split; [done|]. split; [by eauto using objs_kept_trans|]. left. by exists j.
  - destruct (drop_back _ _ _ _ p t i s1 t _ HB1 Hinv Hi Hi1 Hs1 eq_refl) as (s3 & -> & Hk3 & Hi3 & Hs3). mstep.
    exists s3, t. split; [done|]. split; [by eauto using objs_kept_trans|]. by right.
Qed.

(** C11. Closing a descriptor empties its entry and no other.  The file object lives on
    while another descriptor refers to it; with the last one it is freed and its vnode
    loses a reference, and [delete_vnode] is called when that was the last. *)
Theorem close_releases `{VnodeOpsOk} (B : Z) (s : fstate) (extra vo : Z -> Z) (p : nat) (t : files_t)
    (i : Z) (f : file) (HB : B < 2 ^ 31 - 1) (Hinv : fd_inv B s extra vo) (Ht : files_of s p = Some t)
    (Hi : entry t i <> 0) (Hf : mem s !! entry t i = Some f) :
  exists s' t', sys_close s p i = Some (0, None, s') /\ fd_inv B s' extra vo /\
    tstep s s' p t t' (fun k => if k =? i then 0 else entry t k) /\ closed s s' extra (entry t i) f.
Proof.
  destruct (close_spec _ _ _ _ _ _ _ _ HB Hinv Ht Hi Hf) as (s' & Hc & Hi' & Hp & Hcl).
  destruct (tstep_fd s s' p t i 0 _ Ht (entry_open _ _ Hi) Hp) as [t' Ht'].
  exists s', t'. split_and!; try done. unfold sys_close. by rewrite Hc.
Qed.

(** ** A state with two descriptors of one open file *)

Section examples.
Let ops : VnodeOps := nofs_ops stat_example.
#[local] Existing Instance ops.

Definition file_example : file := File 0 (Z.lor O_RDONLY O_KFREEABLE) 7 0 (Kobj 0 0 2 2 0).
Definition table_example : files_t := Files 4 18 [0; 0x1000; 0; 0x1000].
Definition fd_example : fstate :=
  FState {[ 0x1000 := file_example ]} [Some table_example] {[ 7 := Vnode 2 0x8000 false 0 ]} [].

Lemma fd_example_inv : fd_inv 5 fd_example (fun _ => 0) (fun v => if v =? 7 then 1 else 0).
Proof.
  assert (forall a, slots fd_example a = if a =? 0x1000 then 2 else 0) as Hs.
  { intros a. change (slots fd_example a) with (zsum (ind a) [0; 0x1000; 0; 0x1000] + 0).
    cbn [zsum]. rewrite ind_zero. unfold ind. rewrite (Z.eqb_sym 0x1000). by destruct (a =? 0x1000). }
  split; try done.
  - intros [|[|p]] o; cbn; [by intros [= <-]|done|done].
  - split.
    + intros a f Hf. cbn [mem fd_example] in Hf. apply lookup_singleton_Some in Hf as [<- <-]. left. rewrite Hs.
      split_and!; done.
    + intros a. rewrite Hs. zcase; [subst; by eexists|done].
    + intros v n Hn. cbn [vnodes fd_example] in Hn. apply lookup_singleton_Some in Hn as [<- <-]. done.
    + intros v. zcase; lia.
Qed.

Lemma dup_lowest_witness :
  exists s' t', fd_inv 5 s' (fun _ => 0) (fun v => if v =? 7 then 1 else 0) /\ objs_kept fd_example s' /\
    ((exists j, sys_fcntl fd_example 0 (Some (1, F_DUPFD, 1)) = Some (j, None, s') /\
        1 <= j < count table_example /\ entry table_example j = 0 /\
        (forall j', 1 <= j' < j -> entry table_example j' <> 0) /\
        tstep fd_example s' 0 table_example t'
          (fun k => if k =? j then entry table_example 1 else entry table_example k)) \/
     ((forall j, 1 <= j < count table_example -> entry table_example j <> 0) /\
        sys_fcntl fd_example 0 (Some (1, F_DUPFD, 1)) =
          Some (-1, Some (if count table_example <=? 1 then EMFILE else ENFILE), s') /\
        tstep fd_example s' 0 table_example t' (entry table_example))).
Proof.
  apply (@dup_lowest ops (nofs_ok stat_example (fun _ => Z.le_refl 0)) 5 fd_example _ _ 0 table_example 1 1).
  - lia.
  - exact fd_example_inv.
  - reflexivity.
  - vm_compute. discriminate.
  - lia.
Defined.

Lemma close_releases_witness :
  exists s' t', sys_close fd_example 0 3 = Some (0, None, s') /\
    fd_inv 5 s' (fun _ => 0) (fun v => if v =? 7 then 1 else 0) /\
    tstep fd_example s' 0 table_example t' (fun k => if k =? 3 then 0 else entry table_example k) /\
    closed fd_example s' (fun _ => 0) (entry table_example 3) file_example.
Proof.
  apply (@close_releases ops (nofs_ok stat_example (fun _ => Z.le_refl 0)) 5 fd_example _ _ 0 table_example 3).
  - lia.
  - exact fd_example_inv.
  - reflexivity.
  - vm_compute. discriminate.
  - reflexivity.
Defined.

(** ** Where the code departs from its intent *)

Definition fifo_example : fstate :=
  FState {[ 0x1000 := set_obj file_example kobj_init ]} [Some (Files 2 18 [0x1000; 0])]
    {[ 7 := Vnode 1 S_IFIFO false 0 ]} [].

(** A seek on a FIFO drops the reference twice, so it closes the descriptor; when another
    descriptor shares the open file, two seeks free it and leave the other one dangling. *)
Lemma lseek_fifo_closes :
  (s ← do_op fifo_example (OLseek 0 0 0 SEEK_SET); t ← files_of s 0; Some (fd t)) = Some [0; 0].
Proof. vm_compute. reflexivity. Qed.
Lemma lseek_fifo_dangling :
  (s ← do_op fifo_example (OFcntl 0 0 F_DUPFD 0); s ← do_op s (OLseek 0 0 0 SEEK_SET);
   s ← do_op s (OLseek 0 0 0 SEEK_SET); t ← files_of s 0; Some (fd t, mem s !! 0x1000 , do_op s (OClose 0 1))) =
    Some ([0; 0x1000], None, None).
Proof. vm_compute. reflexivity. Qed.

(** A negative number for the new descriptor reads in front of the table. *)
Lemma dup_negative_out_of_bounds : sys_fcntl fd_example 0 (Some (1, F_DUPFD, -1)) = None.
Proof. vm_compute. reflexivity. Qed.

(** [F_SETFD] works, and returns -1. *)
Lemma setfd_returns_error :
  ('(ret, errno, s) ← sys_fcntl fd_example 0 (Some (1, F_SETFD, O_CLOEXEC)); Some (ret, errno, cloexec s 0x1000)) =
    Some (-1, None, true).
Proof. vm_compute. reflexivity. Qed.

(** [F_DUPFD_CLOEXEC] marks the open file, so that all its descriptors are closed by exec. *)
Lemma dup_cloexec_marks_all :
  (s ← do_op fd_example (OFcntl 0 1 F_DUPFD_CLOEXEC 0); s ← do_op s (OExec 0); t ← files_of s 0; Some (fd t)) =
    Some [0; 0; 0; 0].
Proof. vm_compute. reflexivity. Qed.

(** The file of descriptor 0 outlives the process. *)
Lemma exit_leaks :
  (s ← do_op fifo_example (OExit 0);
   f ← mem s !! 0x1000; Some (ko_refcount (f_obj f), slots s 0x1000, vn_refcount <$> vnodes s !! 7)) =
    Some (1, 0, Some 1).
Proof. vm_compute. reflexivity. Qed.

(** The child's mask of file modes is the limit of its descriptors. *)
Lemma fork_umask :
  (s ← do_op fd_example (OFork 0 8); t ← files_of s 1; Some (umask t)) = Some 8.
Proof. vm_compute. reflexivity. Qed.

(** A child table that is smaller than the parent's is overrun. *)
Lemma fork_overrun : do_op fd_example (OFork 0 2) = None.
Proof. vm_compute. reflexivity. Qed.

(** A negative offset is stored before it is reported as an error. *)
Lemma lseek_negative : fs_enotsup_lseek (stat_example 7) file_example (-5) SEEK_SET = (-5, set_seek file_example (-5)).
Proof. reflexivity. Qed.
End examples.
