(* ===== verification/KRandom.v ===== *)
(** * Pseudo random numbers (libkern/krandom.c)

    A linear congruential generator modulo 2^31.  [kunirand] draws until the number is
    useful; that it ends rests on the period of the generator: from every state the
    generator comes to 0 ([lcg_reaches_zero]), which is always useful. *)
From S2P Require Import Prelude.

Definition NSHUFF : nat := 50.
Definition RAND_MAX : Z := 0x7fffffff.
Definition randseed_init : Z := 937186357.

(** The result is the new seed. *)
Definition krandom (randseed : Z) : Z :=
  let x := if randseed =? 0 then 123459876 else randseed in
  let result := u32 (x * 1103515245) in
  let result := u32 (result + 12345) in
  let result := result mod 2147483648 in
  Z.land result 0x7fffffff.

Definition ksrandom (seed : Z) : Z := Nat.iter NSHUFF krandom (u32 seed).

Definition random_init (utime : Z) : Z := ksrandom (utime mod 0x7fffffff).

(** The loop of [kunirand]: the draw and the new seed. *)
Fixpoint draw_loop (fuel : nat) (randseed max_usefull : Z) : option Z :=
  match fuel with
  | O => None
  | S fuel =>
      let draw := krandom randseed in
      if max_usefull <? draw then draw_loop fuel draw max_usefull else Some draw
  end.

(** A division by zero is [None].  The seed after the call is the last draw. *)
Definition part_size (n : Z) : option Z :=
  if n =? RAND_MAX then Some 1
  else
    let d := u32 (n + 1) in
    if d =? 0 then None else Some (u32 (1 + u32 (RAND_MAX - n) / d)).
Definition kunirand (fuel : nat) (randseed n : Z) : option (Z * Z) :=
  part ← part_size n;
  let max_usefull := u32 (u32 (part * n) + u32 (part - 1)) in
  draw ← draw_loop fuel randseed max_usefull;
  Some (draw / part, draw).

(** ** The period *)

(** The generator without the reduction. *)
Definition lcg (x : Z) : Z := x * 1103515245 + 12345.

(** Over a power of two of steps the generator is affine; its offset is an odd multiple
    of that power. *)
Lemma lcg_pow2 k : exists u v, forall x,
  Nat.iter (2 ^ k) lcg x =
    (1 + 2 ^ (Z.of_nat k + 2) * u) * x + 2 ^ Z.of_nat k * (1 + 2 * v).
Proof.
  induction k as [|k (u & v & IH)].
  - exists 275878811, 6172. intros x. change (Nat.iter _ lcg x) with (lcg x). unfold lcg.
    change (2 ^ (Z.of_nat 0 + 2)) with 4. change (2 ^ Z.of_nat 0) with 1. lia.
  - exists (u + 2 ^ (Z.of_nat k + 1) * u * u), (v + 2 ^ Z.of_nat k * u * (1 + 2 * v)). intros x.
    replace (2 ^ S k)%nat with (2 ^ k + 2 ^ k)%nat by (cbn; lia).
    rewrite Nat.iter_add, !IH, Nat2Z.inj_succ.
    replace (Z.succ (Z.of_nat k) + 2) with (Z.of_nat k + 3) by lia.
    rewrite Z.pow_succ_r, !Z.pow_add_r by lia. generalize (2 ^ Z.of_nat k). intros p.
    change (2 ^ 2) with 4. change (2 ^ 3) with 8. change (2 ^ 1) with 2. ring.
Qed.

Lemma lcg_mod n x y : x mod n = y mod n -> lcg x mod n = lcg y mod n.
Proof.
  intros H. unfold lcg. rewrite Zplus_mod, Zmult_mod, H, <- Zmult_mod, <- Zplus_mod. done.
Qed.
Lemma lcg_iter_mod m n x y : x mod n = y mod n -> Nat.iter m lcg x mod n = Nat.iter m lcg y mod n.
Proof. intros H. induction m as [|m IH]; [done|]. cbn. by apply lcg_mod. Qed.

(** From every state the generator comes to 0 within a full period. *)
Lemma lcg_reaches_zero n : forall x, exists m, Z.of_nat m < 2 ^ Z.of_nat n /\
  Nat.iter m lcg x mod 2 ^ Z.of_nat n = 0.
Proof.
  induction n as [|n IH]; intros x.
  - exists 0%nat. split; [done|]. apply Z.mod_1_r.
  - destruct (IH x) as (m & Hm & Hz). rewrite Nat2Z.inj_succ, Z.pow_succ_r by lia.
    set (p := 2 ^ Z.of_nat n) in *. assert (0 < p) by (apply Z.pow_pos_nonneg; lia).
    apply Z.mod_divide in Hz as [q Hq]; [|lia].
    destruct (Z.Even_or_Odd q) as [[r ->]|[r ->]].
    + exists m. split; [lia|]. rewrite Hq. replace (2 * r * p) with (r * (2 * p)) by ring.
      apply Z.mod_mul. lia.
    + exists (2 ^ n + m)%nat. split.
      * rewrite Nat2Z.inj_add, Nat2Z.inj_pow. change (Z.of_nat 2) with 2. fold p. lia.
      * destruct (lcg_pow2 n) as (u & v & Hp). rewrite Nat.iter_add, Hp, Hq.
        rewrite Z.pow_add_r by lia. fold p. change (2 ^ 2) with 4.
        match goal with |- ?e mod _ = 0 =>
          replace e with ((r + 1 + v + 2 * u * (2 * r + 1) * p) * (2 * p)) by ring end.
        apply Z.mod_mul. lia.
Qed.

(** ** The generator *)

Lemma krandom_range s : 0 <= krandom s < 2 ^ 31.
Proof.
  unfold krandom. change 0x7fffffff with (Z.ones 31). rewrite Z.land_ones by lia. dlia.
Qed.

Lemma krandom_lcg s : s <> 0 -> krandom s = lcg s mod 2 ^ 31.
Proof.
  intros Hs. unfold krandom. rewrite (proj2 (Z.eqb_neq s 0)) by done.
  change 0x7fffffff with (Z.ones 31). rewrite Z.land_ones by lia. unfold u32, lcg. dlia.
Qed.

Lemma draw_loop_mono fuel fuel' s m d : (fuel <= fuel')%nat -> draw_loop fuel s m = Some d ->
  draw_loop fuel' s m = Some d.
Proof.
  revert fuel' s. induction fuel as [|fuel IH]; intros [|fuel'] s Hle Hd; try done; [lia|].
  cbn in *. destruct (m <? krandom s); [|done]. apply IH; [lia|done].
Qed.

(** The loop ends at the latest when the generator comes to 0. *)
Lemma draw_loop_ends m : forall s max, 0 <= max -> s <> 0 -> Nat.iter (S m) lcg s mod 2 ^ 31 = 0 ->
  exists d, draw_loop (S m) s max = Some d /\ 0 <= d <= max.
Proof.
  induction m as [|m IH]; intros s max Hmax Hs Hz.
  - cbn in Hz. cbn [draw_loop]. rewrite krandom_lcg, Hz by done. exists 0. rewrite (proj2 (Z.ltb_ge max 0)) by done.
    split; [done|lia].
  - change (draw_loop (S (S m)) s max) with
      (if max <? krandom s then draw_loop (S m) (krandom s) max else Some (krandom s)).
    pose proof (krandom_range s). destruct (Z.ltb_spec max (krandom s)); [|exists (krandom s); split; [done|lia]].
    apply IH; [done|lia|]. rewrite <- Hz, (Nat.iter_succ_r (S m)). apply lcg_iter_mod.
    rewrite krandom_lcg by done. apply Z.mod_mod. lia.
Qed.

Lemma draw_loop_spec s max : 0 <= max ->
  exists fuel d, Z.of_nat fuel <= 2 ^ 31 /\ draw_loop fuel s max = Some d /\ 0 <= d <= max.
Proof.
  intros Hmax. set (x := if s =? 0 then 123459876 else s).
  assert (x <> 0) as Hx by (subst x; destruct (Z.eqb_spec s 0); [done|done]).
  destruct (lcg_reaches_zero 31 (lcg x)) as (m & Hm & Hz). replace (2 ^ Z.of_nat 31) with (2 ^ 31) in Hm, Hz by reflexivity.
  rewrite <- (Nat.iter_succ_r m) in Hz.
  destruct (draw_loop_ends m x max Hmax Hx Hz) as (d & Hd & Hr).
  exists (S m), d. split; [lia|]. split; [|done]. rewrite <- Hd. cbn [draw_loop].
  replace (krandom s) with (krandom x); [done|]. subst x. unfold krandom.
  destruct (Z.eqb_spec s 0) as [->|Hs]; [done|]. by rewrite (proj2 (Z.eqb_neq s 0)).
Qed.

(** ** Claims *)

(** C21. For every seed and every bound up to [RAND_MAX] the loop of [kunirand] ends, after
    at most 2^31 draws, and the number is within the bound. *)
Theorem kunirand_returns (randseed n : Z) (Hn : 0 <= n <= RAND_MAX) :
  exists k r seed', Z.of_nat k <= 2 ^ 31 /\ 0 <= r <= n /\ 0 <= seed' < 2 ^ 31 /\
    forall fuel, (k <= fuel)%nat -> kunirand fuel randseed n = Some (r, seed').
Proof.
  unfold RAND_MAX in Hn.
  assert (exists part, part_size n = Some part /\ 1 <= part /\ part * (n + 1) <= 2 ^ 31) as (part & Hp & Hp1 & Hpn).
  { unfold part_size. change RAND_MAX with (2 ^ 31 - 1). destruct (Z.eqb_spec n (2 ^ 31 - 1)).
    - exists 1. split; [done|]. lia.
    - rewrite (u32_small (n + 1)), (u32_small (2 ^ 31 - 1 - n)) by lia.
      rewrite (proj2 (Z.eqb_neq (n + 1) 0)) by lia.
      pose proof (Z.div_le_upper_bound (2 ^ 31 - 1 - n) (n + 1) (2 ^ 31) ltac:(lia)).
      pose proof (Z.mul_div_le (2 ^ 31 - 1 - n) (n + 1) ltac:(lia)).
      pose proof (Z.div_pos (2 ^ 31 - 1 - n) (n + 1) ltac:(lia) ltac:(lia)).
      rewrite u32_small by nia. eexists. split; [done|]. nia. }
  assert (u32 (u32 (part * n) + u32 (part - 1)) = part * (n + 1) - 1) as Hm
    by (rewrite (u32_small (part * n)), (u32_small (part - 1)), u32_small; nia).
  destruct (draw_loop_spec randseed (part * (n + 1) - 1)) as (k & d & Hk & Hd & Hr); [nia|].
  exists k, (d / part), d. split; [done|]. split; [|split; [nia|]].
  - split; [apply Z.div_pos; lia|]. apply Z.lt_succ_r, Z.div_lt_upper_bound; nia.
  - intros fuel Hf. unfold kunirand. rewrite Hp. mstep. rewrite Hm.
    by rewrite (draw_loop_mono k fuel _ _ d Hf Hd).
Qed.

Lemma kunirand_returns_witness :
  exists k r seed', Z.of_nat k <= 2 ^ 31 /\ 0 <= r <= 5 /\ 0 <= seed' < 2 ^ 31 /\
    forall fuel, (k <= fuel)%nat -> kunirand fuel randseed_init 5 = Some (r, seed').
Proof. apply (kunirand_returns randseed_init 5). unfold RAND_MAX. lia. Defined.

(** Bounds above [RAND_MAX] are not served: the number is 0, or the program divides by 0. *)
Lemma kunirand_large d : 0 <= d <= 1 ->
  part_size (2 ^ 31) = Some 2 /\ u32 (u32 (2 * 2 ^ 31) + u32 (2 - 1)) = 1 /\ d / 2 = 0 /\
  part_size (2 ^ 32 - 1) = None.
Proof. intros. split_and!; try (vm_compute; reflexivity). dlia. Qed.
