(* ===== verification/Timers.v ===== *)
(** * Kernel timers (timers.c, the timer functions of sched/sched.c)

    A fixed array of timers that [timers_run] goes through at every scheduler tick.  The
    clock is the sequence of values that [get_utime] returns, one for each call; the
    functions that timers call are a parameter, which may change the timers. *)
From S2P Require Import Prelude.

Definition TIMERS_FLAG_INUSE : Z := 0x1.
Definition TIMERS_FLAG_ENABLED : Z := 0x2.
Definition TIMERS_FLAG_ONESHOT : Z := 0x0.
Definition TIMERS_FLAG_PERIODIC : Z := 0x4.
Definition TIMERS_EXT_FLAGS : Z := Z.lor TIMERS_FLAG_ENABLED TIMERS_FLAG_PERIODIC.
Definition TMNOVAL : Z := -1.

Class TimersConfig := { configTIMERS_MAX : Z }.

Record timer_cb := Timer {
  tm_flags : Z;
  event_fn : Z;
  event_arg : Z;
  interval : Z;
  start : Z
}.

(** [reads] counts the calls of [get_utime], [calls] has the events that were called with
    their arguments, [wait_tim] is the member of that name of each thread and [ready] the
    threads that were released. *)
Record tstate := TState {
  timers_array : list timer_cb;
  reads : nat;
  calls : list (Z * Z);
  wait_tim : gmap Z Z;
  ready : list Z
}.

Definition set_array (s : tstate) (l : list timer_cb) : tstate :=
  TState l (reads s) (calls s) (wait_tim s) (ready s).
Definition set_tm_flags (t : timer_cb) (f : Z) : timer_cb :=
  Timer f (event_fn t) (event_arg t) (interval t) (start t).
Definition set_start (t : timer_cb) (n : Z) : timer_cb :=
  Timer (tm_flags t) (event_fn t) (event_arg t) (interval t) n.
Definition log_call (s : tstate) (fn arg : Z) : tstate :=
  TState (timers_array s) (reads s) (calls s ++ [(fn, arg)]) (wait_tim s) (ready s).
Definition set_wait_tim (s : tstate) (th tim : Z) : tstate :=
  TState (timers_array s) (reads s) (calls s) (<[th := tim]> (wait_tim s)) (ready s).
Definition thread_release (s : tstate) (th : Z) : tstate :=
  TState (timers_array s) (reads s) (calls s) (wait_tim s) (ready s ++ [th]).

Section timers.
Context `{TimersConfig} (utime : nat -> Z) (event : Z -> Z -> tstate -> tstate).

Definition VALID_TIMER_ID (x : Z) : bool := (x <? configTIMERS_MAX) && (0 <=? x).
Definition timers_init : list timer_cb := replicate (Z.to_nat configTIMERS_MAX) (Timer 0 0 0 0 0).

Definition get_utime (s : tstate) : Z * tstate :=
  (utime (reads s), TState (timers_array s) (S (reads s)) (calls s) (wait_tim s) (ready s)).

Definition update_timer (s : tstate) (i : Z) (f : timer_cb -> timer_cb) : option tstate :=
  t ← (timers_array s).[i]; l ← (timers_array s).[i <- f t]; Some (set_array s l).

Definition enabled (t : timer_cb) : bool :=
  let enflags := Z.lor TIMERS_FLAG_INUSE TIMERS_FLAG_ENABLED in
  Z.land (tm_flags t) enflags =? enflags.
Definition expired (now : Z) (t : timer_cb) : bool := interval t <=? u64 (now - start t).
Definition periodic (t : timer_cb) : bool := negb (Z.land (tm_flags t) TIMERS_FLAG_PERIODIC =? 0).

(** The body of the loop of [timers_run]: the flags are those read before the event. *)
Definition run_timer (s : tstate) (now i : Z) : option tstate :=
  t ← (timers_array s).[i];
  if enabled t then
    if expired now t then
      let s := event (event_fn t) (event_arg t) (log_call s (event_fn t) (event_arg t)) in
      if negb (periodic t) then
        update_timer s i (fun t => set_tm_flags t (Z.land (tm_flags t) (Z.lnot TIMERS_FLAG_ENABLED)))
      else
        let '(now', s) := get_utime s in update_timer s i (fun t => set_start t now')
    else Some s
  else Some s.

Fixpoint timers_loop (k : nat) (s : tstate) (now i : Z) : option tstate :=
  match k with O => Some s | S k => s ← run_timer s now i; timers_loop k s now (i + 1) end.
Definition timers_run (s : tstate) : option tstate :=
  let '(now, s) := get_utime s in timers_loop (Z.to_nat configTIMERS_MAX) s now 0.

(** [atomic_cmpxchg] succeeds on free flags. *)
Fixpoint add_loop (k : nat) (s : tstate) (i fn arg flags usec : Z) : option (Z * tstate) :=
  match k with
  | O => Some (TMNOVAL, s)
  | S k =>
      t ← (timers_array s).[i];
      if tm_flags t =? 0 then
        let '(now, s) := get_utime s in
        s ← update_timer s i (fun _ => Timer (Z.lor flags TIMERS_FLAG_INUSE) fn arg usec now);
        Some (i, s)
      else add_loop k s (i + 1) fn arg flags usec
  end.
Definition timers_add (s : tstate) (fn arg flags usec : Z) : option (Z * tstate) :=
  add_loop (Z.to_nat configTIMERS_MAX) s 0 fn arg (Z.land flags TIMERS_EXT_FLAGS) usec.

Definition timers_get_split (s : tstate) (tim : Z) : option (Z * tstate) :=
  if negb (VALID_TIMER_ID tim) then Some (-1, s)
  else
    let '(now, s) := get_utime s in
    t ← (timers_array s).[tim]; Some (s64 (now - start t), s).

Definition timers_start (s : tstate) (tim : Z) : option tstate :=
  if negb (VALID_TIMER_ID tim) then Some s
  else update_timer s tim (fun t => set_tm_flags t (s32 (tm_flags t + TIMERS_FLAG_ENABLED))).
Definition timers_stop (s : tstate) (tim : Z) : option tstate :=
  if negb (VALID_TIMER_ID tim) then Some s
  else update_timer s tim (fun t => set_tm_flags t (s32 (tm_flags t - TIMERS_FLAG_ENABLED))).
Definition timers_release (s : tstate) (tim : Z) : option tstate :=
  if negb (VALID_TIMER_ID tim) then Some s
  else update_timer s tim (fun t => set_tm_flags t 0).

(** ** Users in sched.c; [th] is the current thread, [fn] the address of the event *)

Definition timer_event_sleep (s : tstate) (th : Z) : option tstate :=
  w ← wait_tim s !! th;
  s ← timers_release s w;
  Some (thread_release (set_wait_tim s th TMNOVAL) th).
Definition timer_event_alarm (s : tstate) (th : Z) : tstate := thread_release s th.

Definition thread_alarm (s : tstate) (th fn millisec : Z) : option (Z * tstate) :=
  '(timer_id, s) ← timers_add s fn th TIMERS_FLAG_ONESHOT (u64 (s32 (millisec * 1000)));
  if timer_id <? 0 then Some (- EAGAIN, s)
  else s ← timers_start (set_wait_tim s th timer_id) timer_id; Some (timer_id, s).

Definition thread_alarm_rele (s : tstate) (th timer_id : Z) : option tstate :=
  s ← timers_release s timer_id;
  w ← wait_tim s !! th;
  Some (if w =? timer_id then set_wait_tim s th TMNOVAL else s).

(** One round of the loop of [thread_sleep], up to [thread_wait]. *)
Definition thread_sleep (s : tstate) (th fn millisec : Z) : option (Z * tstate) :=
  '(timer_id, s) ← timers_add s fn th TIMERS_FLAG_ONESHOT (u64 (s32 (millisec * 1000)));
  if timer_id <? 0 then Some (timer_id, s)
  else s ← timers_start (set_wait_tim s th timer_id) timer_id; Some (timer_id, s).

Fixpoint ticks (k : nat) (s : tstate) : option tstate :=
  match k with O => Some s | S k => s ← timers_run s; ticks k s end.
End timers.

(** ** One tick *)

Definition due (now : Z) (t : timer_cb) : bool := enabled t && expired now t.
Fixpoint due_calls (now : Z) (l : list timer_cb) : list (Z * Z) :=
  match l with
  | [] => []
  | t :: l => if due now t then (event_fn t, event_arg t) :: due_calls now l else due_calls now l
  end.

(** A timer after the tick at [now]; the clock was read [lo] to [hi] times by then. *)
Definition ticked (utime : nat -> Z) (now : Z) (lo hi : nat) (t t' : timer_cb) : Prop :=
  if due now t then
    if periodic t then exists n, (lo < n < hi)%nat /\ t' = set_start t (utime n)
    else t' = set_tm_flags t (Z.land (tm_flags t) (Z.lnot TIMERS_FLAG_ENABLED))
  else t' = t.

Lemma update_timer_spec s i t f : (timers_array s).[i] = Some t ->
  update_timer s i f = Some (set_array s (<[Z.to_nat i := f t]> (timers_array s))).
Proof.
  intros Ht. unfold update_timer. rewrite Ht. mstep. by rewrite (wr_Some _ _ _ (rd_Some_lt _ _ _ Ht)).
Qed.

Lemma ticked_weaken utime now lo lo' hi hi' t t' : (lo' <= lo)%nat -> (hi <= hi')%nat ->
  ticked utime now lo hi t t' -> ticked utime now lo' hi' t t'.
Proof.
  unfold ticked. intros ? ?. destruct (due now t), (periodic t); try done.
  intros (n & ? & ?). exists n. split; [lia|done].
Qed.

Section one_tick.
Context `{TimersConfig} (utime : nat -> Z) (event : Z -> Z -> tstate -> tstate).

(** Events that leave the timers, the clock and the record of the calls alone. *)
Hypothesis event_quiet : forall fn arg s,
  timers_array (event fn arg s) = timers_array s /\ reads (event fn arg s) = reads s /\
  calls (event fn arg s) = calls s.

Lemma run_timer_spec s now i t : (timers_array s).[i] = Some t -> (0 < reads s)%nat ->
  exists s' t', run_timer utime event s now i = Some s' /\
    timers_array s' = <[Z.to_nat i := t']> (timers_array s) /\
    calls s' = calls s ++ due_calls now [t] /\ (reads s <= reads s')%nat /\
    ticked utime now (reads s - 1) (reads s') t t'.
Proof.
  intros Ht Hpos. unfold run_timer, ticked, due. rewrite Ht. mstep. cbn [due_calls]. unfold due.
  assert (timers_array s = <[Z.to_nat i := t]> (timers_array s)) as Hid.
  { symmetry. apply list_insert_id. pose proof (rd_Some_lt _ _ _ Ht). unfold rd in Ht.
    by rewrite (proj2 (Z.ltb_ge i 0)) in Ht by lia. }
  destruct (enabled t) eqn:Een; cbn [andb]; [|exists s, t; rewrite app_nil_r; by split_and!].
  destruct (expired now t) eqn:Eex; [|exists s, t; rewrite app_nil_r; by split_and!].
  set (s1 := event _ _ _).
  destruct (event_quiet (event_fn t) (event_arg t) (log_call s (event_fn t) (event_arg t))) as (Ha & Hr & Hc).
  fold s1 in Ha, Hr, Hc. cbn [log_call timers_array reads calls] in Ha, Hr, Hc.
  destruct (periodic t); cbn [negb].
  - unfold get_utime. rewrite (update_timer_spec _ i t) by (cbn; by rewrite Ha).
    eexists _, _. split; [done|]. cbn. rewrite Ha, Hc, Hr. split_and!; try done; [lia|].
    exists (reads s). split; [lia|done].
  - rewrite (update_timer_spec s1 i t) by (by rewrite Ha).
    eexists _, _. split; [done|]. cbn. rewrite Ha, Hc, Hr. by split_and!.
Qed.

Lemma due_calls_app now l1 l2 : due_calls now (l1 ++ l2) = due_calls now l1 ++ due_calls now l2.
Proof. induction l1 as [|t l1 IH]; cbn; [done|]. destruct (due now t); cbn; by rewrite IH. Qed.

Lemma timers_loop_spec k : forall s now i, 0 <= i -> (0 < reads s)%nat ->
  i + Z.of_nat k = Z.of_nat (length (timers_array s)) ->
  exists s', timers_loop utime event k s now i = Some s' /\
    length (timers_array s') = length (timers_array s) /\ (reads s <= reads s')%nat /\
    calls s' = calls s ++ due_calls now (drop (Z.to_nat i) (timers_array s)) /\
    forall j t, (timers_array s).[j] = Some t -> exists t', (timers_array s').[j] = Some t' /\
      if decide (j < i) then t' = t else ticked utime now (reads s - 1) (reads s') t t'.
Proof.
  induction k as [|k IH]; intros s now i Hi Hpos Hk; cbn [timers_loop].
  - exists s. rewrite drop_ge, app_nil_r by lia. split_and!; try done. intros j t Hj. exists t.
    split; [done|]. pose proof (rd_Some_lt _ _ _ Hj). by rewrite decide_True by lia.
  - destruct (rd_is_Some (timers_array s) i) as [t Ht]; [lia|].
    destruct (run_timer_spec s now i t Ht Hpos) as (s1 & t1 & -> & Ha & Hc & Hr & Htk). mstep.
    destruct (IH s1 now (i + 1)) as (s2 & -> & Hl & Hr2 & Hc2 & Hall);
      [lia|lia|rewrite Ha, length_insert; lia|].
    exists s2. rewrite Ha, length_insert in Hl. split; [done|]. split; [done|]. split; [lia|]. split.
    + rewrite Hc2, Hc, Ha, <- app_assoc. f_equal.
      rewrite (drop_S (timers_array s) t (Z.to_nat i)).
      2:{ unfold rd in Ht. by rewrite (proj2 (Z.ltb_ge i 0)) in Ht by lia. }
      rewrite (due_calls_app now [t] (drop _ _) : due_calls now (t :: _) = _).
      rewrite drop_insert_lt by lia. by replace (S (Z.to_nat i)) with (Z.to_nat (i + 1)) by lia.
    + intros j u Hj. destruct (decide (j = i)) as [->|Hji].
      * destruct (Hall i t1) as (t' & Ht' & Hd); [rewrite Ha; apply rd_insert_eq; by eapply rd_Some_lt|].
        exists t'. split; [done|]. rewrite decide_True in Hd by lia. rewrite decide_False by lia.
        simplify_eq. by eapply ticked_weaken; [..|exact Htk].
      * destruct (Hall j u) as (t' & Ht' & Hd); [rewrite Ha, rd_insert_ne by lia; done|].
        exists t'. split; [done|]. destruct (decide (j < i)).
        -- by rewrite decide_True in Hd by lia.
        -- rewrite decide_False in Hd by lia. by eapply ticked_weaken; [..|exact Hd]; lia.
Qed.

Lemma timers_run_spec s : Z.of_nat (length (timers_array s)) = configTIMERS_MAX ->
  let now := utime (reads s) in
  exists s', timers_run utime event s = Some s' /\ length (timers_array s') = length (timers_array s) /\
    (reads s < reads s')%nat /\ calls s' = calls s ++ due_calls now (timers_array s) /\
    forall i t, (timers_array s).[i] = Some t -> exists t', (timers_array s').[i] = Some t' /\
      ticked utime now (reads s) (reads s') t t'.
Proof.
  intros Hl now. unfold timers_run, get_utime. fold now. set (s1 := TState _ _ _ _ _).
  destruct (timers_loop_spec (Z.to_nat configTIMERS_MAX) s1 now 0) as (s' & -> & Hl' & Hr & Hc & Hall);
    [lia|cbn; lia|cbn; lia|].
  exists s'. split_and!; try done. intros i t Ht. destruct (Hall i t Ht) as (t' & Ht' & Hd).
  exists t'. split; [done|]. pose proof (rd_Some_lt _ _ _ Ht). rewrite decide_False in Hd by lia.
  eapply ticked_weaken; [..|exact Hd]; cbn; lia.
Qed.
End one_tick.

(** ** A timer expires *)

Section liveness.
Context `{TimersConfig} (utime : nat -> Z) (event : Z -> Z -> tstate -> tstate) (i : Z) (t : timer_cb).

(** Events may use the timers and the clock; other events leave timer [i] alone. *)
Record events_fair : Prop := {
  ev_length fn arg s : length (timers_array (event fn arg s)) = length (timers_array s);
  ev_reads fn arg s : (reads s <= reads (event fn arg s))%nat;
  ev_calls fn arg s : exists l, calls (event fn arg s) = calls s ++ l;
  ev_others fn arg s : (fn, arg) <> (event_fn t, event_arg t) ->
    (timers_array (event fn arg s)).[i] = (timers_array s).[i]
}.
Hypothesis fair : events_fair.

(** The event of the timer was called, or the timer is as before. *)
Definition progress (s s' : tstate) (quiet : bool) : Prop :=
  length (timers_array s') = length (timers_array s) /\ (reads s <= reads s')%nat /\
  exists l, calls s' = calls s ++ l /\
    ((event_fn t, event_arg t) ∈ l \/ ((timers_array s').[i] = Some t /\ quiet = true)).

Lemma progress_trans s1 s2 s3 q1 q2 : (timers_array s1).[i] = Some t ->
  progress s1 s2 q1 -> ((timers_array s2).[i] = Some t -> progress s2 s3 q2) ->
  (exists l, calls s3 = calls s2 ++ l) -> length (timers_array s3) = length (timers_array s2) ->
  (reads s2 <= reads s3)%nat -> progress s1 s3 (q1 && q2).
Proof.
  intros Ht (Hl1 & Hr1 & l1 & Hc1 & H1) H23 (l & Hl) Hlen Hr. split; [congruence|]. split; [lia|].
  exists (l1 ++ l). split; [by rewrite Hl, Hc1, app_assoc|]. rewrite elem_of_app.
  destruct H1 as [H1|[H1 ->]]; [by left; left|].
  destruct (H23 H1) as (_ & _ & l2 & Hc2 & H2). assert (l2 = l) as -> by (rewrite Hc2 in Hl; by apply app_inv_head in Hl).
  destruct H2 as [?|[? ->]]; [by left; right|by right].
Qed.

Lemma run_timer_progress s now j : 0 <= j < Z.of_nat (length (timers_array s)) ->
  exists s', run_timer utime event s now j = Some s' /\
    length (timers_array s') = length (timers_array s) /\ (reads s <= reads s')%nat /\
    (exists l, calls s' = calls s ++ l) /\
    ((timers_array s).[i] = Some t -> progress s s' (negb ((j =? i) && due now t))).
Proof.
  intros Hj. destruct (rd_is_Some _ _ Hj) as [u Hu]. unfold run_timer. rewrite Hu. mstep.
  assert (enabled u && expired now u = false -> (timers_array s).[i] = Some t ->
    progress s s (negb ((j =? i) && due now t))) as Hsame.
  { intros Hd Hi. split; [done|]. split; [done|]. exists []. split; [by rewrite app_nil_r|]. right.
    split; [done|]. destruct (Z.eqb_spec j i) as [->|]; [|done]. simplify_eq. unfold due. by rewrite Hd. }
  destruct (enabled u); [|exists s; split_and!; try done; [exists []; by rewrite app_nil_r|by apply Hsame]].
  destruct (expired now u); [|exists s; split_and!; try done; [exists []; by rewrite app_nil_r|by apply Hsame]].
  clear Hsame. set (fn := event_fn u). set (arg := event_arg u). set (s1 := event fn arg (log_call s fn arg)).
  assert (length (timers_array s1) = length (timers_array s)) as Hl1 by exact (ev_length fair fn arg (log_call s fn arg)).
  assert (reads s <= reads s1)%nat as Hr1 by exact (ev_reads fair fn arg (log_call s fn arg)).
  destruct (ev_calls fair fn arg (log_call s fn arg)) as [l Hl]. fold s1 in Hl. cbn [calls log_call] in Hl.
  destruct (rd_is_Some (timers_array s1) j) as [u1 Hu1]; [lia|].
  assert (forall s2 f, timers_array s2 = timers_array s1 -> (reads s1 <= reads s2)%nat -> calls s2 = calls s1 ->
    exists s3, update_timer s2 j f = Some s3 /\ length (timers_array s3) = length (timers_array s) /\
      (reads s <= reads s3)%nat /\ (exists l, calls s3 = calls s ++ l) /\
      ((timers_array s).[i] = Some t -> progress s s3 (negb ((j =? i) && due now t)))) as Hup.
  { intros s2 f Ha Hr Hc. rewrite (update_timer_spec s2 j u1) by (by rewrite Ha).
    eexists. split; [done|]. cbn. rewrite length_insert, Ha, Hc, Hl, <- app_assoc. split; [done|]. split; [lia|].
    split; [by eexists|]. intros Hi. split; [cbn; rewrite ?length_insert, ?Ha; done|]. split; [cbn; lia|].
    exists ([(fn, arg)] ++ l). cbn [calls set_array]. split; [by rewrite Hc, Hl, <- app_assoc|].
    destruct (decide ((fn, arg) = (event_fn t, event_arg t))) as [He|Hne].
    - left. rewrite <- He. apply elem_of_app. left. by apply list_elem_of_singleton.
    - right. destruct (Z.eqb_spec j i) as [->|Hji]; [exfalso; apply Hne; subst fn arg; by simplify_eq|].
      split; [|done]. cbn. rewrite rd_insert_ne, ?Ha by lia. etrans; [exact (ev_others fair fn arg (log_call s fn arg) Hne)|exact Hi]. }
  destruct (periodic u); cbn [negb]; [|by apply Hup]. unfold get_utime. apply Hup; try done. cbn. lia.
Qed.

Lemma timers_loop_progress k : forall s now j, 0 <= j -> j + Z.of_nat k = Z.of_nat (length (timers_array s)) ->
  exists s', timers_loop utime event k s now j = Some s' /\
    length (timers_array s') = length (timers_array s) /\ (reads s <= reads s')%nat /\
    (exists l, calls s' = calls s ++ l) /\
    ((timers_array s).[i] = Some t -> progress s s' (negb ((j <=? i) && due now t))).
Proof.
  induction k as [|k IH]; intros s now j Hj Hk; cbn [timers_loop].
  - exists s. split_and!; try done; [exists []; by rewrite app_nil_r|]. intros Hi. pose proof (rd_Some_lt _ _ _ Hi).
    rewrite (proj2 (Z.leb_gt j i)) by lia. split_and!; try done. exists []. rewrite app_nil_r. by split; [|right].
  - destruct (run_timer_progress s now j) as (s1 & -> & Hl1 & Hr1 & [l1 Hc1] & H1); [lia|]. mstep.
    destruct (IH s1 now (j + 1)) as (s2 & -> & Hl2 & Hr2 & [l2 Hc2] & H2); [lia|lia|].
    exists s2. split; [done|]. split; [congruence|]. split; [lia|].
    split; [exists (l1 ++ l2); by rewrite Hc2, Hc1, app_assoc|]. intros Hi.
    pose proof (progress_trans _ _ _ _ _ Hi (H1 Hi) H2 (ex_intro _ l2 Hc2) Hl2 Hr2) as Hp.
    replace (negb ((j <=? i) && due now t))
      with (negb ((j =? i) && due now t) && negb ((j + 1 <=? i) && due now t)); [done|].
    destruct (due now t); rewrite ?andb_false_r, ?andb_true_r; [|done].
    destruct (Z.eqb_spec j i), (Z.leb_spec (j + 1) i), (Z.leb_spec j i); try lia; done.
Qed.

Lemma tick_progress s : Z.of_nat (length (timers_array s)) = configTIMERS_MAX ->
  (timers_array s).[i] = Some t ->
  exists s', timers_run utime event s = Some s' /\ (reads s < reads s')%nat /\
    progress s s' (negb (due (utime (reads s)) t)).
Proof.
  intros Hl Hi. unfold timers_run, get_utime. set (s1 := TState _ _ _ _ _).
  destruct (timers_loop_progress (Z.to_nat configTIMERS_MAX) s1 (utime (reads s)) 0)
    as (s' & -> & Hl' & Hr & _ & Hp); [lia|cbn; lia|].
  exists s'. cbn in Hr. split; [done|]. split; [lia|]. specialize (Hp Hi).
  rewrite (proj2 (Z.leb_le 0 i)) in Hp by (pose proof (rd_Some_lt _ _ _ Hi); lia).
  destruct Hp as (? & ? & ?). split; [done|]. split; [lia|done].
Qed.
End liveness.

(** ** Claims *)



(** ** A thread that waits for an alarm *)

Definition timers15 : TimersConfig := {| configTIMERS_MAX := 15 |}.
Definition clock_example (n : nat) : Z := 1000 * Z.of_nat n.
Definition alarm_events (fn arg : Z) (s : tstate) : tstate := timer_event_alarm s arg.

Definition idle_example : tstate := TState (@timers_init timers15) 0 [] {[ 7 := TMNOVAL ]} [].
(** Thread 7 asks for an alarm after 2 milliseconds. *)
Definition alarm_example : tstate :=
  match @thread_alarm timers15 clock_example idle_example 7 1 2 with Some (_, s) => s | None => idle_example end.
Definition timer_example : timer_cb := Timer 3 1 7 2000 0.

Lemma alarm_events_fair : events_fair alarm_events 0 timer_example.
Proof. split; intros; cbn; try done. exists []. by rewrite app_nil_r. Qed.

Lemma clock_example_mono m n : (m <= n)%nat -> 0 <= clock_example m <= clock_example n.
Proof. unfold clock_example. lia. Qed.


(** A clock of the processor that has run for a bounded time. *)
Definition bounded_clock (n : nat) : Z := Z.min (clock_example n) (2 ^ 63).

Lemma bounded_clock_mono m n : (m <= n)%nat -> 0 <= bounded_clock m <= bounded_clock n.
Proof. unfold bounded_clock, clock_example. lia. Qed.
Lemma bounded_clock_max n : bounded_clock n < 2 ^ 64.
Proof. unfold bounded_clock. lia. Qed.


(** ** Where the code departs from its intent *)

(** Starting a running timer adds the flag again: it is disabled and made periodic. *)
Lemma timers_start_twice :
  (s ← @timers_start timers15 alarm_example 0; t ← (timers_array s).[0]; Some (enabled t, periodic t)) =
    Some (false, true).
Proof. vm_compute. reflexivity. Qed.

(** Stopping a timer that has expired enables it. *)
Lemma timers_stop_enables :
  (s ← @ticks timers15 clock_example alarm_events 3 alarm_example; t ← (timers_array s).[0];
   s' ← @timers_stop timers15 s 0; t' ← (timers_array s').[0]; Some (enabled t, enabled t', periodic t')) =
    Some (false, true, true).
Proof. vm_compute. reflexivity. Qed.

(** The interval counts from [timers_add], not from [timers_start]. *)
Lemma interval_from_add :
  ('(i, s) ← @timers_add timers15 clock_example idle_example 1 7 TIMERS_FLAG_ONESHOT 2000;
   s ← @ticks timers15 clock_example alarm_events 5 s;
   s ← @timers_start timers15 s i; s ← @ticks timers15 clock_example alarm_events 1 s; Some (calls s)) =
    Some [(1, 7)].
Proof. vm_compute. reflexivity. Qed.

(** A timer that is added as in [mtx_sleep], without [timers_start], never expires. *)
Lemma mtx_sleep_timer :
  ('(_, s) ← @timers_add timers15 clock_example idle_example 1 7 TIMERS_FLAG_ONESHOT 10;
   s ← @ticks timers15 clock_example alarm_events 100 s; Some (calls s)) = Some [].
Proof. vm_compute. reflexivity. Qed.
