(* ===== verification/Proc.v ===== *)
(** * Processes (proc.c, proc_fork.c, proc_session.c)

    The process table, process identifiers, parents and children, process groups and
    sessions, and the system calls that create, end, collect and group processes.  A
    process structure is named by its address in the pool, 0 is NULL; a structure that
    was freed is not in [proc_mem] any more, so an access to it is [None], and so is a
    failed assertion.  Open files and working directories are those of [Fildes],
    credentials those of [Priv].  [kpalloc] and [kfree] do nothing on addresses inside of
    the pool, so [proc_ref] and [proc_unref] leave no trace.  The set-up of the memory of
    a child is represented by its result, its main thread by the identifier that
    [thread_fork] gives it. *)
From S2P Require Import Prelude Priv Kobj Fildes.

Class ProcConfig := { configMAXPROC : Z; configRLIMIT_NOFILE : Z }.

Definition SIGCHLD : Z := 7.
Definition CLD_DUMPED : Z := 27.
Definition WNOHANG : Z := 0x2.
Definition WNOWAIT : Z := 0x8.
Definition MAXLOGNAME : nat := 33.
Definition RLIMIT_NOFILE : Z := 4.
Definition _RLIMIT_ARR_COUNT : Z := 7.
Definition RLIM_INFINITY : Z := -1.
Definition NR_PIDS_BUFS : Z := 4.

(** ** Data *)

Inductive proc_state :=
| PROC_STATE_INITIAL | PROC_STATE_READY | PROC_STATE_STOPPED
| PROC_STATE_ZOMBIE | PROC_STATE_DEFUNCT.
#[global] Instance proc_state_eq : EqDecision proc_state.
Proof. solve_decision. Defined.

Record tms := Tms { tms_utime : Z; tms_stime : Z; tms_cutime : Z; tms_cstime : Z }.

(** [exit_ksiginfo] has the number and the code of the signal; [files] is the number of the
    descriptor table in [Fildes]; [parent] and [children] are the member [inh]. *)
Record proc_info := Proc {
  pid : Z;
  state : proc_state;
  nice : Z;
  exit_code : Z;
  exit_ksiginfo : option (Z * Z);
  pgrp : Z;
  p_cred : cred;
  p_tms : tms;
  rlim : list (Z * Z);
  croot : Z;
  cwd : Z;
  files : option nat;
  parent : Z;
  children : list Z;
  main_thread : option Z
}.

Record pgrp_t := Pgrp { pg_id : Z; pg_proc_count : Z; pg_session : Z; pg_proc_list : list Z }.
Record session := Session {
  s_leader : Z; s_pgrp_count : Z; s_ctty_fd : Z; s_login : list Z; s_pgrp_list : list Z
}.

(** [pool] has the free blocks of [proc_pool] in the order in which it hands them out;
    [sent] lists the signals that were sent, with the process they were sent to. *)
Record pstate := PState {
  proc_mem : gmap Z proc_info;
  procarr : list Z;
  nprocs : Z;
  proc_lastpid : Z;
  pool : list Z;
  pgrps : gmap Z pgrp_t;
  sessions : gmap Z session;
  session_list : list Z;
  nr_sessions : Z;
  fs : fstate;
  sent : list (Z * Z)
}.

Definition set_proc_mem (s : pstate) m := PState m (procarr s) (nprocs s) (proc_lastpid s) (pool s) (pgrps s)
  (sessions s) (session_list s) (nr_sessions s) (fs s) (sent s).
Definition set_procarr (s : pstate) l n := PState (proc_mem s) l n (proc_lastpid s) (pool s) (pgrps s)
  (sessions s) (session_list s) (nr_sessions s) (fs s) (sent s).
Definition set_lastpid (s : pstate) n := PState (proc_mem s) (procarr s) (nprocs s) n (pool s) (pgrps s)
  (sessions s) (session_list s) (nr_sessions s) (fs s) (sent s).
Definition set_pool (s : pstate) l := PState (proc_mem s) (procarr s) (nprocs s) (proc_lastpid s) l (pgrps s)
  (sessions s) (session_list s) (nr_sessions s) (fs s) (sent s).
Definition set_pgrps (s : pstate) m := PState (proc_mem s) (procarr s) (nprocs s) (proc_lastpid s) (pool s) m
  (sessions s) (session_list s) (nr_sessions s) (fs s) (sent s).
Definition set_sessions (s : pstate) m l n := PState (proc_mem s) (procarr s) (nprocs s) (proc_lastpid s)
  (pool s) (pgrps s) m l n (fs s) (sent s).
Definition set_fs (s : pstate) f := PState (proc_mem s) (procarr s) (nprocs s) (proc_lastpid s) (pool s)
  (pgrps s) (sessions s) (session_list s) (nr_sessions s) f (sent s).
Definition log_signal (s : pstate) p n := PState (proc_mem s) (procarr s) (nprocs s) (proc_lastpid s) (pool s)
  (pgrps s) (sessions s) (session_list s) (nr_sessions s) (fs s) (sent s ++ [(p, n)]).

Definition p_set_pid p n := Proc n (state p) (nice p) (exit_code p) (exit_ksiginfo p) (pgrp p) (p_cred p)
  (p_tms p) (rlim p) (croot p) (cwd p) (files p) (parent p) (children p) (main_thread p).
Definition p_set_state p x := Proc (pid p) x (nice p) (exit_code p) (exit_ksiginfo p) (pgrp p) (p_cred p)
  (p_tms p) (rlim p) (croot p) (cwd p) (files p) (parent p) (children p) (main_thread p).
Definition p_set_nice p x := Proc (pid p) (state p) x (exit_code p) (exit_ksiginfo p) (pgrp p) (p_cred p)
  (p_tms p) (rlim p) (croot p) (cwd p) (files p) (parent p) (children p) (main_thread p).
Definition p_set_exit p c k := Proc (pid p) (state p) (nice p) c k (pgrp p) (p_cred p)
  (p_tms p) (rlim p) (croot p) (cwd p) (files p) (parent p) (children p) (main_thread p).
Definition p_set_pgrp p g := Proc (pid p) (state p) (nice p) (exit_code p) (exit_ksiginfo p) g (p_cred p)
  (p_tms p) (rlim p) (croot p) (cwd p) (files p) (parent p) (children p) (main_thread p).
Definition p_set_cred p c := Proc (pid p) (state p) (nice p) (exit_code p) (exit_ksiginfo p) (pgrp p) c
  (p_tms p) (rlim p) (croot p) (cwd p) (files p) (parent p) (children p) (main_thread p).
Definition p_set_tms p t := Proc (pid p) (state p) (nice p) (exit_code p) (exit_ksiginfo p) (pgrp p) (p_cred p)
  t (rlim p) (croot p) (cwd p) (files p) (parent p) (children p) (main_thread p).
Definition p_set_rlim p l := Proc (pid p) (state p) (nice p) (exit_code p) (exit_ksiginfo p) (pgrp p) (p_cred p)
  (p_tms p) l (croot p) (cwd p) (files p) (parent p) (children p) (main_thread p).
Definition p_set_dirs p r c := Proc (pid p) (state p) (nice p) (exit_code p) (exit_ksiginfo p) (pgrp p) (p_cred p)
  (p_tms p) (rlim p) r c (files p) (parent p) (children p) (main_thread p).
Definition p_set_files p f := Proc (pid p) (state p) (nice p) (exit_code p) (exit_ksiginfo p) (pgrp p) (p_cred p)
  (p_tms p) (rlim p) (croot p) (cwd p) f (parent p) (children p) (main_thread p).
Definition p_set_inh p q l := Proc (pid p) (state p) (nice p) (exit_code p) (exit_ksiginfo p) (pgrp p) (p_cred p)
  (p_tms p) (rlim p) (croot p) (cwd p) (files p) q l (main_thread p).
Definition p_set_main p t := Proc (pid p) (state p) (nice p) (exit_code p) (exit_ksiginfo p) (pgrp p) (p_cred p)
  (p_tms p) (rlim p) (croot p) (cwd p) (files p) (parent p) (children p) t.

(** An assignment to members of the structure at [a]. *)
Definition upd (s : pstate) (a : Z) (f : proc_info -> proc_info) : option pstate :=
  p ← proc_mem s !! a; Some (set_proc_mem s (<[a := f p]> (proc_mem s))).
Definition upd_pgrp (s : pstate) (g : Z) (f : pgrp_t -> pgrp_t) : option pstate :=
  x ← pgrps s !! g; Some (set_pgrps s (<[g := f x]> (pgrps s))).
Definition upd_session (s : pstate) (a : Z) (f : session -> session) : option pstate :=
  x ← sessions s !! a; Some (set_sessions s (<[a := f x]> (sessions s)) (session_list s) (nr_sessions s)).

(** The removal of an element of a linked list; [None] when it is not in the list. *)
Fixpoint list_unlink (x : Z) (l : list Z) : option (list Z) :=
  match l with
  | [] => None
  | y :: l => if x =? y then Some l else l ← list_unlink x l; Some (y :: l)
  end.

(** ** proc_session.c: the addresses [k] are results of [kzalloc], 0 when it fails *)

Definition proc_session_create (s : pstate) (leader k : Z) : option (Z * pstate) :=
  if k =? 0 then Some (0, s)
  else
    p ← proc_mem s !! leader;
    Some (k, set_sessions s (<[k := Session (pid p) 0 (-1) [] []]> (sessions s))
               (session_list s ++ [k]) (nr_sessions s + 1)).

Definition proc_session_free (s : pstate) (a : Z) : option pstate :=
  l ← list_unlink a (session_list s);
  Some (set_sessions s (delete a (sessions s)) l (nr_sessions s - 1)).

Fixpoint search_pg (s : pstate) (l : list Z) (id : Z) : option Z :=
  match l with
  | [] => Some 0
  | g :: l => x ← pgrps s !! g; if pg_id x =? id then Some g else search_pg s l id
  end.
Definition proc_session_search_pg (s : pstate) (a id : Z) : option Z :=
  x ← sessions s !! a; search_pg s (s_pgrp_list x) id.

(** [strlcpy] into the array of [MAXLOGNAME] characters. *)
Definition proc_session_setlogin (s : pstate) (a : Z) (login : list Z) : option pstate :=
  upd_session s a (fun x => Session (s_leader x) (s_pgrp_count x) (s_ctty_fd x)
    (take (MAXLOGNAME - 1) login) (s_pgrp_list x)).

Definition proc_pgrp_free (s : pstate) (g : Z) : option pstate :=
  pg ← pgrps s !! g;
  x ← sessions s !! pg_session pg;
  l ← list_unlink g (s_pgrp_list x);
  let x := Session (s_leader x) (s_pgrp_count x - 1) (s_ctty_fd x) (s_login x) l in
  s ← upd_session s (pg_session pg) (fun _ => x);
  s ← (if s_pgrp_count x =? 0 then proc_session_free s (pg_session pg) else Some s);
  Some (set_pgrps s (delete g (pgrps s))).

Definition proc_pgrp_remove (s : pstate) (a : Z) : option pstate :=
  p ← proc_mem s !! a;
  pg ← pgrps s !! pgrp p;
  l ← list_unlink a (pg_proc_list pg);
  let pg := Pgrp (pg_id pg) (pg_proc_count pg - 1) (pg_session pg) l in
  s ← upd_pgrp s (pgrp p) (fun _ => pg);
  if pg_proc_count pg =? 0 then proc_pgrp_free s (pgrp p) else Some s.

Definition proc_pgrp_insert (s : pstate) (g a : Z) : option pstate :=
  p ← proc_mem s !! a;
  s ← (if pgrp p =? 0 then Some s else proc_pgrp_remove s a);
  s ← upd_pgrp s g (fun x => Pgrp (pg_id x) (pg_proc_count x + 1) (pg_session x) (pg_proc_list x ++ [a]));
  upd s a (fun p => p_set_pgrp p g).

(** [a] is the session, 0 for a new one; [ks] and [kg] are the memory for it and for the group. *)
Definition proc_pgrp_create (s : pstate) (a proc ks kg : Z) : option (Z * pstate) :=
  '(a, s) ← (if a =? 0 then proc_session_create s proc ks else Some (a, s));
  if a =? 0 then Some (0, s)
  else if kg =? 0 then Some (0, s)
  else
    p ← proc_mem s !! proc;
    s ← upd_session s a (fun x => Session (s_leader x) (s_pgrp_count x + 1) (s_ctty_fd x) (s_login x)
          (s_pgrp_list x ++ [kg]));
    let s := set_pgrps s (<[kg := Pgrp (pid p) 0 a []]> (pgrps s)) in
    s ← proc_pgrp_insert s kg proc;
    Some (kg, s).

Fixpoint pids_of (s : pstate) (l : list Z) : option (list Z) :=
  match l with [] => Some [] | a :: l => p ← proc_mem s !! a; r ← pids_of s l; Some (pid p :: r) end.
(** The entries that are written, the 0 at the end included. *)
Definition proc_pgrp_to_array (s : pstate) (g : Z) : option (list Z) :=
  x ← pgrps s !! g; l ← pids_of s (pg_proc_list x); Some (l ++ [0]).

(** ** proc.c: the process table *)

Section proc.
Context `{ProcConfig} `{VnodeOps}.

(** The number of bytes serves as the number of elements. *)
Definition SIZEOF_PROCARR : Z := (configMAXPROC + 1) * 4.

Definition procarr_insert (s : pstate) (a : Z) : option pstate :=
  p ← proc_mem s !! a;
  if (configMAXPROC <? pid p) || (pid p <? 0) then Some s
  else l ← (procarr s).[pid p <- a]; Some (set_procarr s l (nprocs s + 1)).

Definition procarr_remove (s : pstate) (n : Z) : option pstate :=
  if (configMAXPROC <? n) || (n <? 0) then Some s
  else l ← (procarr s).[n <- 0]; Some (set_procarr s l (nprocs s - 1)).

Definition proc_get_struct (s : pstate) (n : Z) : option Z :=
  if (n <? 0) || (configMAXPROC <? n) then Some 0 else (procarr s).[n].
Definition proc_ref_locked (s : pstate) (n : Z) : option Z := proc_get_struct s n.
Definition proc_ref (s : pstate) (n : Z) : option Z := proc_get_struct s n.
Definition proc_exists_locked (s : pstate) (n : Z) : option bool :=
  a ← proc_ref_locked s n; Some (negb (a =? 0)).
Definition proc_exists (s : pstate) (n : Z) : option bool :=
  a ← proc_ref s n; Some (negb (a =? 0)).

(** [memset] clears [configMAXPROC + 1] bytes of the buffer of as many [pid_t], whose
    elements have four bytes in the order of a little endian processor. *)
Definition clear_pids (buf : list Z) : list Z :=
  imap (fun i x => let n := configMAXPROC + 1 - 4 * Z.of_nat i in
                   if 4 <=? n then 0 else if n <=? 0 then x else Z.shiftl (Z.shiftr x (8 * n)) (8 * n)) buf.
Fixpoint get_pids_loop (k : nat) (s : pstate) (i j : Z) (pids : list Z) : option (list Z) :=
  match k with
  | O => Some pids
  | S k =>
      a ← (procarr s).[i];
      if a =? 0 then get_pids_loop k s (i + 1) j pids
      else
        p ← proc_mem s !! a;
        pids ← pids.[j <- pid p];
        get_pids_loop k s (i + 1) (j + 1) pids
  end.
Definition proc_get_pids (s : pstate) (pids : list Z) : option (list Z) :=
  get_pids_loop (Z.to_nat configMAXPROC) s 1 0 pids.

(** ** Parents and children *)

Definition inh_insert_head (s : pstate) (q c : Z) : option pstate :=
  upd s q (fun p => p_set_inh p (parent p) (c :: children p)).
(** [SLIST_REMOVE] follows the list until it finds the element. *)
Definition inh_remove (s : pstate) (q c : Z) : option pstate :=
  p ← proc_mem s !! q;
  l ← list_unlink c (children p);
  upd s q (fun p => p_set_inh p (parent p) l).

Fixpoint adopt_children (l : list Z) (s : pstate) (proc init : Z) : option pstate :=
  match l with
  | [] => Some s
  | child :: l =>
      s ← inh_remove s proc child;
      s ← upd s child (fun p => p_set_inh p init (children p));
      s ← inh_insert_head s init child;
      adopt_children l s proc init
  end.

(** The memory of the process is left out. *)
Definition proc_free (s : pstate) (a : Z) : option pstate :=
  if a =? 0 then Some s
  else
    p ← proc_mem s !! a;
    t ← files p;
    f ← free_files (fs s) t;
    let s := set_fs s f in
    s ← proc_pgrp_remove s a;
    Some (set_pool (set_proc_mem s (delete a (proc_mem s))) (pool s ++ [a])).

(** The identifier that [procarr_remove] gets is read from the freed structure, whose
    contents are still there. *)
Definition proc_remove (s : pstate) (a : Z) : option pstate :=
  s ← upd s a (fun p => p_set_state p PROC_STATE_DEFUNCT);
  p ← proc_mem s !! a;
  s ← (if parent p =? 0 then Some s else inh_remove s (parent p) a);
  p ← proc_mem s !! a;
  s ← (match children p with
       | [] => Some s
       | l => init ← proc_ref s 1; if init =? 0 then None else adopt_children l s a init
       end);
  f ← vrele (fs s) (cwd p);
  s ← proc_free (set_fs s f) a;
  procarr_remove s (pid p).

(** [ksig] is the signal that ended the thread. *)
Definition proc_thread_removed (s : pstate) (n thread_id : Z) (ksig : option (Z * Z)) : option pstate :=
  a ← proc_ref s n;
  if a =? 0 then Some s
  else
    p ← proc_mem s !! a;
    if decide (main_thread p = Some thread_id) then
      s ← upd s a (fun p => p_set_exit p (exit_code p)
            (match ksig with Some _ => ksig | None => exit_ksiginfo p end));
      s ← upd s a (fun p => p_set_state (p_set_main p None) PROC_STATE_ZOMBIE);
      t ← files p;
      f ← fs_fildes_close_all (fs s) t 0;
      Some (set_fs s f)
    else Some s.

(** [insys]: the thread is in a system call and not blocked; [clock_t] is unsigned, of 32 bits. *)
Definition proc_update_times (s : pstate) (cur : Z) (insys : bool) : option pstate :=
  upd s cur (fun p => let t := p_tms p in
    p_set_tms p (if insys then Tms (tms_utime t) (u32 (tms_stime t + 1)) (tms_cutime t) (tms_cstime t)
                 else Tms (u32 (tms_utime t + 1)) (tms_stime t) (tms_cutime t) (tms_cstime t))).

(** [owner] is the process of the current thread. *)
Definition proc_update (s : pstate) (owner : Z) : option Z :=
  a ← proc_get_struct s owner; if a =? 0 then None else Some a.

(** ** proc_fork.c *)

(** The memory is not looked at here. *)
Definition clone_proc_info (s : pstate) (old : Z) : option (Z * pstate) :=
  match pool s with
  | [] => Some (0, s)
  | a :: l => p ← proc_mem s !! old; Some (a, set_pool (set_proc_mem s (<[a := p]> (proc_mem s))) l)
  end.

Definition set_proc_inher (s : pstate) (old new : Z) : option pstate :=
  s ← upd s new (fun p => p_set_inh p old []);
  inh_insert_head s old new.

Definition pid_reset : Z :=
  if configMAXPROC <? 20 then 2 else if configMAXPROC <? 200 then configMAXPROC / 2 else 200.
Fixpoint next_pid_loop (fuel : nat) (s : pstate) (newpid : Z) : option Z :=
  match fuel with
  | O => None
  | S fuel =>
      e ← proc_exists_locked s newpid;
      if e : bool then
        let newpid := newpid + 1 in
        next_pid_loop fuel s (if configMAXPROC <? newpid then pid_reset else newpid)
      else Some newpid
  end.
Definition proc_get_next_pid (fuel : nat) (s : pstate) : option (Z * pstate) :=
  newpid ← next_pid_loop fuel s
             (if configMAXPROC <=? proc_lastpid s then pid_reset else proc_lastpid s + 1);
  Some (newpid, set_lastpid s newpid).
Definition pid_fuel : nat := Z.to_nat (2 * (configMAXPROC + 1)).

(** What the rest of the kernel decides in a fork: the result of the set-up of the memory,
    whether there is memory for the descriptors, and the new main thread. *)
Record fork_env := ForkEnv { mm_result : Z; files_ok : bool; new_thread : option Z }.

Definition fork_out (s : pstate) (new retval : Z) : option (Z * pstate) :=
  if retval <? 0 then s ← proc_free s new; Some (retval, s) else Some (retval, s).

Definition nofile_max (p : proc_info) : option Z :=
  '(_, m) ← (rlim p).[RLIMIT_NOFILE]; Some (if m <? 0 then configRLIMIT_NOFILE else m).

(** The end of [proc_fork]: the main thread. *)
Definition fork_thread (s : pstate) (old new : Z) (new_pid : Z) (thread : option Z) : option (Z * pstate) :=
  p ← proc_mem s !! old;
  match main_thread p with
  | None =>
      s ← upd s new (fun p => p_set_state (p_set_main p None) PROC_STATE_READY); fork_out s new new_pid
  | Some _ =>
      s ← upd s new (fun p => p_set_main p thread);
      match thread with
      | None => fork_out s new (- EAGAIN)
      | Some _ => s ← upd s new (fun p => p_set_state p PROC_STATE_READY); fork_out s new new_pid
      end
  end.

(** From the copy of the descriptors on. *)
Definition fork_files_pid (s : pstate) (old new : Z) (env : fork_env) : option (Z * pstate) :=
  p ← proc_mem s !! old;
  n ← nofile_max p;
  t ← files p;
  let c := length (procs (fs s)) in
  '(err, f) ← fork_files (fs s) t n (files_ok env);
  if err <? 0 then fork_out s new err
  else
    s ← upd (set_fs s f) new (fun p => p_set_files p (Some c));
    '(new_pid, s) ← proc_get_next_pid pid_fuel s;
    s ← upd s new (fun p => p_set_pid p new_pid);
    p ← proc_mem s !! new;
    s ← (if cwd p =? 0 then Some s else '(_, f) ← vref (fs s) (cwd p); Some (set_fs s f));
    s ← set_proc_inher s old new;
    c ← priv_cred_init_fork (p_cred p);
    s ← upd s new (fun p => p_set_cred p c);
    s ← procarr_insert s new;
    fork_thread s old new new_pid (new_thread env).

Definition proc_fork (s : pstate) (old : Z) (env : fork_env) : option (Z * pstate) :=
  if old =? 0 then Some (- EINVAL, s)
  else
    p ← proc_mem s !! old;
    if decide (state p = PROC_STATE_INITIAL) then Some (- EINVAL, s)
    else
      '(new, s) ← clone_proc_info s old;
      if new =? 0 then Some (- ENOMEM, s)
      else
        s ← upd s new (fun p => p_set_tms (p_set_pgrp (p_set_files
              (p_set_exit (p_set_state p PROC_STATE_INITIAL) (exit_code p) None) None) 0) (Tms 0 0 0 0));
        s ← proc_pgrp_insert s (pgrp p) new;
        if negb (mm_result env =? 0) then fork_out s new (mm_result env)
        else fork_files_pid s old new env.

(** ** System calls of proc.c

    [cur] is the process that calls; [su] tells whether the kernel is built with a super user.
    The result has the return value, [errno] when it is set, and the state; [None] for
    arguments is a failed copy from user space. *)

Definition pret : Type := Z * option Z * pstate.

Definition sys_proc_fork (su : bool) (s : pstate) (cur : Z) (env : fork_env) : option pret :=
  p ← proc_mem s !! cur;
  err ← priv_check su (p_cred p) PRIV_PROC_FORK;
  if negb (err =? 0) then Some (-1, Some (- err), s)
  else
    '(pid, s) ← proc_fork s cur env;
    if pid <? 0 then Some (-1, Some (- pid), s) else Some (pid, None, s).

(** A call that has to wait for the child returns it. *)
Inductive wait_result :=
| WaitRet (ret : Z) (errno : option Z) (status : Z) (s : pstate)
| WaitBlock (child : Z).

Definition is_child (s : pstate) (cur pid' : Z) : option bool :=
  p ← proc_mem s !! cur; l ← pids_of s (children p); Some (bool_decide (pid' ∈ l)).

(** The child that the arguments name, 0 for none, or [errno]. *)
Definition wait_select (s : pstate) (cur arg_pid : Z) : option (Z + Z) :=
  if arg_pid =? 0 then Some (inr ENOTSUP)
  else
    p ← proc_mem s !! cur;
    if arg_pid =? -1 then Some (inl (default 0 (head (children p))))
    else if arg_pid <? -1 then Some (inr ENOTSUP)
    else
      a ← proc_ref s arg_pid;
      if (a =? 0) || (match children p with [] => true | _ => false end) then Some (inr ECHILD)
      else
        c ← proc_mem s !! a;
        b ← is_child s cur (pid c);
        Some (inl (if b : bool then a else 0)).

(** The value that the parent gets. *)
Definition wait_status (c : proc_info) : Z :=
  let status := Z.shiftl (Z.land (exit_code c) 0xff) 8 in
  match exit_ksiginfo c with
  | None => status
  | Some (signo, code) =>
      let status := Z.lor status (Z.land signo 0x7f) in
      if code =? CLD_DUMPED then Z.lor status 0x80 else status
  end.

(** From the zombie on. *)
Definition wait_finish (s : pstate) (cur child options : Z) : option wait_result :=
  c ← proc_mem s !! child;
  let status := wait_status c in
  if flag options WNOWAIT then Some (WaitRet (pid c) None status s)
  else
    s ← upd s cur (fun p => let t := p_tms p in
          p_set_tms p (Tms (tms_utime t) (tms_stime t) (u32 (tms_cutime t + tms_utime (p_tms c)))
                         (u32 (tms_cstime t + tms_stime (p_tms c)))));
    s ← proc_remove s child;
    Some (WaitRet (pid c) None status s).

Definition sys_proc_wait (s : pstate) (cur : Z) (args : option (Z * Z)) : option wait_result :=
  match args with
  | None => Some (WaitRet (-1) (Some EFAULT) 0 s)
  | Some (arg_pid, options) =>
      sel ← wait_select s cur arg_pid;
      match sel with
      | inr errno => Some (WaitRet (-1) (Some errno) 0 s)
      | inl child =>
          if child =? 0 then Some (WaitRet (-1) (Some ECHILD) 0 s)
          else
            c ← proc_mem s !! child;
            let zombie := bool_decide (state c = PROC_STATE_ZOMBIE) in
            if flag options WNOHANG && negb zombie then Some (WaitRet 0 None 0 s)
            else if zombie then wait_finish s cur child options else Some (WaitBlock child)
      end
  end.

(** Up to [thread_die]; [code] is the [errno] of the thread. *)
Definition sys_proc_exit (s : pstate) (cur code : Z) : option pstate :=
  p ← proc_mem s !! cur;
  q ← proc_mem s !! parent p;
  s ← upd s cur (fun p => p_set_exit p code (exit_ksiginfo p));
  Some (log_signal s (pid q) SIGCHLD).

(** Real, effective and saved user, and the same for the group. *)
Record cred_args := CredArgs { a_ruid : Z; a_euid : Z; a_suid : Z; a_rgid : Z; a_egid : Z; a_sgid : Z }.
Definition ids (c : cred) : cred_args := CredArgs (uid c) (euid c) (suid c) (gid c) (egid c) (sgid c).

Definition c_set_ids (c : cred) (i : cred_args) : cred :=
  Cred (a_ruid i) (a_euid i) (a_suid i) (a_rgid i) (a_egid i) (a_sgid i) (sup_gid c) (pcap_effmap c) (pcap_bndmap c).
Definition c_uid c x := c_set_ids c (CredArgs x (euid c) (suid c) (gid c) (egid c) (sgid c)).
Definition c_euid c x := c_set_ids c (CredArgs (uid c) x (suid c) (gid c) (egid c) (sgid c)).
Definition c_suid c x := c_set_ids c (CredArgs (uid c) (euid c) x (gid c) (egid c) (sgid c)).
Definition c_gid c x := c_set_ids c (CredArgs (uid c) (euid c) (suid c) x (egid c) (sgid c)).
Definition c_egid c x := c_set_ids c (CredArgs (uid c) (euid c) (suid c) (gid c) x (sgid c)).
Definition c_sgid c x := c_set_ids c (CredArgs (uid c) (euid c) (suid c) (gid c) (egid c) x).

(** One of the six parts of [sys_proc_getsetcred]: set the identifier to [x] when the
    process has the right or [x] is one of [own]. *)
Definition set_id (su : bool) (c : cred) (retval x priv : Z) (own : list Z) (set : cred -> Z -> cred)
    : option (Z * cred) :=
  if 0 <=? x then
    err ← priv_check su c priv;
    if (err =? 0) || bool_decide (x ∈ own) then Some (retval, set c x) else Some (-1, c)
  else Some (retval, c).

Definition getsetcred (su : bool) (c : cred) (a : cred_args) : option (Z * cred) :=
  let ruid := uid c in let suid' := suid c in let rgid := gid c in let sgid' := sgid c in
  '(r, c) ← set_id su c 0 (a_ruid a) PRIV_CRED_SETUID [] c_uid;
  '(r, c) ← set_id su c r (a_euid a) PRIV_CRED_SETEUID [ruid; suid'] c_euid;
  '(r, c) ← set_id su c r (a_suid a) PRIV_CRED_SETSUID [] c_suid;
  '(r, c) ← set_id su c r (a_rgid a) PRIV_CRED_SETGID [] c_gid;
  '(r, c) ← set_id su c r (a_egid a) PRIV_CRED_SETEGID [rgid; sgid'] c_egid;
  set_id su c r (a_sgid a) PRIV_CRED_SETSGID [] c_sgid.

(** [out_ok]: the copy back to user space works. *)
Definition sys_proc_getsetcred (su : bool) (s : pstate) (cur : Z) (args : option cred_args) (out_ok : bool)
    : option (pret * cred_args) :=
  p ← proc_mem s !! cur;
  match args with
  | None => Some ((-1, Some EFAULT, s), ids (p_cred p))
  | Some a =>
      '(retval, c) ← getsetcred su (p_cred p) a;
      s ← upd s cur (fun p => p_set_cred p c);
      let errno := if retval =? 0 then None else Some EPERM in
      Some (if out_ok then (retval, errno, s) else (-1, Some EFAULT, s), ids c)
  end.

Definition sys_proc_getsid (s : pstate) (cur n : Z) : option (Z * option Z) :=
  a ← (if n =? 0 then Some cur else proc_ref s n);
  if a =? 0 then Some (-1, Some ESRCH)
  else
    p ← proc_mem s !! a; g ← pgrps s !! pgrp p; x ← sessions s !! pg_session g;
    Some (s_leader x, if s_leader x =? -1 then Some ESRCH else None).

Definition sys_proc_setsid (s : pstate) (cur ks kg : Z) : option pret :=
  p ← proc_mem s !! cur; g ← pgrps s !! pgrp p; x ← sessions s !! pg_session g;
  if (pid p =? pg_id g) || (pid p =? s_leader x) then Some (-1, Some EPERM, s)
  else
    '(pg, s) ← proc_pgrp_create s 0 cur ks kg;
    if pg =? 0 then Some (-1, Some ENOMEM, s)
    else
      g ← pgrps s !! pg;
      q ← proc_mem s !! cur; g' ← pgrps s !! pgrp q; x' ← sessions s !! pg_session g';
      s ← proc_session_setlogin s (pg_session g) (s_login x');
      Some (pid p, None, s).

Definition sys_proc_getpgrp (s : pstate) (cur : Z) : option Z :=
  p ← proc_mem s !! cur; g ← pgrps s !! pgrp p; Some (pg_id g).

(** The process that [sys_prog_setpgid] is about, or [errno]. *)
Definition setpgid_target (s : pstate) (cur arg_pid : Z) : option (Z + Z) :=
  me ← proc_mem s !! cur;
  a ← (if (arg_pid =? 0) || (arg_pid =? pid me) then proc_ref_locked s (pid me) else proc_ref_locked s arg_pid);
  if a =? 0 then Some (inr ESRCH)
  else
    p ← proc_mem s !! a;
    if (arg_pid =? 0) || (arg_pid =? pid me) then Some (inl a)
    else if negb (parent p =? cur) then Some (inr ESRCH)
    else
      g ← pgrps s !! pgrp p; g' ← pgrps s !! pgrp me;
      Some (if pg_session g =? pg_session g' then inl a else inr EPERM).

(** [kg] is the memory for a new group. *)
Definition sys_prog_setpgid (s : pstate) (cur : Z) (args : option (Z * Z)) (kg : Z) : option pret :=
  match args with
  | None => Some (-1, Some EFAULT, s)
  | Some (arg_pid, arg_pg) =>
      if arg_pg <? 0 then Some (-1, Some EINVAL, s)
      else
        t ← setpgid_target s cur arg_pid;
        match t with
        | inr errno => Some (-1, Some errno, s)
        | inl a =>
            me ← proc_mem s !! cur; p ← proc_mem s !! a;
            g ← pgrps s !! pgrp p; x ← sessions s !! pg_session g;
            if pid p =? s_leader x then Some (-1, Some EPERM, s)
            else
              let id := if arg_pg =? 0 then pid me else arg_pg in
              if negb (id =? pid p) then
                pg ← proc_session_search_pg s (pg_session g) id;
                if pg =? 0 then Some (-1, Some EPERM, s)
                else s ← proc_pgrp_insert s pg a; Some (0, None, s)
              else
                g' ← pgrps s !! pgrp me;
                '(pg, s) ← proc_pgrp_create s (pg_session g') a 0 kg;
                if pg =? 0 then Some (-1, Some ENOMEM, s) else Some (0, None, s)
        end
  end.

Definition sys_proc_setlogin (su : bool) (s : pstate) (cur : Z) (login : list Z) : option pret :=
  p ← proc_mem s !! cur; g ← pgrps s !! pgrp p;
  err ← priv_check su (p_cred p) PRIV_PROC_SETLOGIN;
  if negb (err =? 0) then Some (-1, Some EPERM, s)
  else
    s ← upd_session s (pg_session g) (fun x => Session (s_leader x) (s_pgrp_count x) (s_ctty_fd x) login (s_pgrp_list x));
    Some (0, None, s).

Definition sys_proc_getppid (s : pstate) (cur : Z) : option Z :=
  p ← proc_mem s !! cur;
  if parent p =? 0 then Some 0 else q ← proc_mem s !! parent p; Some (pid q).

(** [vn] is what [fs_namei_proc] found, with the reference it took, or its error. *)
Definition sys_proc_chdir (s : pstate) (cur : Z) (vn : Z + Z) : option pret :=
  match vn with
  | inr err => Some (-1, Some (- err), s)
  | inl vn =>
      n ← vnodes (fs s) !! vn;
      if negb (S_ISDIR (vn_mode n)) then f ← vrele (fs s) vn; Some (-1, Some ENOTDIR, set_fs s f)
      else
        p ← proc_mem s !! cur;
        f ← vrele (fs s) (cwd p);
        s ← upd (set_fs s f) cur (fun p => p_set_dirs p (croot p) vn);
        Some (0, None, s)
  end.

Definition sys_chroot (su : bool) (s : pstate) (cur : Z) : option pret :=
  p ← proc_mem s !! cur;
  err ← priv_check su (p_cred p) PRIV_VFS_CHROOT;
  if negb (err =? 0) then Some (-1, Some (- err), s)
  else s ← upd s cur (fun p => p_set_dirs p (cwd p) (cwd p)); Some (0, None, s).

Definition sys_proc_setpriority (su : bool) (s : pstate) (cur : Z) (args : option (Z * Z)) : option pret :=
  match args with
  | None => Some (-1, Some ESRCH, s)
  | Some (id, priority) =>
      if id =? 0 then Some (-1, Some ESRCH, s)
      else
        a ← proc_ref s id;
        if a =? 0 then Some (-1, Some ESRCH, s)
        else
          me ← proc_mem s !! cur; p ← proc_mem s !! a;
          err ← (if (priority <? 0) || negb (euid (p_cred me) =? euid (p_cred p))
                 then priv_check su (p_cred me) PRIV_SCHED_SETPRIORITY else Some 0);
          if negb (err =? 0) then Some (-1, Some ESRCH, s)
          else if negb ((NICE_MIN <=? priority) && (priority <=? NICE_MAX)) then Some (- EACCES, None, s)
          else s ← upd s a (fun p => p_set_nice p priority); Some (0, None, s)
  end.
Definition sys_proc_getpriority (s : pstate) (n : Z) : option (Z * option Z) :=
  if n =? 0 then Some (-1, Some ESRCH)
  else a ← proc_ref s n; if a =? 0 then Some (-1, Some ESRCH) else p ← proc_mem s !! a; Some (nice p, None).

Definition sys_proc_getrlim (s : pstate) (cur resource : Z) : option ((Z * Z) + Z) :=
  p ← proc_mem s !! cur;
  if (resource <? 0) || (_RLIMIT_ARR_COUNT <=? resource) then Some (inr EINVAL)
  else l ← (rlim p).[resource]; Some (inl l).
(** The last statement returns -1. *)
Definition sys_proc_setrlim (su : bool) (s : pstate) (cur : Z) (args : option (Z * Z * Z)) : option pret :=
  match args with
  | None => Some (-1, Some EFAULT, s)
  | Some (resource, rlim_cur, rlim_max) =>
      if (resource <? 0) || (_RLIMIT_ARR_COUNT <=? resource) then Some (-1, Some EINVAL, s)
      else
        p ← proc_mem s !! cur;
        '(_, current_rlim_max) ← (rlim p).[resource];
        err ← (if (current_rlim_max <? rlim_cur) || (current_rlim_max <? rlim_max)
               then priv_check su (p_cred p) PRIV_PROC_SETRLIMIT else Some 0);
        if negb (err =? 0) then Some (-1, Some EPERM, s)
        else if (rlim_cur <? RLIM_INFINITY) || (rlim_max <? RLIM_INFINITY) then Some (-1, Some EINVAL, s)
        else
          l ← (rlim p).[resource <- (rlim_cur, rlim_max)];
          s ← upd s cur (fun p => p_set_rlim p l);
          Some (-1, None, s)
  end.
End proc.
