(* ===== verification/ProcSpec.v ===== *)
(** * The process table, the process tree, groups and sessions stay consistent

    The invariant of [Proc] in four parts, each about one view of the process structures
    ([table_ok], [tree_ok], [group_ok], [files_ok]), the specifications of the operations,
    and the histories of system calls. *)
From S2P Require Import Prelude Priv Kobj Fildes FildesSpec Proc.

Lemma list_unlink_spec x l : x ∈ l -> NoDup l ->
  exists l', list_unlink x l = Some l' /\ NoDup l' /\ (forall y, y ∈ l' <-> y ∈ l /\ y <> x) /\
    length l = S (length l')%nat.
Proof.
  induction l as [|y l IH]; intros Hx Hnd; [by apply elem_of_nil in Hx|].
  apply NoDup_cons in Hnd as [Hy Hnd]. cbn [list_unlink]. destruct (Z.eqb_spec x y) as [->|Hne].
  - exists l. split_and!; try done. intros z. rewrite elem_of_cons. split; [|naive_solver].
    intros Hz. split; [by right|]. by intros ->.
  - apply elem_of_cons in Hx as [?|Hx]; [done|]. destruct (IH Hx Hnd) as (l' & -> & Hnd' & Hl & Hlen).
    mstep. exists (y :: l'). split; [done|]. split_and!.
    + apply NoDup_cons. split; [|done]. rewrite Hl. naive_solver.
    + intros z. rewrite !elem_of_cons, Hl. naive_solver.
    + cbn. by rewrite Hlen.
Qed.

(** A member that an assignment leaves alone. *)
Lemma view_same {A} (v : proc_info -> A) (m : gmap Z proc_info) a p p' : m !! a = Some p -> v p' = v p ->
  v <$> <[a := p']> m = v <$> m.
Proof. intros Ha Hv. rewrite fmap_insert, Hv. apply insert_id. by rewrite lookup_fmap, Ha. Qed.

(** ** No vnode disappears *)

(** Case analysis on the binds and branches of a computation that succeeded. *)
Ltac minv :=
  repeat match goal with
  | H : mbind _ _ = Some _ |- _ => apply bind_Some in H as (? & ? & ?)
  | H : Some _ = Some _ |- _ => injection H as ?; subst
  | H : (let '(_, _) := ?x in _) = Some _ |- _ => destruct x eqn:?
  | H : (if ?b then _ else _) = Some _ |- _ => destruct b eqn:?
  | H : None = Some _ |- _ => discriminate H
  end.

Definition vn_kept (s s' : fstate) : Prop := forall v, is_Some (vnodes s !! v) -> is_Some (vnodes s' !! v).

Lemma vn_kept_refl s s' : vnodes s' = vnodes s -> vn_kept s s'.
Proof. intros He v. by rewrite He. Qed.
Lemma vn_kept_trans s1 s2 s3 : vn_kept s1 s2 -> vn_kept s2 s3 -> vn_kept s1 s3.
Proof. intros H1 H2 v Hv. apply H2, H1, Hv. Qed.

Lemma vn_kept_set_fd s p i a s' : set_fd s p i a = Some s' -> vn_kept s s'.
Proof. unfold set_fd. intros H. minv. by apply vn_kept_refl. Qed.
Lemma vn_kept_vrefset s v n s' : vrefset s v n = Some s' -> vn_kept s s'.
Proof.
  unfold vrefset. intros H. minv. intros w [m Hw]. cbn. destruct (decide (w = v)) as [->|].
  - rewrite lookup_insert_eq. eauto.
  - rewrite lookup_insert_ne by done. eauto.
Qed.
Lemma vn_kept_vref s v r s' : vref s v = Some (r, s') -> vn_kept s s'.
Proof. unfold vref. intros H. minv; [by apply vn_kept_refl|by eapply vn_kept_vrefset]. Qed.
Lemma vn_kept_vrele s v s' : vrele s v = Some s' -> vn_kept s s'.
Proof.
  unfold vrele, atomic_dec. intros H. minv; try by apply vn_kept_refl.
  all: eapply vn_kept_trans; [by eapply vn_kept_vrefset|apply vn_kept_refl; by destruct (_ <=? _)].
Qed.

Lemma vn_kept_ref_v n : forall s a r s', kobj_ref_v s a n = Some (r, s') -> vn_kept s s'.
Proof.
  induction n as [|n IH]; intros s a r s' H; cbn in H; [minv; by apply vn_kept_refl|].
  unfold file_ref in H. minv; [by apply vn_kept_refl|]. eapply vn_kept_trans; [|by eapply IH]. by apply vn_kept_refl.
Qed.
Lemma vn_kept_unref_p n : forall s a s', kobj_unref_p s a n = Some s' -> vn_kept s s'.
Proof.
  induction n as [|n IH]; intros s a s' H; cbn in H; [minv; by apply vn_kept_refl|].
  unfold file_unref, fs_fildes_dtor in H. minv; (eapply vn_kept_trans; [|by eapply IH]);
    [eapply vn_kept_trans; [|by eapply vn_kept_vrele]|]; apply vn_kept_refl; [by destruct (flag _ _)|done].
Qed.
Lemma vn_kept_ref s p i c r s' : fs_fildes_ref s p i c = Some (r, s') -> vn_kept s s'.
Proof.
  unfold fs_fildes_ref. intros H. minv;
    repeat first [ by apply vn_kept_refl | by eapply vn_kept_set_fd | by eapply vn_kept_ref_v | by eapply vn_kept_unref_p
                 | eapply vn_kept_trans; [by eapply vn_kept_ref_v|] | eapply vn_kept_trans; [by eapply vn_kept_unref_p|] ].
Qed.

Section kept.
Context `{VnodeOps}.

Lemma vn_kept_close s p i r s' : fs_fildes_close s p i = Some (r, s') -> vn_kept s s'.
Proof.
  unfold fs_fildes_close. intros Hc. minv; [by eapply vn_kept_ref|].
  eapply vn_kept_trans; [|by eapply vn_kept_set_fd]. eapply vn_kept_trans; [|by eapply vn_kept_ref].
  eapply vn_kept_trans; [by eapply vn_kept_ref|]. by apply vn_kept_refl.
Qed.
Lemma vn_kept_close_down k : forall s p i s', close_down k s p i = Some s' -> vn_kept s s'.
Proof.
  induction k as [|k IH]; intros s p i s' Hc; cbn in Hc; minv; [by apply vn_kept_refl|].
  eapply vn_kept_trans; [by eapply vn_kept_close|by eapply IH].
Qed.
Lemma vn_kept_close_all s p i s' : fs_fildes_close_all s p i = Some s' -> vn_kept s s'.
Proof. unfold fs_fildes_close_all. intros Hc. minv; [by apply vn_kept_refl|by eapply vn_kept_close_down]. Qed.
Lemma vn_kept_free s p s' : free_files s p = Some s' -> vn_kept s s'.
Proof. unfold free_files. intros Hc. minv. eapply vn_kept_trans; [by eapply vn_kept_close_all|by apply vn_kept_refl]. Qed.

Lemma vn_kept_fork_copy k : forall s p c i s', fork_copy k s p c i = Some s' -> vn_kept s s'.
Proof.
  induction k as [|k IH]; intros s p c i s' Hc; cbn in Hc; minv; [by apply vn_kept_refl|].
  eapply vn_kept_trans; [by eapply vn_kept_set_fd|]. eapply vn_kept_trans; [by eapply vn_kept_ref|by eapply IH].
Qed.
Lemma vn_kept_fork s p n ok r s' : fork_files s p n ok = Some (r, s') -> vn_kept s s'.
Proof.
  unfold fork_files. intros Hc. destruct (fs_alloc_files ok n n); minv; [|by apply vn_kept_refl].
  eapply vn_kept_trans; [|by eapply vn_kept_fork_copy]. by apply vn_kept_refl.
Qed.
End kept.

(** ** Groups and sessions *)

(** [pg] has the group of each process, 0 for processes outside of groups, which are [x]
    only; the groups in [E] may be empty. *)
Record group_ok (pg : gmap Z Z) (gr : gmap Z pgrp_t) (ss : gmap Z session) (sl : list Z) (nr : Z)
    (E : list Z) (x : Z) : Prop := {
  go_member a g : pg !! a = Some g -> g <> 0 -> exists y, gr !! g = Some y /\ a ∈ pg_proc_list y;
  go_outside a : pg !! a = Some 0 -> a = x;
  go_list g y a : gr !! g = Some y -> a ∈ pg_proc_list y -> pg !! a = Some g;
  go_count g y : gr !! g = Some y -> NoDup (pg_proc_list y) /\ pg_proc_count y = Z.of_nat (length (pg_proc_list y));
  go_empty g y : gr !! g = Some y -> pg_proc_list y = [] -> g ∈ E;
  go_session g y : gr !! g = Some y -> exists t, ss !! pg_session y = Some t /\ g ∈ s_pgrp_list t;
  go_slist a t g : ss !! a = Some t -> g ∈ s_pgrp_list t -> exists y, gr !! g = Some y /\ pg_session y = a;
  go_scount a t : ss !! a = Some t -> NoDup (s_pgrp_list t) /\ s_pgrp_count t = Z.of_nat (length (s_pgrp_list t));
  go_sessions a : a ∈ sl <-> is_Some (ss !! a);
  go_nodup : NoDup sl /\ nr = Z.of_nat (length sl);
  go_null : gr !! 0 = None /\ ss !! 0 = None /\ pg !! 0 = None
}.

Lemma group_ok_E pg gr ss sl nr E E' x : group_ok pg gr ss sl nr E x ->
  (forall g y, g ∈ E -> gr !! g = Some y -> pg_proc_list y = [] -> g ∈ E') -> group_ok pg gr ss sl nr E' x.
Proof. intros [] HE. split; try done. intros g y Hg Hy. by eapply HE; [eauto|..]. Qed.

(** A process leaves its group. *)
Lemma group_leave pg gr ss sl nr E a g y : group_ok pg gr ss sl nr E 0 -> pg !! a = Some g ->
  gr !! g = Some y ->
  exists l, list_unlink a (pg_proc_list y) = Some l /\ length (pg_proc_list y) = S (length l) /\
  group_ok (<[a := 0]> pg) (<[g := Pgrp (pg_id y) (pg_proc_count y - 1) (pg_session y) l]> gr) ss sl nr
    (g :: E) a.
Proof.
  intros Hok Ha Hg. destruct Hok as [H1 H2 H3 H4 H5 H6 H7 H8 H9 H10 (H11 & H12 & H13)].
  assert (g <> 0) as Hg0 by (intros ->; congruence). assert (a <> 0) as Ha0 by (intros ->; congruence).
  destruct (H4 _ _ Hg) as [Hnd Hcnt]. assert (a ∈ pg_proc_list y) as Hin.
  { destruct (H1 _ _ Ha Hg0) as (y' & Hy' & ?). by simplify_eq. }
  destruct (list_unlink_spec _ _ Hin Hnd) as (l & Hl & Hnd' & Hel & Hlen).
  exists l. split; [done|]. split; [done|]. split; try done.
  - intros b h. destruct (decide (b = a)) as [->|Hba].
    + rewrite lookup_insert_eq. intros [= <-]. done.
    + rewrite lookup_insert_ne by done. intros Hb Hh. destruct (H1 _ _ Hb Hh) as (z & Hz & Hbz).
      destruct (decide (h = g)) as [->|]; [|exists z; by rewrite lookup_insert_ne].
      rewrite lookup_insert_eq. eexists. split; [done|]. simplify_eq. cbn. by apply Hel.
  - intros b. destruct (decide (b = a)) as [->|Hba]; [done|]. rewrite lookup_insert_ne by done.
    intros Hb. pose proof (H2 _ Hb). subst b. congruence.
  - intros h z b. destruct (decide (h = g)) as [->|].
    + rewrite lookup_insert_eq. intros [= <-] Hb. cbn in Hb. apply Hel in Hb as [Hb Hne].
      rewrite lookup_insert_ne by done. by eapply H3.
    + rewrite lookup_insert_ne by done. intros Hz Hb. pose proof (H3 _ _ _ Hz Hb) as Hpb.
      rewrite lookup_insert_ne; [done|]. intros ->. congruence.
  - intros h z. destruct (decide (h = g)) as [->|].
    + rewrite lookup_insert_eq. intros [= <-]. cbn. split; [done|lia].
    + rewrite lookup_insert_ne by done. apply H4.
  - intros h z. destruct (decide (h = g)) as [->|].
    + intros _ _. by left.
    + rewrite lookup_insert_ne by done. intros. right. by eapply H5.
  - intros h z. destruct (decide (h = g)) as [->|].
    + rewrite lookup_insert_eq. intros [= <-]. by apply (H6 g y).
    + rewrite lookup_insert_ne by done. apply H6.
  - intros b t h Ht Hh. destruct (H7 _ _ _ Ht Hh) as (z & Hz & Hzs). destruct (decide (h = g)) as [->|].
    + rewrite lookup_insert_eq. eexists. split; [done|]. simplify_eq. done.
    + exists z. by rewrite lookup_insert_ne.
  - rewrite !lookup_insert_ne by done. done.
Qed.

(** An empty group is freed, with its session when it is the last one. *)
Lemma group_free pg gr ss sl nr E x g y : group_ok pg gr ss sl nr E x -> gr !! g = Some y ->
  pg_proc_list y = [] ->
  exists t l sl', ss !! pg_session y = Some t /\ list_unlink g (s_pgrp_list t) = Some l /\
    s_pgrp_count t = Z.of_nat (S (length l)) /\ list_unlink (pg_session y) sl = Some sl' /\
    let t' := Session (s_leader t) (s_pgrp_count t - 1) (s_ctty_fd t) (s_login t) l in
    if s_pgrp_count t' =? 0 then group_ok pg (delete g gr) (delete (pg_session y) (<[pg_session y := t']> ss)) sl' (nr - 1) E x
    else group_ok pg (delete g gr) (<[pg_session y := t']> ss) sl nr E x.
Proof.
  intros Hok Hg Hy. destruct Hok as [H1 H2 H3 H4 H5 H6 H7 H8 H9 [H10 H10'] (H11 & H12 & H13)].
  destruct (H6 _ _ Hg) as (t & Ht & Hgt). destruct (H8 _ _ Ht) as [Hnd Hcnt].
  destruct (list_unlink_spec _ _ Hgt Hnd) as (l & Hl & Hnd' & Hel & Hlen).
  destruct (list_unlink_spec (pg_session y) sl) as (sl' & Hsl & Hnds & Hels & Hlens); [apply H9; eauto|done|].
  exists t, l, sl'. split; [done|]. split; [done|]. split; [lia|]. split; [done|]. cbn [s_pgrp_count].
  set (t' := Session _ _ _ _ _).
  assert (forall a h, pg !! a = Some h -> h <> 0 -> exists z, delete g gr !! h = Some z /\ a ∈ pg_proc_list z) as G1.
  { intros a h Ha Hh. destruct (H1 _ _ Ha Hh) as (z & Hz & Hin). exists z. split; [|done].
    rewrite lookup_delete_ne; [done|]. intros ->. simplify_eq. rewrite Hy in Hin. by apply elem_of_nil in Hin. }
  assert (forall h z, delete g gr !! h = Some z -> gr !! h = Some z /\ h <> g) as Hd.
  { intros h z Hz. by apply lookup_delete_Some in Hz as [??]. }
  assert (forall h z, delete g gr !! h = Some z -> exists t0, <[pg_session y := t']> ss !! pg_session z = Some t0 /\ h ∈ s_pgrp_list t0) as G6.
  { intros h z [Hz Hne]%Hd. destruct (H6 _ _ Hz) as (t0 & Ht0 & Hh). destruct (decide (pg_session z = pg_session y)) as [He|].
    - rewrite He, lookup_insert_eq. eexists. split; [done|]. cbn. apply Hel. rewrite He in Ht0. by simplify_eq.
    - rewrite lookup_insert_ne by done. by exists t0. }
  assert (forall a t0 h, <[pg_session y := t']> ss !! a = Some t0 -> h ∈ s_pgrp_list t0 ->
    exists z, delete g gr !! h = Some z /\ pg_session z = a) as G7.
  { intros a t0 h. destruct (decide (a = pg_session y)) as [->|].
    - rewrite lookup_insert_eq. intros [= <-] [Hh Hne]%Hel. destruct (H7 _ _ _ Ht Hh) as (z & ? & ?).
      exists z. by rewrite lookup_delete_ne.
    - rewrite lookup_insert_ne by done. intros Ha Hh. destruct (H7 _ _ _ Ha Hh) as (z & Hz & ?).
      exists z. rewrite lookup_delete_ne; [done|]. intros ->. congruence. }
  assert (forall a t0, <[pg_session y := t']> ss !! a = Some t0 ->
    NoDup (s_pgrp_list t0) /\ s_pgrp_count t0 = Z.of_nat (length (s_pgrp_list t0))) as G8.
  { intros a t0. destruct (decide (a = pg_session y)) as [->|].
    - rewrite lookup_insert_eq. intros [= <-]. cbn. split; [done|lia].
    - rewrite lookup_insert_ne by done. apply H8. }
  destruct (Z.eqb_spec (s_pgrp_count t - 1) 0) as [Hz|Hz].
  - assert (l = []) as -> by (destruct l; [done|cbn in *; lia]).
    split; try done.
    + intros h z a [Hz' _]%Hd. by apply H3.
    + intros h z [Hz' _]%Hd. by apply (H4 h).
    + intros h z [Hz' _]%Hd. by apply (H5 h).
    + intros h z Hh. destruct (G6 _ _ Hh) as (t0 & Ht0 & Hin). exists t0. split; [|done].
      rewrite lookup_delete_ne; [done|]. intros He. rewrite <- He, lookup_insert_eq in Ht0. injection Ht0 as <-.
      cbn in Hin. by apply elem_of_nil in Hin.
    + intros a t0 h Ha. apply lookup_delete_Some in Ha as [_ Ha]. by apply G7.
    + intros a t0 Ha. apply lookup_delete_Some in Ha as [_ Ha]. by apply (G8 a).
    + intros a. rewrite Hels, H9. destruct (decide (a = pg_session y)) as [->|].
      * rewrite lookup_delete_eq. split; [by intros [_ ?]|by intros [? ?]].
      * rewrite lookup_delete_ne, lookup_insert_ne by done. naive_solver.
    + split; [done|lia].
    + split_and!; [|..|done].
      * rewrite lookup_delete_None. by right.
      * apply lookup_delete_None. destruct (decide (pg_session y = 0)); [by left|right].
        by rewrite lookup_insert_ne.
  - split; try done.
    + intros h z a [Hz' _]%Hd. by apply H3.
    + intros h z [Hz' _]%Hd. by apply (H4 h).
    + intros h z [Hz' _]%Hd. by apply (H5 h).
    + intros a. rewrite H9. destruct (decide (a = pg_session y)) as [->|].
      * rewrite lookup_insert_eq. split; intros; eauto.
      * by rewrite lookup_insert_ne.
    + split_and!; [|..|done].
      * rewrite lookup_delete_None. by right.
      * rewrite lookup_insert_ne; [done|]. intros He. congruence.
Qed.

(** A process outside of groups enters one. *)
Lemma group_join pg gr ss sl nr E a g y : group_ok pg gr ss sl nr E a -> pg !! a = Some 0 ->
  gr !! g = Some y ->
  group_ok (<[a := g]> pg)
    (<[g := Pgrp (pg_id y) (pg_proc_count y + 1) (pg_session y) (pg_proc_list y ++ [a])]> gr) ss sl nr
    (filter (.≠ g) E) 0.
Proof.
  intros Hok Ha Hg. destruct Hok as [H1 H2 H3 H4 H5 H6 H7 H8 H9 H10 (H11 & H12 & H13)].
  assert (g <> 0) as Hg0 by (intros ->; congruence). assert (a <> 0) as Ha0 by (intros ->; congruence).
  destruct (H4 _ _ Hg) as [Hnd Hcnt].
  assert (a ∉ pg_proc_list y) as Hout by (intros Hin; pose proof (H3 _ _ _ Hg Hin); congruence).
  split; try done.
  - intros b h. destruct (decide (b = a)) as [->|Hba].
    + rewrite lookup_insert_eq. intros [= <-] _. rewrite lookup_insert_eq. eexists. split; [done|]. cbn.
      apply elem_of_app. right. by apply list_elem_of_singleton.
    + rewrite lookup_insert_ne by done. intros Hb Hh. destruct (H1 _ _ Hb Hh) as (z & Hz & Hbz).
      destruct (decide (h = g)) as [->|]; [|exists z; by rewrite lookup_insert_ne].
      rewrite lookup_insert_eq. eexists. split; [done|]. simplify_eq. cbn. apply elem_of_app. by left.
  - intros b. destruct (decide (b = a)) as [->|Hba].
    + rewrite lookup_insert_eq. by intros [= ->].
    + rewrite lookup_insert_ne by done. intros Hb. by pose proof (H2 _ Hb).
  - intros h z b. destruct (decide (h = g)) as [->|].
    + rewrite lookup_insert_eq. intros [= <-] Hb. cbn in Hb.
      apply elem_of_app in Hb as [Hb|Hb%list_elem_of_singleton]; [|subst; by rewrite lookup_insert_eq].
      rewrite lookup_insert_ne by (intros ->; done). by eapply H3.
    + rewrite lookup_insert_ne by done. intros Hz Hb. pose proof (H3 _ _ _ Hz Hb) as Hpb.
      rewrite lookup_insert_ne; [done|]. intros ->. by simplify_eq.
  - intros h z. destruct (decide (h = g)) as [->|].
    + rewrite lookup_insert_eq. intros [= <-]. cbn. rewrite length_app. cbn. split; [|lia].
      apply NoDup_app. split_and!; [done| |apply NoDup_singleton].
      intros b Hb Hb'%list_elem_of_singleton. by subst b.
    + rewrite lookup_insert_ne by done. apply H4.
  - intros h z. destruct (decide (h = g)) as [->|].
    + rewrite lookup_insert_eq. intros [= <-]. cbn. intros Hz. by destruct (app_cons_not_nil _ _ _ (eq_sym Hz)).
    + rewrite lookup_insert_ne by done. intros Hz Hz'. apply list_elem_of_filter. split; [done|by eapply H5].
  - intros h z. destruct (decide (h = g)) as [->|].
    + rewrite lookup_insert_eq. intros [= <-]. by apply (H6 g y).
    + rewrite lookup_insert_ne by done. apply H6.
  - intros b t h Ht Hh. destruct (H7 _ _ _ Ht Hh) as (z & Hz & Hzs). destruct (decide (h = g)) as [->|].
    + rewrite lookup_insert_eq. eexists. split; [done|]. simplify_eq. done.
    + exists z. by rewrite lookup_insert_ne.
  - by rewrite !lookup_insert_ne by done.
Qed.

(** A new empty group of a session. *)
Lemma group_new pg gr ss sl nr E x k id a t : group_ok pg gr ss sl nr E x -> gr !! k = None -> k <> 0 ->
  ss !! a = Some t ->
  group_ok pg (<[k := Pgrp id 0 a []]> gr)
    (<[a := Session (s_leader t) (s_pgrp_count t + 1) (s_ctty_fd t) (s_login t) (s_pgrp_list t ++ [k])]> ss)
    sl nr (k :: E) x.
Proof.
  intros Hok Hk Hk0 Ha. destruct Hok as [H1 H2 H3 H4 H5 H6 H7 H8 H9 H10 (H11 & H12 & H13)].
  destruct (H8 _ _ Ha) as [Hnd Hcnt].
  assert (k ∉ s_pgrp_list t) as Hout by (intros Hin; destruct (H7 _ _ _ Ha Hin) as (? & ? & _); congruence).
  assert (forall h z, gr !! h = Some z -> h <> k) as Hne by (intros h z Hz ->; congruence).
  set (t' := Session _ _ _ _ _).
  split; try done.
  - intros b h Hb Hh. destruct (H1 _ _ Hb Hh) as (z & Hz & ?). exists z. rewrite lookup_insert_ne; [done|].
    intros <-. by apply (Hne _ _ Hz).
  - intros h z b. destruct (decide (h = k)) as [->|].
    + rewrite lookup_insert_eq. intros [= <-] Hb. cbn in Hb. by apply elem_of_nil in Hb.
    + rewrite lookup_insert_ne by done. apply H3.
  - intros h z. destruct (decide (h = k)) as [->|].
    + rewrite lookup_insert_eq. intros [= <-]. cbn. split; [apply NoDup_nil_2|done].
    + rewrite lookup_insert_ne by done. apply H4.
  - intros h z. destruct (decide (h = k)) as [->|].
    + intros _ _. by left.
    + rewrite lookup_insert_ne by done. intros. right. by eapply H5.
  - intros h z. destruct (decide (h = k)) as [->|].
    + rewrite lookup_insert_eq. intros [= <-]. cbn. exists t'. rewrite lookup_insert_eq. split; [done|].
      cbn. apply elem_of_app. right. by apply list_elem_of_singleton.
    + rewrite lookup_insert_ne by done. intros Hz. destruct (H6 _ _ Hz) as (t0 & Ht0 & Hin).
      destruct (decide (pg_session z = a)) as [He|].
      * exists t'. rewrite He, lookup_insert_eq. split; [done|]. cbn. rewrite He in Ht0. simplify_eq.
        apply elem_of_app. by left.
      * exists t0. by rewrite lookup_insert_ne.
  - intros b t0 h. destruct (decide (b = a)) as [->|].
    + rewrite lookup_insert_eq. intros [= <-] Hh. cbn in Hh.
      apply elem_of_app in Hh as [Hh|Hh%list_elem_of_singleton]; [|subst h].
      * destruct (H7 _ _ _ Ha Hh) as (z & Hz & ?). exists z. rewrite lookup_insert_ne; [done|].
        intros <-. by apply (Hne _ _ Hz).
      * rewrite lookup_insert_eq. by eexists.
    + rewrite lookup_insert_ne by done. intros Hb Hh. destruct (H7 _ _ _ Hb Hh) as (z & Hz & ?). exists z.
      rewrite lookup_insert_ne; [done|]. intros <-. by apply (Hne _ _ Hz).
  - intros b t0. destruct (decide (b = a)) as [->|].
    + rewrite lookup_insert_eq. intros [= <-]. cbn. rewrite length_app. cbn. split; [|lia].
      apply NoDup_app. split_and!; [done| |apply NoDup_singleton].
      intros b Hb Hb'%list_elem_of_singleton. by subst b.
    + rewrite lookup_insert_ne by done. apply H8.
  - intros b. rewrite H9. destruct (decide (b = a)) as [->|].
    + rewrite lookup_insert_eq. split; intros; eauto.
    + by rewrite lookup_insert_ne.
  - rewrite !lookup_insert_ne; [done|..]; [intros ->; congruence|done].
Qed.

(** A new session without groups. *)
Lemma session_new pg gr ss sl nr E x k leader : group_ok pg gr ss sl nr E x -> ss !! k = None -> k <> 0 ->
  group_ok pg gr (<[k := Session leader 0 (-1) [] []]> ss) (sl ++ [k]) (nr + 1) E x.
Proof.
  intros Hok Hk Hk0. destruct Hok as [H1 H2 H3 H4 H5 H6 H7 H8 H9 [H10 H10'] (H11 & H12 & H13)].
  split; try done.
  - intros h z Hz. destruct (H6 _ _ Hz) as (t & Ht & ?). exists t. rewrite lookup_insert_ne; [done|].
    intros He. congruence.
  - intros b t h. destruct (decide (b = k)) as [->|].
    + rewrite lookup_insert_eq. intros [= <-] Hh. by apply elem_of_nil in Hh.
    + rewrite lookup_insert_ne by done. apply H7.
  - intros b t. destruct (decide (b = k)) as [->|].
    + rewrite lookup_insert_eq. intros [= <-]. cbn. split; [apply NoDup_nil_2|done].
    + rewrite lookup_insert_ne by done. apply H8.
  - intros b. rewrite elem_of_app, list_elem_of_singleton, H9. destruct (decide (b = k)) as [->|].
    + rewrite lookup_insert_eq. split; intros; eauto.
    + rewrite lookup_insert_ne by done. split; [by intros [?|?]|by left].
  - rewrite length_app. cbn. split; [|lia]. apply NoDup_app. split_and!; [done| |apply NoDup_singleton].
    intros b Hb Hb'%list_elem_of_singleton. subst b. apply H9 in Hb as [? ?]. congruence.
  - by rewrite lookup_insert_ne.
Qed.

(** Members that the lists do not depend on. *)
Lemma session_same pg gr ss sl nr E x a t t' : group_ok pg gr ss sl nr E x -> ss !! a = Some t ->
  s_pgrp_list t' = s_pgrp_list t -> s_pgrp_count t' = s_pgrp_count t -> group_ok pg gr (<[a := t']> ss) sl nr E x.
Proof.
  intros Hok Ha Hl Hc. destruct Hok as [H1 H2 H3 H4 H5 H6 H7 H8 H9 [H10 H10'] (H11 & H12 & H13)].
  split; try done.
  - intros h z Hz. destruct (H6 _ _ Hz) as (t0 & Ht0 & ?). destruct (decide (pg_session z = a)) as [He|].
    + exists t'. rewrite He, lookup_insert_eq. split; [done|]. rewrite He in Ht0. simplify_eq. by rewrite Hl.
    + exists t0. by rewrite lookup_insert_ne.
  - intros b t0 h. destruct (decide (b = a)) as [->|].
    + rewrite lookup_insert_eq. intros [= <-]. rewrite Hl. by apply H7.
    + rewrite lookup_insert_ne by done. apply H7.
  - intros b t0. destruct (decide (b = a)) as [->|].
    + rewrite lookup_insert_eq. intros [= <-]. rewrite Hl, Hc. by apply (H8 a).
    + rewrite lookup_insert_ne by done. apply H8.
  - intros b. rewrite H9. destruct (decide (b = a)) as [->|].
    + rewrite lookup_insert_eq. split; intros; eauto.
    + by rewrite lookup_insert_ne.
  - rewrite lookup_insert_ne; [done|]. intros ->. congruence.
Qed.

(** ** The operations on groups *)

Definition groups_of (s : pstate) (pg : gmap Z Z) (E : list Z) (x : Z) : Prop :=
  group_ok pg (pgrps s) (sessions s) (session_list s) (nr_sessions s) E x.

(** The states differ in groups and sessions only. *)
Definition regroup (s s' : pstate) : Prop :=
  exists gr ss sl nr, s' = set_sessions (set_pgrps s gr) ss sl nr.

Lemma regroup_refl s : regroup s s.
Proof. by exists (pgrps s), (sessions s), (session_list s), (nr_sessions s); destruct s. Qed.
Lemma regroup_trans s1 s2 s3 : regroup s1 s2 -> regroup s2 s3 -> regroup s1 s3.
Proof. intros (? & ? & ? & ? & ->) (gr & ss & sl & nr & ->). by exists gr, ss, sl, nr. Qed.
Lemma regroup_mem s s' : regroup s s' -> proc_mem s' = proc_mem s.
Proof. by intros (? & ? & ? & ? & ->). Qed.

Lemma pgrp_remove_spec s pg E a p : proc_mem s !! a = Some p -> groups_of s pg E 0 ->
  pg !! a = Some (pgrp p) -> pgrp p <> 0 ->
  exists s', proc_pgrp_remove s a = Some s' /\ regroup s s' /\ groups_of s' (<[a := 0]> pg) E a /\
    (forall h y, h <> pgrp p -> pgrps s !! h = Some y -> pgrps s' !! h = Some y) /\
    (forall y, pgrps s !! pgrp p = Some y -> 2 <= pg_proc_count y -> is_Some (pgrps s' !! pgrp p)).
Proof.
  intros Hp Hok Ha Hg0. destruct (go_member _ _ _ _ _ _ _ Hok _ _ Ha Hg0) as (y & Hy & _).
  destruct (go_count _ _ _ _ _ _ _ Hok _ _ Hy) as [_ Hcnt].
  destruct (group_leave _ _ _ _ _ _ _ _ _ Hok Ha Hy) as (l & Hl & Hlen & Hok1).
  unfold proc_pgrp_remove. rewrite Hp. mstep. rewrite Hy. mstep. rewrite Hl. mstep.
  unfold upd_pgrp. rewrite Hy. mstep. cbn [pg_proc_count]. set (y' := Pgrp _ _ _ _) in *.
  set (gr1 := <[pgrp p := y']> (pgrps s)) in *.
  destruct (Z.eqb_spec (pg_proc_count y - 1) 0) as [Hz|Hz].
  - assert (l = []) as -> by (destruct l; [done|cbn in *; lia]).
    assert (gr1 !! pgrp p = Some y') as Hy1 by apply lookup_insert_eq.
    destruct (group_free _ _ _ _ _ _ _ _ _ Hok1 Hy1 eq_refl) as (t & k & sl' & Ht & Hk & Hcnt' & Hsl & Hok2).
    unfold proc_pgrp_free. cbn [set_pgrps pgrps sessions]. fold gr1. rewrite Hy1. mstep.
    cbn [pg_session y'] in *. rewrite Ht. mstep. rewrite Hk. mstep.
    unfold upd_session. cbn [sessions set_pgrps]. rewrite Ht. mstep. cbn [s_pgrp_count] in *.
    assert (forall E' gr ss sl nr x, group_ok (<[a := 0]> pg) (delete (pgrp p) gr) ss sl nr (pgrp p :: E') x ->
      group_ok (<[a := 0]> pg) (delete (pgrp p) gr) ss sl nr E' x) as HE.
    { intros E' gr ss sl nr x HE. eapply group_ok_E; [exact HE|]. intros g z [->|?]%elem_of_cons; [|done].
      by rewrite lookup_delete_eq. }
    destruct (s_pgrp_count t - 1 =? 0).
    + unfold proc_session_free. cbn [session_list set_sessions set_pgrps]. rewrite Hsl. mstep.
      eexists. split; [done|]. split; [by eexists _, _, _, _|]. split; [by apply HE|]. cbn. split.
      * intros h z Hh Hz'. rewrite lookup_delete_ne by done. by apply lookup_insert_Some; right.
      * intros z Hz'. simplify_eq. lia.
    + mstep. eexists. split; [done|]. split; [by eexists _, _, _, _|]. split; [by apply HE|]. cbn. split.
      * intros h z Hh Hz'. rewrite lookup_delete_ne by done. by apply lookup_insert_Some; right.
      * intros z Hz'. simplify_eq. lia.
  - eexists. split; [done|]. split; [by eexists _, (sessions s), (session_list s), (nr_sessions s)|].
    split; [|cbn; split].
    + eapply group_ok_E; [exact Hok1|]. cbn. intros g z [->|?]%elem_of_cons; [|done].
      fold gr1. intros Hg. assert (z = y') as ->; [|cbn; intros ->; cbn in *; lia].
      unfold gr1 in Hg. rewrite lookup_insert_eq in Hg. by injection Hg as <-.
    + intros h z Hh Hz'. unfold gr1. by rewrite lookup_insert_ne.
    + intros. unfold gr1. rewrite lookup_insert_eq. eauto.
Qed.

Lemma pgrp_insert_spec s pg E a p h y : proc_mem s !! a = Some p -> pg !! a = Some (pgrp p) ->
  groups_of s pg E (if pgrp p =? 0 then a else 0) -> pgrps s !! h = Some y ->
  h <> pgrp p \/ 2 <= pg_proc_count y ->
  exists s1 s', proc_pgrp_insert s h a = Some s' /\ regroup s s1 /\
    s' = set_proc_mem s1 (<[a := p_set_pgrp p h]> (proc_mem s)) /\
    groups_of s' (<[a := h]> pg) (filter (.≠ h) E) 0.
Proof.
  intros Hp Ha Hok Hy Hh. unfold proc_pgrp_insert. rewrite Hp. mstep.
  assert (exists s0, (if pgrp p =? 0 then Some s else proc_pgrp_remove s a) = Some s0 /\ regroup s s0 /\
    groups_of s0 (<[a := 0]> pg) E a /\ is_Some (pgrps s0 !! h)) as (s0 & -> & Hr & Hok0 & [z Hz]).
  { destruct (Z.eqb_spec (pgrp p) 0) as [Hz|Hz].
    - exists s. split; [done|]. split; [apply regroup_refl|]. rewrite insert_id by congruence. split; [done|]. eauto.
    - destruct (pgrp_remove_spec s pg E a p Hp Hok Ha Hz) as (s0 & -> & Hr & Hok0 & Hne & Heq).
      exists s0. split; [done|]. split; [done|]. split; [done|].
      destruct (decide (h = pgrp p)) as [->|Hd]; [|eauto]. destruct Hh as [?|?]; [done|]. eauto. }
  mstep. unfold upd_pgrp. rewrite Hz. mstep.
  pose proof (group_join _ _ _ _ _ _ _ _ _ Hok0 (lookup_insert_eq _ _ _) Hz) as Hok1.
  rewrite insert_insert_eq in Hok1. unfold upd. cbn [proc_mem set_pgrps].
  rewrite (regroup_mem _ _ Hr), Hp. mstep.
  eexists (set_pgrps s0 _), _. split; [done|]. split; [|done].
  eapply regroup_trans; [exact Hr|]. by eexists _, (sessions s0), (session_list s0), (nr_sessions s0).
Qed.

(** [ks] and [kg] are fresh or 0. *)
Lemma pgrp_create_spec s pg a p sess ks kg : proc_mem s !! a = Some p -> pg !! a = Some (pgrp p) ->
  groups_of s pg [] (if pgrp p =? 0 then a else 0) ->
  sess = 0 /\ sessions s !! ks = None \/ is_Some (sessions s !! sess) -> pgrps s !! kg = None ->
  exists r s', proc_pgrp_create s sess a ks kg = Some (r, s') /\
    (r = 0 /\ regroup s s' /\ groups_of s' pg [] (if pgrp p =? 0 then a else 0) \/
     r = kg /\ kg <> 0 /\ exists s1, regroup s s1 /\
       s' = set_proc_mem s1 (<[a := p_set_pgrp p kg]> (proc_mem s)) /\ groups_of s' (<[a := kg]> pg) [] 0).
Proof.
  intros Hp Ha Hok Hs Hkg. unfold proc_pgrp_create.
  pose proof (go_null _ _ _ _ _ _ _ Hok) as (Hg0 & Hs0 & _).
  assert (exists t s0, (if sess =? 0 then proc_session_create s a ks else Some (sess, s)) = Some (t, s0) /\
    regroup s s0 /\ pgrps s0 = pgrps s /\ groups_of s0 pg [] (if pgrp p =? 0 then a else 0) /\
    (t <> 0 -> is_Some (sessions s0 !! t))) as (t & s0 & -> & Hr & Hg & Hok0 & Ht).
  { destruct (Z.eqb_spec sess 0) as [->|Hne].
    - destruct Hs as [[_ Hk]|[? ?]]; [|congruence]. unfold proc_session_create.
      destruct (Z.eqb_spec ks 0) as [->|Hk0].
      + exists 0, s. split; [done|]. split; [apply regroup_refl|]. by split_and!.
      + rewrite Hp. mstep. eexists _, _. split; [done|]. split; [by exists (pgrps s); eexists _, _, _|].
        split; [done|]. split; [by apply session_new|]. intros _. cbn. rewrite lookup_insert_eq. eauto.
    - destruct Hs as [[? _]|?]; [done|]. exists sess, s. split; [done|]. split; [apply regroup_refl|]. by split_and!. }
  mstep. destruct (Z.eqb_spec t 0) as [->|Ht0]; [exists 0, s0; split; [done|]; left; done|].
  destruct (Z.eqb_spec kg 0) as [->|Hk0]; [exists 0, s0; split; [done|]; left; done|].
  rewrite (regroup_mem _ _ Hr), Hp. mstep. destruct (Ht Ht0) as [x Hx]. unfold upd_session. rewrite Hx. mstep.
  set (s2 := set_pgrps _ _).
  assert (groups_of s2 pg [kg] (if pgrp p =? 0 then a else 0)) as Hok2.
  { unfold groups_of, s2. cbn. apply group_new; try done. by rewrite Hg. }
  assert (regroup s s2) as Hr2.
  { eapply regroup_trans; [exact Hr|]. by eexists _, _, (session_list s0), (nr_sessions s0). }
  destruct (pgrp_insert_spec s2 pg [kg] a p kg (Pgrp (pid p) 0 t [])) as (s1 & s' & -> & Hr1 & Hs' & Hok');
    try done.
  - by rewrite (regroup_mem _ _ Hr2).
  - apply lookup_insert_eq.
  - left. intros ->. destruct (decide (pgrp p = 0)) as [|Hn]; [done|].
    destruct (go_member _ _ _ _ _ _ _ Hok a (pgrp p) Ha Hn) as (? & ? & _). congruence.
  - mstep. exists kg, s'. split; [done|]. right. split; [done|]. split; [done|]. exists s1.
    split; [by eapply regroup_trans|]. rewrite (regroup_mem _ _ Hr2) in Hs'. split; [done|].
    eapply group_ok_E; [exact Hok'|]. intros g z [Hn Hin]%list_elem_of_filter.
    apply list_elem_of_singleton in Hin. done.
Qed.

(** ** The tree of processes *)

(** [tr] has the parent and the children of each process.  Process [x] is not among the
    children of its parent. *)
Record tree_ok (root init : Z) (tr : gmap Z (Z * list Z)) (x : Z) : Prop := {
  to_parent a q l : tr !! a = Some (q, l) -> q <> 0 -> a <> x -> exists r k, tr !! q = Some (r, k) /\ a ∈ k;
  to_child a q l c : tr !! a = Some (q, l) -> c ∈ l -> exists k, tr !! c = Some (a, k);
  to_nodup a q l : tr !! a = Some (q, l) -> NoDup l;
  to_self a q l : tr !! a = Some (q, l) -> q <> a;
  to_root a l : tr !! a = Some (0, l) -> a = root;
  to_null : tr !! 0 = None;
  to_init : (exists l, tr !! init = Some (root, l)) /\ (exists l, tr !! root = Some (0, l));
  to_gone q l r k : tr !! x = Some (q, l) -> tr !! q = Some (r, k) -> x ∉ k
}.

Lemma tree_fork root init tr old q l new : tree_ok root init tr 0 -> tr !! old = Some (q, l) ->
  tr !! new = None -> new <> 0 ->
  tree_ok root init (<[new := (old, [])]> (<[old := (q, new :: l)]> tr)) 0.
Proof.
  intros [H1 H2 H3 H4 H5 H6 [[li H7] [lr H8]] H9] Hold Hnew Hn0.
  assert (old <> new) as Hne by congruence. assert (old <> 0) as Ho0 by congruence.
  assert (forall a, tr !! a <> None -> a <> new) as Hin by congruence.
  split.
  - intros a q' l' Ha Hq' Ha0. apply lookup_insert_Some in Ha as [[<- [= <- <-]]|[Hna Ha]].
    + exists q, (new :: l). rewrite lookup_insert_ne, lookup_insert_eq by done. split; [done|]. by left.
    + assert (exists k', tr !! a = Some (q', k')) as [k' Ha'].
      { apply lookup_insert_Some in Ha as [[<- [= <- <-]]|[_ Ha]]; eauto. }
      destruct (H1 _ _ _ Ha' Hq' Ha0) as (r & k & Hr & Hk).
      rewrite lookup_insert_ne by (apply not_eq_sym, Hin; congruence). destruct (decide (q' = old)) as [->|].
      * rewrite lookup_insert_eq. simplify_eq. eexists _, _. split; [done|]. by right.
      * rewrite lookup_insert_ne by done. by exists r, k.
  - intros a q' l' c Ha Hc. apply lookup_insert_Some in Ha as [[<- [= <- <-]]|[Hna Ha]]; [by apply elem_of_nil in Hc|].
    apply lookup_insert_Some in Ha as [[<- [= <- <-]]|[Hoa Ha]].
    + apply elem_of_cons in Hc as [->|Hc]; [rewrite lookup_insert_eq; eauto|].
      destruct (H2 _ _ _ _ Hold Hc) as [k Hk]. rewrite lookup_insert_ne by congruence.
      destruct (decide (c = old)) as [->|]; [|rewrite lookup_insert_ne by done; eauto].
      by destruct (H4 _ _ _ Hk).
    + destruct (H2 _ _ _ _ Ha Hc) as [k Hk]. rewrite lookup_insert_ne by congruence.
      destruct (decide (c = old)) as [->|]; [|rewrite lookup_insert_ne by done; eauto].
      rewrite lookup_insert_eq. simplify_eq. eauto.
  - intros a q' l' Ha. apply lookup_insert_Some in Ha as [[<- [= <- <-]]|[Hna Ha]]; [apply NoDup_nil_2|].
    apply lookup_insert_Some in Ha as [[<- [= <- <-]]|[Hoa Ha]]; [|by eapply H3].
    apply NoDup_cons. split; [|by eapply H3]. intros Hc. destruct (H2 _ _ _ _ Hold Hc). congruence.
  - intros a q' l' Ha. apply lookup_insert_Some in Ha as [[<- [= <- <-]]|[Hna Ha]]; [done|].
    apply lookup_insert_Some in Ha as [[<- [= <- <-]]|[Hoa Ha]]; by eapply H4.
  - intros a l' Ha. apply lookup_insert_Some in Ha as [[<- [= Hz _]]|[Hna Ha]]; [congruence|].
    apply lookup_insert_Some in Ha as [[<- [= Hz _]]|[Hoa Ha]]; [subst q|]; by eapply H5.
  - by rewrite !lookup_insert_ne.
  - split; [destruct (decide (init = old)) as [->|]|destruct (decide (root = old)) as [->|]];
      rewrite lookup_insert_ne by congruence; rewrite ?lookup_insert_eq; simplify_eq; eauto;
      rewrite lookup_insert_ne by done; eauto.
  - intros q' l' r k Hx. rewrite !lookup_insert_ne in Hx by done. congruence.
Qed.

(** A process leaves the list of its parent. *)
Lemma tree_unlink root init tr a q l r k k' : tree_ok root init tr 0 -> tr !! a = Some (q, l) ->
  tr !! q = Some (r, k) -> list_unlink a k = Some k' -> tree_ok root init (<[q := (r, k')]> tr) a.
Proof.
  intros [H1 H2 H3 H4 H5 H6 [[li H7] [lr H8]] H9] Ha Hq Hk.
  assert (q <> 0) as Hq0 by congruence. assert (a <> 0) as Ha0 by congruence.
  destruct (H1 _ _ _ Ha Hq0 Ha0) as (r' & k0 & Hr & Hin). simplify_eq.
  destruct (list_unlink_spec _ _ Hin (H3 _ _ _ Hq)) as (k'' & Hk'' & Hnd & Hel & _). simplify_eq.
  split.
  - intros b q' l' Hb Hq' Hba. assert (exists k1, tr !! b = Some (q', k1)) as [k1 Hb'].
    { apply lookup_insert_Some in Hb as [[<- [= <- <-]]|[_ Hb]]; eauto. }
    assert (b <> 0) as Hb0 by congruence. destruct (H1 _ _ _ Hb' Hq' Hb0) as (r1 & k2 & Hr1 & Hk2).
    destruct (decide (q' = q)) as [->|]; [|rewrite lookup_insert_ne by done; eauto].
    rewrite lookup_insert_eq. simplify_eq. eexists _, _. split; [done|]. by apply Hel.
  - intros b q' l' c Hb Hc. assert (exists l1, tr !! b = Some (q', l1) /\ c ∈ l1) as (l1 & Hb' & Hc').
    { apply lookup_insert_Some in Hb as [[<- [= <- <-]]|[_ Hb]]; [|eauto]. exists k. split; [done|]. by apply Hel. }
    destruct (H2 _ _ _ _ Hb' Hc') as [k1 Hk1].
    destruct (decide (c = q)) as [->|]; [|rewrite lookup_insert_ne by done; eauto].
    rewrite lookup_insert_eq. simplify_eq. eauto.
  - intros b q' l' Hb. apply lookup_insert_Some in Hb as [[<- [= <- <-]]|[_ Hb]]; [done|by eapply H3].
  - intros b q' l' Hb. apply lookup_insert_Some in Hb as [[<- [= <- <-]]|[_ Hb]]; by eapply H4.
  - intros b l' Hb. apply lookup_insert_Some in Hb as [[<- [= Hz _]]|[_ Hb]]; [subst r|]; by eapply H5.
  - by rewrite lookup_insert_ne.
  - split; [destruct (decide (init = q)) as [->|]|destruct (decide (root = q)) as [->|]];
      rewrite ?lookup_insert_eq; simplify_eq; eauto; rewrite lookup_insert_ne by done; eauto.
  - intros q' l' r' k0 Ha' Hq'. rewrite lookup_insert_ne in Ha' by (intros ->; by destruct (H4 _ _ _ Ha)).
    simplify_eq. rewrite lookup_insert_eq in Hq'. injection Hq' as <- <-. rewrite Hel. tauto.
Qed.

(** The first child of [a] becomes a child of process 1. *)
Lemma tree_adopt root init tr a q c l r k m : tree_ok root init tr a -> tr !! a = Some (q, c :: l) ->
  a <> init -> a <> root -> tr !! c = Some (a, m) -> tr !! init = Some (r, k) ->
  c <> a /\ c <> init /\
  tree_ok root init (<[init := (r, c :: k)]> (<[c := (init, m)]> (<[a := (q, l)]> tr))) a.
Proof.
  intros [H1 H2 H3 H4 H5 H6 [[li H7] [lr H8]] H9] Ha Hai Har Hc Hi.
  assert (c <> a) as Hca by (intros ->; by destruct (H4 _ _ _ Hc)).
  assert (c <> init) as Hci by (intros ->; congruence).
  split; [done|]. split; [done|]. assert (r = root) as -> by congruence. assert (li = k) as -> by congruence.
  pose proof (H3 _ _ _ Ha) as [Hcl Hnd]%NoDup_cons.
  assert (c ∉ k) as Hck by (intros Hin; destruct (H2 _ _ _ _ Hi Hin) as [? ?]; congruence).
  set (tr' := <[init := _]> _).
  assert (forall b, b <> init -> b <> c -> b <> a -> tr' !! b = tr !! b) as Hrest
    by (intros; unfold tr'; by rewrite !lookup_insert_ne).
  assert (tr' !! init = Some (root, c :: k)) as Ei by apply lookup_insert_eq.
  assert (tr' !! c = Some (init, m)) as Ec by (unfold tr'; rewrite (lookup_insert_ne _ init c) by congruence; apply lookup_insert_eq).
  assert (tr' !! a = Some (q, l)) as Ea by (unfold tr'; rewrite !lookup_insert_ne by congruence; apply lookup_insert_eq).
  clearbody tr'.
  assert (forall b q' l', tr' !! b = Some (q', l') -> exists q0 l0, tr !! b = Some (q0, l0) /\
    (b = c /\ q' = init /\ q0 = a \/ b <> c /\ q' = q0)) as Hview.
  { intros b q' l' Hb. destruct (decide (b = init)) as [->|]; [simplify_eq; eauto 10|].
    destruct (decide (b = c)) as [->|]; [simplify_eq; eauto 10|].
    destruct (decide (b = a)) as [->|]; [simplify_eq; eauto 10|]. rewrite Hrest in Hb by done. eauto 10. }
  split.
  - intros b q' l' Hb Hq' Hba. destruct (Hview _ _ _ Hb) as (q0 & l0 & Hb0 & [(-> & -> & ->)|(Hbc & ->)]).
    + exists root, (c :: k). split; [done|]. by left.
    + destruct (H1 _ _ _ Hb0 Hq' Hba) as (r1 & k1 & Hr1 & Hk1).
      destruct (decide (q0 = init)) as [->|]; [simplify_eq; eexists _, _; split; [exact Ei|by right]|].
      destruct (decide (q0 = c)) as [->|]; [simplify_eq; eauto|].
      destruct (decide (q0 = a)) as [->|].
      * simplify_eq. eexists _, _. split; [exact Ea|]. by apply elem_of_cons in Hk1 as [?|?].
      * rewrite Hrest by done. eauto.
  - intros b q' l' d Hb Hd.
    assert (b = init /\ d = c \/ d <> c /\ exists q1 l1, tr !! b = Some (q1, l1) /\ d ∈ l1) as [[-> ->]|(Hdc & q1 & l1 & Hb1 & Hd1)].
    { destruct (decide (b = init)) as [->|].
      - simplify_eq. apply elem_of_cons in Hd as [->|Hd]; [by left|right]. split; [by intros ->|]. eauto.
      - right. destruct (decide (b = a)) as [->|].
        + simplify_eq. split; [by intros ->|]. eexists _, _. split; [done|]. by right.
        + destruct (decide (b = c)) as [->|].
          * simplify_eq. split; [|by eauto]. intros ->. destruct (H2 _ _ _ _ Hc Hd). congruence.
          * rewrite Hrest in Hb by done. split; [|by eauto]. intros ->. destruct (H2 _ _ _ _ Hb Hd). congruence. }
    + eauto.
    + destruct (H2 _ _ _ _ Hb1 Hd1) as [k1 Hk1].
      destruct (decide (d = init)) as [->|]; [simplify_eq; eauto|].
      destruct (decide (d = a)) as [->|]; [simplify_eq; eauto|]. rewrite Hrest by done. eauto.
  - intros b q' l' Hb. destruct (decide (b = init)) as [->|]; [simplify_eq; apply NoDup_cons; split; [done|by eapply H3]|].
    destruct (decide (b = c)) as [->|]; [simplify_eq; by eapply H3|].
    destruct (decide (b = a)) as [->|]; [by simplify_eq|]. rewrite Hrest in Hb by done. by eapply H3.
  - intros b q' l' Hb. destruct (Hview _ _ _ Hb) as (q0 & l0 & Hb0 & [(-> & -> & ->)|(Hbc & ->)]); [done|by eapply H4].
  - intros b l' Hb. destruct (Hview _ _ _ Hb) as (q0 & l0 & Hb0 & [(-> & Hq & ->)|(Hbc & <-)]); [|by eapply H5].
    congruence.
  - destruct (decide (init = 0)) as [->|]; [congruence|]. rewrite Hrest; congruence.
  - split; [eauto|]. destruct (decide (root = init)) as [He|]; [|destruct (decide (root = c)) as [->|]].
    + subst init. exfalso. by destruct (H4 _ _ _ Hi).
    + congruence.
    + rewrite Hrest by congruence. eauto.
  - intros q' l' r' k0 Ha' Hq'. assert (q' = q) as -> by congruence. destruct (decide (q = init)) as [->|].
    + assert (k0 = c :: k) as -> by congruence. apply not_elem_of_cons. split; [done|]. by eapply (H9 init).
    + destruct (decide (q = c)) as [->|]; [assert (k0 = m) as -> by congruence; by eapply (H9 c)|].
      rewrite Hrest in Hq' by (try done; intros ->; by destruct (H4 _ _ _ Ha)). by eapply H9.
Qed.

(** A process without children that left its parent's list goes away. *)
Lemma tree_delete root init tr a q : tree_ok root init tr a -> tr !! a = Some (q, []) -> a <> init -> a <> root ->
  tree_ok root init (delete a tr) 0.
Proof.
  intros [H1 H2 H3 H4 H5 H6 [[li H7] [lr H8]] H9] Ha Hai Har.
  assert (forall b y, delete a tr !! b = Some y -> tr !! b = Some y /\ b <> a) as Hd.
  { intros b y Hb. by apply lookup_delete_Some in Hb as [??]. }
  split.
  - intros b q' l' [Hb Hba]%Hd Hq' _. destruct (H1 _ _ _ Hb Hq' Hba) as (r & k & Hr & Hk).
    exists r, k. rewrite lookup_delete_ne; [done|]. intros <-. simplify_eq. by apply elem_of_nil in Hk.
  - intros b q' l' c [Hb Hba]%Hd Hc. destruct (H2 _ _ _ _ Hb Hc) as [k Hk]. exists k.
    rewrite lookup_delete_ne; [done|]. intros <-. simplify_eq.
    by eapply H9.
  - intros b q' l' [Hb Hba]%Hd. by eapply H3.
  - intros b q' l' [Hb Hba]%Hd. by eapply H4.
  - intros b l' [Hb Hba]%Hd. by eapply H5.
  - apply lookup_delete_None. by right.
  - split; rewrite lookup_delete_ne by done; eauto.
  - intros q' l' r k [Hb Hba]%Hd. congruence.
Qed.

(** ** The process table *)

Section table.
Context `{ProcConfig}.

(** [pids] has the identifier of each process; process [x] is not in the table yet. *)
Record table_ok (pids : gmap Z Z) (arr : list Z) (np last : Z) (free : list Z) (x : Z) : Prop := {
  ta_len : Z.of_nat (length arr) = SIZEOF_PROCARR;
  ta_arr n a : arr.[n] = Some a -> a <> 0 -> 0 <= n <= configMAXPROC /\ pids !! a = Some n /\ a <> x;
  ta_pid a n : pids !! a = Some n -> a <> x -> 0 <= n <= configMAXPROC /\ arr.[n] = Some a;
  ta_np : np = Z.of_nat (size (delete x pids));
  ta_free a : a ∈ free -> a <> 0 /\ pids !! a = None;
  ta_nodup : NoDup free;
  ta_size : Z.of_nat (length free + size pids) = configMAXPROC + 1;
  ta_null : pids !! 0 = None;
  ta_last : 0 <= last <= configMAXPROC
}.

Lemma table_pid_inj pids arr np last free x a b n : table_ok pids arr np last free x ->
  pids !! a = Some n -> pids !! b = Some n -> a <> x -> b <> x -> a = b.
Proof.
  intros Hok Ha Hb Hax Hbx. destruct (ta_pid _ _ _ _ _ _ Hok _ _ Ha Hax), (ta_pid _ _ _ _ _ _ Hok _ _ Hb Hbx).
  congruence.
Qed.

(** A structure is taken from the pool. *)
Lemma table_take pids arr np last a free n : table_ok pids arr np last (a :: free) 0 ->
  table_ok (<[a := n]> pids) arr np last free a.
Proof.
  intros [H1 H2 H3 H4 H5 H6 H7 H8 H9]. destruct (H5 a) as [Ha0 Ha]; [by left|].
  apply NoDup_cons in H6 as [Hnin Hnd]. split; try done.
  - intros m b Hb Hb0. destruct (H2 _ _ Hb Hb0) as (? & Hbm & _).
    assert (b <> a) by congruence. rewrite lookup_insert_ne by done. done.
  - intros b m Hb Hba. rewrite lookup_insert_ne in Hb by done. apply H3; [done|]. intros ->. congruence.
  - rewrite H4, delete_insert_eq. by rewrite !delete_id.
  - intros b Hb. assert (b <> a) by (intros ->; done). rewrite lookup_insert_ne by done. apply H5. by right.
  - rewrite map_size_insert_None by done. cbn in H7. lia.
  - by rewrite lookup_insert_ne.
Qed.

(** It gets an identifier, and is put into the table. *)
Lemma table_set_pid pids arr np last free a n n' last' : table_ok pids arr np last free a ->
  pids !! a = Some n' -> 0 <= last' <= configMAXPROC -> table_ok (<[a := n]> pids) arr np last' free a.
Proof.
  intros [H1 H2 H3 H4 H5 H6 H7 H8 H9] Ha Hl. split; try done.
  - intros m b Hb Hb0. destruct (H2 _ _ Hb Hb0) as (? & Hbm & ?). by rewrite lookup_insert_ne.
  - intros b m Hb Hba. rewrite lookup_insert_ne in Hb by done. by apply H3.
  - by rewrite H4, delete_insert_eq.
  - intros b Hb. destruct (H5 b Hb). assert (b <> a) by congruence. by rewrite lookup_insert_ne.
  - rewrite map_size_insert_Some by eauto. done.
  - rewrite lookup_insert_ne; [done|]. congruence.
Qed.

Lemma table_insert pids arr np last free a n : table_ok pids arr np last free a -> pids !! a = Some n ->
  0 <= n <= configMAXPROC -> arr.[n] = Some 0 ->
  exists arr', arr.[n <- a] = Some arr' /\ table_ok pids arr' (np + 1) last free 0.
Proof.
  intros [H1 H2 H3 H4 H5 H6 H7 H8 H9] Ha Hn Harr. assert (a <> 0) as Ha0 by congruence.
  pose proof (rd_Some_lt _ _ _ Harr) as Hlt. rewrite wr_Some by done. eexists. split; [done|].
  split; try done.
  - by rewrite length_insert.
  - intros m b Hb Hb0. destruct (decide (m = n)) as [->|].
    + rewrite rd_insert_eq in Hb by done. injection Hb as <-. done.
    + rewrite rd_insert_ne in Hb by lia. destruct (H2 _ _ Hb Hb0) as (? & ? & ?). done.
  - intros b m Hb _. destruct (decide (b = a)) as [->|].
    + simplify_eq. split; [done|]. by rewrite rd_insert_eq.
    + destruct (H3 _ _ Hb ltac:(done)) as [Hm Hbm]. split; [done|].
      rewrite rd_insert_ne; [done|lia|]. intros ->. congruence.
  - rewrite H4, (delete_id pids 0) by done. pose proof (map_size_delete a pids) as Hs. rewrite Ha in Hs. cbn in Hs. 
    assert (size pids <> 0%nat) by (intros Hz%map_size_empty_inv; by rewrite Hz, lookup_empty in Ha). lia.
Qed.

(** It goes away and returns to the pool. *)
Lemma table_remove pids arr np last free a n : table_ok pids arr np last free 0 -> pids !! a = Some n ->
  exists arr', arr.[n <- 0] = Some arr' /\ table_ok (delete a pids) arr' (np - 1) last (free ++ [a]) 0.
Proof.
  intros Hok Ha. pose proof Hok as [H1 H2 H3 H4 H5 H6 H7 H8 H9]. assert (a <> 0) as Ha0 by congruence.
  destruct (H3 _ _ Ha Ha0) as [Hn Harr]. pose proof (rd_Some_lt _ _ _ Harr) as Hlt. rewrite wr_Some by done.
  assert (size pids <> 0%nat) as Hs by (intros Hz%map_size_empty_inv; by rewrite Hz, lookup_empty in Ha).
  pose proof (map_size_delete a pids) as Hsd. rewrite Ha in Hsd. cbn in Hsd.
  eexists. split; [done|]. split; try done.
  - by rewrite length_insert.
  - intros m b Hb Hb0. destruct (decide (m = n)) as [->|].
    + rewrite rd_insert_eq in Hb by done. congruence.
    + rewrite rd_insert_ne in Hb by lia. destruct (H2 _ _ Hb Hb0) as (? & Hbm & ?).
      split; [done|]. split; [|done]. rewrite lookup_delete_ne; [done|]. intros ->. congruence.
  - intros b m [Hba Hb]%lookup_delete_Some _. destruct (H3 _ _ Hb ltac:(congruence)) as [Hm Hbm].
    split; [done|]. rewrite rd_insert_ne; [done|lia|]. intros ->. congruence.
  - rewrite H4. rewrite (delete_id pids 0) by done. rewrite (delete_id (delete a pids) 0); [lia|].
    rewrite lookup_delete_None. by right.
  - intros b [Hb|Hb%list_elem_of_singleton]%elem_of_app.
    + destruct (H5 b Hb). split; [done|]. apply lookup_delete_None. by right.
    + subst b. by rewrite lookup_delete_eq.
  - apply NoDup_app. split_and!; [done| |apply NoDup_singleton].
    intros b Hb Hb'%list_elem_of_singleton. subst b. destruct (H5 a Hb). congruence.
  - rewrite length_app. cbn. lia.
  - apply lookup_delete_None. by right.
Qed.
End table.
